(* ===== verification/_CoqProject ===== *)
-Q . S2P
Prelude.v
OrderedSet.v
GpuIdAllocator.v
GpuFence.v
GpuRingBuffer.v
GpuFencedAllocator.v
GpuMappedMemory.v
GpuTransferBuffer.v
BasePickle.v
BasePickleTypes.v
IpcMessage.v
IpcChannel.v
IpcFrames.v
IpcPipe.v
IpcValues.v
IpcConnection.v
IpcDescriptors.v
IpcHandshake.v
GpuCommands.v
GpuCommandBufferService.v
GpuDecoder.v
GpuScheduler.v
GpuHelper.v
GpuHelperQueue.v
GpuPipeline.v
PrimeField.v
CryptoP224Field.v
CryptoP224Contract.v
CryptoP224Curve.v
CryptoP224Point.v
CryptoP224Group.v
CryptoSpake.v
BaseNumbers.v
BaseHash.v
BaseMD5.v
BaseSHA1.v
NetChunkedDecoder.v
NetBigEndian.v
NetDnsName.v
NetDnsMessage.v
NetDnsTransaction.v
NetDispatcher.v
