(* ===== verification/Prelude.v ===== *)
(** * A verification library for parts of Chromium

    The repository is the Chromium browser as ported by the clank project: some two
    million lines of C++.  This library models some of its self-contained cores, the
    GPU command buffer ([src/gpu/command_buffer]), the password-authenticated key
    exchange over P-224 ([src/crypto]), the channel between processes with its messages
    ([src/ipc], [src/base/pickle.cc]), conversions and hashes of [src/base], and of [src/net]
    the decoder of the chunked transfer coding and the DNS client, as executable definitions
    and proves the properties that make them correct.

    ** The GPU command buffer

    A client process writes commands, 32-bit words, into a ring shared with the GPU
    process; the service reads them between the offsets get and put, decodes and
    executes them.  Tokens in the stream tell the client how far the service is, so
    that transfer memory can be reused.

    - [OrderedSet]: [std::set] and [std::map] as strictly increasing lists.
    - [GpuIdAllocator]: [common/id_allocator.cc].  A class states what both allocators
      promise; a run of allocations is proved against the class.
    - [GpuFence]: the two calls the allocators make into the helper, as a class with
      laws (a wait for a token returns with the token read); an interface only, the
      helper's own wait is proved in [GpuHelperQueue].
    - [GpuRingBuffer], [GpuFencedAllocator], [GpuMappedMemory]: the client's memory
      managers [client/ring_buffer.cc], [fenced_allocator.cc], [mapped_memory.cc].
      State invariants over reachable states; no range handed out overlaps memory the
      service may read; failure exactly when there is no room.
    - [GpuTransferBuffer]: [client/transfer_buffer.cc], a buffer that grows on demand,
      with the results at its start and a ring on the rest, and the scoped pointers into
      it.  It can be halved 32 times, which is the fuel of the search for a size.
    - [GpuCommands]: [common/cmd_buffer_common.h], the header bit fields and the
      layout of the common commands as the client writes them.
    - [GpuCommandBufferService]: [service/command_buffer_service.cc], the handle
      table of transfer buffers and the shared memory behind it.
    - [GpuDecoder]: [service/common_decoder.cc].  Every handler; [do_common_refines]
      relates the words of a command to its effect on a view of the machine (buckets as
      lists of bytes, the call stack, the offsets), specified without the handlers.
    - [GpuScheduler]: [service/cmd_parser.cc] and [gpu_scheduler.cc]: one command, the
      processing loop, pausing and rescheduling.  Nothing in the ring makes the
      service leave mapped memory.  The decoder of the embedder's commands is the class
      [HostLaws]; it may fail to return on a command it does not know, as the common one
      does.
    - [GpuHelper]: [client/cmd_buffer_helper.cc] over the class [CommandBuffer], as built
      for other systems than Android (the clock may ask for a flush).
    - [GpuHelperQueue]: the client's view of the ring as a queue.  [RingService] and
      [RingServiceLaws] are what the helper expects of a service: flushing executes
      queued entries in order.  Against these laws: space handed out is free, tokens
      and finishing wait for the right commands, commands run once and in order.
    - [GpuPipeline]: service, scheduler and decoder as an instance of these laws; the
      end-to-end theorem [pipeline_in_order] has no assumption on the service left
      but the embedder's sound handling of its own commands ([AppHost]).

    ** The key exchange

    - [PrimeField]: p = 2^224 - 2^96 + 1 is prime, by a Pocklington certificate, so
      that the residues ([Zmod P]) are a field.
    - [CryptoP224Field]: the field part of [crypto/p224.cc], eight 28-bit limbs in
      32-bit words (fifteen 64-bit ones for a product), the wrap-around written out.
      [fe] is the residue of a list of limbs.  Each operation is the field operation
      and keeps its bounds; [Reduce] is shown to work up to 2^32 - 16, which
      [DoubleJacobian] needs and its comment does not allow.
    - [CryptoP224Contract]: [Contract].  Right from 2^112 up; the comparison with p is
      wrong below, and shown to be.
    - [CryptoP224Curve]: the points.  [to_affine] sends Jacobian coordinates to the
      affine curve; chord, tangent and reflection are the abstract specification that
      [AddJacobian], [DoubleJacobian] and [Negate] refine, and [ScalarMult] is
      double-and-add over it.  The exceptional cases of the addition formula (equal
      or neutral operands) are part of the model ([jacobian_sum]); [regular] says that
      a scalar meets none of them.
    - [CryptoP224Point]: [SetFromString] and [ToString] and the scattering of bits.
    - [CryptoP224Group]: the affine points are a commutative group, by the slopes of lines
      through two and three points; double-and-add computes the n-fold sum.
    - [CryptoSpake]: [crypto/p224_spake.cc], the state machine of a party and two
      parties together.

    Bounds: the coordinates 2^112 of [large] are where [Contract] is right; a random
    point misses them with probability 2^-111.  The agreement of the two parties
    is for scalars that meet no exceptional case and no such coordinate ([fair]); that
    both compute one key is the group law.

    ** Conversions, hashes and the chunked coding

    - [BaseNumbers]: [base/string_number_conversions.cc] for integers and hexadecimal
      text.  Decimal conversions equal a reference (clamp the sign and digits to the
      type); printing and reading are inverse; hexadecimal input wraps where the
      bounds check is misled by a negative output.
    - [BaseHash], [BaseMD5], [BaseSHA1]: [base/md5.cc] and [base/sha1_portable.cc].  A
      hash object stands for the bytes it was given ([represents]); giving a message in
      pieces computes the algorithm of the standard on the whole message, the unrolled
      transform being its loop of rounds.
    - [NetChunkedDecoder]: [net/http/http_chunked_decoder.cc], the filter of a response
      in its buffer, [memmove] included, over reads of any size.  It refines an
      automaton over single bytes for every split into segments that does not end one
      between a CR and another byte of its line, and for sizes below 2^32 ([regular]); of
      the others it is shown that the result depends on the split, or wraps.  The fuel of the loop is the length of the
      buffer; the decoder returns on arbitrary bytes.

    ** The DNS client

    A transaction turns a host name into a list of names to try, sends a query for one
    of them to a server, matches what comes back against the query, and moves on, to
    another attempt, another server or another name, until it calls back.

    - [NetBigEndian]: [net/base/big_endian.h] and [.cc], integers in network order and the
      bounded reader and writer over memory.
    - [NetDnsName]: [net/base/dns_util.cc] and [DnsRecordParser::ParseName].  The parser
      refines the grammar of compressed names ([name_at]) on arbitrary packets: it always
      returns, and never reads outside the packet.  Twice the packet's length is fuel
      enough: the parser counts the bytes it saw and stops following pointers when they
      exceed the packet.
    - [NetDnsMessage]: [net/dns/dns_query.cc], [dns_response.cc] and the loop of
      [async_host_resolver.cc] that takes the addresses out of a response.  Which datagrams
      are accepted, what the accessors return, and which records are found.
    - [NetDnsTransaction]: [net/dns/dns_transaction.cc] and [dns_session.cc].  Handlers of
      completions and timeouts over a state with the attempts made; [steps] are the runs.
      Sockets, random numbers and fresh memory are the class [Network].  By a measure on
      the states of the attempts and the names left, a transaction calls back exactly once,
      whatever the order of events, when no read completes at once with a datagram and
      server rotation is off; what happens otherwise is shown to be a failed assertion and
      a read outside the server list.  A transaction is not used after its callback or a
      failed start, as its one client deletes it.
    - [NetDispatcher]: [net/base/priority_queue.h] and [prioritized_dispatcher.cc].  The
      queue, lists of nodes by priority with handles, is one list of entries in the order
      of arrival ([represents]); the dispatcher over it refines [spec_step], with slots
      reserved for the more urgent jobs and nothing left waiting that could run.  Node
      numbers are 32-bit, hence the bound on the number of calls.

    ** Messages between processes

    Values are packed into a pickle, a message is a pickle with a larger header and a set
    of file descriptors, and a channel writes messages to a socket and cuts what it reads
    from one into messages.

    - [BasePickle]: [base/pickle.h] and [.cc].  A pickle is its fields and the block of
      memory at [header_]; addresses are 32-bit, as on a 32-bit platform, so that the
      pointer comparisons of [IteratorHasRoomFor] are about wrap-around.  [realloc] is the
      class [Heap], whose laws say that a block lies in the address space.  Loads and
      stores outside the block are [Crash].
    - [BasePickleTypes]: the types of values and their codes.  What is read from arbitrary
      bytes is a value of its type; what is written reads back, and the data do not depend
      on what the memory held.  Copies and trimmed buffers, where they do.
    - [IpcMessage]: [ipc/ipc_message.h] and [.cc], [file_descriptor_set_posix.cc].
    - [IpcChannel]: [ipc/ipc_channel_posix.cc], a connected channel with a socket of its
      own for descriptors ([IPC_USES_READWRITE]).  What the kernel answers is a list of
      results.  The loop over messages has the number of bytes as fuel: a message takes at
      least twenty.
    - [IpcFrames]: the receiving side against [cut], the one way to cut bytes into messages,
      for arbitrary bytes from the peer; and where descriptors go.
    - [IpcPipe]: two channels joined by their sockets, under every interleaving of calls and
      every split of writes and reads.  [link_ok] says what is in the queue, on the pipe and
      in the receiver's buffer; descriptors stand for the open files they name.  Writes that
      fail are left out here: they close the channel.
    - [IpcValues]: a message from its values to the bytes on the pipe and back.
    - [IpcConnection]: the rest of the channel: sockets, the map of pipe names, connecting,
      accepting, the hello message, closing.  System calls are the class [Sockets].
    - [IpcDescriptors]: [SocketsLaws] counts the descriptors a process has open; what a
      channel opens is in its fields until closed, what is handed over with a message is
      closed when the message is sent or deleted, and the paths that lose one are shown.
    - [IpcHandshake]: a client and a server that connect become the two channels of
      [IpcPipe], under the simplification that a hello message of 28 bytes is written and
      read in one piece.

    ** Conventions

    Words are [Z] within explicit bounds, arithmetic wraps by [u8] ... [u64], [i32].
    Code with assertions is in the monad [outcome]: [Crash] is a fired assertion or an
    access C++ does not define, [Timeout] a loop that ran out of fuel.  Every theorem
    about a loop says that enough fuel gives a result; the amounts are the numbers of
    blocks (allocators), of entries of the ring (parser, helper) and are computed in
    the definitions.  In the key exchange recursion is structural.

    ** Not modelled

    Code the sources only declare or call into (the GPU drivers, SHA-256 of NSS and
    OpenSSL, the random source, shared memory of the operating system) appears as
    classes or arguments.  Of the GPU code the GLES2 decoder and client (generated and
    graphics-specific) is left out; of [ipc] logging,
    synchronous messages, the registration with the message loop, the sharing of a set of descriptors between
    copies of a message, and listeners that call back into the channel; of [crypto] the wrappers around platform libraries; of the DNS
    client the reading of the system's configuration, the resolver's queue of requests and
    logging.  The
    rest of the browser is not modelled.  The manifest lists it part by part.

    This file: shared vocabulary, machine words, the outcome monad in which code with
    assertions is written, generic lemmas on lists and integers, and the automation
    the component files use. *)
From Stdlib Require Export ZArith Lia.
From stdpp Require Export base tactics numbers option sets gmap list.

#[export] Set Default Goal Selector "!".

Declare Scope word_scope.
Delimit Scope word_scope with word.
Global Open Scope Z_scope.

Create HintDb words.
Create HintDb chromium.
Create Rewrite HintDb words_rw.
Create Rewrite HintDb list_rw.

(** * Machine words

    A [w]-bit unsigned integer is a [Z] in [0, 2^w); arithmetic wraps
    explicitly.  Signed integers use two's complement. *)

Definition wrap (w x : Z) : Z := x mod 2 ^ w.
Definition u8 (x : Z) : Z := x mod 2 ^ 8.
Definition u16 (x : Z) : Z := x mod 2 ^ 16.
Definition u32 (x : Z) : Z := x mod 2 ^ 32.
Definition u64 (x : Z) : Z := x mod 2 ^ 64.
Definition i32 (x : Z) : Z := (x + 2 ^ 31) mod 2 ^ 32 - 2 ^ 31.
Definition i64 (x : Z) : Z := (x + 2 ^ 63) mod 2 ^ 64 - 2 ^ 63.

Definition is_u8 (x : Z) : Prop := 0 <= x < 2 ^ 8.
Definition is_u16 (x : Z) : Prop := 0 <= x < 2 ^ 16.
Definition is_u32 (x : Z) : Prop := 0 <= x < 2 ^ 32.
Definition is_u64 (x : Z) : Prop := 0 <= x < 2 ^ 64.
Definition is_i32 (x : Z) : Prop := - 2 ^ 31 <= x < 2 ^ 31.

(** Linear arithmetic with division and remainder by constants. *)
Ltac zify_div := Z.div_mod_to_equations.
Ltac div_lia := zify_div; lia.

(** Unfold the word operations and solve the bound. *)
Ltac word_lia :=
  unfold is_u8, is_u16, is_u32, is_u64, is_i32, u8, u16, u32, u64, i32, i64,
    wrap in *; div_lia.

Lemma u32_range x : is_u32 (u32 x).
Proof. word_lia. Qed.

Lemma u32_small x : 0 <= x < 2 ^ 32 -> u32 x = x.
Proof. word_lia. Qed.

Lemma u64_small x : 0 <= x < 2 ^ 64 -> u64 x = x.
Proof. word_lia. Qed.

Lemma u64_range x : is_u64 (u64 x).
Proof. word_lia. Qed.

Lemma i32_small x : - 2 ^ 31 <= x < 2 ^ 31 -> i32 x = x.
Proof. word_lia. Qed.

Lemma i32_range x : is_i32 (i32 x).
Proof. word_lia. Qed.

#[export] Hint Resolve u32_range u64_range i32_range : words.
#[export] Hint Rewrite u32_small u64_small i32_small using lia : words_rw.

Lemma testbit_high x k n : 0 <= x < 2 ^ k -> k <= n -> Z.testbit x n = false.
Proof.
  intros Hx Hk. destruct (Z.eq_dec x 0) as [->|]; [apply Z.bits_0|].
  assert (0 <= k) by (destruct (Z.neg_nonneg_cases k); [rewrite Z.pow_neg_r in Hx by done; lia|done]).
  apply Z.bits_above_log2; [lia|]. apply Z.log2_lt_pow2; [lia|].
  apply Z.lt_le_trans with (2 ^ k); [lia|]. apply Z.pow_le_mono_r; lia.
Qed.

(** Bits shifted past a number are added to it. *)
Lemma lor_add a b k : 0 <= k -> 0 <= b < 2 ^ k -> Z.lor (a * 2 ^ k) b = a * 2 ^ k + b.
Proof.
  intros Hk Hb. assert (Hl : Z.land (a * 2 ^ k) b = 0).
  { apply Z.bits_inj'. intros n Hn. rewrite Z.land_spec, Z.bits_0.
    destruct (Z.le_gt_cases k n) as [|Hnk].
    - by rewrite (testbit_high b k), andb_false_r.
    - by rewrite Z.mul_pow2_bits_low. }
  by rewrite Z.add_nocarry_lxor, Z.lxor_lor.
Qed.

(** The bits from [k] on, [n] of them, in place. *)
Lemma land_field x n k : 0 <= n -> 0 <= k -> Z.land x (Z.ones n * 2 ^ k) = x / 2 ^ k mod 2 ^ n * 2 ^ k.
Proof.
  intros Hn Hk. rewrite <- Z.land_ones, <- Z.shiftr_div_pow2, <- !Z.shiftl_mul_pow2 by lia.
  apply Z.bits_inj'. intros i Hi. rewrite Z.land_spec. destruct (Z.le_gt_cases k i).
  - rewrite !Z.shiftl_spec, Z.land_spec, Z.shiftr_spec by lia. do 2 f_equal. lia.
  - by rewrite !Z.shiftl_spec_low, andb_false_r by lia.
Qed.

(** * Outcomes

    [Ret a] is a normal return.  [Crash] is a fired assertion ([DCHECK],
    [CHECK], [NOTREACHED], [LOG(FATAL)]) or an access the C++ code has no
    defined behaviour for; [Timeout] is a loop that ran out of the fuel of its
    definition. *)

Inductive outcome (A : Type) : Type :=
| Ret (a : A)
| Crash
| Timeout.
Arguments Ret {A} a.
Arguments Crash {A}.
Arguments Timeout {A}.

Definition obind {A B} (m : outcome A) (k : A -> outcome B) : outcome B :=
  match m with
  | Ret a => k a
  | Crash => Crash
  | Timeout => Timeout
  end.

(** [DCHECK(b)]: continue when the condition holds, otherwise crash. *)
Definition dcheck (b : bool) : outcome unit := if b then Ret tt else Crash.

(** A pointer or index access that is only defined when the value is there. *)
Definition must {A} (o : option A) : outcome A :=
  match o with Some a => Ret a | None => Crash end.

Notation "'let!' x := m 'in' k" := (obind m (fun x => k))
  (at level 10, x name, m at level 100, k at level 200).
Notation "'let!' ' p := m 'in' k" :=
  (obind m (fun x => match x with p => k end))
  (at level 10, p strict pattern, m at level 100, k at level 200).
Notation "'check!' b ';' k" := (obind (dcheck b) (fun _ => k))
  (at level 10, b at level 100, k at level 200).

Lemma obind_Ret {A B} (m : outcome A) (k : A -> outcome B) b :
  obind m k = Ret b <-> exists a, m = Ret a /\ k a = Ret b.
Proof. destruct m; cbn; split; [eauto|by intros (? & [= ->] & ?)|done|by intros (? & ? & ?)..|done|by intros (? & ? & ?)]. Qed.

Lemma dcheck_true b : b = true -> dcheck b = Ret tt.
Proof. by intros ->. Qed.

Lemma dcheck_Ret b u : dcheck b = Ret u -> b = true.
Proof. by destruct b. Qed.

(** Invert every monadic hypothesis that returned normally. *)
Ltac inv_outcome :=
  repeat match goal with
  | H : obind _ _ = Ret _ |- _ =>
      let a := fresh "r" in let H1 := fresh "H" in
      apply obind_Ret in H; destruct H as (a & H1 & H)
  | H : dcheck _ = Ret _ |- _ => apply dcheck_Ret in H
  | H : Ret _ = Ret _ |- _ => injection H as H; subst
  | H : Crash = Ret _ |- _ => discriminate H
  | H : Timeout = Ret _ |- _ => discriminate H
  | x : _ * _ |- _ => destruct x; cbn [fst snd] in *
  end.

(** * Booleans *)

(** Reflect the boolean comparisons of [Z] in the context and goal. *)
Ltac zb2p :=
  repeat match goal with
  | H : context [Z.eqb _ _ = true] |- _ => rewrite Z.eqb_eq in H
  | H : context [Z.eqb _ _ = false] |- _ => rewrite Z.eqb_neq in H
  | H : context [Z.ltb _ _ = true] |- _ => rewrite Z.ltb_lt in H
  | H : context [Z.ltb _ _ = false] |- _ => rewrite Z.ltb_ge in H
  | H : context [Z.leb _ _ = true] |- _ => rewrite Z.leb_le in H
  | H : context [Z.leb _ _ = false] |- _ => rewrite Z.leb_gt in H
  | H : andb _ _ = true |- _ => apply andb_prop in H; destruct H
  | H : orb _ _ = false |- _ => apply orb_false_elim in H; destruct H
  | H : negb _ = true |- _ => apply negb_true_iff in H
  | H : negb _ = false |- _ => apply negb_false_iff in H
  end.

(** Case split on the innermost boolean test of the goal. *)
Ltac case_if :=
  match goal with
  | |- context [if ?b then _ else _] =>
      lazymatch b with context [if _ then _ else _] => fail | _ => idtac end;
      let E := fresh "E" in destruct b eqn:E; zb2p
  end.

(** * Bytes in memory *)

(** [memcpy(mem + off, l, size)]. *)
Definition splice (off : nat) (l mem : list Z) : list Z := take off mem ++ l ++ drop (off + length l) mem.

Lemma splice_length off l mem : (off + length l <= length mem)%nat -> length (splice off l mem) = length mem.
Proof. intros H. unfold splice. rewrite !length_app, length_take, length_drop. lia. Qed.

Lemma splice_whole l mem : length l = length mem -> splice 0 l mem = l.
Proof. intros H. unfold splice. rewrite drop_ge by lia. cbn. by rewrite app_nil_r. Qed.

Lemma take_splice off l mem : (off + length l <= length mem)%nat ->
  take (off + length l) (splice off l mem) = take off mem ++ l.
Proof.
  intros H. unfold splice. rewrite app_assoc. apply take_app_length'.
  rewrite length_app, length_take. lia.
Qed.

Lemma splice_bytes off l mem : Forall is_u8 l -> Forall is_u8 mem -> Forall is_u8 (splice off l mem).
Proof. intros Hl Hm. unfold splice. apply Forall_app. split; [by apply Forall_take|]. apply Forall_app. split; [done|by apply Forall_drop]. Qed.

Lemma splice_end off l mem : (off + length l = length mem)%nat -> splice off l mem = take off mem ++ l.
Proof. intros H. unfold splice. rewrite drop_ge by lia. by rewrite app_nil_r. Qed.

Lemma zeros_u8 n : Forall is_u8 (repeat 0 n).
Proof. induction n; by constructor. Qed.

(** Concrete bytes. *)
Lemma bytes_u8 l : forallb (fun b => (0 <=? b) && (b <? 256)) l = true -> Forall is_u8 l.
Proof.
  rewrite forallb_forall, Forall_forall. intros H b Hb%list_elem_of_In.
  specialize (H b Hb). unfold is_u8. zb2p. lia.
Qed.

(** * Lists *)

(** Sum of a measure over a list. *)
Definition zsum {A} (f : A -> Z) (l : list A) : Z :=
  foldr (fun x acc => f x + acc) 0 l.

#[global] Arguments zsum : simpl never.

Lemma zsum_nil {A} (f : A -> Z) : zsum f [] = 0.
Proof. done. Qed.

Lemma zsum_cons {A} (f : A -> Z) x l : zsum f (x :: l) = f x + zsum f l.
Proof. done. Qed.

Lemma zsum_app {A} (f : A -> Z) l k : zsum f (l ++ k) = zsum f l + zsum f k.
Proof.
  induction l as [|x l IH]; [done|]. cbn [app]. rewrite !zsum_cons, IH. lia.
Qed.

Lemma zsum_nonneg {A} (f : A -> Z) l : Forall (fun x => 0 <= f x) l -> 0 <= zsum f l.
Proof. induction 1; [rewrite zsum_nil|rewrite zsum_cons]; lia. Qed.

#[export] Hint Rewrite @zsum_nil @zsum_cons @zsum_app : list_rw.

Lemma take_split {A} (l : list A) i j x :
  (i < j)%nat -> l !! i = Some x ->
  take j l = take i l ++ x :: take (j - S i) (drop (S i) l).
Proof.
  revert i j. induction l as [|y l IH]; intros [|i] [|j] Hij Hx; try done; try lia.
  - cbn in *. simplify_eq. by rewrite drop_0, Nat.sub_0_r.
  - cbn in *. f_equal. apply IH; [lia|done].
Qed.

(** * Iteration

    [nsteps f n x] applies a state transformer [n] times; counted loops of the
    source whose body does not use the counter are written with it. *)
Fixpoint nsteps {A} (f : A -> A) (n : nat) (x : A) : A :=
  match n with
  | O => x
  | S n => nsteps f n (f x)
  end.

Lemma nsteps_inv {A} (P : nat -> A -> Prop) f n x :
  P O x -> (forall i y, P i y -> P (S i) (f y)) -> P n (nsteps f n x).
Proof.
  intros H0 HS.
  assert (H : forall m k y, P k y -> P (k + m)%nat (nsteps f m y)).
  { induction m as [|m IH]; intros k y Hy; cbn.
    - by replace (k + 0)%nat with k by lia.
    - replace (k + S m)%nat with (S k + m)%nat by lia. apply IH. by apply HS. }
  exact (H n O x H0).
Qed.
