(* ===== verification/OrderedSet.v ===== *)
(** [std::set] of integers as a strictly increasing list: the order of the list
    is the iteration order of the container, so [begin], [rbegin] and
    [lower_bound] are positions of the list. *)
From S2P Require Import Prelude.

Module StdSet.

(** The representation invariant: strictly increasing. *)
Inductive sorted : list Z -> Prop :=
| sorted_nil : sorted []
| sorted_cons x l : Forall (Z.lt x) l -> sorted l -> sorted (x :: l).

Fixpoint insert (x : Z) (l : list Z) : list Z :=
  match l with
  | [] => [x]
  | y :: l' =>
      if x <? y then x :: l
      else if x =? y then l
      else y :: insert x l'
  end.

Fixpoint erase (x : Z) (l : list Z) : list Z :=
  match l with
  | [] => []
  | y :: l' => if x =? y then l' else y :: erase x l'
  end.

Definition mem (x : Z) (l : list Z) : bool := existsb (Z.eqb x) l.

(** [*begin()], the smallest element. *)
Definition begin (l : list Z) : option Z := head l.

(** [*rbegin()], the largest element. *)
Definition rbegin (l : list Z) : option Z := last l.

(** [*lower_bound(x)], the smallest element not below [x]. *)
Fixpoint lower_bound (x : Z) (l : list Z) : option Z :=
  match l with
  | [] => None
  | y :: l' => if x <=? y then Some y else lower_bound x l'
  end.

#[global] Arguments mem : simpl never.

#[export] Hint Constructors sorted : chromium.

Lemma mem_spec x l : mem x l = true <-> x ∈ l.
Proof.
  unfold mem. rewrite existsb_exists. setoid_rewrite Z.eqb_eq.
  setoid_rewrite <- list_elem_of_In. naive_solver.
Qed.

Lemma mem_false x l : mem x l = false <-> x ∉ l.
Proof. rewrite <- mem_spec. by destruct (mem x l). Qed.

Lemma elem_of_insert x y l : x ∈ insert y l <-> x = y \/ x ∈ l.
Proof.
  induction l as [|z l IH]; cbn; [set_solver|].
  repeat case_if; set_solver.
Qed.

Lemma sorted_insert x l : sorted l -> sorted (insert x l).
Proof.
  induction 1 as [|y l Hy Hl IH]; cbn; [auto with chromium|].
  repeat case_if; auto with chromium.
  - constructor; [|by constructor]. constructor; [done|].
    eapply Forall_impl; [exact Hy|]. cbn; lia.
  - constructor; [|done]. apply Forall_forall. intros z Hz.
    apply elem_of_insert in Hz as [->|Hz]; [lia|].
    rewrite Forall_forall in Hy. by apply Hy.
Qed.

Lemma sorted_head_notin x l : Forall (Z.lt x) l -> x ∉ l.
Proof. rewrite Forall_forall. intros H Hx. specialize (H x Hx). lia. Qed.

Lemma elem_of_erase x y l : sorted l -> x ∈ erase y l <-> x ≠ y /\ x ∈ l.
Proof.
  induction 1 as [|z l Hz Hl IH]; cbn; [set_solver|].
  pose proof (sorted_head_notin _ _ Hz).
  case_if; subst; set_solver.
Qed.

Lemma sorted_erase x l : sorted l -> sorted (erase x l).
Proof.
  induction 1 as [|y l Hy Hl IH]; cbn; [auto with chromium|].
  case_if; [done|]. constructor; [|done].
  apply Forall_forall. intros z Hz. apply elem_of_erase in Hz as [_ Hz]; [|done].
  rewrite Forall_forall in Hy. by apply Hy.
Qed.

Lemma begin_Some x l : begin l = Some x -> x ∈ l.
Proof. destruct l; cbn; intros; simplify_eq; set_solver. Qed.

Lemma begin_min x y l : sorted l -> begin l = Some x -> y ∈ l -> x <= y.
Proof.
  intros Hs Hb Hy. destruct Hs as [|z l Hz Hl]; cbn in *; simplify_eq.
  rewrite Forall_forall in Hz. apply elem_of_cons in Hy as [->|Hy]; [lia|].
  specialize (Hz y Hy). lia.
Qed.

Lemma rbegin_Some x l : rbegin l = Some x -> x ∈ l.
Proof.
  unfold rbegin. rewrite last_Some. intros [l' ->]. set_solver.
Qed.

Lemma rbegin_None l : rbegin l = None <-> l = [].
Proof. apply last_None. Qed.

Lemma rbegin_max x y l : sorted l -> rbegin l = Some x -> y ∈ l -> y <= x.
Proof.
  unfold rbegin. intros Hs. revert x y.
  induction Hs as [|z l Hz Hl IH]; intros x y Hx Hy; [set_solver|].
  rewrite last_cons in Hx. destruct (last l) as [w|] eqn:Hw; simplify_eq.
  - apply elem_of_cons in Hy as [->|Hy]; [|by eapply IH].
    assert (x ∈ l) by (apply rbegin_Some; exact Hw).
    rewrite Forall_forall in Hz. specialize (Hz x). naive_solver lia.
  - apply last_None in Hw as ->. set_solver by lia.
Qed.

Lemma lower_bound_Some x y l : lower_bound x l = Some y -> y ∈ l /\ x <= y.
Proof.
  induction l as [|z l IH]; cbn; [done|]. case_if; intros; simplify_eq; set_solver.
Qed.

Lemma lower_bound_None x y l : lower_bound x l = None -> y ∈ l -> y < x.
Proof.
  induction l as [|z l IH]; cbn; [set_solver|]. case_if; [done|].
  intros H Hy. apply elem_of_cons in Hy as [->|Hy]; [lia|auto].
Qed.

(** A strictly increasing list of integers in a range is no longer than it. *)
Lemma sorted_length_bound l lo hi :
  sorted l -> Forall (fun x => lo <= x < hi) l -> lo <= hi ->
  Z.of_nat (length l) <= hi - lo.
Proof.
  intros Hs. revert lo.
  induction Hs as [|x l Hx Hl IH]; intros lo Hr Hle; cbn [length]; [lia|].
  apply Forall_cons in Hr as [Hx' Hr].
  assert (Z.of_nat (length l) <= hi - (x + 1)); [|lia].
  apply IH; [|lia]. rewrite Forall_forall in Hr, Hx |- *.
  intros y Hy. specialize (Hr y Hy). specialize (Hx y Hy). lia.
Qed.

End StdSet.
