(* ===== verification/GpuIdAllocator.v ===== *)
(** Resource ids of the GPU client: [gpu/command_buffer/common/id_allocator.cc].

    [IdAllocator] recycles freed ids, [NonReusedIdAllocator] counts up; both
    implement [IdAllocatorInterface].  Ids are [uint32]; 0 is the invalid id. *)
From S2P Require Import Prelude.
From S2P Require Import OrderedSet.

(** The abstract class [IdAllocatorInterface]. *)
Class IdAllocatorInterface (T : Type) := {
  AllocateID : T -> outcome (Z * T);
  AllocateIDAtOrAbove : Z -> T -> outcome (Z * T);
  MarkAsUsed : Z -> T -> outcome (bool * T);
  FreeID : Z -> T -> T;
  InUse : T -> Z -> outcome bool
}.

(** What a client of the interface relies on: as long as there is room, an
    allocated id is a nonzero [uint32] that is not live. [tracks s L] says that
    [L] is the set of ids handed out by [s] and not given back. *)
Class FreshIds (T : Type) `{!IdAllocatorInterface T} := {
  tracks : T -> gset Z -> Prop;
  room : T -> nat -> Prop;
  room_S : forall s n id s',
    room s (S n) -> AllocateID s = Ret (id, s') -> room s' n;
  alloc_fresh : forall s L n,
    tracks s L -> room s (S n) ->
    exists id s', AllocateID s = Ret (id, s') /\ 0 < id < 2 ^ 32 /\ (id ∉ L) /\
      tracks s' ({[id]} ∪ L)
}.

Module IdAllocator.

Record t := mk { used_ids_ : list Z; free_ids_ : list Z }.

Definition kInvalidResource : Z := 0.

Definition init : t := mk [] [].

(** The highest id on the used list. *)
Definition LastUsedId (s : t) : Z :=
  match StdSet.rbegin (used_ids_ s) with
  | None => 0
  | Some id => id
  end.

(** The loop of [FindFirstUnusedId] over the used set. *)
Fixpoint find_first_unused (id : Z) (l : list Z) : Z :=
  match l with
  | [] => id
  | x :: l' => if negb (x =? id) then id else find_first_unused (u32 (id + 1)) l'
  end.

Definition FindFirstUnusedId (s : t) : Z := find_first_unused 1 (used_ids_ s).

Definition MarkAsUsed (id : Z) (s : t) : outcome (bool * t) :=
  check! negb (id =? 0);
  Ret (negb (StdSet.mem id (used_ids_ s)),
       mk (StdSet.insert id (used_ids_ s)) (StdSet.erase id (free_ids_ s))).

(** The id past the last used one, or the first unused one after a wrap. *)
Definition next_id (s : t) : Z :=
  let id := u32 (LastUsedId s + 1) in
  if id =? 0 then FindFirstUnusedId s else id.

Definition AllocateID (s : t) : outcome (Z * t) :=
  let id :=
    match StdSet.begin (free_ids_ s) with
    | Some id => id
    | None => next_id s
    end in
  let! '(_, s') := MarkAsUsed id s in
  Ret (id, s').

Definition AllocateIDAtOrAbove (desired_id : Z) (s : t) : outcome (Z * t) :=
  let id :=
    match StdSet.lower_bound desired_id (free_ids_ s) with
    | Some id => id
    | None => if LastUsedId s <? desired_id then desired_id else next_id s
    end in
  let! '(_, s') := MarkAsUsed id s in
  Ret (id, s').

Definition FreeID (id : Z) (s : t) : t :=
  if negb (id =? 0)
  then mk (StdSet.erase id (used_ids_ s)) (StdSet.insert id (free_ids_ s))
  else s.

Definition InUse (s : t) (id : Z) : bool :=
  (id =? kInvalidResource) || StdSet.mem id (used_ids_ s).

#[global] Instance iface : IdAllocatorInterface t := {|
  GpuIdAllocator.AllocateID := AllocateID;
  GpuIdAllocator.AllocateIDAtOrAbove := AllocateIDAtOrAbove;
  GpuIdAllocator.MarkAsUsed := MarkAsUsed;
  GpuIdAllocator.FreeID := FreeID;
  GpuIdAllocator.InUse := fun s id => Ret (InUse s id)
|}.

(** ** Well-formedness *)

Definition valid_id (x : Z) : Prop := 0 < x < 2 ^ 32.

Record wf (s : t) : Prop := {
  wf_used : StdSet.sorted (used_ids_ s);
  wf_free : StdSet.sorted (free_ids_ s);
  wf_used_range : Forall valid_id (used_ids_ s);
  wf_free_range : Forall valid_id (free_ids_ s);
  wf_disjoint : forall x, x ∈ used_ids_ s -> x ∉ free_ids_ s
}.

Lemma id_wf_init : wf init.
Proof. split; cbn; [constructor..|set_solver]. Qed.

Lemma find_first_unused_spec l id :
  StdSet.sorted l -> Forall (fun x => id <= x < 2 ^ 32) l -> 0 < id ->
  id + Z.of_nat (length l) < 2 ^ 32 ->
  let r := find_first_unused id l in id <= r < 2 ^ 32 /\ r ∉ l.
Proof.
  intros Hs. revert id.
  induction Hs as [|x l Hx Hl IH]; intros id Hr Hid Hlen; cbn in *;
    [set_solver by lia|].
  apply Forall_cons in Hr as [Hx' Hr].
  destruct (Z.eqb_spec x id) as [->|Hne]; cbn [negb].
  - rewrite u32_small by lia.
    destruct (IH (id + 1)) as [H1 H2]; [|lia..|].
    + apply Forall_forall. intros y Hy.
      rewrite Forall_forall in Hx, Hr.
      specialize (Hx y Hy). specialize (Hr y Hy). lia.
    + split; [lia|]. apply not_elem_of_cons. split; [lia|done].
  - split; [lia|]. apply not_elem_of_cons. split; [lia|].
    rewrite Forall_forall in Hx. intros Hy. specialize (Hx _ Hy). lia.
Qed.

(** Not every id is in use. *)
Definition has_room (s : t) (n : nat) : Prop :=
  Z.of_nat (length (used_ids_ s)) + Z.of_nat n < 2 ^ 32.

Lemma last_used_max s x : wf s -> x ∈ used_ids_ s -> x <= LastUsedId s.
Proof.
  intros W Hx. unfold LastUsedId. destruct (StdSet.rbegin _) as [y|] eqn:E.
  - by eapply StdSet.rbegin_max; [apply W|..].
  - apply StdSet.rbegin_None in E. rewrite E in Hx. set_solver.
Qed.

Lemma last_used_range s : wf s -> 0 <= LastUsedId s < 2 ^ 32.
Proof.
  intros W. unfold LastUsedId. destruct (StdSet.rbegin _) as [y|] eqn:E; [|lia].
  apply StdSet.rbegin_Some in E. pose proof (wf_used_range _ W) as H.
  rewrite Forall_forall in H. specialize (H y E). unfold valid_id in H. lia.
Qed.

Lemma next_id_spec s :
  wf s -> has_room s 1 -> valid_id (next_id s) /\ next_id s ∉ used_ids_ s.
Proof.
  intros W R. unfold next_id, valid_id. pose proof (last_used_range s W).
  case_if.
  - unfold FindFirstUnusedId.
    destruct (find_first_unused_spec (used_ids_ s) 1) as [H1 H2];
      [apply W|..]; [|lia|unfold has_room in R; lia|split; [lia|done]].
    eapply Forall_impl; [apply W|]. unfold valid_id. cbn. lia.
  - assert (LastUsedId s + 1 < 2 ^ 32) by word_lia.
    rewrite u32_small by lia. split; [lia|].
    intros Hx. apply last_used_max in Hx; [lia|done].
Qed.

Lemma MarkAsUsed_spec id s :
  wf s -> valid_id id -> id ∉ used_ids_ s ->
  exists s', MarkAsUsed id s = Ret (true, s') /\ wf s' /\
    (forall j, InUse s' j = (j =? id) || InUse s j) /\
    length (used_ids_ s') = S (length (used_ids_ s)).
Proof.
  intros W Hid Hn. unfold MarkAsUsed.
  assert ((id =? 0) = false) as -> by (unfold valid_id in *; lia).
  apply StdSet.mem_false in Hn as Hm. rewrite Hm. cbn.
  eexists. split_and!; [done|..].
  - destruct W as [W1 W2 W3 W4 W5]. split; cbn.
    + by apply StdSet.sorted_insert.
    + by apply StdSet.sorted_erase.
    + rewrite Forall_forall in W3 |- *. intros x Hx.
      apply StdSet.elem_of_insert in Hx as [->|Hx]; auto.
    + rewrite Forall_forall in W4 |- *. intros x Hx.
      apply StdSet.elem_of_erase in Hx as [_ Hx]; auto.
    + intros x Hx. rewrite StdSet.elem_of_erase by done.
      apply StdSet.elem_of_insert in Hx as [->|Hx]; [naive_solver|].
      specialize (W5 x Hx). naive_solver.
  - intros j. unfold InUse. cbn. apply eq_bool_prop_intro.
    rewrite !orb_True, !Is_true_true, !StdSet.mem_spec, !Z.eqb_eq.
    rewrite StdSet.elem_of_insert. tauto.
  - cbn. apply StdSet.mem_false in Hm. clear -Hm.
    induction (used_ids_ s) as [|x l IH]; cbn; [done|].
    repeat case_if; cbn; [done|set_solver|].
    rewrite IH; [done|set_solver].
Qed.

(** The id handed out is neither 0 nor in use. *)
Lemma AllocateID_spec s :
  wf s -> has_room s 1 ->
  exists id s', AllocateID s = Ret (id, s') /\ valid_id id /\
    InUse s id = false /\ wf s' /\
    (forall j, InUse s' j = (j =? id) || InUse s j) /\
    length (used_ids_ s') = S (length (used_ids_ s)).
Proof.
  intros W R. unfold AllocateID.
  set (id := match StdSet.begin _ with Some _ => _ | _ => _ end).
  assert (Hid : valid_id id /\ id ∉ used_ids_ s).
  { subst id. destruct (StdSet.begin _) as [x|] eqn:E; [|by apply next_id_spec].
    apply StdSet.begin_Some in E. pose proof (wf_free_range _ W) as H.
    rewrite Forall_forall in H. split; [auto|].
    intros Hx. by eapply wf_disjoint. }
  destruct Hid as [Hid Hn].
  destruct (MarkAsUsed_spec id s W Hid Hn) as (s' & -> & W' & HU & HL). cbn.
  exists id, s'. split_and!; try done.
  unfold InUse, valid_id, kInvalidResource in *.
  apply orb_false_iff. split; [lia|by apply StdSet.mem_false].
Qed.

Lemma AllocateIDAtOrAbove_spec s d :
  wf s -> has_room s 1 -> is_u32 d -> 0 < d ->
  exists id s', AllocateIDAtOrAbove d s = Ret (id, s') /\ valid_id id /\
    InUse s id = false /\ wf s' /\
    (forall j, InUse s' j = (j =? id) || InUse s j) /\
    (d <= id \/ LastUsedId s = 2 ^ 32 - 1).
Proof.
  intros W R Hd Hd0. unfold AllocateIDAtOrAbove.
  set (id := match StdSet.lower_bound _ _ with Some _ => _ | _ => _ end).
  assert (Hid : valid_id id /\ (id ∉ used_ids_ s) /\
                (d <= id \/ LastUsedId s = 2 ^ 32 - 1)).
  { subst id. destruct (StdSet.lower_bound _ _) as [x|] eqn:E.
    - apply StdSet.lower_bound_Some in E as [E Hx].
      pose proof (wf_free_range _ W) as H.
      rewrite Forall_forall in H. split_and!; [auto| |by left].
      intros Hy. by eapply wf_disjoint.
    - case_if.
      + unfold is_u32, valid_id in *. split_and!; [lia..| |by left].
        intros Hx. apply last_used_max in Hx; [lia|done].
      + pose proof (next_id_spec s W R) as [H1 H2]. split_and!; [done..|].
        pose proof (last_used_range s W). unfold next_id in *.
        destruct (u32 (LastUsedId s + 1) =? 0) eqn:E2; zb2p; [right|left]; word_lia. }
  destruct Hid as (Hid & Hn & Hor).
  destruct (MarkAsUsed_spec id s W Hid Hn) as (s' & -> & W' & HU & HL). cbn.
  exists id, s'. split_and!; try done.
  unfold InUse, valid_id, kInvalidResource in *.
  apply orb_false_iff. split; [lia|by apply StdSet.mem_false].
Qed.

Lemma FreeID_spec id s :
  wf s -> is_u32 id ->
  wf (FreeID id s) /\
  forall j, InUse (FreeID id s) j = (j =? 0) || (negb (j =? id) && InUse s j).
Proof.
  intros W Hid. pose proof W as [W1 W2 W3 W4 W5].
  unfold FreeID. destruct (Z.eqb_spec id 0) as [->|Hne]; cbn [negb].
  { split; [done|]. intros j. unfold InUse, kInvalidResource.
    destruct (j =? 0); done. }
  assert (valid_id id) by (unfold valid_id, is_u32 in *; lia).
  split.
  - split; cbn.
    + by apply StdSet.sorted_erase.
    + by apply StdSet.sorted_insert.
    + rewrite Forall_forall in W3 |- *. intros x Hx.
      apply StdSet.elem_of_erase in Hx as [_ Hx]; auto.
    + rewrite Forall_forall in W4 |- *. intros x Hx.
      apply StdSet.elem_of_insert in Hx as [->|Hx]; auto.
    + intros x Hx. rewrite StdSet.elem_of_insert.
      apply StdSet.elem_of_erase in Hx as [Hx Hx']; [|done].
      specialize (W5 x Hx'). naive_solver.
  - intros j. unfold InUse, kInvalidResource. cbn. apply eq_bool_prop_intro.
    rewrite !orb_True, !andb_True, !orb_True, !Is_true_true, !StdSet.mem_spec,
      negb_true_iff, !Z.eqb_eq, Z.eqb_neq.
    rewrite StdSet.elem_of_erase by done.
    destruct (decide (j = 0)); naive_solver.
Qed.

(** ** Sequences of operations *)

Inductive op := OpAllocate | OpAllocateAtOrAbove (d : Z) | OpFree (id : Z).

(** One operation, with the set of live ids as seen by the callers. *)
Inductive step : t * gset Z -> op -> t * gset Z -> Prop :=
| step_alloc s L id s' :
    AllocateID s = Ret (id, s') -> step (s, L) OpAllocate (s', {[id]} ∪ L)
| step_alloc_at s L d id s' :
    is_u32 d -> 0 < d -> AllocateIDAtOrAbove d s = Ret (id, s') ->
    step (s, L) (OpAllocateAtOrAbove d) (s', {[id]} ∪ L)
| step_free s L id :
    is_u32 id -> step (s, L) (OpFree id) (FreeID id s, L ∖ {[id]}).

Inductive reachable : t * gset Z -> Prop :=
| reach_init : reachable (init, ∅)
| reach_step c o c' :
    reachable c -> has_room (fst c) 1 -> step c o c' -> reachable c'.

Definition live_inv (c : t * gset Z) : Prop :=
  wf (fst c) /\
  forall j, InUse (fst c) j = (j =? 0) || bool_decide (j ∈ snd c).

Lemma live_inv_add s s' L id :
  live_inv (s, L) -> wf s' ->
  (forall j, InUse s' j = (j =? id) || InUse s j) -> live_inv (s', {[id]} ∪ L).
Proof.
  intros [W H] W' H'. split; [done|]. cbn in *. intros j. rewrite H', H.
  destruct (Z.eqb_spec j id), (j =? 0); cbn; try done;
    apply eq_bool_prop_intro; rewrite ?bool_decide_spec; set_solver.
Qed.

Lemma reachable_inv c : reachable c -> live_inv c.
Proof.
  induction 1 as [|c o c' Hc IH R Hs].
  { split; [apply id_wf_init|]. intros j. unfold InUse, StdSet.mem, kInvalidResource.
    cbn [fst snd init used_ids_ existsb].
    by rewrite bool_decide_eq_false_2 by set_solver. }
  destruct Hs as [s L id s' E|s L d id s' Hd Hd0 E|s L id Hid]; cbn in R.
  - destruct (AllocateID_spec s) as (id' & s'' & E' & ? & ? & ? & ? & ?);
      [apply IH|done|]. rewrite E in E'. simplify_eq. by eapply live_inv_add.
  - destruct (AllocateIDAtOrAbove_spec s d) as (id' & s'' & E' & ? & ? & ? & ? & ?);
      [apply IH|done..|]. rewrite E in E'. simplify_eq. by eapply live_inv_add.
  - destruct IH as [W H]. cbn in *. destruct (FreeID_spec id s W Hid) as [W' H'].
    split; [done|]. cbn. intros j. rewrite H', H.
    destruct (j =? 0); cbn; [done|]. destruct (Z.eqb_spec j id); cbn;
      apply eq_bool_prop_intro; rewrite ?bool_decide_spec; set_solver.
Qed.

#[global] Program Instance fresh : FreshIds t := {|
  tracks := fun s L => live_inv (s, L);
  room := fun s n => wf s /\ has_room s n
|}.
Next Obligation.
  intros s n id s' [W R] E.
  destruct (AllocateID_spec s W) as (id' & s'' & E' & ? & ? & ? & ? & HL);
    [unfold has_room in *; lia|].
  cbn in E. rewrite E in E'. simplify_eq. unfold has_room in *. split; [done|lia].
Qed.
Next Obligation.
  intros s L n [W H] [_ R]. cbn in *.
  destruct (AllocateID_spec s W) as (id & s' & E & Hid & Hn & W' & HU & _);
    [unfold has_room in *; lia|].
  exists id, s'. destruct Hid. rewrite H in Hn.
  apply orb_false_iff in Hn as [_ Hn]. apply bool_decide_eq_false in Hn.
  split_and!; try done. apply (live_inv_add s); [by split|done..].
Qed.

(** C38: in every state reached by allocations and frees, and while some id is
    left, [AllocateID] succeeds with a nonzero [uint32] that no caller holds,
    and afterwards [InUse] answers true exactly for 0, the new id and the ids
    that were held. *)
Theorem reachable_alloc_fresh : forall s L,
  reachable (s, L) -> has_room s 1 ->
  exists id s', AllocateID s = Ret (id, s') /\ 0 < id < 2 ^ 32 /\ (id ∉ L) /\
    forall j, InUse s' j = true <-> j = 0 \/ j = id \/ j ∈ L.
Proof.
  intros s L Hr R. destruct (reachable_inv _ Hr) as [W H]. cbn in *.
  destruct (AllocateID_spec s W R) as (id & s' & E & Hid & Hn & W' & HU & _).
  exists id, s'. rewrite H in Hn. apply orb_false_iff in Hn as [_ Hn].
  apply bool_decide_eq_false in Hn. split_and!; [done|apply Hid|apply Hid|done|].
  intros j. rewrite HU, H, !orb_true_iff, !Z.eqb_eq, bool_decide_eq_true. tauto.
Qed.

Lemma reachable_alloc_fresh_witness :
  exists id s', AllocateID (mk [1; 3] [2]) = Ret (id, s') /\ 0 < id < 2 ^ 32 /\
    (id ∉ ({[1; 3]} : gset Z)) /\
    forall j, InUse s' j = true <-> j = 0 \/ j = id \/ j ∈ ({[1; 3]} : gset Z).
Proof.
  apply reachable_alloc_fresh; [|vm_compute; reflexivity].
  replace ({[1; 3]} : gset Z) with (({[3]} ∪ ({[2]} ∪ ({[1]} ∪ ∅))) ∖ {[2]} : gset Z)
    by (vm_compute; reflexivity).
  eapply (reach_step (mk [1; 2; 3] [], _) (OpFree 2));
    [|vm_compute; reflexivity|apply (step_free (mk [1; 2; 3] [])); unfold is_u32; lia].
  eapply (reach_step (mk [1; 2] [], _) OpAllocate);
    [|vm_compute; reflexivity|by constructor].
  eapply (reach_step (mk [1] [], _) OpAllocate);
    [|vm_compute; reflexivity|by constructor].
  eapply (reach_step (init, _) OpAllocate);
    [constructor|vm_compute; reflexivity|by constructor].
Defined.

End IdAllocator.

Module NonReusedIdAllocator.

Record t := mk { last_id_ : Z }.

Definition init : t := mk 0.

Definition AllocateID (s : t) : outcome (Z * t) :=
  let id := u32 (last_id_ s + 1) in Ret (id, mk id).

Definition AllocateIDAtOrAbove (desired_id : Z) (s : t) : outcome (Z * t) :=
  let last := if last_id_ s <? desired_id then desired_id else last_id_ s in
  let id := u32 (last + 1) in Ret (id, mk id).

(** Not supported by this allocator: [GPU_NOTREACHED]. *)
Definition MarkAsUsed (id : Z) (s : t) : outcome (bool * t) := Crash.
Definition InUse (s : t) (id : Z) : outcome bool := Crash.

Definition FreeID (id : Z) (s : t) : t := s.

#[global] Instance iface : IdAllocatorInterface t := {|
  GpuIdAllocator.AllocateID := AllocateID;
  GpuIdAllocator.AllocateIDAtOrAbove := AllocateIDAtOrAbove;
  GpuIdAllocator.MarkAsUsed := MarkAsUsed;
  GpuIdAllocator.FreeID := FreeID;
  GpuIdAllocator.InUse := InUse
|}.

(** Every id handed out so far is at most [last_id_], which has not wrapped. *)
#[global] Program Instance fresh : FreshIds t := {|
  tracks := fun s L => forall j, j ∈ L -> j <= last_id_ s;
  room := fun s n => 0 <= last_id_ s /\ last_id_ s + Z.of_nat n < 2 ^ 32
|}.
Next Obligation.
  cbn. unfold AllocateID. intros s n id s' R E. simplify_eq. cbn.
  rewrite u32_small; lia.
Qed.
Next Obligation.
  cbn. unfold AllocateID. intros s L n H R.
  eexists _, _. split; [done|]. rewrite u32_small by lia. cbn.
  split_and!; [lia..| |].
  - intros Hj. specialize (H _ Hj). lia.
  - intros j Hj. apply elem_of_union in Hj as [Hj|Hj]; [set_solver by lia|].
    specialize (H _ Hj). lia.
Qed.

End NonReusedIdAllocator.

(** * A client of the interface *)

Section Client.
Context {T : Type} `{!IdAllocatorInterface T} `{!FreshIds T}.

(** [n] allocations in a row. *)
Fixpoint allocate_n (n : nat) (s : T) : outcome (list Z * T) :=
  match n with
  | O => Ret ([], s)
  | S n =>
      let! '(id, s1) := AllocateID s in
      let! '(ids, s2) := allocate_n n s1 in
      Ret (id :: ids, s2)
  end.

(** whatever implementation of the interface is used, any number of
    consecutive allocations for which there is room succeeds and yields pairwise
    distinct nonzero ids, none of them live before. *)
Theorem allocate_n_distinct : forall n (s : T) L,
  tracks s L -> room s n ->
  exists ids s', allocate_n n s = Ret (ids, s') /\ length ids = n /\ NoDup ids /\
    forall id, id ∈ ids -> 0 < id < 2 ^ 32 /\ id ∉ L.
Proof.
  induction n as [|n IH]; intros s L HT HR; cbn [allocate_n].
  { eexists [], s. split_and!; [done..|constructor|set_solver]. }
  destruct (alloc_fresh s L n HT HR) as (id & s1 & E & Hid & Hn & HT1).
  rewrite E. cbn [obind].
  destruct (IH s1 _ HT1 (room_S _ _ _ _ HR E)) as (ids & s2 & -> & Hl & Hd & Hall).
  cbn. eexists _, _. split_and!; [done|cbn; lia|constructor; [|done]|].
  - intros Hin. apply Hall in Hin as [_ Hin]. set_solver.
  - intros j Hj. apply elem_of_cons in Hj as [->|Hj]; [done|].
    apply Hall in Hj. set_solver.
Qed.

End Client.

Lemma allocate_n_distinct_witness :
  exists ids s', allocate_n 3 (NonReusedIdAllocator.mk 7) = Ret (ids, s') /\
    length ids = 3%nat /\ NoDup ids /\
    forall id, id ∈ ids -> 0 < id < 2 ^ 32 /\ id ∉ ({[7]} : gset Z).
Proof.
  apply (allocate_n_distinct 3 (NonReusedIdAllocator.mk 7) {[7]}).
  - cbn. intros j Hj. apply elem_of_singleton in Hj. lia.
  - cbn. lia.
Defined.
