(* ===== verification/GpuFence.v ===== *)
(** What the client-side allocators ask of [CommandBufferHelper]: waiting for a
    token of the command stream and reading the last token the service passed.

    [RingBuffer] and [FencedAllocator] hand memory back only after the token it
    was freed with has passed; they are verified against this interface.  That the
    helper itself waits until the service is past a token is [wait_for_token] of
    [GpuHelperQueue], stated of its ring and not as an instance of this class. *)
From S2P Require Import Prelude.

Class FenceHelper (H : Type) := {
  WaitForToken : Z -> H -> outcome H;
  last_token_read : H -> Z
}.

(** The promise of [WaitForToken].  [ready h] is the condition under which the
    helper can be used; [passed h t] says that the service is done with
    everything issued before token [t]. *)
Class FenceLaws (H : Type) `{!FenceHelper H} := {
  ready : H -> Prop;
  passed : H -> Z -> Prop;
  wait_passes : forall t h, ready h ->
    exists h', WaitForToken t h = Ret h' /\ ready h' /\ passed h' t;
  wait_mono : forall t h h' u, WaitForToken t h = Ret h' -> passed h u -> passed h' u;
  read_passed : forall t h, ready h -> t <= last_token_read h -> passed h t
}.

(** ** A service that answers at once

    The smallest helper satisfying the laws: the state is the last token read
    and waiting moves it forward.  It is used to evaluate the allocators. *)
Module IdealHelper.

#[global] Instance helper : FenceHelper Z := {|
  WaitForToken := fun t h => Ret (Z.max h t);
  last_token_read := fun h => h
|}.

#[global] Program Instance laws : FenceLaws Z := {|
  ready := fun _ => True;
  passed := fun h t => t <= h
|}.
Next Obligation. intros t h _. eexists. split_and!; cbn; [done..|lia]. Qed.
Next Obligation. cbn. intros. simplify_eq. lia. Qed.
Next Obligation. done. Qed.

End IdealHelper.
