(* ===== verification/GpuRingBuffer.v ===== *)
(** The transfer ring allocator, [gpu/command_buffer/client/ring_buffer.cc]:
    blocks are handed out in order around a ring and come back, oldest first,
    once the token they were freed with has passed. *)
From S2P Require Import Prelude.
From S2P Require Import GpuFence.

Module RingBuffer.

(** ** Data *)

Inductive State := IN_USE | PADDING | FREE_PENDING_TOKEN.

#[global] Instance State_eq_dec : EqDecision State.
Proof. solve_decision. Defined.

Record Block := mkBlock {
  offset : Z;
  size : Z;
  token : Z;
  state : State
}.

(** [Block(_offset, _size, _state)]: a block without a token. *)
Definition newBlock (off sz : Z) (st : State) : Block := mkBlock off sz 0 st.

Record t := mk {
  base_offset_ : Z;
  size_ : Z;
  free_offset_ : Z;
  in_use_offset_ : Z;
  blocks_ : list Block
}.

Definition init (base_offset sz : Z) : t := mk base_offset sz 0 0 [].

(** ** Operations *)

Section Ops.
Context {H : Type} `{!FenceHelper H}.

Definition FreeOldestBlock (s : t) (h : H) : outcome (t * H) :=
  match blocks_ s with
  | [] => Crash
  | block :: rest =>
      check! negb (bool_decide (state block = IN_USE));
      let! h' :=
        if bool_decide (state block = FREE_PENDING_TOKEN)
        then WaitForToken (token block) h else Ret h in
      let in_use := u32 (in_use_offset_ s + size block) in
      let in_use := if in_use =? size_ s then 0 else in_use in
      let '(in_use, free) :=
        if in_use =? free_offset_ s then (0, 0) else (in_use, free_offset_ s) in
      Ret (mk (base_offset_ s) (size_ s) free in_use rest, h')
  end.

Definition GetLargestFreeSizeNoWaiting (s : t) : outcome Z :=
  if free_offset_ s =? in_use_offset_ s then
    match blocks_ s with
    | [] => check! free_offset_ s =? 0; Ret (size_ s)
    | _ => Ret 0
    end
  else if in_use_offset_ s <? free_offset_ s then
    Ret (Z.max (size_ s - free_offset_ s) (in_use_offset_ s))
  else Ret (in_use_offset_ s - free_offset_ s).

Definition GetLargestFreeOrPendingSize (s : t) : Z := size_ s.

(** [while (size > GetLargestFreeSizeNoWaiting()) FreeOldestBlock();] *)
Fixpoint wait_for_room (fuel : nat) (sz : Z) (s : t) (h : H) : outcome (t * H) :=
  let! largest := GetLargestFreeSizeNoWaiting s in
  if largest <? sz then
    match fuel with
    | O => Timeout
    | S fuel =>
        let! '(s', h') := FreeOldestBlock s h in wait_for_room fuel sz s' h'
    end
  else Ret (s, h).

(** The part of [Alloc] that follows the wait: pad to the end of the ring when
    the block does not fit before it, then take the block. *)
Definition take_block (sz : Z) (s : t) : Z * t :=
  let '(blocks, free) :=
    if size_ s <? u32 (sz + free_offset_ s)
    then (blocks_ s ++ [newBlock (free_offset_ s) (size_ s - free_offset_ s) PADDING], 0)
    else (blocks_ s, free_offset_ s) in
  let off := free in
  let free := u32 (free + sz) in
  let free := if free =? size_ s then 0 else free in
  (u32 (off + base_offset_ s),
   mk (base_offset_ s) (size_ s) free (in_use_offset_ s)
      (blocks ++ [newBlock off sz IN_USE])).

Definition back_in_use (s : t) : bool :=
  match last (blocks_ s) with
  | Some b => bool_decide (state b = IN_USE)
  | None => false
  end.

Definition Alloc (sz : Z) (s : t) (h : H) : outcome (Z * t * H) :=
  check! sz <=? size_ s;
  check! negb (back_in_use s);
  let sz := if sz =? 0 then 1 else sz in
  let! '(s1, h1) := wait_for_room (length (blocks_ s)) sz s h in
  let '(off, s2) := take_block sz s1 in
  Ret (off, s2, h1).

(** The reverse scan of [FreePendingToken]: update the last block that starts
    at [off]; falling off the front is [GPU_NOTREACHED]. *)
Fixpoint free_scan (off tok : Z) (rblocks : list Block) : outcome (list Block) :=
  match rblocks with
  | [] => Crash
  | b :: l =>
      if offset b =? off then
        check! bool_decide (state b = IN_USE);
        Ret (mkBlock (offset b) (size b) tok FREE_PENDING_TOKEN :: l)
      else
        let! l' := free_scan off tok l in Ret (b :: l')
  end.

Definition FreePendingToken (off tok : Z) (s : t) : outcome t :=
  let off := u32 (off - base_offset_ s) in
  check! negb (bool_decide (blocks_ s = []));
  let! r := free_scan off tok (rev (blocks_ s)) in
  Ret (mk (base_offset_ s) (size_ s) (free_offset_ s) (in_use_offset_ s) (rev r)).

(** [~RingBuffer]: free every block. *)
Fixpoint destroy (fuel : nat) (s : t) (h : H) : outcome (t * H) :=
  match blocks_ s, fuel with
  | [], _ => Ret (s, h)
  | _, O => Timeout
  | _, S fuel => let! '(s', h') := FreeOldestBlock s h in destroy fuel s' h'
  end.

End Ops.

(** ** The ring as a chain of blocks *)

(** The offset after [x] on a ring of [cap] bytes. *)
Definition ring (cap x : Z) : Z := if x =? cap then 0 else x.

(** [chain cap o bs e]: the blocks [bs] follow each other around the ring from
    offset [o] to offset [e], none straddling the end of the buffer. *)
Inductive chain (cap : Z) : Z -> list Block -> Z -> Prop :=
| chain_nil o : 0 <= o < cap -> chain cap o [] o
| chain_cons o b bs e :
    offset b = o -> 0 <= o < cap -> 0 < size b -> o + size b <= cap ->
    chain cap (ring cap (o + size b)) bs e -> chain cap o (b :: bs) e.

Lemma ring_range cap x : 0 <= x <= cap -> 0 < cap -> 0 <= ring cap x < cap.
Proof. unfold ring. case_if; lia. Qed.

Lemma ring_mod cap x : 0 <= x <= cap -> 0 < cap -> ring cap x = x mod cap.
Proof.
  intros Hx Hc. unfold ring. case_if; subst; [by rewrite Z.mod_same by lia|].
  by rewrite Z.mod_small by lia.
Qed.

Lemma chain_start cap o bs e : chain cap o bs e -> 0 <= o < cap.
Proof. by destruct 1. Qed.

Lemma chain_end cap o bs e : chain cap o bs e -> 0 <= e < cap.
Proof. induction 1; lia. Qed.

Lemma chain_sizes cap o bs e :
  chain cap o bs e -> Forall (fun b => 0 < size b /\ 0 <= offset b /\ offset b + size b <= cap) bs.
Proof. induction 1; constructor; [lia|done]. Qed.

Lemma sizes_nonneg cap bs :
  Forall (fun b => 0 < size b /\ 0 <= offset b /\ offset b + size b <= cap) bs ->
  0 <= zsum size bs.
Proof. intros HF. apply zsum_nonneg. eapply Forall_impl; [exact HF|]. cbn; lia. Qed.

Lemma chain_app cap o bs m bs' e :
  chain cap o bs m -> chain cap m bs' e -> chain cap o (bs ++ bs') e.
Proof. induction 1; cbn; [done|]. intros. econstructor; eauto. Qed.

(** The bytes used are the distance from start to end, modulo the ring. *)
Lemma chain_sum cap o bs e :
  chain cap o bs e -> exists k, 0 <= k /\ zsum size bs = e - o + cap * k.
Proof.
  induction 1 as [o Ho|o b bs e Ho Hr Hs Hle Hc (k & Hk & IH)].
  - exists 0. rewrite zsum_nil. lia.
  - rewrite zsum_cons, IH. unfold ring. case_if.
    + exists (k + 1). lia.
    + exists k. lia.
Qed.

Lemma chain_sum_pos cap o bs e : chain cap o bs e -> bs ≠ [] -> 0 < zsum size bs.
Proof.
  intros Hc Hne. pose proof (chain_sizes _ _ _ _ Hc) as HF.
  destruct bs as [|b bs]; [done|]. rewrite zsum_cons.
  apply Forall_cons in HF as [Hb HF].
  pose proof (sizes_nonneg _ _ HF). lia.
Qed.

(** The offset of the [i]-th block is the start plus the bytes before it. *)
Lemma chain_offset cap o bs e i b :
  chain cap o bs e -> 0 < cap -> bs !! i = Some b ->
  offset b = (o + zsum size (take i bs)) mod cap.
Proof.
  intros Hc Hcap. revert i.
  induction Hc as [o Ho|o b' bs e Ho Hr Hs Hle Hc IH]; intros i Hi; [done|].
  destruct i as [|i]; cbn in Hi; simplify_eq.
  - cbn. rewrite zsum_nil, Z.add_0_r, Z.mod_small; lia.
  - rewrite (IH _ Hi). cbn [take]. rewrite zsum_cons, ring_mod by lia.
    rewrite Zplus_mod_idemp_l. f_equal. lia.
Qed.

(** ** Invariant *)

Definition in_block (b : Block) (x : Z) : Prop := offset b <= x < offset b + size b.

Record wf (s : t) : Prop := {
  wf_cap : 0 < size_ s <= 2 ^ 31;
  wf_chain : chain (size_ s) (in_use_offset_ s) (blocks_ s) (free_offset_ s);
  wf_sum : zsum size (blocks_ s) <= size_ s;
  wf_empty : blocks_ s = [] -> free_offset_ s = 0 /\ in_use_offset_ s = 0;
  wf_in_use : forall i b, blocks_ s !! i = Some b -> state b = IN_USE ->
    S i = length (blocks_ s)
}.

Lemma ring_wf_init base sz : 0 < sz <= 2 ^ 31 -> wf (init base sz).
Proof.
  intros Hs. split; cbn; [done| |rewrite zsum_nil; lia|done|done].
  constructor. lia.
Qed.

(** Distinct blocks occupy disjoint bytes. *)
Lemma wf_disjoint s i j b c x :
  wf s -> blocks_ s !! i = Some b -> blocks_ s !! j = Some c ->
  in_block b x -> in_block c x -> i = j.
Proof.
  intros W. revert i j b c. assert (Hlt : forall i j b c, (i < j)%nat ->
    blocks_ s !! i = Some b -> blocks_ s !! j = Some c ->
    in_block b x -> in_block c x -> False).
  { intros i j b c Hij Hi Hj Hb Hc. unfold in_block in *.
    destruct W as [W1 W2 W3 _ _].
    pose proof (chain_sizes _ _ _ _ W2) as HF.
    pose proof (Forall_lookup_1 _ _ _ _ HF Hi) as HFi.
    pose proof (Forall_lookup_1 _ _ _ _ HF Hj) as HFj. cbn in HFi, HFj.
    rewrite (chain_offset _ _ _ _ _ _ W2 ltac:(lia) Hi) in *.
    rewrite (chain_offset _ _ _ _ _ _ W2 ltac:(lia) Hj) in *.
    (* the bytes before [j] are those before [i], block [i], and some more *)
    assert (Hsum : zsum size (take j (blocks_ s)) =
      zsum size (take i (blocks_ s)) + size b +
      zsum size (take (j - S i) (drop (S i) (blocks_ s)))).
    { rewrite (take_split _ _ _ _ Hij Hi), zsum_app, zsum_cons. lia. }
    assert (Htot : zsum size (take j (blocks_ s)) + size c <= size_ s).
    { pose proof (f_equal (zsum size) (take_drop j (blocks_ s))) as E.
      rewrite zsum_app, (drop_S _ _ _ Hj), zsum_cons in E.
      pose proof (sizes_nonneg _ _ (Forall_drop _ (S j) _ HF)). lia. }
    assert (Hpre : 0 <= zsum size (take i (blocks_ s))).
    { by eapply sizes_nonneg, Forall_take. }
    assert (Hmid : 0 <= zsum size (take (j - S i) (drop (S i) (blocks_ s)))).
    { by eapply sizes_nonneg, Forall_take, Forall_drop. }
    set (o := in_use_offset_ s) in *. set (cap := size_ s) in *.
    set (p := zsum size (take i (blocks_ s))) in *.
    set (q := zsum size (take j (blocks_ s))) in *.
    clearbody o cap p q. clear W2 W3 HF Hi Hj.
    set (m := zsum size _) in *. clearbody m.
    pose proof (Z.div_mod (o + p) cap). pose proof (Z.div_mod (o + q) cap).
    pose proof (Z.mod_pos_bound (o + p) cap). pose proof (Z.mod_pos_bound (o + q) cap).
    assert ((o + q) / cap = (o + p) / cap \/ (o + p) / cap + 1 <= (o + q) / cap \/
            (o + q) / cap + 1 <= (o + p) / cap) by lia.
    nia. }
  intros i j b c Hi Hj Hb Hc. destruct (Nat.lt_trichotomy i j) as [?|[?|?]]; [|done|].
  - exfalso. by eapply (Hlt i j).
  - exfalso. by eapply (Hlt j i).
Qed.

(** ** Freeing the oldest block *)

Definition no_in_use (s : t) : Prop := Forall (fun b => state b ≠ IN_USE) (blocks_ s).

Lemma no_in_use_spec s : wf s -> back_in_use s = false -> no_in_use s.
Proof.
  intros W Hb. apply Forall_lookup. intros i b Hi Hs.
  pose proof (wf_in_use _ W _ _ Hi Hs) as Hlen. unfold back_in_use in Hb.
  rewrite last_lookup in Hb. rewrite <- Hlen in Hb. cbn in Hb. rewrite Hi in Hb.
  by apply bool_decide_eq_false in Hb.
Qed.

Section Proofs.
Context {H : Type} `{!FenceHelper H} `{!FenceLaws H}.

(** [h'] comes after [h]: no token has been un-passed. *)
Definition later (h h' : H) : Prop := ready h' /\ forall u, passed h u -> passed h' u.

(** The service is done with block [b]. *)
Definition reusable (h : H) (b : Block) : Prop :=
  state b = PADDING \/ (state b = FREE_PENDING_TOKEN /\ passed h (token b)).

Lemma later_trans h1 h2 h3 : later h1 h2 -> later h2 h3 -> later h1 h3.
Proof. intros [? ?] [? ?]. split; auto. Qed.

Lemma later_reusable h h' b : later h h' -> reusable h b -> reusable h' b.
Proof. intros [_ Hm] [?|[? ?]]; [by left|right; auto]. Qed.

Lemma wait_block h b :
  ready h -> state b ≠ IN_USE ->
  exists h',
    (if bool_decide (state b = FREE_PENDING_TOKEN)
     then WaitForToken (token b) h else Ret h) = Ret h' /\
    later h h' /\ reusable h' b.
Proof.
  intros Hr Hs. case_bool_decide as Hp.
  - destruct (wait_passes (token b) h Hr) as (h' & E & Hr' & Hpass).
    exists h'. split; [done|]. split; [|by right].
    split; [done|]. intros u. by apply wait_mono with (t := token b).
  - exists h. split; [done|]. split; [by split|]. left. by destruct (state b).
Qed.

Lemma FreeOldestBlock_spec s h b rest :
  wf s -> ready h -> blocks_ s = b :: rest -> state b ≠ IN_USE ->
  exists s' h', FreeOldestBlock s h = Ret (s', h') /\ wf s' /\
    blocks_ s' = rest /\ size_ s' = size_ s /\ base_offset_ s' = base_offset_ s /\
    later h h' /\ reusable h' b.
Proof.
  intros W Hr Hb Hs. unfold FreeOldestBlock. rewrite Hb.
  rewrite bool_decide_eq_false_2 by done. cbn [negb dcheck obind].
  destruct (wait_block h b Hr Hs) as (h' & -> & Hl & Hre). cbn [obind].
  destruct W as [W1 W2 W3 W4 W5]. rewrite Hb in *.
  inversion W2 as [|o b' bs e Ho Hr2 Hsz Hle Hc]; subst.
  rewrite u32_small by lia. fold (ring (size_ s) (in_use_offset_ s + size b)).
  rewrite zsum_cons in W3.
  pose proof (chain_start _ _ _ _ Hc) as Hst. pose proof (chain_end _ _ _ _ Hc) as Hen.
  assert (Hin : forall i c, rest !! i = Some c -> state c = IN_USE -> S i = length rest).
  { intros i c Hi Hc'. specialize (W5 (S i) c Hi Hc'). cbn in W5. lia. }
  (* the new start meets the free offset exactly when nothing is left *)
  assert (Hmeet : ring (size_ s) (in_use_offset_ s + size b) = free_offset_ s <-> rest = []).
  { split.
    - intros E. destruct (decide (rest = [])) as [|Hne]; [done|exfalso].
      pose proof (chain_sum_pos _ _ _ _ Hc Hne).
      destruct (chain_sum _ _ _ _ Hc) as (k & Hk & Hsum). rewrite E in Hsum.
      assert (k = 0 \/ 1 <= k) as [->|?] by lia; nia.
    - intros ->. by inversion Hc. }
  case_if.
  - apply Hmeet in E as ->. eexists _, _. split_and!; try done.
    split; cbn; [done|constructor; lia|rewrite zsum_nil; lia|done|done].
  - eexists _, _. split_and!; try done. split; cbn; [done|done|lia| |done].
    intros ->. by destruct E; apply Hmeet.
Qed.

(** ** The free space *)

Lemma largest_spec s :
  wf s -> exists n, GetLargestFreeSizeNoWaiting s = Ret n /\ 0 <= n <= size_ s /\
    (blocks_ s = [] -> n = size_ s).
Proof.
  intros [W1 W2 W3 W4 W5]. unfold GetLargestFreeSizeNoWaiting.
  pose proof (chain_start _ _ _ _ W2). pose proof (chain_end _ _ _ _ W2).
  destruct (blocks_ s) as [|b bs].
  - destruct (W4 eq_refl) as [-> ->]. cbn. eexists. split; [done|lia].
  - repeat case_if; eexists; (split; [done|split; [lia|done]]).
Qed.

Lemma drop_prefix s' s n :
  blocks_ s' = drop n (blocks_ s) -> no_in_use s -> no_in_use s'.
Proof. unfold no_in_use. intros ->. by apply Forall_drop. Qed.

Lemma wait_for_room_spec sz fuel s h :
  wf s -> ready h -> no_in_use s -> 0 < sz <= size_ s ->
  (length (blocks_ s) <= fuel)%nat ->
  exists n s' h', wait_for_room fuel sz s h = Ret (s', h') /\ wf s' /\ later h h' /\
    blocks_ s' = drop n (blocks_ s) /\ size_ s' = size_ s /\
    base_offset_ s' = base_offset_ s /\ Forall (reusable h') (take n (blocks_ s)) /\
    exists room, GetLargestFreeSizeNoWaiting s' = Ret room /\ sz <= room.
Proof.
  revert s h. induction fuel as [|fuel IH]; intros s h W Hr Hn Hsz Hf;
    cbn [wait_for_room]; destruct (largest_spec s W) as (n & En & Hn1 & Hn2);
    rewrite En; cbn [obind]; case_if.
  - assert (blocks_ s = []) as E0 by (destruct (blocks_ s); cbn in Hf; [done|lia]).
    specialize (Hn2 E0). lia.
  - exists 0%nat, s, h. split_and!; [done|done|by split|done..|by constructor|by eauto].
  - destruct (blocks_ s) as [|b rest] eqn:Eb; [specialize (Hn2 eq_refl); lia|].
    cbn in Hf. unfold no_in_use in Hn. rewrite Eb in Hn.
    apply Forall_cons in Hn as [Hb Hrest].
    destruct (FreeOldestBlock_spec s h b rest W Hr Eb Hb)
      as (s1 & h1 & -> & W1 & B1 & S1 & O1 & L1 & R1). cbn [obind].
    destruct (IH s1 h1 W1) as (k & s2 & h2 & E2 & W2 & L2 & B2 & S2 & O2 & R2 & Hroom);
      [apply L1|by unfold no_in_use; rewrite B1|lia|rewrite B1; lia|].
    exists (S k), s2, h2. rewrite B1 in B2, R2.
    split_and!; [done..|by eapply later_trans|done|congruence|congruence| |done].
    cbn. constructor; [by eapply later_reusable|done].
  - exists 0%nat, s, h. split_and!; [done|done|by split|done..|by constructor|by eauto].
Qed.

(** ** Taking a block *)

Lemma wf_snoc_in_use s b :
  no_in_use s -> forall i c, (blocks_ s ++ [b]) !! i = Some c -> state c = IN_USE ->
  S i = length (blocks_ s ++ [b]).
Proof.
  intros Hn i c Hi Hc. rewrite length_app. cbn.
  apply lookup_app_Some in Hi as [Hi|[Hle Hi]].
  - unfold no_in_use in Hn. rewrite Forall_lookup in Hn. by destruct (Hn _ _ Hi).
  - destruct (i - length (blocks_ s))%nat as [|m] eqn:Em; [lia|done].
Qed.

Lemma take_block_spec s sz room :
  wf s -> no_in_use s -> GetLargestFreeSizeNoWaiting s = Ret room -> 0 < sz <= room ->
  0 <= base_offset_ s -> base_offset_ s + size_ s <= 2 ^ 32 ->
  exists pad o s', take_block sz s = (base_offset_ s + o, s') /\ wf s' /\
    blocks_ s' = blocks_ s ++ pad ++ [newBlock o sz IN_USE] /\
    Forall (fun b => state b = PADDING) pad /\
    size_ s' = size_ s /\ base_offset_ s' = base_offset_ s /\ 0 <= o /\ o + sz <= size_ s.
Proof.
  intros W Hn Hroom Hsz Hb0 Hb. pose proof W as [W1 W2 W3 W4 W5].
  pose proof (chain_start _ _ _ _ W2) as Hst. pose proof (chain_end _ _ _ _ W2) as Hen.
  destruct (chain_sum _ _ _ _ W2) as (k & Hk & Hsum).
  pose proof (sizes_nonneg _ _ (chain_sizes _ _ _ _ W2)) as Hpos.
  unfold GetLargestFreeSizeNoWaiting in Hroom. unfold take_block.
  (* how the request fits the two free regions *)
  assert (Hfit : sz + free_offset_ s <= size_ s /\ zsum size (blocks_ s) + sz <= size_ s \/
                 size_ s < sz + free_offset_ s /\ 0 < size_ s - free_offset_ s /\
                 sz <= size_ s /\
                 zsum size (blocks_ s) + (size_ s - free_offset_ s) + sz <= size_ s).
  { destruct (Z.eqb_spec (free_offset_ s) (in_use_offset_ s)) as [Eq|Ne].
    - destruct (blocks_ s) as [|b bs] eqn:Eb; [|simplify_eq; lia].
      inv_outcome. zb2p. simplify_eq. rewrite zsum_nil. lia.
    - destruct (Z.ltb_spec (in_use_offset_ s) (free_offset_ s)); simplify_eq.
      + assert (k = 0) by nia. subst k.
        destruct (Z.le_gt_cases (sz + free_offset_ s) (size_ s)); [left|right]; lia.
      + assert (k = 1) by (assert (k = 0 \/ k = 1 \/ 2 <= k) as [->|[->|?]] by lia; nia).
        subst k. left. lia. }
  rewrite !(u32_small (sz + free_offset_ s)) by lia.
  destruct Hfit as [[F1 F2]|(F1 & F0 & F2 & F3)].
  - assert ((size_ s <? sz + free_offset_ s) = false) as -> by lia.
    exists [], (free_offset_ s). eexists. rewrite !u32_small by lia.
    rewrite (Z.add_comm (base_offset_ s)). split_and!; cbn; try done; try lia.
    fold (ring (size_ s) (free_offset_ s + sz)).
    pose proof (ring_range (size_ s) (free_offset_ s + sz) ltac:(lia) ltac:(lia)).
    split; cbn; [done| | |by destruct (blocks_ s)|by apply wf_snoc_in_use].
    + eapply chain_app; [done|]. apply chain_cons; cbn; [lia..|]. by constructor.
    + rewrite zsum_app, zsum_cons, zsum_nil. cbn. lia.
  - assert ((size_ s <? sz + free_offset_ s) = true) as -> by lia.
    exists [newBlock (free_offset_ s) (size_ s - free_offset_ s) PADDING], 0. eexists.
    rewrite !u32_small by lia. rewrite Z.add_comm, <- app_assoc.
    split_and!; cbn; try done; try lia; [|by repeat constructor].
    fold (ring (size_ s) sz).
    pose proof (ring_range (size_ s) sz ltac:(lia) ltac:(lia)).
    split; cbn; [done| | | |].
    + eapply chain_app; [done|]. apply chain_cons; cbn; [done|lia..|].
      replace (ring (size_ s) (free_offset_ s + (size_ s - free_offset_ s))) with 0
        by (unfold ring; case_if; lia).
      apply chain_cons; cbn; [lia..|]. by constructor.
    + rewrite zsum_app, !zsum_cons, zsum_nil. cbn. lia.
    + by destruct (blocks_ s).
    + intros i c Hi Hc. pose proof (wf_snoc_in_use (mk 0 0 0 0
        (blocks_ s ++ [newBlock (free_offset_ s) (size_ s - free_offset_ s) PADDING]))
        (newBlock 0 sz IN_USE)) as Hw. cbn in Hw. rewrite <- app_assoc in Hw.
      eapply Hw; [|done..]. unfold no_in_use. cbn. apply Forall_app. by repeat constructor.
Qed.

(** ** The operations *)

(** Where the block taken by [Alloc] lies: inside the buffer, on bytes whose
    previous blocks the service is done with. *)
Lemma ring_Alloc_spec sz s h :
  wf s -> ready h -> back_in_use s = false -> 0 <= sz <= size_ s ->
  0 <= base_offset_ s -> base_offset_ s + size_ s <= 2 ^ 32 ->
  exists n pad o s' h', Alloc sz s h = Ret (base_offset_ s + o, s', h') /\ wf s' /\
    later h h' /\ Forall (reusable h') (take n (blocks_ s)) /\
    blocks_ s' = drop n (blocks_ s) ++ pad ++ [newBlock o (Z.max 1 sz) IN_USE] /\
    0 <= o /\ o + Z.max 1 sz <= size_ s /\ size_ s' = size_ s /\ base_offset_ s' = base_offset_ s.
Proof.
  intros W Hr Hb Hsz Hb0 Hb1. unfold Alloc. rewrite Hb.
  rewrite dcheck_true by lia. cbn [obind negb dcheck].
  replace (if sz =? 0 then 1 else sz) with (Z.max 1 sz) by (case_if; lia).
  assert (Hn := no_in_use_spec s W Hb). pose proof (wf_cap _ W).
  destruct (wait_for_room_spec (Z.max 1 sz) (length (blocks_ s)) s h)
    as (n & s1 & h1 & -> & W1 & L1 & B1 & S1 & O1 & R1 & room & Hroom & Hle);
    [done..|lia|lia|]. cbn [obind].
  destruct (take_block_spec s1 (Z.max 1 sz) room W1)
    as (pad & o & s2 & -> & W2 & B2 & _ & S2 & O2 & Ho1 & Ho2);
    [by eapply drop_prefix|done|lia|rewrite ?O1, ?S1; lia..|]. cbn [obind].
  exists n, pad, o, s2, h1. rewrite O1, B1 in *. split_and!; try done; lia.
Qed.

(** The new block shares bytes only with blocks released for it. *)
Lemma new_block_overlap h' s s' n pad o sz b x :
  wf s' -> blocks_ s' = drop n (blocks_ s) ++ pad ++ [newBlock o sz IN_USE] ->
  Forall (reusable h') (take n (blocks_ s)) -> b ∈ blocks_ s -> in_block b x -> o <= x < o + sz ->
  reusable h' b.
Proof.
  intros W' B R Hin Hbx Hx. rewrite <- (take_drop n (blocks_ s)) in Hin.
  apply elem_of_app in Hin as [Hin|Hin].
  - rewrite Forall_forall in R. by apply R.
  - (* a block that is still there cannot share a byte with the new one *)
    exfalso. apply list_elem_of_lookup in Hin as [i Hi].
    assert (Hlast : blocks_ s' !! (length (drop n (blocks_ s) ++ pad))%nat =
                    Some (newBlock o sz IN_USE)).
    { rewrite B, app_assoc. by rewrite lookup_app_r, Nat.sub_diag by lia. }
    assert (Hold : blocks_ s' !! i = Some b) by (rewrite B; by apply lookup_app_l_Some).
    pose proof (wf_disjoint s' _ _ _ _ x W' Hold Hlast Hbx) as Heq.
    apply lookup_lt_Some in Hi. rewrite length_app in Heq.
    unfold in_block in Heq. cbn in Heq. lia.
Qed.

(** C35: an allocation of at most the ring's size succeeds whenever the previous
    block has been freed (the promise of [GetLargestFreeOrPendingSize]), keeps
    the invariant, lies inside the buffer, and overlaps only blocks that were
    padding or whose token the service has passed by then. *)
Theorem ring_alloc_safe : forall sz s h,
  wf s -> ready h -> back_in_use s = false ->
  0 <= sz <= GetLargestFreeOrPendingSize s ->
  0 <= base_offset_ s -> base_offset_ s + size_ s <= 2 ^ 32 ->
  exists off s' h', Alloc sz s h = Ret (off, s', h') /\ wf s' /\ later h h' /\
    base_offset_ s <= off /\ off + Z.max 1 sz <= base_offset_ s + size_ s /\
    forall b x, b ∈ blocks_ s -> in_block b x ->
      off <= base_offset_ s + x < off + Z.max 1 sz -> reusable h' b.
Proof.
  intros sz s h W Hr Hb Hsz Hb0 Hb1.
  destruct (ring_Alloc_spec sz s h W Hr Hb Hsz Hb0 Hb1)
    as (n & pad & o & s' & h' & E & W' & L & R & B & Ho1 & Ho2 & _).
  exists (base_offset_ s + o), s', h'. split_and!; [done..|lia|lia|].
  intros b x Hin Hbx Hx. eapply new_block_overlap; [done..|lia].
Qed.

(** An allocation that fits [GetLargestFreeSizeNoWaiting] waits for no
    token: the helper is untouched and no block is released. *)
Theorem ring_alloc_no_wait : forall sz s h room,
  wf s -> back_in_use s = false ->
  GetLargestFreeSizeNoWaiting s = Ret room -> 0 < sz <= room ->
  0 <= base_offset_ s -> base_offset_ s + size_ s <= 2 ^ 32 ->
  exists off s' added, Alloc sz s h = Ret (off, s', h) /\ wf s' /\
    blocks_ s' = blocks_ s ++ added.
Proof.
  intros sz s h room W Hb Hroom Hsz Hb0 Hb1.
  destruct (largest_spec s W) as (n & En & Hn & _). rewrite Hroom in En. injection En as <-.
  unfold Alloc. rewrite Hb, dcheck_true by lia. cbn [obind negb dcheck].
  assert ((sz =? 0) = false) as -> by lia.
  assert (wait_for_room (length (blocks_ s)) sz s h = Ret (s, h)) as ->.
  { destruct (length _); cbn [wait_for_room]; rewrite Hroom; cbn [obind];
      assert ((room <? sz) = false) as -> by lia; done. }
  cbn [obind].
  destruct (take_block_spec s sz room W (no_in_use_spec s W Hb) Hroom Hsz Hb0 Hb1)
    as (pad & o & s' & -> & W' & B & _). eexists _, s', _. by split_and!.
Qed.

(** [FreePendingToken] on the offset of the block in use marks exactly that
    block, keeps the invariant, and makes room for the next [Alloc]. *)
Theorem ring_free_pending : forall tok s b rest,
  wf s -> blocks_ s = rest ++ [b] -> state b = IN_USE ->
  0 <= base_offset_ s -> base_offset_ s + size_ s <= 2 ^ 32 ->
  exists s', FreePendingToken (base_offset_ s + offset b) tok s = Ret s' /\ wf s' /\
    blocks_ s' = rest ++ [mkBlock (offset b) (size b) tok FREE_PENDING_TOKEN] /\
    back_in_use s' = false.
Proof.
  intros tok s b rest W Hb Hs Hb0 Hb1. unfold FreePendingToken.
  pose proof (chain_sizes _ _ _ _ (wf_chain _ W)) as HF. rewrite Hb in HF.
  apply Forall_app in HF as [_ HF]. apply Forall_cons in HF as [HF _].
  rewrite u32_small by lia.
  replace (base_offset_ s + offset b - base_offset_ s) with (offset b) by lia.
  rewrite bool_decide_eq_false_2 by (rewrite Hb; by destruct rest).
  cbn [negb dcheck obind]. rewrite Hb, rev_app_distr. cbn [rev app free_scan].
  rewrite Z.eqb_refl, bool_decide_eq_true_2 by done. cbn [dcheck obind].
  eexists. split; [done|]. cbn [rev]. rewrite rev_involutive.
  set (b' := mkBlock _ _ _ _). destruct W as [W1 W2 W3 W4 W5]. rewrite Hb in *.
  split_and!; [|done|unfold back_in_use; cbn; by rewrite last_snoc].
  split; cbn; [done| | |by destruct rest|].
  - clear -W2. remember (in_use_offset_ s) as o eqn:Eo. clear Eo. revert o W2.
    induction rest as [|c rest IH]; intros o W2; inversion W2; subst; cbn.
    + by apply chain_cons.
    + apply chain_cons; auto.
  - rewrite zsum_app, zsum_cons in *. done.
  - intros i c Hi Hc. destruct (decide (i = length rest)) as [->|Hne].
    + rewrite length_app. cbn. lia.
    + assert (Hi' : rest !! i = Some c).
      { apply lookup_app_Some in Hi as [?|[Hl Hi]]; [done|].
        destruct (i - length rest)%nat eqn:E; [lia|done]. }
      pose proof (W5 i c (lookup_app_l_Some _ _ _ _ Hi') Hc) as Hlen.
      by rewrite !length_app in *.
Qed.

Lemma FreePendingToken_frame off tok s s' :
  FreePendingToken off tok s = Ret s' ->
  size_ s' = size_ s /\ base_offset_ s' = base_offset_ s /\ free_offset_ s' = free_offset_ s.
Proof. unfold FreePendingToken. intros E. by inv_outcome. Qed.

(** The destructor releases every block when none is in use. *)
Lemma destroy_spec fuel s h :
  wf s -> ready h -> no_in_use s -> (length (blocks_ s) <= fuel)%nat ->
  exists s' h', destroy fuel s h = Ret (s', h') /\ blocks_ s' = [] /\ later h h' /\
    Forall (reusable h') (blocks_ s).
Proof.
  revert s h. induction fuel as [|fuel IH]; intros s h W Hr Hn Hf; cbn [destroy];
    destruct (blocks_ s) as [|b rest] eqn:Eb; cbn in Hf; try lia;
    try (exists s, h; split_and!; [done..|by split|by constructor]).
  unfold no_in_use in Hn. rewrite Eb in Hn. apply Forall_cons in Hn as [Hb Hrest].
  destruct (FreeOldestBlock_spec s h b rest W Hr Eb Hb)
    as (s1 & h1 & -> & W1 & B1 & _ & _ & L1 & R1). cbn [obind].
  destruct (IH s1 h1 W1) as (s2 & h2 & E2 & B2 & L2 & R2);
    [apply L1|by unfold no_in_use; rewrite B1|rewrite B1; lia|].
  exists s2, h2. rewrite B1 in R2.
  split_and!; [done|done|by eapply later_trans|].
  constructor; [by eapply later_reusable|done].
Qed.

(** What freeing the oldest block keeps holds when the new block is taken. *)
Lemma Alloc_inv (Q : t -> H -> Prop) sz s h off s' h' :
  (forall s h s' h', FreeOldestBlock s h = Ret (s', h') -> Q s h -> Q s' h') ->
  Alloc sz s h = Ret (off, s', h') -> Q s h ->
  exists s1, Q s1 h' /\ take_block (if sz =? 0 then 1 else sz) s1 = (off, s').
Proof.
  intros HQ E Hh. unfold Alloc in E. cbv zeta in E. set (n := if sz =? 0 then 1 else sz) in *.
  assert (Hw : forall fuel s h s' h', wait_for_room fuel n s h = Ret (s', h') -> Q s h -> Q s' h').
  { clear -HQ. induction fuel as [|fuel IH]; intros s h s' h' E Hh; cbn [wait_for_room] in E;
      apply obind_Ret in E as (m & _ & E); destruct (m <? n); inv_outcome; eauto. }
  inv_outcome. destruct (take_block n t0) as [o s2] eqn:Et. inv_outcome. eauto.
Qed.

Lemma FreeOldestBlock_waits (P : H -> Prop) s h s' h' :
  (forall t h h', WaitForToken t h = Ret h' -> P h -> P h') ->
  FreeOldestBlock s h = Ret (s', h') -> P h -> P h'.
Proof.
  intros HP E Hh. unfold FreeOldestBlock in E. destruct (blocks_ s); [done|]. inv_outcome.
  repeat (case_match; inv_outcome); eauto.
Qed.

(** What waiting for a token keeps, an allocation keeps. *)
Lemma Alloc_keeps (P : H -> Prop) sz s h off s' h' :
  (forall t h h', WaitForToken t h = Ret h' -> P h -> P h') ->
  Alloc sz s h = Ret (off, s', h') -> P h -> P h'.
Proof.
  intros HP E Hh. apply (Alloc_inv (fun _ => P)) in E as (s1 & ? & _); [done| |done].
  intros ????. by apply FreeOldestBlock_waits.
Qed.

(** Where the next block starts, and what it is relative to, are multiples of [a]. *)
Definition aligned (a : Z) (s : t) : Prop := (a | size_ s) /\ (a | free_offset_ s) /\ (a | base_offset_ s).

Lemma u32_divide a x : (a | 2 ^ 32) -> (a | x) -> (a | u32 x).
Proof.
  intros Ha Hx. unfold u32. rewrite Z.mod_eq by done. apply Z.divide_sub_r; [done|]. by apply Z.divide_mul_l.
Qed.

Lemma take_block_aligned a sz s :
  (a | 2 ^ 32) -> (a | sz) -> aligned a s ->
  (a | fst (take_block sz s)) /\ aligned a (snd (take_block sz s)).
Proof.
  intros Ha Hsz (H1 & H2 & H3). unfold take_block, aligned. destruct (size_ s <? _); cbn [fst snd size_ free_offset_ base_offset_];
    (split; [auto using u32_divide, Z.divide_add_r, Z.divide_0_r|]); (split; [done|]); (split; [|done]); case_match;
    auto using u32_divide, Z.divide_add_r, Z.divide_0_r.
Qed.

Lemma Alloc_aligned a sz s h off s' h' :
  (a | 2 ^ 32) -> (a | sz) -> sz <> 0 -> aligned a s -> Alloc sz s h = Ret (off, s', h') -> (a | off) /\ aligned a s'.
Proof.
  intros Ha Hsz Hne Hs E. apply (Alloc_inv (fun s _ => aligned a s)) in E as (s1 & H1 & E); [|..|done].
  - rewrite (proj2 (Z.eqb_neq _ _) Hne) in E. pose proof (take_block_aligned a sz s1 Ha Hsz H1) as Ht. by rewrite E in Ht.
  - clear. unfold aligned, FreeOldestBlock. intros s h s' h' E (H1 & H2 & H3). destruct (blocks_ s); [done|].
    inv_outcome. repeat case_match; inv_outcome; simplify_eq; cbn; auto using Z.divide_0_r.
Qed.

End Proofs.

(** ** Evaluations

    A ring of 16 bytes at base 100 with two freed blocks and the write position
    near the end: the allocation waits for the first token, pads and wraps. *)
Definition demo : t :=
  mk 100 16 14 0 [mkBlock 0 8 5 FREE_PENDING_TOKEN; mkBlock 8 6 7 FREE_PENDING_TOKEN].

Ltac eval_chain :=
  repeat first [apply chain_cons; [reflexivity|vm_compute; intuition discriminate..|]
               |apply chain_nil; vm_compute; intuition discriminate].

Lemma wf_demo : wf demo.
Proof.
  split; cbn; [lia| |vm_compute; discriminate|done|].
  - eval_chain.
  - intros [|[|i]] b Hi; cbn in Hi; simplify_eq; cbn; done.
Qed.

Example demo_alloc :
  Alloc 8 demo 4 =
  Ret (100, mk 100 16 8 8 [mkBlock 8 6 7 FREE_PENDING_TOKEN; newBlock 14 2 PADDING;
                           newBlock 0 8 IN_USE], 5).
Proof. vm_compute. reflexivity. Qed.

Lemma ring_alloc_safe_witness :
  exists off s' h', Alloc 8 demo 4 = Ret (off, s', h') /\ wf s' /\ later 4 h' /\
    100 <= off /\ off + 8 <= 116 /\
    forall b x, b ∈ blocks_ demo -> in_block b x ->
      off <= 100 + x < off + 8 -> reusable h' b.
Proof.
  apply (ring_alloc_safe 8 demo 4); [apply wf_demo|done|done|cbn; lia..].
Defined.

Lemma ring_alloc_no_wait_witness :
  exists off s' added, Alloc 2 demo 4 = Ret (off, s', 4) /\ wf s' /\
    blocks_ s' = blocks_ demo ++ added.
Proof.
  apply (ring_alloc_no_wait 2 demo 4 2); [apply wf_demo|done|done|cbn; lia..].
Defined.

Lemma ring_free_pending_witness :
  exists s', FreePendingToken 100 9 (mk 100 16 8 0 [newBlock 0 8 IN_USE]) = Ret s' /\ wf s' /\
    blocks_ s' = [mkBlock 0 8 9 FREE_PENDING_TOKEN] /\ back_in_use s' = false.
Proof.
  apply (ring_free_pending 9 (mk 100 16 8 0 [newBlock 0 8 IN_USE])
           (newBlock 0 8 IN_USE) []); cbn; [|done|done|lia..].
  split; cbn; [lia| |vm_compute; discriminate|done|].
  - eval_chain.
  - intros [|i] b Hi; cbn in Hi; simplify_eq; done.
Defined.

End RingBuffer.
