(* ===== verification/GpuFencedAllocator.v ===== *)
(** The fenced allocator, [gpu/command_buffer/client/fenced_allocator.cc]: a
    first-fit allocator over a fixed region whose blocks can be freed at once or
    once a token of the command stream has passed. *)
From S2P Require Import Prelude.
From S2P Require Import GpuFence.

Module FencedAllocator.

(** ** Data *)

Inductive State := IN_USE | FREE | FREE_PENDING_TOKEN.

#[global] Instance State_eq_dec : EqDecision State.
Proof. solve_decision. Defined.

Record Block := mkBlock {
  state : State;
  offset : Z;
  size : Z;
  token : Z
}.

Definition kInvalidOffset : Z := 0xffffffff.
Definition kUnusedToken : Z := 0.

(** The allocator's state is its vector of blocks. *)
Record t := mk { blocks_ : list Block }.

Definition init (sz : Z) : t := mk [mkBlock FREE 0 sz kUnusedToken].

Definition is_free (b : Block) : bool := bool_decide (state b = FREE).
Definition is_pending (b : Block) : bool := bool_decide (state b = FREE_PENDING_TOKEN).
Definition is_in_use (b : Block) : bool := bool_decide (state b = IN_USE).

Definition set_state (st : State) (b : Block) : Block :=
  mkBlock st (offset b) (size b) (token b).
Definition set_size (sz : Z) (b : Block) : Block :=
  mkBlock (state b) (offset b) sz (token b).

(** ** Operations *)

(** First half of [CollapseFreeBlock]: absorb a free successor. *)
Definition collapse_next (index : nat) (bs : list Block) : list Block :=
  match bs !! index, bs !! S index with
  | Some b, Some next =>
      if is_free next
      then <[index := set_size (u32 (size b + size next)) b]> (delete (S index) bs)
      else bs
  | _, _ => bs
  end.

(** Second half: be absorbed by a free predecessor. *)
Definition collapse_prev (index : nat) (bs : list Block) : nat * list Block :=
  match index with
  | O => (index, bs)
  | S pred =>
      match bs !! pred, bs !! index with
      | Some prev, Some b =>
          if is_free prev
          then (pred, <[pred := set_size (u32 (size prev + size b)) prev]> (delete index bs))
          else (index, bs)
      | _, _ => (index, bs)
      end
  end.

Definition CollapseFreeBlock (index : nat) (bs : list Block) : nat * list Block :=
  collapse_prev index (collapse_next index bs).

Definition AllocInBlock (index : nat) (sz : Z) (bs : list Block) : outcome (Z * list Block) :=
  let! b := must (bs !! index) in
  check! sz <=? size b;
  check! is_free b;
  if size b =? sz then Ret (offset b, <[index := set_state IN_USE b]> bs)
  else
    let newblock := mkBlock FREE (u32 (offset b + sz)) (u32 (size b - sz)) kUnusedToken in
    Ret (offset b,
         take index bs ++ set_size sz (set_state IN_USE b) :: newblock :: drop (S index) bs).

(** [std::lower_bound] over the offsets: the first block not before [off]. *)
Fixpoint lower_bound (off : Z) (bs : list Block) : nat :=
  match bs with
  | [] => O
  | b :: l => if offset b <? off then S (lower_bound off l) else O
  end.

Definition GetBlockByOffset (off : Z) (bs : list Block) : outcome (nat * Block) :=
  let it := lower_bound off bs in
  let! b := must (bs !! it) in
  check! offset b =? off;
  Ret (it, b).

Definition Free (off : Z) (s : t) : outcome t :=
  let! '(index, b) := GetBlockByOffset off (blocks_ s) in
  check! negb (is_free b);
  Ret (mk (snd (CollapseFreeBlock index (<[index := set_state FREE b]> (blocks_ s))))).

Definition FreePendingToken (off tok : Z) (s : t) : outcome t :=
  let! '(index, b) := GetBlockByOffset off (blocks_ s) in
  Ret (mk (<[index := mkBlock FREE_PENDING_TOKEN (offset b) (size b) tok]> (blocks_ s))).

Definition GetLargestFreeSize (s : t) : Z :=
  fold_left (fun m b => if is_free b then Z.max m (size b) else m) (blocks_ s) 0.

(** One iteration of [GetLargestFreeOrPendingSize] on [(max_size, current_size)]. *)
Definition run_step (acc : Z * Z) (b : Block) : Z * Z :=
  let '(max_size, current_size) := acc in
  if is_in_use b then (Z.max max_size current_size, 0)
  else (max_size, u32 (current_size + size b)).

Definition GetLargestFreeOrPendingSize (s : t) : Z :=
  let '(max_size, current_size) := fold_left run_step (blocks_ s) (0, 0) in
  Z.max max_size current_size.

Fixpoint check_pairs (bs : list Block) : bool :=
  match bs with
  | current :: ((next :: _) as l) =>
      if offset next <=? offset current then false
      else if negb (offset next =? u32 (offset current + size current)) then false
      else if is_free current && is_free next then false
      else check_pairs l
  | _ => true
  end.

Definition CheckConsistency (s : t) : bool :=
  match blocks_ s with
  | [] => false
  | bs => check_pairs bs
  end.

Definition InUse (s : t) : bool :=
  negb (length (blocks_ s) =? 1)%nat ||
  match blocks_ s with
  | b :: _ => negb (is_free b)
  | [] => true
  end.

(** The first loop of [Alloc]: the first free block that is large enough. *)
Fixpoint first_fit (sz : Z) (bs : list Block) : option nat :=
  match bs with
  | [] => None
  | b :: l => if is_free b && (sz <=? size b) then Some O else S <$> first_fit sz l
  end.

Section Ops.
Context {H : Type} `{!FenceHelper H}.

Definition WaitForTokenAndFreeBlock (index : nat) (bs : list Block) (h : H)
    : outcome (nat * list Block * H) :=
  let! b := must (bs !! index) in
  check! is_pending b;
  let! h' := WaitForToken (token b) h in
  Ret (CollapseFreeBlock index (<[index := set_state FREE b]> bs), h').

(** The second loop of [Alloc], from index [i]. *)
Fixpoint alloc_waiting (fuel : nat) (i : nat) (sz : Z) (bs : list Block) (h : H)
    : outcome (Z * list Block * H) :=
  match bs !! i with
  | None => Ret (kInvalidOffset, bs, h)
  | Some b =>
      match fuel with
      | O => Timeout
      | S fuel =>
          if negb (is_pending b) then alloc_waiting fuel (S i) sz bs h
          else
            let! '(r, h') := WaitForTokenAndFreeBlock i bs h in
            let '(i', bs') := r in
            let! b' := must (bs' !! i') in
            if sz <=? size b' then
              let! '(off, bs'') := AllocInBlock i' sz bs' in Ret (off, bs'', h')
            else alloc_waiting fuel (S i') sz bs' h'
      end
  end.

Definition Alloc (sz : Z) (s : t) (h : H) : outcome (Z * t * H) :=
  let sz := if sz =? 0 then 1 else sz in
  let! '(r, h') :=
    match first_fit sz (blocks_ s) with
    | Some i => let! r := AllocInBlock i sz (blocks_ s) in Ret (r, h)
    | None => alloc_waiting (length (blocks_ s)) O sz (blocks_ s) h
    end in
  let '(off, bs) := r in
  Ret (off, mk bs, h').

(** The loop of [FreeUnused], which only advances past a block it keeps. *)
Fixpoint free_unused (fuel : nat) (i : nat) (last_token : Z) (bs : list Block)
    : outcome (list Block) :=
  match bs !! i with
  | None => Ret bs
  | Some b =>
      match fuel with
      | O => Timeout
      | S fuel =>
          if is_pending b && (token b <=? last_token) then
            let '(i', bs') := CollapseFreeBlock i (<[i := set_state FREE b]> bs) in
            free_unused fuel i' last_token bs'
          else free_unused fuel (S i) last_token bs
      end
  end.

Definition FreeUnused (s : t) (h : H) : outcome t :=
  let! bs := free_unused (2 * length (blocks_ s)) O (last_token_read h) (blocks_ s) in
  Ret (mk bs).

(** [~FencedAllocator]: wait for every pending block. *)
Fixpoint destroy (fuel : nat) (i : nat) (bs : list Block) (h : H) : outcome (list Block * H) :=
  match bs !! i with
  | None => Ret (bs, h)
  | Some b =>
      match fuel with
      | O => Timeout
      | S fuel =>
          if is_pending b then
            let! '(r, h') := WaitForTokenAndFreeBlock i bs h in
            let '(i', bs') := r in destroy fuel (S i') bs' h'
          else destroy fuel (S i) bs h
      end
  end.

End Ops.

(** ** Invariant *)

(** Blocks of positive size that follow each other from [o] to [e]. *)
Inductive tiles : Z -> list Block -> Z -> Prop :=
| tiles_nil o : tiles o [] o
| tiles_cons o b bs e :
    offset b = o -> 0 < size b -> tiles (o + size b) bs e -> tiles o (b :: bs) e.

Definition starts_free (bs : list Block) : bool :=
  match bs with b :: _ => is_free b | [] => false end.

(** No two adjacent free blocks. *)
Fixpoint separated (bs : list Block) : Prop :=
  match bs with
  | [] => True
  | b :: l => is_free b && starts_free l = false /\ separated l
  end.

Definition ends_free (bs : list Block) : bool :=
  match last bs with Some b => is_free b | None => false end.

Record wf (total : Z) (bs : list Block) : Prop := {
  wf_total : 0 < total < 2 ^ 32;
  wf_tiles : tiles 0 bs total;
  wf_separated : separated bs
}.

Lemma fenced_wf_init sz : 0 < sz < 2 ^ 32 -> wf sz (blocks_ (init sz)).
Proof.
  intros Hs. split; cbn; [done| |by rewrite andb_false_r].
  constructor; cbn; [done|lia|]. constructor.
Qed.

Lemma tiles_app o l1 l2 e :
  tiles o (l1 ++ l2) e <-> exists m, tiles o l1 m /\ tiles m l2 e.
Proof.
  revert o. induction l1 as [|b l1 IH]; intros o; cbn.
  - split; [intros; exists o; split; [constructor|done]|].
    intros (m & H1 & H2). by inversion H1; subst.
  - split.
    + inversion 1; subst. apply IH in H6 as (m & ? & ?). exists m. split; [|done].
      by constructor.
    + intros (m & H1 & H2). inversion H1; subst. constructor; [done..|].
      apply IH. by exists m.
Qed.

Lemma tiles_le o bs e : tiles o bs e -> o <= e.
Proof. induction 1; lia. Qed.

Lemma tiles_elem o bs e b :
  tiles o bs e -> b ∈ bs -> o <= offset b /\ 0 < size b /\ offset b + size b <= e.
Proof.
  induction 1 as [|o b' bs e Ho Hs Ht IH]; [set_solver|].
  pose proof (tiles_le _ _ _ Ht).
  intros [->|Hb]%elem_of_cons; [lia|]. specialize (IH Hb). lia.
Qed.

(** Two tiles sharing a byte are the same tile. *)
Lemma tiles_disjoint o bs e b c x :
  tiles o bs e -> b ∈ bs -> c ∈ bs ->
  offset b <= x < offset b + size b -> offset c <= x < offset c + size c -> b = c.
Proof.
  induction 1 as [|o b' bs e Ho Hs Ht IH]; [set_solver|].
  intros [->|Hb]%elem_of_cons [->|Hc]%elem_of_cons Hx Hy; [done|..|by apply IH].
  - pose proof (tiles_elem _ _ _ _ Ht Hc). lia.
  - pose proof (tiles_elem _ _ _ _ Ht Hb). lia.
Qed.

Lemma separated_app l1 l2 :
  separated (l1 ++ l2) <->
  separated l1 /\ separated l2 /\ ends_free l1 && starts_free l2 = false.
Proof.
  induction l1 as [|b l1 IH]; cbn; [naive_solver|]. rewrite IH.
  unfold ends_free. rewrite last_cons.
  destruct l1 as [|c l1]; cbn [starts_free app last].
  - rewrite andb_false_r. naive_solver.
  - destruct (last (c :: l1)) eqn:E; [tauto|]. by apply last_None in E.
Qed.

Lemma ends_free_snoc l b : ends_free (l ++ [b]) = is_free b.
Proof. unfold ends_free. by rewrite last_snoc. Qed.

(** ** Freeing and collapsing *)

(** The blocks that are not free, in order. *)
Definition busy (bs : list Block) : list Block :=
  filter (fun b => is_free b = false) bs.

(** The run accumulator after [bs]. *)
Definition runs (acc : Z * Z) (bs : list Block) : Z * Z := fold_left run_step bs acc.

Lemma runs_app acc l1 l2 : runs acc (l1 ++ l2) = runs (runs acc l1) l2.
Proof. apply fold_left_app. Qed.

Lemma runs_cons acc b l : runs acc (b :: l) = runs (run_step acc b) l.
Proof. done. Qed.

Lemma run_step_merge acc p b q :
  is_in_use p = false -> is_in_use b = false -> is_in_use q = false ->
  size q = u32 (size p + size b) ->
  run_step (run_step acc p) b = run_step acc q.
Proof.
  intros Hp Hb Hq Hs. destruct acc as [m c]. unfold run_step. rewrite Hp, Hb, Hq, Hs.
  f_equal. word_lia.
Qed.

Lemma busy_app l1 l2 : busy (l1 ++ l2) = busy l1 ++ busy l2.
Proof. apply filter_app. Qed.

Lemma busy_cons_free b l : is_free b = true -> busy (b :: l) = busy l.
Proof. intros Hb. unfold busy. rewrite filter_cons_False; [done|]. by rewrite Hb. Qed.

Lemma busy_cons_busy b l : is_free b = false -> busy (b :: l) = b :: busy l.
Proof. intros Hb. unfold busy. by rewrite filter_cons_True. Qed.

Lemma elem_of_busy b bs : b ∈ busy bs <-> b ∈ bs /\ is_free b = false.
Proof. unfold busy. rewrite list_elem_of_filter. tauto. Qed.

Lemma free_not_in_use b : is_free b = true -> is_in_use b = false.
Proof.
  unfold is_free, is_in_use. intros Hb%bool_decide_eq_true.
  apply bool_decide_eq_false. congruence.
Qed.

Lemma pending_not_free b : is_pending b = true -> is_free b = false /\ is_in_use b = false.
Proof.
  unfold is_free, is_in_use, is_pending. intros Hb%bool_decide_eq_true.
  split; apply bool_decide_eq_false; congruence.
Qed.

Lemma collapse_next_split l1 b l2 :
  collapse_next (length l1) (l1 ++ b :: l2) =
  match l2 with
  | n :: l2' =>
      if is_free n then l1 ++ set_size (u32 (size b + size n)) b :: l2' else l1 ++ b :: l2
  | [] => l1 ++ b :: l2
  end.
Proof.
  unfold collapse_next. rewrite list_lookup_middle by done.
  assert (E : l1 ++ b :: l2 = (l1 ++ [b]) ++ l2) by (by rewrite <- app_assoc).
  assert (El : S (length l1) = length (l1 ++ [b])) by (rewrite length_app; cbn; lia).
  rewrite El, E.
  destruct l2 as [|n l2]; [by rewrite lookup_ge_None_2 by (rewrite app_nil_r; lia)|].
  rewrite list_lookup_middle by done. case_if; [|done].
  rewrite delete_middle, <- app_assoc. cbn [app].
  by rewrite insert_app_r_alt, Nat.sub_diag by lia.
Qed.

Lemma collapse_prev_split l1 p b l2 :
  collapse_prev (length (l1 ++ [p])) ((l1 ++ [p]) ++ b :: l2) =
  if is_free p then (length l1, l1 ++ set_size (u32 (size p + size b)) p :: l2)
  else (length (l1 ++ [p]), (l1 ++ [p]) ++ b :: l2).
Proof.
  unfold collapse_prev.
  assert (El : length (l1 ++ [p]) = S (length l1)) by (rewrite length_app; cbn; lia).
  rewrite list_lookup_middle, El by done.
  assert (E : l1 ++ p :: b :: l2 = (l1 ++ [p]) ++ b :: l2) by (by rewrite <- app_assoc).
  rewrite <- E, list_lookup_middle by done. case_if; [|by rewrite E].
  f_equal. rewrite E, <- El, delete_middle, <- app_assoc. cbn [app].
  by rewrite insert_app_r_alt, Nat.sub_diag by lia.
Qed.

(** What collapsing block [b] of [l1 ++ b :: l2] leaves. *)
Record collapsed (total : Z) (l1 : list Block) (b : Block) (l2 : list Block)
    (r : nat * list Block) (m1 : list Block) (c : Block) (m2 : list Block) : Prop := {
  co_eq : r = (length m1, m1 ++ c :: m2);
  co_tiles : tiles 0 (m1 ++ c :: m2) total;
  co_sep : separated (m1 ++ c :: m2);
  co_free : is_free c = true;
  co_size : size b <= size c;
  co_pre : m1 `prefix_of` l1;
  co_suf : m2 `suffix_of` l2;
  co_busy1 : busy m1 = busy l1;
  co_busy2 : busy m2 = busy l2;
  co_runs : forall acc, runs acc (m1 ++ c :: m2) = runs acc (l1 ++ b :: l2)
}.

Lemma tiles_middle_size total l1 b l2 :
  tiles 0 (l1 ++ b :: l2) total -> 0 <= offset b /\ 0 < size b /\ offset b + size b <= total.
Proof. intros Ht. apply (tiles_elem 0 _ total b Ht). set_solver. Qed.

(** Merging two neighbours keeps the tiling. *)
Lemma tiles_merge total l1 p b l2 :
  total < 2 ^ 32 -> tiles 0 (l1 ++ p :: b :: l2) total ->
  tiles 0 (l1 ++ set_size (u32 (size p + size b)) p :: l2) total /\
  u32 (size p + size b) = size p + size b.
Proof.
  intros Htot Ht. pose proof (tiles_middle_size total (l1 ++ [p]) b l2) as Hb.
  rewrite <- app_assoc in Hb. specialize (Hb Ht).
  pose proof (tiles_middle_size _ _ _ _ Ht) as Hp.
  apply tiles_app in Ht as (m & H1 & H2). inversion H2 as [|? ? ? ? Eo Hs Ht]; subst.
  inversion Ht as [|? ? ? ? Eo' Hs' Ht']; subst.
  rewrite u32_small by lia. split; [|done].
  apply tiles_app. exists (offset p). split; [done|]. constructor; cbn; [done|lia|].
  by rewrite Z.add_assoc.
Qed.

Lemma runs_merge acc l1 p b l2 :
  is_free p = true -> is_in_use b = false ->
  runs acc (l1 ++ set_size (u32 (size p + size b)) p :: l2) = runs acc (l1 ++ p :: b :: l2).
Proof.
  intros Hp%free_not_in_use Hb. rewrite !runs_app. cbn. f_equal.
  symmetry. by apply run_step_merge.
Qed.

Lemma collapse_spec total l1 b l2 :
  total < 2 ^ 32 -> is_free b = true -> tiles 0 (l1 ++ b :: l2) total ->
  separated l1 -> separated l2 ->
  exists m1 c m2,
    collapsed total l1 b l2 (CollapseFreeBlock (length l1) (l1 ++ b :: l2)) m1 c m2.
Proof.
  intros Htot Hf Ht S1 S2. unfold CollapseFreeBlock. rewrite collapse_next_split.
  (* after absorbing the successor *)
  assert (exists c m2,
    match l2 with
    | n :: l2' =>
        if is_free n then l1 ++ set_size (u32 (size b + size n)) b :: l2' else l1 ++ b :: l2
    | [] => l1 ++ b :: l2
    end = l1 ++ c :: m2 /\ tiles 0 (l1 ++ c :: m2) total /\ separated (c :: m2) /\
    is_free c = true /\ size b <= size c /\ m2 `suffix_of` l2 /\ busy m2 = busy l2 /\
    forall acc, runs acc (l1 ++ c :: m2) = runs acc (l1 ++ b :: l2))
    as (c & m2 & -> & Ht' & Sc & Hc & Hsz & Hsuf & Hb2 & Hr).
  { destruct l2 as [|n l2].
    { exists b, []. cbn. rewrite andb_false_r. by split_and!. }
    cbn in S2. destruct S2 as [S2a S2b]. destruct (is_free n) eqn:Hn.
    - destruct (tiles_merge _ _ _ _ _ Htot Ht) as [Hm Hu].
      pose proof (tiles_middle_size total (l1 ++ [b]) n l2) as Hsn.
      rewrite <- app_assoc in Hsn. specialize (Hsn Ht).
      exists (set_size (u32 (size b + size n)) b), l2. cbn in S2a.
      split_and!; [done|done| |done|cbn; lia|by apply suffix_cons_r| |].
      + cbn. split; [by rewrite S2a, andb_false_r|done].
      + by rewrite busy_cons_free.
      + intros acc. apply runs_merge; [done|by apply free_not_in_use].
    - exists b, (n :: l2). cbn. rewrite Hn, andb_false_r. by split_and!. }
  destruct l1 as [|p l1 _] using rev_ind.
  { exists [], c, m2. by split. }
  rewrite collapse_prev_split. destruct (is_free p) eqn:Hp.
  - rewrite <- app_assoc in Ht'. cbn in Ht'.
    destruct (tiles_merge _ _ _ _ _ Htot Ht') as [Hm Hu].
    pose proof (tiles_middle_size _ _ _ _ Ht') as Hsp.
    exists l1, (set_size (u32 (size p + size c)) p), m2.
    apply separated_app in S1 as (S1a & S1b & S1c).
    split; [done|done| |done|cbn; lia|by apply prefix_app_r|done| |done|].
    + destruct Sc as [Sc1 Sc2]. rewrite Hc in Sc1. cbn in Sc1, S1c.
      apply separated_app. cbn. rewrite Sc1, andb_false_r. split_and!; try done.
    + rewrite busy_app, busy_cons_free by done. cbn. by rewrite app_nil_r.
    + intros acc. rewrite <- Hr, <- app_assoc. cbn.
      apply runs_merge; [done|by apply free_not_in_use].
  - exists (l1 ++ [p]), c, m2. split; try done.
    apply separated_app. by rewrite ends_free_snoc, Hp.
Qed.

(** ** Allocating in a block *)

Definition new_block (sz : Z) (b : Block) : Block :=
  mkBlock IN_USE (offset b) sz (token b).

Lemma AllocInBlock_spec total l1 b l2 sz :
  wf total (l1 ++ b :: l2) -> is_free b = true -> 0 < sz <= size b ->
  exists bs', AllocInBlock (length l1) sz (l1 ++ b :: l2) = Ret (offset b, bs') /\
    wf total bs' /\ busy bs' = busy l1 ++ new_block sz b :: busy l2 /\
    new_block sz b ∈ bs'.
Proof.
  intros [W1 W2 W3] Hf Hsz. unfold AllocInBlock.
  rewrite list_lookup_middle by done. cbn [must obind].
  rewrite dcheck_true by lia. cbn [obind]. rewrite Hf. cbn [dcheck obind].
  pose proof (tiles_middle_size _ _ _ _ W2) as Hb.
  apply separated_app in W3 as (S1 & [S2a S2b] & S3). cbn in S3.
  rewrite Hf in *. rewrite andb_true_r in S3. cbn in S2a.
  assert (Hnew : is_free (new_block sz b) = false) by done.
  apply tiles_app in W2 as (m & T1 & T2).
  inversion T2 as [|? ? ? ? Eo Hs T3]; subst.
  case_if.
  - subst sz. eexists. split; [done|].
    rewrite insert_app_r_alt, Nat.sub_diag by lia. cbn.
    change (set_state IN_USE b) with (new_block (size b) b).
    split_and!; [split; [done| |]| |set_solver].
    + apply tiles_app. exists (offset b). split; [done|]. by constructor.
    + apply separated_app. cbn. by rewrite S3.
    + by rewrite busy_app, busy_cons_busy.
  - eexists. split; [done|].
    rewrite take_app_length, u32_small, u32_small by lia.
    replace (drop (S (length l1)) (l1 ++ b :: l2)) with l2
      by (replace (S (length l1)) with (length l1 + 1)%nat by lia;
          by rewrite <- drop_drop, drop_app_length).
    change (set_size sz (set_state IN_USE b)) with (new_block sz b).
    set (nb := mkBlock FREE _ _ _).
    split_and!; [split; [done| |]| |set_solver].
    + apply tiles_app. exists (offset b). split; [done|].
      constructor; cbn; [done|lia|]. constructor; cbn; [done|lia|].
      replace (offset b + sz + (size b - sz)) with (offset b + size b) by lia. done.
    + apply separated_app. cbn. by rewrite S3, S2a.
    + by rewrite busy_app, busy_cons_busy, busy_cons_free.
Qed.

Lemma first_fit_Some sz bs i :
  first_fit sz bs = Some i ->
  exists l1 b l2, bs = l1 ++ b :: l2 /\ i = length l1 /\ is_free b = true /\ sz <= size b.
Proof.
  revert i. induction bs as [|b bs IH]; intros i; cbn; [done|]. case_if.
  - intros [= <-]. exists [], b, bs. zb2p. split_and!; try done.
  - destruct (first_fit sz bs) as [j|]; [|done]. intros [= <-].
    destruct (IH j eq_refl) as (l1 & c & l2 & -> & -> & ? & ?).
    by exists (b :: l1), c, l2.
Qed.

Definition small_free (sz : Z) (bs : list Block) : Prop :=
  Forall (fun b => is_free b = true -> size b < sz) bs.

Lemma first_fit_None sz bs : first_fit sz bs = None -> small_free sz bs.
Proof.
  induction bs as [|b bs IH]; cbn; [by constructor|]. case_if; [done|].
  destruct (first_fit sz bs); [done|]. intros _. constructor; [|by apply IH].
  intros Hf. rewrite Hf in E. cbn in E. lia.
Qed.

(** ** The largest run *)

Definition largest (acc : Z * Z) : Z := Z.max (fst acc) (snd acc).

Lemma largest_runs bs : GetLargestFreeOrPendingSize (mk bs) = largest (runs (0, 0) bs).
Proof. unfold GetLargestFreeOrPendingSize, largest, runs. cbn. by destruct (fold_left _ _ _). Qed.

Lemma runs_bounds bs : forall m c o e,
  tiles o bs e -> 0 <= c -> c + (e - o) < 2 ^ 32 ->
  Z.max m c <= largest (runs (m, c) bs) /\
  forall b, b ∈ bs -> is_in_use b = false -> size b <= largest (runs (m, c) bs).
Proof.
  induction bs as [|b bs IH]; intros m c o e Ht Hc Hb.
  { split; [done|set_solver]. }
  inversion Ht as [|? ? ? ? Eo Hs Ht']; subst. pose proof (tiles_le _ _ _ Ht').
  rewrite runs_cons. unfold run_step.
  destruct (is_in_use b) eqn:Hu.
  - destruct (IH (Z.max m c) 0 _ _ Ht') as [H1 H2]; [lia..|]. split; [lia|].
    intros x [->|Hx]%elem_of_cons Hx'; [congruence|auto].
  - rewrite u32_small by lia.
    destruct (IH m (c + size b) _ _ Ht') as [H1 H2]; [lia..|]. split; [lia|].
    intros x [->|Hx]%elem_of_cons Hx'; [lia|auto].
Qed.

Lemma largest_fit total bs b :
  wf total bs -> b ∈ bs -> is_in_use b = false -> size b <= largest (runs (0, 0) bs).
Proof.
  intros [W1 W2 _] Hb Hu. by apply (runs_bounds bs 0 0 0 total W2 ltac:(lia) ltac:(lia)).
Qed.

(** Without pending blocks every run is a single free block. *)
Lemma runs_small sz bs : forall m c,
  Forall (fun b => is_pending b = false) bs -> separated bs -> small_free sz bs ->
  Forall (fun b => 0 < size b < 2 ^ 32) bs -> 0 < sz -> m < sz -> c < sz ->
  (starts_free bs = true -> c = 0) -> largest (runs (m, c) bs) < sz.
Proof.
  induction bs as [|b bs IH]; intros m c Hp Hsep Hsm Hs Hsz Hm Hc H0.
  { unfold largest. cbn. lia. }
  apply Forall_cons in Hp as [Hp1 Hp2]. apply Forall_cons in Hs as [Hs1 Hs2].
  apply Forall_cons in Hsm as [Hsm1 Hsm2]. cbn in Hsep, H0.
  rewrite runs_cons. unfold run_step.
  destruct Hsep as [Hsep1 Hsep2].
  destruct (is_in_use b) eqn:Hu; [apply IH; auto; lia|].
  assert (Hf : is_free b = true).
  { unfold is_free, is_in_use, is_pending in *. by destruct (state b). }
  rewrite Hf in *. specialize (Hsm1 eq_refl). rewrite (H0 eq_refl), Z.add_0_l, u32_small by lia.
  apply IH; auto. cbn in Hsep1. congruence.
Qed.

Lemma tiles_sizes o bs e :
  tiles o bs e -> 0 <= o -> e < 2 ^ 32 -> Forall (fun b => 0 < size b < 2 ^ 32) bs.
Proof.
  intros Ht Ho He. apply Forall_forall. intros b Hb.
  pose proof (tiles_elem _ _ _ _ Ht Hb). lia.
Qed.

Lemma small_prefix sz m l : m `prefix_of` l -> small_free sz l -> small_free sz m.
Proof. intros [k ->]. unfold small_free. by rewrite Forall_app; intros [? ?]. Qed.

Lemma small_suffix sz m l : m `suffix_of` l -> small_free sz l -> small_free sz m.
Proof. intros [k ->]. unfold small_free. by rewrite Forall_app; intros [? ?]. Qed.

(** ** Waiting for a pending block *)

Section Laws.
Context {H : Type} `{FL : FenceLaws H}.

(** [bs'] keeps the busy blocks of [bs], except pending ones whose token has
    passed, and has no others. *)
Record freed (h : H) (bs bs' : list Block) : Prop := {
  fr_old b : b ∈ busy bs' -> b ∈ busy bs;
  fr_kept b : b ∈ busy bs -> b ∈ busy bs' \/ (is_pending b = true /\ passed h (token b))
}.

Lemma freed_refl h bs : freed h bs bs.
Proof. split; auto. Qed.

Lemma freed_trans h h' bs bs' bs'' :
  (forall u, passed h u -> passed h' u) ->
  freed h bs bs' -> freed h' bs' bs'' -> freed h' bs bs''.
Proof.
  intros Hm [O1 K1] [O2 K2]. split; [auto|].
  intros b [Hb|[? ?]]%K1; [by apply K2|]. right. auto.
Qed.

Lemma set_free_tiles o l1 b l2 e :
  tiles o (l1 ++ b :: l2) e -> tiles o (l1 ++ set_state FREE b :: l2) e.
Proof.
  rewrite !tiles_app. intros (m & T1 & T2). exists m. split; [done|].
  inversion T2; subst. by constructor.
Qed.

Lemma set_free_runs acc l1 b l2 :
  is_in_use b = false -> runs acc (l1 ++ set_state FREE b :: l2) = runs acc (l1 ++ b :: l2).
Proof.
  intros Hb. rewrite !runs_app, !runs_cons. f_equal. destruct (runs acc l1) as [m c].
  unfold run_step. by rewrite Hb.
Qed.

(** Freeing the block [b] in the middle and collapsing. *)
Lemma free_block_spec total l1 b l2 :
  wf total (l1 ++ b :: l2) ->
  exists m1 c m2,
    collapsed total l1 (set_state FREE b) l2
      (CollapseFreeBlock (length l1) (<[length l1 := set_state FREE b]> (l1 ++ b :: l2)))
      m1 c m2 /\ wf total (m1 ++ c :: m2).
Proof.
  intros [W1 W2 W3]. rewrite insert_app_r_alt, Nat.sub_diag by lia. cbn [insert list_insert].
  apply separated_app in W3 as (S1 & [_ S2] & _).
  destruct (collapse_spec total l1 (set_state FREE b) l2) as (m1 & c & m2 & C);
    [lia|done|by apply set_free_tiles|done|done|].
  exists m1, c, m2. split; [done|]. destruct C. by split.
Qed.

Lemma collapsed_freed h total l1 b l2 r m1 c m2 :
  collapsed total l1 (set_state FREE b) l2 r m1 c m2 ->
  (is_free b = true \/ is_pending b = true /\ passed h (token b)) ->
  freed h (l1 ++ b :: l2) (m1 ++ c :: m2).
Proof.
  intros C Hb. destruct C as [_ _ _ Cf _ _ _ B1 B2 _]. split.
  - intros x. rewrite !busy_app, busy_cons_free, B1, B2 by done.
    intros [Hx|Hx]%elem_of_app; apply elem_of_app; [by left|right].
    destruct (is_free b) eqn:E; [by rewrite busy_cons_free|].
    rewrite busy_cons_busy by done. by right.
  - intros x. rewrite !busy_app, (busy_cons_free c), B1, B2 by done.
    intros [Hx|Hx]%elem_of_app; [left; apply elem_of_app; by left|].
    destruct (is_free b) eqn:E.
    { rewrite busy_cons_free in Hx by done. left. apply elem_of_app. by right. }
    rewrite busy_cons_busy in Hx by done. apply elem_of_cons in Hx as [->|Hx].
    + right. destruct Hb; [congruence|done].
    + left. apply elem_of_app. by right.
Qed.

Lemma wait_free_spec total l1 b l2 h :
  wf total (l1 ++ b :: l2) -> is_pending b = true -> ready h ->
  exists h' m1 c m2,
    WaitForTokenAndFreeBlock (length l1) (l1 ++ b :: l2) h
      = Ret ((length m1, m1 ++ c :: m2), h') /\
    ready h' /\ (forall u, passed h u -> passed h' u) /\
    wf total (m1 ++ c :: m2) /\ freed h' (l1 ++ b :: l2) (m1 ++ c :: m2) /\
    is_free c = true /\ m1 `prefix_of` l1 /\ m2 `suffix_of` l2 /\
    forall acc, runs acc (m1 ++ c :: m2) = runs acc (l1 ++ b :: l2).
Proof.
  intros W Hp Hr. unfold WaitForTokenAndFreeBlock.
  rewrite list_lookup_middle by done. cbn [must obind]. rewrite Hp. cbn [dcheck obind].
  destruct (wait_passes (token b) h Hr) as (h' & Hw & Hr' & Hps). rewrite Hw. cbn [obind].
  destruct (free_block_spec _ _ _ _ W) as (m1 & c & m2 & C & W').
  exists h', m1, c, m2. rewrite (co_eq _ _ _ _ _ _ _ _ C).
  split_and!; [done|done|intros u; by apply (wait_mono _ _ _ _ Hw)|done| | | | |].
  - eapply collapsed_freed; [done|]. by right.
  - by destruct C.
  - by destruct C.
  - by destruct C.
  - intros acc. rewrite (co_runs _ _ _ _ _ _ _ _ C acc).
    apply set_free_runs. by apply pending_not_free.
Qed.

(** The block [off, off + sz) is a new allocation out of [bs]. *)
Record placed (total sz off : Z) (h : H) (bs bs' : list Block) : Prop := {
  pl_range : 0 <= off /\ off + sz <= total;
  pl_clear b : b ∈ busy bs -> off < offset b + size b -> offset b < off + sz ->
    is_pending b = true /\ passed h (token b);
  pl_kept b : b ∈ busy bs ->
    b ∈ busy bs' \/ (is_pending b = true /\ passed h (token b));
  pl_old b : b ∈ busy bs' ->
    b ∈ busy bs \/ (state b = IN_USE /\ offset b = off /\ size b = sz);
  pl_new : exists b, b ∈ bs' /\ state b = IN_USE /\ offset b = off /\ size b = sz
}.

Lemma alloc_placed total h bs m1 c m2 sz :
  wf total (m1 ++ c :: m2) -> is_free c = true -> 0 < sz <= size c ->
  freed h bs (m1 ++ c :: m2) ->
  exists bs', AllocInBlock (length m1) sz (m1 ++ c :: m2) = Ret (offset c, bs') /\
    wf total bs' /\ placed total sz (offset c) h bs bs'.
Proof.
  intros W Hf Hsz [O K].
  destruct (AllocInBlock_spec _ _ _ _ _ W Hf Hsz) as (bs' & -> & W' & B & New).
  exists bs'. split; [done|]. split; [done|].
  destruct W as [W1 W2 W3]. pose proof (tiles_middle_size _ _ _ _ W2).
  assert (Hb1 : forall b, b ∈ busy (m1 ++ c :: m2) -> b ∈ busy bs').
  { intros b. rewrite B, busy_app, busy_cons_free by done. set_solver. }
  split.
  - lia.
  - intros b Hb H1 H2. destruct (K b Hb) as [Hin%elem_of_busy|]; [|done].
    destruct Hin as [Hin Hbusy]. exfalso.
    assert (Hcin : c ∈ m1 ++ c :: m2) by set_solver.
    pose proof (tiles_elem _ _ _ _ W2 Hin).
    assert (b = c) by (apply (tiles_disjoint _ _ _ _ _ (Z.max (offset c) (offset b)) W2); [done|done|lia..]).
    congruence.
  - intros b [?%Hb1|?]%K; auto.
  - intros b. rewrite B. intros [Hb|[->|Hb]%elem_of_cons]%elem_of_app; [left|by right|left];
      apply O; rewrite busy_app, busy_cons_free by done; set_solver.
  - by exists (new_block sz c).
Qed.

(** The outcome of [Alloc] and of its loops on the blocks [bs]. *)
Definition alloc_result (total sz : Z) (bs : list Block) (h' : H)
    (off : Z) (bs' : list Block) : Prop :=
  wf total bs' /\ ready h' /\
  ((off = kInvalidOffset /\ largest (runs (0, 0) bs) < sz /\ freed h' bs bs') \/
   (sz <= largest (runs (0, 0) bs) /\ placed total sz off h' bs bs')).

Lemma alloc_result_runs total sz h h' bs bs1 off bs' :
  (forall u, passed h u -> passed h' u) -> freed h bs bs1 ->
  runs (0, 0) bs1 = runs (0, 0) bs ->
  alloc_result total sz bs1 h' off bs' -> alloc_result total sz bs h' off bs'.
Proof.
  intros Hm F Hr (W & R & D). unfold alloc_result. rewrite <- Hr.
  split_and!; [done|done|]. destruct D as [(-> & ? & F')|(? & P)]; [left|right].
  - split_and!; [done|done|]. by apply (freed_trans h h' bs bs1).
  - split; [done|]. destruct F as [O K], P as [P1 P2 P3 P4 P5]. split; [done| | | |done].
    + intros b [Hb|[? ?]]%K ? ?; [by apply P2|auto].
    + intros b [Hb|[? ?]]%K; [by apply P3|auto].
    + intros b [Hb|?]%P4; auto.
Qed.

Lemma no_pending_fails total sz bs h :
  wf total bs -> Forall (fun b => is_pending b = false) bs -> small_free sz bs -> 0 < sz ->
  ready h -> alloc_result total sz bs h kInvalidOffset bs.
Proof.
  intros [W1 W2 W3] Hp Hs Hz Hr. split; [done|]. split; [done|]. left.
  split; [done|]. split; [|apply freed_refl].
  apply runs_small; auto; try lia. by apply (tiles_sizes 0 bs total); [done|lia..].
Qed.

Lemma alloc_waiting_spec total sz fuel : forall l1 l2 h,
  wf total (l1 ++ l2) -> ready h -> 0 < sz ->
  small_free sz (l1 ++ l2) -> Forall (fun b => is_pending b = false) l1 ->
  (length l2 <= fuel)%nat ->
  exists off bs' h',
    alloc_waiting fuel (length l1) sz (l1 ++ l2) h = Ret (off, bs', h') /\
    alloc_result total sz (l1 ++ l2) h' off bs' /\ (forall u, passed h u -> passed h' u).
Proof.
  induction fuel as [|fuel IH]; intros l1 l2 h W Hr Hsz Hs Hp Hlen.
  { destruct l2; [|cbn in Hlen; lia]. exists kInvalidOffset, (l1 ++ []), h. cbn.
    rewrite lookup_ge_None_2 by (rewrite app_nil_r; lia). split; [done|]. split; [|done].
    apply no_pending_fails; auto. by rewrite app_nil_r. }
  destruct l2 as [|b l2].
  { exists kInvalidOffset, (l1 ++ []), h. cbn.
    rewrite lookup_ge_None_2 by (rewrite app_nil_r; lia). split; [done|]. split; [|done].
    apply no_pending_fails; auto. by rewrite app_nil_r. }
  cbn [alloc_waiting]. rewrite list_lookup_middle by done.
  cbn in Hlen. destruct (is_pending b) eqn:Eb; cbn [negb].
  - destruct (wait_free_spec _ _ _ _ _ W Eb Hr)
      as (h' & m1 & c & m2 & Hw & Hr' & Hmono & W' & F & Hc & Hpre & Hsuf & Hrun).
    rewrite Hw. cbn [obind]. rewrite list_lookup_middle by done. cbn [must obind].
    case_if.
    + destruct (alloc_placed total h' _ m1 c m2 sz W' Hc ltac:(lia) F) as (bs' & Ha & Wa & Pa).
      rewrite Ha. cbn [obind]. eexists _, _, _. split; [done|]. split; [|done].
      split; [done|]. split; [done|]. right. split; [|done].
      rewrite <- Hrun. etransitivity; [exact E|].
      apply (largest_fit _ _ _ W'); [set_solver|by apply free_not_in_use].
    + assert (Ec : m1 ++ c :: m2 = (m1 ++ [c]) ++ m2) by (by rewrite <- app_assoc).
      assert (El : S (length m1) = length (m1 ++ [c])) by (rewrite length_app; cbn; lia).
      rewrite Ec, El in *.
      apply Forall_app in Hs as [Hs1 Hs2]. apply Forall_cons in Hs2 as [_ Hs2].
      assert (Hl : (length m2 <= length l2)%nat) by (by apply suffix_length).
      destruct (IH (m1 ++ [c]) m2 h') as (off & bs' & h'' & Hx & Hres & Hmono'); auto.
      * apply Forall_app; split; [apply Forall_app; split|].
        -- by apply (small_prefix _ _ l1).
        -- constructor; [intros _; lia|constructor].
        -- by apply (small_suffix _ _ l2).
      * apply Forall_app. split; [|constructor; [|constructor]].
        -- destruct Hpre as [k ->]. by apply Forall_app in Hp as [? _].
        -- destruct (is_pending c) eqn:Ep; [|done]. apply pending_not_free in Ep as []. congruence.
      * lia.
      * exists off, bs', h''. split; [done|]. split; [|auto].
        eapply alloc_result_runs; [exact Hmono'|exact F|by rewrite Hrun|done].
  - assert (Ec : l1 ++ b :: l2 = (l1 ++ [b]) ++ l2) by (by rewrite <- app_assoc).
    assert (El : S (length l1) = length (l1 ++ [b])) by (rewrite length_app; cbn; lia).
    rewrite Ec, El in *. apply IH; auto; [|lia].
    apply Forall_app. split; [done|]. by constructor.
Qed.

Lemma fenced_Alloc_spec total bs h sz :
  wf total bs -> ready h -> 0 <= sz ->
  exists off bs' h', Alloc sz (mk bs) h = Ret (off, mk bs', h') /\
    alloc_result total (Z.max 1 sz) bs h' off bs' /\ (forall u, passed h u -> passed h' u).
Proof.
  intros W Hr Hz. unfold Alloc. cbn [blocks_].
  replace (if sz =? 0 then 1 else sz) with (Z.max 1 sz) by (case_if; lia).
  destruct (first_fit (Z.max 1 sz) bs) as [i|] eqn:E.
  - apply first_fit_Some in E as (l1 & b & l2 & -> & -> & Hf & Hs).
    destruct (alloc_placed total h _ l1 b l2 (Z.max 1 sz) W Hf ltac:(lia) (freed_refl _ _))
      as (bs' & Ha & Wa & Pa).
    rewrite Ha. cbn [obind]. eexists _, _, _. split; [done|]. split; [|done].
    split; [done|]. split; [done|]. right. split; [|done].
    etransitivity; [exact Hs|].
    apply (largest_fit _ _ _ W); [set_solver|by apply free_not_in_use].
  - apply first_fit_None in E.
    destruct (alloc_waiting_spec total (Z.max 1 sz) (length bs) [] bs h)
      as (off & bs' & h' & Ha & Hres & Hm); [done|done|lia|done|by constructor|lia|].
    cbn in Ha. rewrite Ha. cbn [obind]. by eexists _, _, _.
Qed.

(** What waiting for tokens preserves, [Alloc] preserves. *)
Lemma Alloc_preserves (R : H -> H -> Prop) `{!PreOrder R} sz s h off s' h' :
  (forall t h1 h2, WaitForToken t h1 = Ret h2 -> R h1 h2) ->
  Alloc sz s h = Ret (off, s', h') -> R h h'.
Proof.
  intros HR. unfold Alloc.
  assert (Hw : forall fuel i n bs h0 r h1, alloc_waiting fuel i n bs h0 = Ret (r, h1) -> R h0 h1).
  { induction fuel as [|fuel IH]; intros i n bs h0 r h1; cbn [alloc_waiting];
      (destruct (bs !! i) as [b|] eqn:Eb; [|by intros [= <- <-]]); [done|].
    case_if; [apply IH|]. intros Hx. inv_outcome. unfold WaitForTokenAndFreeBlock in *.
    inv_outcome. etransitivity; [by eapply HR|].
    destruct (n <=? _) in Hx; inv_outcome; [done|]. by eapply IH. }
  destruct (first_fit _ _); intros Hx; inv_outcome; [done|]. by eapply Hw.
Qed.

Lemma GetLargestFreeSize_fit bs : forall m n,
  n <= fold_left (fun m b => if is_free b then Z.max m (size b) else m) bs m -> m < n ->
  exists b, b ∈ bs /\ is_free b = true /\ n <= size b.
Proof.
  induction bs as [|b bs IH]; intros m n Hn Hm; cbn in Hn; [lia|].
  destruct (is_free b) eqn:E.
  - destruct (decide (n <= size b)); [exists b; split; [set_solver|done]|].
    destruct (IH _ _ Hn ltac:(lia)) as (c & ? & ?). exists c. split; [set_solver|done].
  - destruct (IH _ _ Hn Hm) as (c & ? & ?). exists c. split; [set_solver|done].
Qed.

(** A free block that is large enough makes [Alloc] succeed. *)
Lemma Alloc_free_fit total bs h sz :
  wf total bs -> ready h -> 0 < sz -> sz <= GetLargestFreeSize (mk bs) ->
  exists off bs' h', Alloc sz (mk bs) h = Ret (off, mk bs', h') /\
    wf total bs' /\ ready h' /\ off <> kInvalidOffset /\ placed total sz off h' bs bs' /\
    (forall u, passed h u -> passed h' u).
Proof.
  intros W Hr Hsz Hl. unfold GetLargestFreeSize in Hl. cbn in Hl.
  apply GetLargestFreeSize_fit in Hl as (b & Hb & Hf & Hle); [|lia].
  destruct (fenced_Alloc_spec total bs h sz W Hr) as (off & bs' & h' & Ha & (W' & Hr' & D) & Hm); [lia|].
  rewrite Z.max_r in D by lia. exists off, bs', h'.
  pose proof (largest_fit _ _ _ W Hb (free_not_in_use _ Hf)).
  destruct D as [(? & ? & _)|[_ P]]; [lia|].
  split_and!; try done. destruct P as [P _ _ _ _], W as [W _ _]. unfold kInvalidOffset. lia.
Qed.

(** ** [FreeUnused] *)

Definition kept_pending (last_token : Z) (b : Block) : bool :=
  negb (is_pending b && (token b <=? last_token)).

(** Iterations left before the loop passes the blocks [bs]. *)
Definition unused_measure (bs : list Block) : nat :=
  (length bs + length (filter (fun b => is_pending b = true) bs))%nat.

Lemma unused_measure_suffix m l :
  m `suffix_of` l -> (unused_measure m <= unused_measure l)%nat.
Proof. intros [k ->]. unfold unused_measure. rewrite filter_app, !length_app. lia. Qed.

Lemma free_unused_spec total last fuel : forall l1 l2 h,
  wf total (l1 ++ l2) -> ready h -> (forall t, t <= last -> passed h t) ->
  Forall (fun b => kept_pending last b = true) l1 ->
  (unused_measure l2 <= fuel)%nat ->
  exists bs', free_unused fuel (length l1) last (l1 ++ l2) = Ret bs' /\
    wf total bs' /\ freed h (l1 ++ l2) bs' /\
    Forall (fun b => kept_pending last b = true) bs' /\
    runs (0, 0) bs' = runs (0, 0) (l1 ++ l2).
Proof.
  induction fuel as [|fuel IH]; intros l1 l2 h W Hr Hps Hk Hm.
  - destruct l2; [|unfold unused_measure in Hm; cbn in Hm; lia]. exists (l1 ++ []). cbn.
    rewrite lookup_ge_None_2, app_nil_r in * by (rewrite app_nil_r; lia).
    split_and!; [done|done|apply freed_refl|done|done].
  - destruct l2 as [|b l2].
    { exists (l1 ++ []). cbn.
      rewrite lookup_ge_None_2, app_nil_r in * by (rewrite app_nil_r; lia).
      split_and!; [done|done|apply freed_refl|done|done]. }
    cbn [free_unused]. rewrite list_lookup_middle by done.
    destruct (is_pending b && (token b <=? last)) eqn:E.
    + pose proof E as E'. zb2p.
      destruct (free_block_spec _ _ _ _ W) as (m1 & c & m2 & C & W').
      rewrite (co_eq _ _ _ _ _ _ _ _ C).
      assert (Hf : freed h (l1 ++ b :: l2) (m1 ++ c :: m2))
        by (eapply collapsed_freed; [done|right; auto]).
      destruct (IH m1 (c :: m2) h) as (bs' & -> & W'' & F & K & R); auto.
      * destruct C as [_ _ _ _ _ [k ->] _ _ _ _]. by apply Forall_app in Hk as [? _].
      * pose proof (unused_measure_suffix _ _ (co_suf _ _ _ _ _ _ _ _ C)) as Hms.
        pose proof (suffix_length _ _ (co_suf _ _ _ _ _ _ _ _ C)).
        pose proof (co_free _ _ _ _ _ _ _ _ C) as Hcf.
        assert (Hcp : is_pending c <> true).
        { intros Hcp. apply pending_not_free in Hcp as []. congruence. }
        unfold unused_measure in *. rewrite filter_cons_True in Hm by done.
        rewrite filter_cons_False by done. cbn in *. lia.
      * exists bs'. split; [done|]. split; [done|].
        split; [eapply freed_trans; [|exact Hf|exact F]; auto|]. split; [done|].
        rewrite R, (co_runs _ _ _ _ _ _ _ _ C). apply set_free_runs. by apply pending_not_free.
    + assert (Ec : l1 ++ b :: l2 = (l1 ++ [b]) ++ l2) by (by rewrite <- app_assoc).
      assert (El : S (length l1) = length (l1 ++ [b])) by (rewrite length_app; cbn; lia).
      rewrite Ec, El in *. apply IH; auto.
      * apply Forall_app. split; [done|]. constructor; [|constructor].
        unfold kept_pending. by rewrite E.
      * unfold unused_measure in *. destruct (is_pending b) eqn:Eb.
        -- rewrite filter_cons_True in Hm by done. cbn in Hm. lia.
        -- rewrite filter_cons_False in Hm by congruence. cbn in Hm. lia.
Qed.

Lemma unused_measure_le bs : (unused_measure bs <= 2 * length bs)%nat.
Proof. unfold unused_measure. pose proof (length_filter (fun b => is_pending b = true) bs). lia. Qed.

Lemma FreeUnused_spec total bs h :
  wf total bs -> ready h ->
  exists bs', FreeUnused (mk bs) h = Ret (mk bs') /\ wf total bs' /\ freed h bs bs' /\
    Forall (fun b => kept_pending (last_token_read h) b = true) bs' /\
    runs (0, 0) bs' = runs (0, 0) bs.
Proof.
  intros W Hr. unfold FreeUnused. cbn [blocks_].
  destruct (free_unused_spec total (last_token_read h) (2 * length bs) [] bs h)
    as (bs' & Ha & Hb); [done|done| |by constructor|apply unused_measure_le|].
  - intros t Ht. by apply read_passed.
  - cbn [app length] in Ha. rewrite Ha. cbn. by exists bs'.
Qed.

End Laws.

(** ** [Free] and [FreePendingToken] *)

Lemma lower_bound_tiles o bs e l1 b l2 :
  tiles o bs e -> bs = l1 ++ b :: l2 -> lower_bound (offset b) bs = length l1.
Proof.
  revert o bs. induction l1 as [|c l1 IH]; intros o bs Ht ->; cbn.
  - by rewrite Z.ltb_irrefl.
  - inversion Ht as [|? ? ? ? Eo Hs Ht']; subst.
    assert (Hb : b ∈ l1 ++ b :: l2) by set_solver.
    pose proof (tiles_elem _ _ _ _ Ht' Hb).
    case_if; [|lia]. f_equal. by apply (IH _ _ Ht').
Qed.

Lemma GetBlockByOffset_spec total l1 b l2 :
  wf total (l1 ++ b :: l2) ->
  GetBlockByOffset (offset b) (l1 ++ b :: l2) = Ret (length l1, b).
Proof.
  intros W. unfold GetBlockByOffset.
  rewrite (lower_bound_tiles 0 _ total l1 b l2), list_lookup_middle by (done || apply W).
  cbn. by rewrite Z.eqb_refl.
Qed.

Lemma fenced_Free_spec total l1 b l2 :
  wf total (l1 ++ b :: l2) -> is_free b = false ->
  exists bs', Free (offset b) (mk (l1 ++ b :: l2)) = Ret (mk bs') /\ wf total bs' /\
    busy bs' = busy l1 ++ busy l2.
Proof.
  intros W Hf. unfold Free. cbn [blocks_].
  rewrite (GetBlockByOffset_spec _ _ _ _ W). cbn [obind]. rewrite Hf. cbn [negb dcheck obind].
  destruct (free_block_spec _ _ _ _ W) as (m1 & c & m2 & C & W').
  rewrite (co_eq _ _ _ _ _ _ _ _ C). cbn [snd].
  exists (m1 ++ c :: m2). split; [done|]. split; [done|].
  destruct C as [_ _ _ Cf _ _ _ B1 B2 _]. by rewrite busy_app, busy_cons_free, B1, B2.
Qed.

Lemma set_busy_wf total l1 b l2 b' :
  wf total (l1 ++ b :: l2) -> offset b' = offset b -> size b' = size b ->
  is_free b' = false -> wf total (l1 ++ b' :: l2).
Proof.
  intros [W1 W2 W3] Ho Hs Hf. split; [done| |].
  - rewrite !tiles_app in *. destruct W2 as (m & T1 & T2). exists m. split; [done|].
    inversion T2; subst. constructor; rewrite ?Hs; done.
  - apply separated_app in W3 as (S1 & [_ S2] & _). apply separated_app. cbn.
    rewrite Hf, andb_false_r. by split_and!.
Qed.

Lemma fenced_FreePendingToken_spec total l1 b l2 tok :
  wf total (l1 ++ b :: l2) ->
  let b' := mkBlock FREE_PENDING_TOKEN (offset b) (size b) tok in
  FreePendingToken (offset b) tok (mk (l1 ++ b :: l2)) = Ret (mk (l1 ++ b' :: l2)) /\
  wf total (l1 ++ b' :: l2).
Proof.
  intros W b'. unfold FreePendingToken. cbn [blocks_].
  rewrite (GetBlockByOffset_spec _ _ _ _ W). cbn [obind].
  rewrite insert_app_r_alt, Nat.sub_diag by lia. cbn [insert list_insert].
  split; [done|]. by apply (set_busy_wf total l1 b).
Qed.

(** The other busy blocks around a block. *)
Lemma busy_split_ne total l1 b l2 c :
  wf total (l1 ++ b :: l2) -> c ∈ busy l1 \/ c ∈ busy l2 -> c <> b.
Proof.
  intros [_ W2 _] Hc ->. apply tiles_app in W2 as (m & T1 & T2).
  inversion T2 as [|? ? ? ? Eo Hs T3]; subst.
  destruct Hc as [[Hc _]%elem_of_busy|[Hc _]%elem_of_busy].
  - pose proof (tiles_elem _ _ _ _ T1 Hc). lia.
  - pose proof (tiles_elem _ _ _ _ T3 Hc). lia.
Qed.

Lemma Free_busy total bs b :
  wf total bs -> b ∈ bs -> is_free b = false ->
  exists bs', Free (offset b) (mk bs) = Ret (mk bs') /\ wf total bs' /\
    forall c, c ∈ busy bs' <-> c ∈ busy bs /\ c <> b.
Proof.
  intros W (l1 & l2 & ->)%list_elem_of_split Hf.
  destruct (fenced_Free_spec _ _ _ _ W Hf) as (bs' & Ha & W' & B).
  exists bs'. split; [done|]. split; [done|]. intros c.
  pose proof (busy_split_ne _ _ _ _ c W).
  rewrite B, busy_app, busy_cons_busy, !elem_of_app, elem_of_cons by done. naive_solver.
Qed.

Lemma FreePendingToken_busy total bs b tok :
  wf total bs -> b ∈ bs -> is_free b = false ->
  exists bs', FreePendingToken (offset b) tok (mk bs) = Ret (mk bs') /\ wf total bs' /\
    forall c, c ∈ busy bs' <->
      c = mkBlock FREE_PENDING_TOKEN (offset b) (size b) tok \/ (c ∈ busy bs /\ c <> b).
Proof.
  intros W (l1 & l2 & ->)%list_elem_of_split Hf.
  destruct (fenced_FreePendingToken_spec _ _ _ _ tok W) as [Ha W'].
  eexists. split; [exact Ha|]. split; [done|]. intros c.
  pose proof (busy_split_ne _ _ _ _ c W).
  rewrite !busy_app, !busy_cons_busy, !elem_of_app, !elem_of_cons by done. naive_solver.
Qed.

Lemma check_pairs_tiles total bs : forall o,
  tiles o bs total -> separated bs -> 0 <= o -> total < 2 ^ 32 -> check_pairs bs = true.
Proof.
  induction bs as [|b bs IH]; intros o Ht Hsep Ho Htot; [done|].
  destruct bs as [|c bs]; [done|].
  inversion Ht as [|? ? ? ? Eo Hs Ht']; subst.
  pose proof (IH _ Ht' (proj2 Hsep) ltac:(lia) Htot) as Hrec.
  inversion Ht' as [|? ? ? ? Eo' Hs' Ht'']; subst. pose proof (tiles_le _ _ _ Ht'').
  destruct Hsep as [Hsep _]. cbn [starts_free] in Hsep.
  change (check_pairs (b :: c :: bs)) with
    (if offset c <=? offset b then false
     else if negb (offset c =? u32 (offset b + size b)) then false
     else if is_free b && is_free c then false else check_pairs (c :: bs)).
  rewrite Hrec, Hsep, u32_small, Eo', Z.eqb_refl by lia. cbn [negb].
  case_if; [lia|done].
Qed.

Lemma wf_consistent total bs : wf total bs -> CheckConsistency (mk bs) = true.
Proof.
  intros [W1 W2 W3]. unfold CheckConsistency. cbn [blocks_].
  destruct bs as [|b bs]; [inversion W2; lia|].
  apply (check_pairs_tiles total _ 0 W2 W3); lia.
Qed.

(** [InUse] says whether some block is busy. *)
Lemma InUse_busy total bs : wf total bs -> InUse (mk bs) = true <-> busy bs <> [].
Proof.
  intros [W1 W2 W3]. unfold InUse. cbn [blocks_].
  destruct bs as [|b [|c bs]]; [inversion W2; lia| |].
  - cbn -[is_free busy]. destruct (is_free b) eqn:E.
    + by rewrite busy_cons_free.
    + by rewrite busy_cons_busy.
  - cbn -[is_free busy]. split; [|done]. intros _. destruct W3 as [W3 _].
    destruct (is_free b) eqn:E; [|by rewrite busy_cons_busy].
    rewrite busy_cons_free by done. by rewrite busy_cons_busy.
Qed.

(** ** Reachable allocators *)

Section Properties.
Context {H : Type} `{FL : FenceLaws H}.

Inductive step : t * H -> t * H -> Prop :=
| step_alloc sz off s h s' h' :
    is_u32 sz -> Alloc sz s h = Ret (off, s', h') -> step (s, h) (s', h')
| step_free off s h s' : Free off s = Ret s' -> step (s, h) (s', h)
| step_free_pending off tok s h s' : FreePendingToken off tok s = Ret s' -> step (s, h) (s', h)
| step_free_unused s h s' : FreeUnused s h = Ret s' -> step (s, h) (s', h)
| step_other s h h' : ready h -> ready h' -> step (s, h) (s, h').

Lemma GetBlockByOffset_inv off bs i b :
  GetBlockByOffset off bs = Ret (i, b) ->
  exists l1 l2, bs = l1 ++ b :: l2 /\ i = length l1 /\ offset b = off.
Proof.
  unfold GetBlockByOffset. intros Hg. destruct (bs !! _) as [c|] eqn:E; [|done].
  cbn [must obind] in Hg. destruct (offset c =? off) eqn:Eo; [|done]. cbn in Hg. simplify_eq.
  exists (take (lower_bound off bs) bs), (drop (S (lower_bound off bs)) bs).
  split_and!; [by rewrite take_drop_middle| |lia].
  rewrite length_take. apply lookup_lt_Some in E. lia.
Qed.

Lemma step_wf total x y :
  step x y -> wf total (blocks_ (fst x)) -> ready (snd x) ->
  wf total (blocks_ (fst y)) /\ ready (snd y).
Proof.
  intros Hs W Hr. destruct Hs as [sz off [bs] h s' h' Hz Ha|off [bs] h s' Ha
    |off tok [bs] h s' Ha|[bs] h s' Ha|s h h' Hr0 Hr1]; cbn [fst snd blocks_] in *.
  - destruct (fenced_Alloc_spec total bs h sz W Hr) as (off' & bs' & h1 & Ha' & (W' & R' & _) & _);
      [unfold is_u32 in Hz; lia|].
    rewrite Ha in Ha'. by simplify_eq.
  - split; [|done]. pose proof Ha as Ha0. unfold Free in Ha0. inv_outcome.
    apply GetBlockByOffset_inv in H0 as (l1 & l2 & E & -> & <-). cbn in E. subst bs.
    apply negb_true_iff in H1.
    destruct (fenced_Free_spec total _ _ _ W H1) as (bs' & Ha' & W' & _).
    rewrite Ha in Ha'. by injection Ha' as ->.
  - split; [|done]. pose proof Ha as Ha0. unfold FreePendingToken in Ha0. inv_outcome.
    apply GetBlockByOffset_inv in H0 as (l1 & l2 & E & -> & <-). cbn in E. subst bs.
    destruct (fenced_FreePendingToken_spec total _ _ _ tok W) as [Ha' W'].
    rewrite Ha in Ha'. injection Ha' as Ha'. cbn in Ha' |- *. by rewrite Ha'.
  - split; [|done].
    destruct (FreeUnused_spec total bs h W Hr) as (bs' & Ha' & W' & _).
    rewrite Ha in Ha'. by injection Ha' as ->.
  - done.
Qed.

Lemma steps_wf total x y :
  rtc step x y -> wf total (blocks_ (fst x)) -> ready (snd x) ->
  wf total (blocks_ (fst y)) /\ ready (snd y).
Proof.
  induction 1 as [|x y z Hs _ IH]; [done|]. intros W Hr.
  destruct (step_wf total _ _ Hs W Hr). by apply IH.
Qed.

(** C31: from a fresh allocator of [total] bytes, whatever sequence of
    allocations, frees, deferred frees, sweeps and helper activity follows,
    [Alloc] terminates without a failed assertion; it either reports
    [kInvalidOffset], or returns a range inside the buffer that overlaps no
    block in use and no pending block whose token has not passed, keeps every
    other such block and adds only the new one. *)
Theorem fenced_alloc_safe (total sz : Z) (h0 h : H) (s : t) :
  0 < total < 2 ^ 32 -> ready h0 -> is_u32 sz ->
  rtc step (init total, h0) (s, h) ->
  exists off s' h', Alloc sz s h = Ret (off, s', h') /\
    (off = kInvalidOffset /\ freed h' (blocks_ s) (blocks_ s') \/
     placed total (Z.max 1 sz) off h' (blocks_ s) (blocks_ s')).
Proof.
  intros Ht Hr0 Hz Hst.
  destruct (steps_wf total _ _ Hst (fenced_wf_init _ Ht) Hr0) as [W Hr]. cbn in W, Hr.
  destruct s as [bs]. destruct (fenced_Alloc_spec total bs h sz W Hr) as (off & bs' & h' & Ha & R & _);
    [unfold is_u32 in Hz; lia|].
  exists off, (mk bs'), h'. split; [done|].
  destruct R as (_ & _ & [(? & _ & ?)|[_ ?]]); [by left|by right].
Qed.

(** [Alloc] fails exactly when the request exceeds what
    [GetLargestFreeOrPendingSize] reports, so that waiting for pending blocks
    is never given up while it could help. *)
Theorem fenced_alloc_complete (total sz : Z) (h : H) (s : t) :
  wf total (blocks_ s) -> ready h -> is_u32 sz ->
  exists off s' h', Alloc sz s h = Ret (off, s', h') /\
    (off = kInvalidOffset <-> GetLargestFreeOrPendingSize s < Z.max 1 sz).
Proof.
  intros W Hr Hz. destruct s as [bs]. cbn in W.
  destruct (fenced_Alloc_spec total bs h sz W Hr) as (off & bs' & h' & Ha & R & _);
    [unfold is_u32 in Hz; lia|].
  exists off, (mk bs'), h'. split; [done|]. rewrite largest_runs.
  destruct R as (_ & _ & [(? & ? & _)|[? P]]); [done|].
  destruct P as [P1 _ _ _ _], W as [W1 _ _]. unfold kInvalidOffset. lia.
Qed.

(** Every allocator state that the operations can reach passes
    [CheckConsistency]. *)
Theorem fenced_consistent (total : Z) (h0 h : H) (s : t) :
  0 < total < 2 ^ 32 -> ready h0 -> rtc step (init total, h0) (s, h) ->
  CheckConsistency s = true.
Proof.
  intros Ht Hr0 Hst. destruct (steps_wf total _ _ Hst (fenced_wf_init _ Ht) Hr0) as [W Hr].
  destruct s. by apply (wf_consistent total).
Qed.

(** [FreeUnused] terminates; afterwards no pending block has a token that
    has been read, nothing else that was busy is lost, and the largest block
    [Alloc] could obtain is unchanged. *)
Theorem fenced_free_unused (total : Z) (h : H) (s : t) :
  wf total (blocks_ s) -> ready h ->
  exists s', FreeUnused s h = Ret s' /\
    (forall b, b ∈ blocks_ s' -> is_pending b = true -> last_token_read h < token b) /\
    freed h (blocks_ s) (blocks_ s') /\
    GetLargestFreeOrPendingSize s' = GetLargestFreeOrPendingSize s.
Proof.
  intros W Hr. destruct s as [bs]. cbn in W.
  destruct (FreeUnused_spec total bs h W Hr) as (bs' & Ha & W' & F & K & R).
  exists (mk bs'). split; [done|]. split_and!; [|done|by rewrite !largest_runs, R].
  intros b Hb Hp. rewrite Forall_forall in K. specialize (K b Hb).
  unfold kept_pending in K. rewrite Hp in K. cbn in K. zb2p. done.
Qed.

(** Giving back an allocated block never trips an assertion, and removes
    exactly that block from the busy ones. *)
Theorem fenced_free (total : Z) (s : t) (b : Block) :
  wf total (blocks_ s) -> b ∈ blocks_ s -> is_free b = false ->
  exists s', Free (offset b) s = Ret s' /\ wf total (blocks_ s') /\
    forall c, c ∈ busy (blocks_ s') <-> c ∈ busy (blocks_ s) /\ c <> b.
Proof.
  intros W Hb Hf. destruct s as [bs]. destruct (Free_busy total bs b W Hb Hf) as (bs' & ? & ? & ?).
  by exists (mk bs').
Qed.

End Properties.

(** ** Concrete runs, against the service that answers at once *)

(** 16 and 48 bytes of a 64-byte buffer, the first freed with token 3. *)
Definition sample : t :=
  mk [mkBlock FREE_PENDING_TOKEN 0 16 3; mkBlock IN_USE 16 48 0].

Lemma sample_reachable : rtc step (init 64, 0) (sample, 0).
Proof.
  eapply rtc_l; [by apply (step_alloc 16 0)|]. eapply rtc_l; [by apply (step_alloc 48 16)|].
  eapply rtc_l; [by apply (step_free_pending 0 3)|]. apply rtc_refl.
Qed.

Lemma sample_wf : wf 64 (blocks_ sample).
Proof. split; [lia| |by vm_compute]. repeat (constructor; cbn; try lia). Qed.

(** The service reads token 3 only when [Alloc] asks for it. *)
Lemma fenced_alloc_safe_witness :
  rtc step (init 64, 0) (sample, 0) /\
  exists off s' h', Alloc 10 sample 0 = Ret (off, s', h') /\
    (off = kInvalidOffset /\ freed h' (blocks_ sample) (blocks_ s') \/
     placed 64 10 off h' (blocks_ sample) (blocks_ s')).
Proof.
  split; [apply sample_reachable|].
  apply (fenced_alloc_safe 64 10 0 0 sample); [lia|done|unfold is_u32; lia|apply sample_reachable].
Defined.

Lemma fenced_alloc_complete_witness :
  exists off s' h', Alloc 17 sample 0 = Ret (off, s', h') /\
    (off = kInvalidOffset <-> GetLargestFreeOrPendingSize sample < 17).
Proof.
  apply (fenced_alloc_complete 64 17 0 sample); [apply sample_wf|done|unfold is_u32; lia].
Defined.

Lemma fenced_consistent_witness : CheckConsistency sample = true.
Proof. apply (fenced_consistent 64 0 0); [lia|done|apply sample_reachable]. Defined.

Lemma fenced_free_unused_witness :
  exists s', FreeUnused sample 3 = Ret s' /\
    (forall b, b ∈ blocks_ s' -> is_pending b = true -> last_token_read 3 < token b) /\
    freed 3 (blocks_ sample) (blocks_ s') /\
    GetLargestFreeOrPendingSize s' = GetLargestFreeOrPendingSize sample.
Proof. apply (fenced_free_unused 64 3 sample); [apply sample_wf|done]. Defined.

Lemma fenced_free_witness :
  exists s', Free 16 sample = Ret s' /\ wf 64 (blocks_ s') /\
    forall c, c ∈ busy (blocks_ s') <-> c ∈ busy (blocks_ sample) /\ c <> mkBlock IN_USE 16 48 0.
Proof.
  apply (fenced_free 64 sample (mkBlock IN_USE 16 48 0)); [apply sample_wf| |done].
  cbn. set_solver.
Defined.

End FencedAllocator.
