(* ===== verification/GpuMappedMemory.v ===== *)
(** Mapped memory, [gpu/command_buffer/client/mapped_memory.cc]: shared-memory
    chunks, each with a fenced allocator, from which clients take buffers that
    the service can read. *)
From S2P Require Import Prelude.
From S2P Require Import GpuFence.
From S2P Require Import GpuFencedAllocator.

(** ** Transfer buffers

    [Buffer] of [common/buffer.h]; addresses are integers and [NULL] is 0. *)
Record Buffer := mkBuffer { ptr : Z; bsize : Z }.

Definition NULL : Z := 0.

(** The part of the [CommandBuffer] interface that owns transfer buffers,
    reached through the helper. *)
Class TransferBuffers (H : Type) := {
  CreateTransferBuffer : Z -> Z -> H -> Z * H;
  GetTransferBuffer : Z -> H -> Buffer;
  DestroyTransferBuffer : Z -> H -> H
}.

(** Its promise: live buffers do not overlap, a created buffer is new, and
    neither creating and destroying buffers nor waiting for tokens disturbs the
    others. *)
Class TransferBufferLaws (H : Type) `{!FenceHelper H, !FenceLaws H, !TransferBuffers H} := {
  live : H -> Z -> Buffer -> Prop;
  live_bounds : forall h i b, live h i b -> 0 < ptr b /\ 0 < bsize b < 2 ^ 32;
  live_disjoint : forall h i j b c, live h i b -> live h j c -> i <> j ->
    ptr b + bsize b <= ptr c \/ ptr c + bsize c <= ptr b;
  create_spec : forall h sz req id h', ready h -> 0 < sz < 2 ^ 32 ->
    CreateTransferBuffer sz req h = (id, h') ->
    ready h' /\ (forall u, passed h u -> passed h' u) /\
    (forall i b, live h i b -> live h' i b) /\
    (id = -1 \/
     (forall b, ~ live h id b) /\ bsize (GetTransferBuffer id h') = sz /\
     live h' id (GetTransferBuffer id h'));
  destroy_spec : forall h id, ready h ->
    ready (DestroyTransferBuffer id h) /\
    (forall u, passed h u -> passed (DestroyTransferBuffer id h) u) /\
    (forall i b, live h i b -> i <> id -> live (DestroyTransferBuffer id h) i b);
  wait_live : forall t h h' i b, WaitForToken t h = Ret h' -> live h i b -> live h' i b
}.

Module MappedMemory.
Import FencedAllocator.

(** ** Data *)

(** [FencedAllocatorWrapper]: the allocator with pointers for offsets. *)
Record wrapper := mkWrapper { allocator_ : FencedAllocator.t; base_ : Z }.

Definition GetPointer (w : wrapper) (off : Z) : Z :=
  if off =? kInvalidOffset then NULL else base_ w + off.

Definition GetOffset (w : wrapper) (pointer : Z) : Z :=
  if pointer =? NULL then kInvalidOffset else u32 (pointer - base_ w).

Record MemoryChunk := mkChunk { shm_id_ : Z; shm_ : Buffer; wrapper_ : wrapper }.

Definition newChunk (id : Z) (shm : Buffer) : MemoryChunk :=
  mkChunk id shm (mkWrapper (init (u32 (bsize shm))) (ptr shm)).

Definition blocks (c : MemoryChunk) : list Block := blocks_ (allocator_ (wrapper_ c)).

Definition set_allocator (a : FencedAllocator.t) (c : MemoryChunk) : MemoryChunk :=
  mkChunk (shm_id_ c) (shm_ c) (mkWrapper a (base_ (wrapper_ c))).

Definition IsInChunk (pointer : Z) (c : MemoryChunk) : bool :=
  (ptr (shm_ c) <=? pointer) && (pointer <? ptr (shm_ c) + bsize (shm_ c)).

(** [MappedMemoryManager]. *)
Record t := mk { chunk_size_multiple_ : Z; chunks_ : list MemoryChunk }.

Definition init_manager : t := mk 1 [].

(** ** Operations *)

(** [MemoryChunk::Free] and [FencedAllocatorWrapper::Free]. *)
Definition chunk_free (pointer : Z) (c : MemoryChunk) : outcome MemoryChunk :=
  check! negb (pointer =? NULL);
  let! a := FencedAllocator.Free (GetOffset (wrapper_ c) pointer) (allocator_ (wrapper_ c)) in
  Ret (set_allocator a c).

Definition chunk_free_pending (pointer token : Z) (c : MemoryChunk) : outcome MemoryChunk :=
  check! negb (pointer =? NULL);
  let! a := FencedAllocator.FreePendingToken (GetOffset (wrapper_ c) pointer) token
              (allocator_ (wrapper_ c)) in
  Ret (set_allocator a c).

(** The search both [Free] and [FreePendingToken] start with. *)
Fixpoint on_chunk (pointer : Z) (f : MemoryChunk -> outcome MemoryChunk)
    (cs : list MemoryChunk) : outcome (list MemoryChunk) :=
  match cs with
  | [] => Crash
  | c :: cs =>
      if IsInChunk pointer c then let! c' := f c in Ret (c' :: cs)
      else let! cs' := on_chunk pointer f cs in Ret (c :: cs')
  end.

Definition Free (pointer : Z) (m : t) : outcome t :=
  let! cs := on_chunk pointer (chunk_free pointer) (chunks_ m) in
  Ret (mk (chunk_size_multiple_ m) cs).

Definition FreePendingToken (pointer token : Z) (m : t) : outcome t :=
  let! cs := on_chunk pointer (chunk_free_pending pointer token) (chunks_ m) in
  Ret (mk (chunk_size_multiple_ m) cs).

(** [((size + chunk_size_multiple_ - 1) / chunk_size_multiple_) *
    chunk_size_multiple_] in 32 bits. *)
Definition chunk_size (sz multiple : Z) : Z :=
  u32 (u32 (sz + multiple - 1) / multiple * multiple).

Section Ops.
Context {H : Type} `{!FenceHelper H, !TransferBuffers H}.

Definition chunk_free_unused (c : MemoryChunk) (h : H) : outcome MemoryChunk :=
  let! a := FencedAllocator.FreeUnused (allocator_ (wrapper_ c)) h in
  Ret (set_allocator a c).

(** [MemoryChunk::Alloc]: the pointer, or [NULL]. *)
Definition chunk_alloc (sz : Z) (c : MemoryChunk) (h : H) : outcome (Z * MemoryChunk * H) :=
  let! '(r, h') := FencedAllocator.Alloc sz (allocator_ (wrapper_ c)) h in
  let '(off, a) := r in
  Ret (GetPointer (wrapper_ c) off, set_allocator a c, h').

(** Pointer, shared memory id and offset of an allocation. *)
Record block_ref := mkRef { mem : Z; shm_id : Z; shm_offset : Z }.

Definition alloc_from (sz : Z) (c : MemoryChunk) (h : H)
    : outcome (block_ref * MemoryChunk * H) :=
  let! '(r, h') := chunk_alloc sz c h in
  let '(p, c') := r in
  check! negb (p =? NULL);
  Ret (mkRef p (shm_id_ c') (GetOffset (wrapper_ c') p), c', h').

(** The loop over the chunks of [Alloc]. *)
Fixpoint alloc_in_chunks (sz : Z) (cs : list MemoryChunk) (h : H)
    : outcome (option block_ref * list MemoryChunk * H) :=
  match cs with
  | [] => Ret (None, [], h)
  | c :: cs =>
      let! c := chunk_free_unused c h in
      if sz <=? GetLargestFreeSize (allocator_ (wrapper_ c)) then
        let! '(r, h') := alloc_from sz c h in
        let '(ref, c') := r in
        Ret (Some ref, c' :: cs, h')
      else
        let! '(r, h') := alloc_in_chunks sz cs h in
        let '(o, cs') := r in
        Ret (o, c :: cs', h')
  end.

Definition Alloc (sz : Z) (m : t) (h : H) : outcome (option block_ref * t * H) :=
  let! '(r, h1) := alloc_in_chunks sz (chunks_ m) h in
  let '(o, cs) := r in
  match o with
  | Some _ => Ret (o, mk (chunk_size_multiple_ m) cs, h1)
  | None =>
      check! negb (chunk_size_multiple_ m =? 0);
      let '(id, h2) := CreateTransferBuffer (chunk_size sz (chunk_size_multiple_ m)) (-1) h1 in
      if id =? -1 then Ret (None, mk (chunk_size_multiple_ m) cs, h2)
      else
        let mc := newChunk id (GetTransferBuffer id h2) in
        let! '(r, h3) := alloc_from sz mc h2 in
        let '(ref, mc') := r in
        Ret (Some ref, mk (chunk_size_multiple_ m) (cs ++ [mc']), h3)
  end.

Fixpoint free_unused_chunks (cs : list MemoryChunk) (h : H)
    : outcome (list MemoryChunk * H) :=
  match cs with
  | [] => Ret ([], h)
  | c :: cs =>
      let! c := chunk_free_unused c h in
      if negb (InUse (allocator_ (wrapper_ c))) then
        free_unused_chunks cs (DestroyTransferBuffer (shm_id_ c) h)
      else
        let! '(cs', h') := free_unused_chunks cs h in Ret (c :: cs', h')
  end.

Definition FreeUnused (m : t) (h : H) : outcome (t * H) :=
  let! '(cs, h') := free_unused_chunks (chunks_ m) h in
  Ret (mk (chunk_size_multiple_ m) cs, h').

End Ops.

(** ** Invariant *)

Section Laws.
Context {H : Type} `{TL : TransferBufferLaws H}.

Record chunk_wf (h : H) (c : MemoryChunk) : Prop := {
  cw_live : live h (shm_id_ c) (shm_ c);
  cw_base : base_ (wrapper_ c) = ptr (shm_ c);
  cw_blocks : wf (bsize (shm_ c)) (blocks c)
}.

Record wf (h : H) (cs : list MemoryChunk) : Prop := {
  wf_chunks : Forall (chunk_wf h) cs;
  wf_ids : NoDup (map shm_id_ cs)
}.

(** A block is held while a client uses it or the service may still read it. *)
Definition holds (h : H) (bs : list Block) (b : Block) : Prop :=
  b ∈ busy bs /\ ~ (is_pending b = true /\ passed h (token b)).

(** The addresses [lo, hi) are held in some chunk. *)
Definition held (h : H) (cs : list MemoryChunk) (lo hi : Z) : Prop :=
  exists c b, c ∈ cs /\ holds h (blocks c) b /\
    lo = ptr (shm_ c) + offset b /\ hi = lo + size b.

Lemma chunk_wf_mono h h' c :
  (forall i b, live h i b -> live h' i b) -> chunk_wf h c -> chunk_wf h' c.
Proof. intros Hl [? ? ?]. split; auto. Qed.

Lemma holds_freed h h' bs bs' b :
  (forall u, passed h u -> passed h' u) -> freed h bs bs' -> holds h' bs b -> holds h' bs' b.
Proof.
  intros Hm [_ K] [Hb Hn]. split; [|done]. destruct (K b Hb) as [|[? ?]]; [done|].
  exfalso. auto.
Qed.

Lemma held_nil h lo hi : held h [] lo hi <-> False.
Proof. split; [|done]. intros (c & b & Hc & _). by apply elem_of_nil in Hc. Qed.

Lemma held_cons h c cs lo hi :
  held h (c :: cs) lo hi <->
  (exists b, holds h (blocks c) b /\ lo = ptr (shm_ c) + offset b /\ hi = lo + size b) \/
  held h cs lo hi.
Proof.
  unfold held. split.
  - intros (c' & b & [->|Hc]%elem_of_cons & Hb & ?); [left; eauto|right; eauto].
  - intros [(b & ? & ?)|(c' & b & ? & ?)]; [exists c, b|exists c', b];
      (split; [set_solver|done]).
Qed.

(** Held ranges lie in the buffer of their chunk. *)
Lemma holds_in_buffer h c b :
  chunk_wf h c -> holds h (blocks c) b ->
  0 <= offset b /\ 0 < size b /\ offset b + size b <= bsize (shm_ c).
Proof.
  intros [_ _ [_ W _]] [[Hb _]%elem_of_busy _]. by apply (tiles_elem _ _ _ _ W).
Qed.

(** What happens to the helper while the manager runs. *)
Record later (h h' : H) : Prop := {
  la_passed u : passed h u -> passed h' u;
  la_live i b : live h i b -> live h' i b
}.

#[global] Instance later_preorder : PreOrder later.
Proof.
  split; [by split|]. intros x y z [P1 L1] [P2 L2]. split; auto.
Qed.

(** The chunk [c'] is [c] after some of its passed blocks were collected. *)
Record swept (h : H) (c c' : MemoryChunk) : Prop := {
  sw_id : shm_id_ c' = shm_id_ c;
  sw_shm : shm_ c' = shm_ c;
  sw_wf : chunk_wf h c';
  sw_freed : freed h (blocks c) (blocks c')
}.

(** ... after [sz] bytes at [ref] were allocated in it. *)
Record taken (h : H) (sz : Z) (ref : block_ref) (c c' : MemoryChunk) : Prop := {
  ta_id : shm_id_ c' = shm_id_ c;
  ta_shm : shm_ c' = shm_ c;
  ta_wf : chunk_wf h c';
  ta_ref : ref = mkRef (ptr (shm_ c) + shm_offset ref) (shm_id_ c) (shm_offset ref);
  ta_placed : placed (bsize (shm_ c)) sz (shm_offset ref) h (blocks c) (blocks c')
}.

Lemma swept_later h h' c c' : later h h' -> swept h c c' -> swept h' c c'.
Proof.
  intros [P L] [? ? W [O K]]. split; [done|done|by apply (chunk_wf_mono h)|].
  split; [done|]. intros b [?|[? ?]]%K; auto.
Qed.

Lemma taken_later h h' sz ref c c' : later h h' -> taken h sz ref c c' -> taken h' sz ref c c'.
Proof.
  intros [P L] [? ? W ? [P1 P2 P3 P4 P5]]. split; [done|done|by apply (chunk_wf_mono h)|done|].
  split; [done| | |done|done].
  - intros b Hb ? ?. destruct (P2 b); auto.
  - intros b Hb. destruct (P3 b) as [?|[? ?]]; auto.
Qed.

Lemma swept_taken h sz ref c c' c'' : swept h c c' -> taken h sz ref c' c'' -> taken h sz ref c c''.
Proof.
  intros [I S W [O K]] [I' S' W' R [P1 P2 P3 P4 P5]]. rewrite S, I in *.
  split; [done|done|done|done|]. split; [done| | | |done].
  - intros b [Hb|?]%K ? ?; [by apply P2|done].
  - intros b [Hb|?]%K; [by apply P3|by right].
  - intros b [Hb|?]%P4; auto.
Qed.

Lemma chunk_free_unused_spec h c :
  chunk_wf h c -> ready h -> exists c', chunk_free_unused c h = Ret c' /\ swept h c c'.
Proof.
  intros [L B W] Hr. unfold chunk_free_unused.
  destruct c as [id shm [[bs] base]]. cbn in *.
  destruct (FreeUnused_spec _ _ _ W Hr) as (bs' & -> & W' & F & _). cbn.
  eexists. split; [done|]. by split.
Qed.

Lemma alloc_from_spec h c sz :
  chunk_wf h c -> ready h -> 0 < sz < 2 ^ 32 -> sz <= GetLargestFreeSize (allocator_ (wrapper_ c)) ->
  exists ref c' h', alloc_from sz c h = Ret (ref, c', h') /\ ready h' /\ later h h' /\
    taken h' sz ref c c'.
Proof.
  intros [L B W] Hr Hsz Hl. unfold alloc_from, chunk_alloc.
  destruct c as [id shm [[bs] base]]. cbn in *. subst base.
  destruct (Alloc_free_fit (bsize shm) bs h sz W Hr ltac:(lia) Hl)
    as (off & bs' & h' & Ha & W' & Hr' & Hoff & P & Hm).
  assert (Hlt : later h h').
  { apply (Alloc_preserves (fun h h' => later h h') _ _ _ _ _ _) in Ha; [done|].
    intros t0 h1 h2 Hw. split; [intros u; by apply (wait_mono _ _ _ _ Hw)|].
    intros i b. by apply (wait_live _ _ _ _ _ Hw). }
  rewrite Ha. cbn. pose proof (live_bounds _ _ _ L). pose proof (pl_range _ _ _ _ _ _ P).
  unfold GetPointer. cbn. destruct (off =? kInvalidOffset) eqn:E; [lia|].
  unfold NULL. destruct (ptr shm + off =? 0) eqn:E0; [lia|]. cbn.
  eexists _, _, h'. split; [done|]. split; [done|]. split; [done|].
  unfold GetOffset, NULL. cbn. rewrite E0.
  replace (ptr shm + off - ptr shm) with off by lia. rewrite u32_small by lia.
  split; cbn; [done|done| |done|done]. split; cbn; [by apply Hlt|done|done].
Qed.

(** The chunk has no free block for [sz] bytes. *)
Definition no_room (sz : Z) (c : MemoryChunk) : Prop := GetLargestFreeSize (allocator_ (wrapper_ c)) < sz.

Lemma alloc_in_chunks_spec sz cs : forall h,
  Forall (chunk_wf h) cs -> ready h -> 0 < sz < 2 ^ 32 ->
  exists o cs' h', alloc_in_chunks sz cs h = Ret (o, cs', h') /\ ready h' /\ later h h' /\
    match o with
    | None => Forall2 (swept h') cs cs' /\ h' = h /\ Forall (no_room sz) cs'
    | Some ref => exists l1 c l2 l1' c', cs = l1 ++ c :: l2 /\ cs' = l1' ++ c' :: l2 /\
        Forall2 (swept h') l1 l1' /\ taken h' sz ref c c'
    end.
Proof.
  induction cs as [|c cs IH]; intros h W Hr Hsz.
  { exists None, [], h. split_and!; [done|done|done|constructor|done|constructor]. }
  apply Forall_cons in W as [Wc W]. cbn [alloc_in_chunks].
  destruct (chunk_free_unused_spec _ _ Wc Hr) as (c1 & -> & S1). cbn [obind]. case_if.
  - destruct (alloc_from_spec h c1 sz) as (ref & c2 & h' & Ha & Hr' & Hl & T);
      [by apply S1|done|done|lia|].
    rewrite Ha. cbn. eexists (Some ref), _, h'. split; [done|]. split; [done|]. split; [done|].
    exists [], c, cs, [], c2. split; [done|]. split; [done|]. split; [constructor|].
    eapply swept_taken; [|exact T]. by eapply swept_later.
  - destruct (IH h W Hr Hsz) as (o & cs' & h' & Ha & Hr' & Hl & D). rewrite Ha. cbn.
    exists o, (c1 :: cs'), h'. split; [done|]. split; [done|]. split; [done|].
    destruct o as [ref|].
    + destruct D as (l1 & c' & l2 & l1' & c'' & -> & -> & F & T).
      exists (c :: l1), c', l2, (c1 :: l1'), c''. split; [done|]. split; [done|].
      split; [|done]. constructor; [by eapply swept_later|done].
    + destruct D as (D & -> & Hn). split; [by constructor|]. split; [done|]. constructor; [unfold no_room; zb2p; lia|done].
Qed.

(** ** Held ranges *)

Lemma Forall2_swept_wf h cs cs' : Forall2 (swept h) cs cs' ->
  Forall (chunk_wf h) cs' /\ map shm_id_ cs' = map shm_id_ cs.
Proof.
  induction 1 as [|c c' cs cs' S _ [IH1 IH2]]; [done|]. split.
  - constructor; [apply S|done].
  - cbn. by rewrite IH2, (sw_id _ _ _ S).
Qed.

Lemma held_swept h cs cs' lo hi : Forall2 (swept h) cs cs' -> held h cs lo hi -> held h cs' lo hi.
Proof.
  induction 1 as [|c c' cs cs' S _ IH]; [done|]. rewrite !held_cons.
  intros [(b & Hb & -> & ->)|Hh]; [left|right; auto].
  exists b. rewrite (sw_shm _ _ _ S). split; [|done]. by apply (holds_freed h h _ _ _ (fun u Hu => Hu) (sw_freed _ _ _ S)).
Qed.

Lemma held_app h l1 l2 lo hi : held h (l1 ++ l2) lo hi <-> held h l1 lo hi \/ held h l2 lo hi.
Proof.
  induction l1 as [|c l1 IH]; cbn [app]; [rewrite held_nil; tauto|].
  rewrite !held_cons, IH. tauto.
Qed.

(** Ranges held in chunks of other ids stay clear of a buffer. *)
Lemma held_disjoint h cs id shm lo hi :
  Forall (chunk_wf h) cs -> live h id shm -> id ∉ map shm_id_ cs -> held h cs lo hi ->
  hi <= ptr shm \/ ptr shm + bsize shm <= lo.
Proof.
  intros W L Hid (c & b & Hc & Hb & -> & ->).
  rewrite Forall_forall in W. specialize (W c Hc).
  pose proof (holds_in_buffer _ _ _ W Hb).
  assert (shm_id_ c <> id) by (intros <-; by apply Hid, list_elem_of_fmap_2).
  pose proof (live_disjoint _ _ _ _ _ (cw_live _ _ W) L ltac:(done)). lia.
Qed.

(** What [Alloc] promises about the reference it returns. *)
Record granted (h : H) (sz : Z) (ref : block_ref) (cs cs' : list MemoryChunk) : Prop := {
  gr_buffer : exists shm, live h (shm_id ref) shm /\ mem ref = ptr shm + shm_offset ref /\
    0 <= shm_offset ref /\ shm_offset ref + sz <= bsize shm;
  gr_held : held h cs' (mem ref) (mem ref + sz);
  gr_kept lo hi : held h cs lo hi -> held h cs' lo hi;
  gr_fresh lo hi : held h cs lo hi -> hi <= mem ref \/ mem ref + sz <= lo
}.

Lemma taken_granted h sz ref l1 c l2 l1' c' :
  wf h (l1 ++ c :: l2) -> Forall2 (swept h) l1 l1' -> taken h sz ref c c' ->
  wf h (l1' ++ c' :: l2) /\ granted h sz ref (l1 ++ c :: l2) (l1' ++ c' :: l2).
Proof.
  intros [W N] F [I S Wc R [P1 P2 P3 P4 P5]].
  destruct (Forall2_swept_wf _ _ _ F) as [W1 I1].
  pose proof W as W0. apply Forall_app in W0 as [W2 W3]. apply Forall_cons in W3 as [W3 W4].
  assert (N' : NoDup (map shm_id_ (l1' ++ c' :: l2))).
  { rewrite map_app in *. cbn in *. by rewrite I1, I. }
  split; [split; [|done]|split].
  - apply Forall_app. split; [done|]. by constructor.
  - exists (shm_ c). rewrite R. cbn. split; [apply W3|]. split; [done|]. lia.
  - destruct P5 as (b & Hb & Hst & Ho & Hs). exists c', b. split; [set_solver|].
    rewrite R, S. cbn. split; [|lia].
    split.
    + apply elem_of_busy. split; [done|]. unfold is_free. by rewrite Hst.
    + unfold is_pending. by rewrite Hst; intros [? _].
  - intros lo hi. rewrite !held_app, !held_cons. intros [Hh|[Hh|Hh]].
    + left. by apply (held_swept h l1).
    + right; left. destruct Hh as (b & [Hb Hn] & -> & ->). exists b. rewrite S. split; [|done].
      split; [|done]. by destruct (P3 b Hb).
    + by right; right.
  - intros lo hi Hh. rewrite R. cbn. rewrite held_app, held_cons in Hh.
    rewrite map_app in N. cbn in N. apply NoDup_app in N as (_ & N1 & N2%NoDup_cons).
    destruct Hh as [Hh|[(b & [Hb Hn] & -> & ->)|Hh]].
    + destruct (held_disjoint h l1 (shm_id_ c) (shm_ c) lo hi W2) as [?|?]; try lia; [apply W3| |done].
      intros Hi. apply (N1 _ Hi). set_solver.
    + destruct (decide (offset b + size b <= shm_offset ref)); [lia|].
      destruct (decide (shm_offset ref + sz <= offset b)); [lia|].
      exfalso. apply Hn, P2; [done|lia..].
    + destruct (held_disjoint h l2 (shm_id_ c) (shm_ c) lo hi W4) as [?|?]; try lia;
        [apply W3|apply N2|done].
Qed.

(** ** [Alloc] *)

Lemma chunk_size_bounds sz mult :
  0 < sz -> 0 < mult -> sz + mult - 1 < 2 ^ 32 ->
  sz <= chunk_size sz mult < 2 ^ 32 /\ (mult | chunk_size sz mult).
Proof.
  intros Hs Hm Hb. unfold chunk_size. rewrite (u32_small (sz + mult - 1)) by lia.
  pose proof (Z.div_mod (sz + mult - 1) mult ltac:(lia)).
  pose proof (Z.mod_pos_bound (sz + mult - 1) mult ltac:(lia)).
  rewrite u32_small by lia. split; [lia|]. by apply Z.divide_factor_r.
Qed.

Lemma wf_later h h' cs : later h h' -> wf h cs -> wf h' cs.
Proof.
  intros L [W N]. split; [|done]. eapply Forall_impl; [exact W|].
  intros c. apply chunk_wf_mono, L.
Qed.

Lemma mapped_Alloc_spec sz m h :
  wf h (chunks_ m) -> ready h -> 0 < sz -> 0 < chunk_size_multiple_ m ->
  sz + chunk_size_multiple_ m - 1 < 2 ^ 32 ->
  exists o m' h', Alloc sz m h = Ret (o, m', h') /\ ready h' /\ later h h' /\
    wf h' (chunks_ m') /\
    match o with
    | Some ref => granted h' sz ref (chunks_ m) (chunks_ m')
    | None => Forall2 (swept h') (chunks_ m) (chunks_ m') /\ Forall (no_room sz) (chunks_ m') /\
        CreateTransferBuffer (chunk_size sz (chunk_size_multiple_ m)) (-1) h = (-1, h')
    end.
Proof.
  destruct m as [mult cs]. cbn [chunks_ chunk_size_multiple_]. intros W Hr Hs Hm Hb.
  unfold Alloc. cbn [chunks_ chunk_size_multiple_].
  destruct (alloc_in_chunks_spec sz cs h) as (o & cs1 & h1 & Ha & Hr1 & L1 & D);
    [apply W|done|lia|]. rewrite Ha. cbn [obind]. destruct o as [ref|].
  { destruct D as (l1 & c & l2 & l1' & c' & -> & -> & F & T).
    eexists _, _, h1. split; [done|]. split; [done|]. split; [done|]. cbn [chunks_].
    apply taken_granted; [by eapply wf_later|done|done]. }
  destruct D as (D & -> & Hfull). destruct (Z.eqb_spec mult 0) as [|_]; [lia|]. cbn [negb dcheck obind].
  destruct (chunk_size_bounds sz mult Hs Hm Hb) as [Hcs _].
  destruct (CreateTransferBuffer _ _ h) as [id h2] eqn:Ec.
  destruct (create_spec h (chunk_size sz mult) (-1) id h2 Hr1 ltac:(lia) Ec) as (Hr2 & P2 & L2 & Hid).
  assert (L12 : later h h2) by (by split).
  assert (F2 : Forall2 (swept h2) cs cs1).
  { eapply Forall2_impl; [exact D|]. intros c c'. by apply swept_later. }
  case_if.
  { eexists None, _, h2. split; [done|]. split; [done|]. split; [by transitivity h|].
    cbn [chunks_]. destruct (Forall2_swept_wf _ _ _ F2) as [W1 I1]. split.
    - split; [done|]. rewrite I1. apply W.
    - split; [done|]. split; [done|]. f_equal. zb2p. lia. }
  destruct Hid as [|(Hnew & Hsz & Hlive)]; [done|].
  set (shm := GetTransferBuffer id h2) in *.
  pose proof (live_bounds _ _ _ Hlive) as Hbd.
  assert (Wm : chunk_wf h2 (newChunk id shm)).
  { split; [done|done|]. cbn. rewrite u32_small by lia. apply (fenced_wf_init (bsize shm)); lia. }
  destruct (alloc_from_spec h2 (newChunk id shm) sz) as (ref & mc & h3 & Hx & Hr3 & L3 & T);
    [done|done|lia| |].
  { change (GetLargestFreeSize _) with (Z.max 0 (u32 (bsize shm))). rewrite u32_small; lia. }
  rewrite Hx. cbn [obind]. eexists _, _, h3. split; [done|]. split; [done|].
  split; [by repeat (etransitivity; [eassumption|])|]. cbn [chunks_].
  assert (Wn : wf h3 (cs ++ [newChunk id shm])).
  { apply (wf_later h2 h3 _ L3). split.
    - apply Forall_app. split; [|by constructor].
      destruct (wf_later h h2 cs ltac:(by transitivity h) W). done.
    - rewrite map_app. apply NoDup_app. split; [apply W|]. split; [|by apply NoDup_singleton].
      intros i (c & -> & Hc)%list_elem_of_fmap Hi%list_elem_of_singleton.
      destruct (wf_later h h cs L1 W) as [Wc _]. rewrite Forall_forall in Wc.
      apply (Hnew (shm_ c)). cbn in Hi. rewrite <- Hi. by apply (cw_live h c), Wc. }
  assert (F3 : Forall2 (swept h3) cs cs1).
  { eapply Forall2_impl; [exact F2|]. intros c c'. by apply swept_later. }
  destruct (taken_granted _ _ _ _ _ [] _ _ Wn F3 T) as [W' [G1 G2 G3 G4]].
  split; [done|]. split; [done|done| |].
  - intros lo hi Hh. apply G3. apply held_app. by left.
  - intros lo hi Hh. apply G4. apply held_app. by left.
Qed.

(** ** [Free] and [FreePendingToken] *)

Lemma on_chunk_spec h pointer f l1 c l2 :
  wf h (l1 ++ c :: l2) -> ptr (shm_ c) <= pointer < ptr (shm_ c) + bsize (shm_ c) ->
  on_chunk pointer f (l1 ++ c :: l2) = let! c' := f c in Ret (l1 ++ c' :: l2).
Proof.
  intros [W N] Hp. apply Forall_app in W as [W1 W2]. apply Forall_cons in W2 as [Wc _].
  induction l1 as [|d l1 IH]; cbn.
  - unfold IsInChunk. by replace (_ && _) with true by lia.
  - apply Forall_cons in W1 as [Wd W1]. cbn in N. apply NoDup_cons in N as [Nd N].
    assert (Hd : shm_id_ d <> shm_id_ c).
    { intros Heq. apply Nd. rewrite Heq, map_app. set_solver. }
    pose proof (live_disjoint _ _ _ _ _ (cw_live _ _ Wd) (cw_live _ _ Wc) Hd).
    unfold IsInChunk at 1. replace (_ && _) with false by lia.
    rewrite IH by done. destruct (f c); done.
Qed.

(** Replacing one chunk by one on the same buffer. *)
Lemma replace_chunk_wf h l1 c c' l2 :
  wf h (l1 ++ c :: l2) -> chunk_wf h c' -> shm_id_ c' = shm_id_ c -> wf h (l1 ++ c' :: l2).
Proof.
  intros [W N] Wc I. apply Forall_app in W as [W1 W2]. apply Forall_cons in W2 as [_ W2].
  split; [apply Forall_app; split; [done|by constructor]|].
  rewrite map_app in *. cbn in *. by rewrite I.
Qed.

Lemma chunk_offset h c b :
  chunk_wf h c -> holds h (blocks c) b ->
  ptr (shm_ c) <= ptr (shm_ c) + offset b < ptr (shm_ c) + bsize (shm_ c) /\
  (ptr (shm_ c) + offset b =? NULL) = false /\
  GetOffset (wrapper_ c) (ptr (shm_ c) + offset b) = offset b.
Proof.
  intros W Hb. pose proof (holds_in_buffer _ _ _ W Hb). destruct W as [L B _].
  pose proof (live_bounds _ _ _ L). unfold GetOffset, NULL. rewrite B.
  assert (E : (ptr (shm_ c) + offset b =? 0) = false) by lia. rewrite E.
  replace (ptr (shm_ c) + offset b - ptr (shm_ c)) with (offset b) by lia.
  rewrite u32_small by lia. split_and!; [lia|lia|done|done].
Qed.

(** Blocks of one chunk that start at the same address are the same. *)
Lemma same_offset h c b d :
  chunk_wf h c -> b ∈ busy (blocks c) -> d ∈ busy (blocks c) -> offset b = offset d -> b = d.
Proof.
  intros [_ _ [_ W _]] [Hb _]%elem_of_busy [Hd _]%elem_of_busy Ho.
  pose proof (tiles_elem _ _ _ _ W Hb). pose proof (tiles_elem _ _ _ _ W Hd).
  by apply (tiles_disjoint _ _ _ _ _ (offset b) W Hb Hd); lia.
Qed.

(** Changing the blocks of the chunk in the middle, in which [lo, hi) is held,
    changes what is held at [lo] only. *)
Lemma held_replace (P : Prop) h l1 c b c' l2 :
  wf h (l1 ++ c :: l2) -> holds h (blocks c) b -> shm_ c' = shm_ c ->
  (forall d, holds h (blocks c') d -> offset d = offset b -> size d = size b /\ P) ->
  (P -> exists d, holds h (blocks c') d /\ offset d = offset b /\ size d = size b) ->
  (forall d, offset d <> offset b -> holds h (blocks c') d <-> holds h (blocks c) d) ->
  forall lo hi, held h (l1 ++ c' :: l2) lo hi <->
    held h (l1 ++ c :: l2) lo hi /\ (lo = ptr (shm_ c) + offset b -> P).
Proof.
  intros [W N] Hb S Hat HP Hne lo hi. rewrite !held_app, !held_cons, S.
  apply Forall_app in W as [W1 W2]. apply Forall_cons in W2 as [Wc W2].
  rewrite map_app in N. cbn in N. apply NoDup_app in N as (_ & N1 & N2%NoDup_cons).
  pose proof (holds_in_buffer _ _ _ Wc Hb) as Hbd.
  assert (Hout : held h l1 lo hi \/ held h l2 lo hi -> lo <> ptr (shm_ c) + offset b).
  { intros Hh ->. assert (hi <= ptr (shm_ c) \/ ptr (shm_ c) + bsize (shm_ c) <= ptr (shm_ c) + offset b).
    { destruct Hh as [Hh|Hh].
      - apply (held_disjoint h l1 (shm_id_ c)); [done|apply Wc| |done].
        intros Hi. apply (N1 _ Hi). set_solver.
      - apply (held_disjoint h l2 (shm_id_ c)); [done|apply Wc|apply N2|done]. }
    assert (Hlt : ptr (shm_ c) + offset b < hi).
    { rewrite Forall_forall in W1. rewrite Forall_forall in W2.
      destruct Hh as [(d & x & Hd & Hx & -> & ->)|(d & x & Hd & Hx & -> & ->)].
      - pose proof (holds_in_buffer _ _ _ (W1 d Hd) Hx). lia.
      - pose proof (holds_in_buffer _ _ _ (W2 d Hd) Hx). lia. }
    lia. }
  split.
  - intros [Hh|[(d & Hd & -> & ->)|Hh]]; [tauto| |tauto].
    destruct (decide (offset d = offset b)) as [E|E].
    + destruct (Hat d Hd E) as [Es HPP]. split; [|done]. right; left. exists b.
      split; [done|]. lia.
    + split; [|lia]. right; left. exists d. split; [by apply Hne|done].
  - intros [[Hh|[(d & Hd & -> & ->)|Hh]] Hp]; [tauto| |tauto].
    right; left. destruct (decide (offset d = offset b)) as [E|E].
    + assert (d = b) as -> by (apply (same_offset h c); [done|apply Hd|apply Hb|done]).
      destruct (HP (Hp eq_refl)) as (x & Hx & Eo & Es). exists x. split; [done|]. lia.
    + exists d. split; [by apply Hne|done].
Qed.

Lemma mapped_Free_spec h m lo hi :
  wf h (chunks_ m) -> held h (chunks_ m) lo hi ->
  exists m', Free lo m = Ret m' /\ wf h (chunks_ m') /\
    forall lo' hi', held h (chunks_ m') lo' hi' <-> held h (chunks_ m) lo' hi' /\ (lo' = lo -> False).
Proof.
  destruct m as [mult cs]. cbn [chunks_].
  intros W (c & b & (l1 & l2 & ->)%list_elem_of_split & Hb & -> & ->).
  pose proof W as [Wa _]. apply Forall_app in Wa as [_ Wa]. apply Forall_cons in Wa as [Wc _].
  destruct (chunk_offset h c b Wc Hb) as (Hin & Hnn & Hoff).
  unfold Free. cbn [chunks_ chunk_size_multiple_].
  rewrite (on_chunk_spec h) by done. unfold chunk_free. rewrite Hnn, Hoff. cbn [negb dcheck obind].
  pose proof Hb as [[Hbb Hbf]%elem_of_busy Hbn].
  destruct (Free_busy _ _ _ (cw_blocks _ _ Wc) Hbb Hbf) as (bs' & Ha & W' & B).
  unfold blocks in Ha. destruct c as [id shm [[bs] base]]. cbn in Ha. cbn [wrapper_ allocator_].
  rewrite Ha. cbn [obind]. eexists. split; [done|]. cbn [chunks_].
  set (c := mkChunk id shm _) in *. set (c' := set_allocator _ _).
  change bs' with (blocks c') in B.
  assert (Wc' : chunk_wf h c') by (destruct Wc; by split).
  split; [by apply (replace_chunk_wf h l1 c)|].
  apply held_replace; [done|done|done| |done|].
  - intros d [Hd _] Eo. apply B in Hd as [Hd Hne]. destruct Hne.
    by apply (same_offset h c); [|..|apply Hb|].
  - intros d Ho. unfold holds. rewrite B. split; [tauto|]. intros [? ?]. split; [|done].
    split; [done|]. congruence.
Qed.

Lemma mapped_FreePendingToken_spec h m lo hi tok :
  wf h (chunks_ m) -> held h (chunks_ m) lo hi ->
  exists m', FreePendingToken lo tok m = Ret m' /\ wf h (chunks_ m') /\
    forall lo' hi', held h (chunks_ m') lo' hi' <->
      held h (chunks_ m) lo' hi' /\ (lo' = lo -> ~ passed h tok).
Proof.
  destruct m as [mult cs]. cbn [chunks_].
  intros W (c & b & (l1 & l2 & ->)%list_elem_of_split & Hb & -> & ->).
  pose proof W as [Wa _]. apply Forall_app in Wa as [_ Wa]. apply Forall_cons in Wa as [Wc _].
  destruct (chunk_offset h c b Wc Hb) as (Hin & Hnn & Hoff).
  unfold FreePendingToken. cbn [chunks_ chunk_size_multiple_].
  rewrite (on_chunk_spec h) by done. unfold chunk_free_pending. rewrite Hnn, Hoff.
  cbn [negb dcheck obind].
  pose proof Hb as [[Hbb Hbf]%elem_of_busy Hbn].
  destruct (FreePendingToken_busy _ _ _ tok (cw_blocks _ _ Wc) Hbb Hbf) as (bs' & Ha & W' & B).
  unfold blocks in Ha. destruct c as [id shm [[bs] base]]. cbn in Ha. cbn [wrapper_ allocator_].
  rewrite Ha. cbn [obind]. eexists. split; [done|]. cbn [chunks_].
  set (c := mkChunk id shm _) in *. set (c' := set_allocator _ _).
  change bs' with (blocks c') in B.
  assert (Wc' : chunk_wf h c') by (destruct Wc; by split).
  split; [by apply (replace_chunk_wf h l1 c)|].
  apply held_replace; [done|done|done| | |].
  - intros d [Hd Hn] Eo. apply B in Hd as [->|[Hd Hne]]; cbn in *.
    + split; [done|]. intros Hp. by apply Hn.
    + destruct Hne. by apply (same_offset h c); [|..|apply Hb|].
  - intros Hn. eexists. split; [split; [apply B; by left|]|done]. cbn. tauto.
  - intros d Ho. unfold holds. rewrite B. split.
    + intros [[->|[? _]] ?]; [done|done].
    + intros [? ?]. split; [|done]. right. split; [done|]. congruence.
Qed.

(** ** [FreeUnused] *)

Lemma chunk_wf_kept h h' c (ids : list Z) :
  (forall i b, live h i b -> i ∉ ids -> live h' i b) -> shm_id_ c ∉ ids ->
  chunk_wf h c -> chunk_wf h' c.
Proof. intros Hl Hi [? ? ?]. split; auto. Qed.

(** What sweeping [cs] into [cs'] leaves. *)
Record unused_freed (h h' : H) (cs cs' : list MemoryChunk) : Prop := {
  uf_ready : ready h';
  uf_passed u : passed h u -> passed h' u;
  uf_live i b : live h i b -> i ∉ map shm_id_ cs -> live h' i b;
  uf_wf : wf h' cs';
  uf_ids i : i ∈ map shm_id_ cs' -> i ∈ map shm_id_ cs;
  uf_held lo hi : held h' cs lo hi -> held h' cs' lo hi;
  uf_used : Forall (fun c => busy (blocks c) <> []) cs'
}.

Lemma free_unused_chunks_spec cs : forall h,
  wf h cs -> ready h ->
  exists cs' h', free_unused_chunks cs h = Ret (cs', h') /\ unused_freed h h' cs cs'.
Proof.
  induction cs as [|c cs IH]; intros h W Hr.
  { exists [], h. split; [done|]. split; try done. }
  destruct W as [W N]. apply Forall_cons in W as [Wc W]. cbn [free_unused_chunks].
  cbn in N. apply NoDup_cons in N as [Nc N].
  destruct (chunk_free_unused_spec _ _ Wc Hr) as (c1 & -> & [I S Wc1 F]). cbn [obind].
  pose proof (InUse_busy _ _ (cw_blocks _ _ Wc1)) as Hiu.
  destruct (allocator_ (wrapper_ c1)) as [bs] eqn:Eb.
  assert (Ebs : blocks c1 = bs) by (unfold blocks; by rewrite Eb). rewrite Ebs in Hiu.
  destruct (InUse {| blocks_ := bs |}) eqn:Eu; cbn [negb].
  - destruct (IH h) as (cs' & h' & Ha & [U1 U2 U3 U4 U5 U6 U7]); [by split|done|].
    rewrite Ha. cbn [obind]. exists (c1 :: cs'), h'. split; [done|].
    assert (Wc' : chunk_wf h' c1) by (eapply (chunk_wf_kept h); [exact U3|by rewrite I|done]).
    split; [done|done| | | | |].
    + intros i b Hl Hi. cbn in Hi. apply U3; [done|set_solver].
    + destruct U4 as [U4 U4']. split; [by constructor|]. cbn. apply NoDup_cons.
      split; [|done]. rewrite I. intros Hi%U5. done.
    + cbn. rewrite I. set_solver.
    + intros lo hi. rewrite !held_cons. intros [(b & Hb & -> & ->)|Hh]; [left|right; auto].
      exists b. rewrite S. split; [|done]. by apply (holds_freed h h' (blocks c)).
    + constructor; [|done]. rewrite Ebs. by apply Hiu.
  - rewrite I. destruct (destroy_spec h (shm_id_ c) Hr) as (D1 & D2 & D3).
    destruct (IH (DestroyTransferBuffer (shm_id_ c) h)) as (cs' & h' & Ha & [U1 U2 U3 U4 U5 U6 U7]).
    { split; [|done]. rewrite Forall_forall in W |- *. intros d Hd.
      destruct (W d Hd) as [L B Wd]. split; [|done|done]. apply D3; [done|].
      intros E. apply Nc. rewrite <- E. by apply list_elem_of_fmap_2. }
    { done. }
    rewrite Ha. exists cs', h'. split; [done|]. split; try done; auto.
    + intros i b Hl Hi. cbn in Hi. apply U3; [apply D3; [done|]|]; set_solver.
    + intros i Hi. cbn. set_solver.
    + intros lo hi. rewrite held_cons. intros [(b & Hb & -> & ->)|Hh]; [|auto].
      exfalso. apply (holds_freed h h' (blocks c) (blocks c1) b) in Hb; [|auto|done].
      destruct Hb as [Hb _]. rewrite Ebs in Hb.
      destruct (decide (busy bs = [])) as [E|E]; [|by apply Hiu in E].
      rewrite E in Hb. by apply elem_of_nil in Hb.
Qed.

(** ** The manager's contract *)

(** C36: a request of [sz] bytes is served from a chunk's free memory or from a
    new transfer buffer, for a size and a multiple that are positive and together fit 32
    bits (a request for nothing may fail an assertion, mapped_alloc_zero_crashes).  The
    reference returned names a live transfer buffer and an offset that keeps the block
    inside it; the block overlaps no memory that another client uses or that the service
    may still read, and none of that memory is lost.  [NULL] is returned only when no chunk
    has room and creating a buffer failed in the state of the call, and nothing else
    changed that state. *)
Theorem mapped_alloc_safe (sz : Z) (m : t) (h : H) :
  wf h (chunks_ m) -> ready h -> 0 < sz -> 0 < chunk_size_multiple_ m ->
  sz + chunk_size_multiple_ m - 1 < 2 ^ 32 ->
  exists o m' h', Alloc sz m h = Ret (o, m', h') /\ ready h' /\ wf h' (chunks_ m') /\
    match o with
    | Some ref => granted h' sz ref (chunks_ m) (chunks_ m')
    | None => (forall lo hi, held h' (chunks_ m) lo hi -> held h' (chunks_ m') lo hi) /\ Forall (no_room sz) (chunks_ m') /\
        CreateTransferBuffer (chunk_size sz (chunk_size_multiple_ m)) (-1) h = (-1, h')
    end.
Proof.
  intros W Hr Hs Hm Hb.
  destruct (mapped_Alloc_spec sz m h W Hr Hs Hm Hb) as (o & m' & h' & Ha & Hr' & _ & W' & D).
  exists o, m', h'. split; [done|]. split; [done|]. split; [done|].
  destruct o; [done|]. destruct D as [F He]. split; [|done].
  intros lo hi. by apply held_swept.
Qed.

(** giving back a held block with a token succeeds, the block stays
    protected until the service passes that token, and nothing else changes. *)
Theorem mapped_free_pending (m : t) (h : H) (lo hi token : Z) :
  wf h (chunks_ m) -> held h (chunks_ m) lo hi ->
  exists m', FreePendingToken lo token m = Ret m' /\ wf h (chunks_ m') /\
    forall lo' hi', held h (chunks_ m') lo' hi' <->
      held h (chunks_ m) lo' hi' /\ (lo' = lo -> ~ passed h token).
Proof. apply mapped_FreePendingToken_spec. Qed.

(** [FreeUnused] terminates, keeps everything that is held, and every
    transfer buffer it does not destroy still has a block in use or pending. *)
Theorem mapped_free_unused (m : t) (h : H) :
  wf h (chunks_ m) -> ready h ->
  exists m' h', FreeUnused m h = Ret (m', h') /\ ready h' /\ wf h' (chunks_ m') /\
    (forall lo hi, held h' (chunks_ m) lo hi -> held h' (chunks_ m') lo hi) /\
    forall c, c ∈ chunks_ m' -> InUse (allocator_ (wrapper_ c)) = true.
Proof.
  intros W Hr. unfold FreeUnused.
  destruct (free_unused_chunks_spec (chunks_ m) h W Hr) as (cs' & h' & -> & [U1 _ _ U4 _ U6 U7]).
  cbn. eexists _, h'. split; [done|]. split; [done|]. split; [done|]. split; [done|].
  cbn. intros c Hc. rewrite Forall_forall in U7. specialize (U7 c Hc).
  destruct U4 as [U4 _]. rewrite Forall_forall in U4.
  pose proof (InUse_busy _ _ (cw_blocks _ _ (U4 c Hc))) as Hi.
  unfold blocks in *. destruct (allocator_ (wrapper_ c)). by apply Hi.
Qed.

(** A request for no bytes, unlike [FencedAllocator::Alloc], is not rounded up
    before the search: [GetLargestFreeSizeWithoutWaiting() >= 0] picks the first
    chunk even when it is full. *)
Lemma GetLargestFreeSize_nonneg a : 0 <= GetLargestFreeSize a.
Proof.
  unfold GetLargestFreeSize.
  assert (Hm : forall bs m, m <= fold_left (fun m b => if is_free b then Z.max m (size b) else m) bs m).
  { induction bs as [|b bs IH]; intros m; [done|]. cbn [fold_left].
    etransitivity; [|apply IH]. case_if; lia. }
  apply Hm.
Qed.

(** with a full first chunk a request for 0 bytes fails the assertion on
    the pointer instead of moving on to another chunk or creating one. *)
Theorem mapped_alloc_zero_crashes (m : t) (h : H) (c : MemoryChunk) (cs : list MemoryChunk) :
  chunks_ m = c :: cs -> chunk_wf h c -> ready h ->
  GetLargestFreeOrPendingSize (allocator_ (wrapper_ c)) = 0 ->
  Alloc 0 m h = Crash.
Proof.
  intros Ec Wc Hr Hfull. unfold Alloc. rewrite Ec. cbn [alloc_in_chunks].
  destruct c as [id shm [[bs] base]]. unfold chunk_free_unused. cbn in Hfull |- *.
  destruct (FreeUnused_spec _ bs h (cw_blocks _ _ Wc) Hr) as (bs1 & -> & W1 & _ & _ & R1).
  cbn [obind]. rewrite largest_runs, <- R1 in Hfull.
  rewrite (proj2 (Z.leb_le 0 _) (GetLargestFreeSize_nonneg _)).
  unfold alloc_from, chunk_alloc. cbn [set_allocator wrapper_ allocator_].
  destruct (fenced_Alloc_spec _ bs1 h 0 W1 Hr ltac:(lia))
    as (off & bs2 & h' & Ha & (_ & _ & D) & _).
  cbn [wrapper_ allocator_]. rewrite Ha. cbn [obind].
  destruct D as [(-> & _)|[Hle _]]; [done|]. lia.
Qed.

End Laws.

(** ** A concrete command buffer

    Buffers are handed out at increasing ids and addresses and never reused;
    the service passes a token when it is waited for. *)
Record world := mkWorld { w_token : Z; w_next : Z; w_top : Z; w_live : list (Z * Buffer) }.

Definition w_ok (w : world) : Prop :=
  0 <= w_next w /\ 0 < w_top w /\
  (forall i b, (i, b) ∈ w_live w -> i < w_next w /\ 0 < ptr b /\ 0 < bsize b < 2 ^ 32 /\
    ptr b + bsize b <= w_top w) /\
  (forall i j b c, (i, b) ∈ w_live w -> (j, c) ∈ w_live w -> i <> j ->
    ptr b + bsize b <= ptr c \/ ptr c + bsize c <= ptr b).

#[global] Instance world_helper : FenceHelper world := {|
  WaitForToken := fun t w => Ret (mkWorld (Z.max (w_token w) t) (w_next w) (w_top w) (w_live w));
  last_token_read := w_token
|}.

#[global] Program Instance world_fence : FenceLaws world := {|
  ready := w_ok;
  passed := fun w t => t <= w_token w
|}.
Next Obligation. intros t w Hw. eexists. split; [done|]. split; [done|]. cbn. lia. Qed.
Next Obligation. cbn. intros. simplify_eq. cbn. lia. Qed.
Next Obligation. done. Qed.

Fixpoint find_buffer (id : Z) (l : list (Z * Buffer)) : Buffer :=
  match l with
  | [] => mkBuffer 0 0
  | (i, b) :: l => if i =? id then b else find_buffer id l
  end.

#[global] Instance world_buffers : TransferBuffers world := {|
  CreateTransferBuffer := fun sz _ w =>
    (w_next w, mkWorld (w_token w) (w_next w + 1) (w_top w + sz)
                 ((w_next w, mkBuffer (w_top w) sz) :: w_live w));
  GetTransferBuffer := fun id w => find_buffer id (w_live w);
  DestroyTransferBuffer := fun id w =>
    mkWorld (w_token w) (w_next w) (w_top w) (filter (fun p => fst p <> id) (w_live w))
|}.

#[global] Program Instance world_laws : TransferBufferLaws world := {|
  live := fun w i b => w_ok w /\ (i, b) ∈ w_live w
|}.
Next Obligation. cbn. intros w i b ((_ & _ & Hl & _) & Hi). destruct (Hl i b Hi). lia. Qed.
Next Obligation. cbn. intros w i j b c ((_ & _ & _ & Hd) & Hi) [_ Hj]. by apply Hd. Qed.
Next Obligation.
  cbn. intros w sz req id w' (Hn & Ht & Hl & Hd) Hs [= <- <-].
  assert (Hok : w_ok (mkWorld (w_token w) (w_next w + 1) (w_top w + sz)
                 ((w_next w, mkBuffer (w_top w) sz) :: w_live w))).
  { split; cbn; [lia|]. split; [lia|]. split.
    - intros i b [[= -> ->]|Hi]%elem_of_cons; cbn; [lia|]. specialize (Hl i b Hi). lia.
    - intros i j b c [[= -> ->]|Hi]%elem_of_cons [[= -> ->]|Hj]%elem_of_cons Hij; cbn.
      + done.
      + pose proof (Hl _ _ Hj). lia.
      + pose proof (Hl _ _ Hi). lia.
      + by apply (Hd i j). }
  split; [done|]. split; [done|]. split.
  - intros i b [_ Hi]. split; [done|]. by right.
  - right. cbn [w_live find_buffer]. rewrite Z.eqb_refl. cbn. split; [|split; [done|split; [done|by left]]].
    intros b [_ Hi]. specialize (Hl _ _ Hi). lia.
Qed.
Next Obligation.
  cbn. intros w id (Hn & Ht & Hl & Hd).
  assert (Hok : w_ok (mkWorld (w_token w) (w_next w) (w_top w)
                        (filter (fun p => fst p <> id) (w_live w)))).
  { split; [done|]. split; [done|]. cbn. split.
    - intros i b [_ Hi]%list_elem_of_filter. by apply Hl.
    - intros i j b c [_ Hi]%list_elem_of_filter [_ Hj]%list_elem_of_filter. by apply Hd. }
  split; [done|]. split; [done|].
  intros i b [_ Hi] Hne. split; [done|]. cbn. by apply list_elem_of_filter.
Qed.
Next Obligation. cbn. intros t w w' i b [= <-] [Hw Hi]. by split. Qed.

(** One 16-byte chunk, full. *)
Definition world1 : world := mkWorld 0 1 116 [(0, mkBuffer 100 16)].
Definition full_chunk : MemoryChunk :=
  mkChunk 0 (mkBuffer 100 16)
    (mkWrapper (FencedAllocator.mk [mkBlock IN_USE 0 16 0]) 100).
Definition manager1 : t := mk 8 [full_chunk].

Lemma world1_ok : w_ok world1.
Proof.
  split; [done|]. split; [done|]. split.
  - intros i b [[= -> ->]|Hi%elem_of_nil]%elem_of_cons; [cbn; lia|done].
  - intros i j b c [[= -> ->]|Hi%elem_of_nil]%elem_of_cons [[= -> ->]|Hj%elem_of_nil]%elem_of_cons; done.
Qed.

Lemma full_chunk_wf : chunk_wf world1 full_chunk.
Proof.
  split; [split; [apply world1_ok|by left]|done|].
  split; [cbn; lia| |by vm_compute]. repeat (constructor; cbn; try lia).
Qed.

Lemma manager1_wf : wf world1 (chunks_ manager1).
Proof. split; [constructor; [apply full_chunk_wf|constructor]|apply NoDup_singleton]. Qed.

Lemma manager1_held : held world1 (chunks_ manager1) 100 116.
Proof.
  exists full_chunk, (mkBlock IN_USE 0 16 0). split; [by left|]. split; [|done].
  split; [by left|]. by intros [? _].
Qed.

(** Ten bytes do not fit in the chunk: a second buffer of 16 bytes is created. *)
Lemma mapped_alloc_safe_witness :
  exists o m' h', Alloc 10 manager1 world1 = Ret (o, m', h') /\ ready h' /\ wf h' (chunks_ m') /\
    match o with
    | Some ref => granted h' 10 ref (chunks_ manager1) (chunks_ m')
    | None => (forall lo hi, held h' (chunks_ manager1) lo hi -> held h' (chunks_ m') lo hi) /\
        Forall (no_room 10) (chunks_ m') /\ CreateTransferBuffer (chunk_size 10 8) (-1) world1 = (-1, h')
    end.
Proof.
  apply (mapped_alloc_safe 10 manager1 world1); [apply manager1_wf|apply world1_ok|cbn; lia..].
Defined.

Lemma mapped_free_pending_witness :
  exists m', FreePendingToken 100 3 manager1 = Ret m' /\ wf world1 (chunks_ m') /\
    forall lo' hi', held world1 (chunks_ m') lo' hi' <->
      held world1 (chunks_ manager1) lo' hi' /\ (lo' = 100 -> ~ passed world1 3).
Proof.
  apply (mapped_free_pending manager1 world1 100 116 3); [apply manager1_wf|apply manager1_held].
Defined.

Lemma mapped_free_unused_witness :
  exists m' h', FreeUnused manager1 world1 = Ret (m', h') /\ ready h' /\ wf h' (chunks_ m') /\
    (forall lo hi, held h' (chunks_ manager1) lo hi -> held h' (chunks_ m') lo hi) /\
    forall c, c ∈ chunks_ m' -> InUse (allocator_ (wrapper_ c)) = true.
Proof. apply (mapped_free_unused manager1 world1); [apply manager1_wf|apply world1_ok]. Defined.

Lemma mapped_alloc_zero_crashes_witness : Alloc 0 manager1 world1 = Crash.
Proof.
  apply (mapped_alloc_zero_crashes manager1 world1 full_chunk []);
    [done|apply full_chunk_wf|apply world1_ok|by vm_compute].
Defined.

End MappedMemory.
