(* ===== verification/GpuTransferBuffer.v ===== *)
(** The transfer buffer of a GPU client, [gpu/command_buffer/client/transfer_buffer.cc]:
    a transfer buffer that grows on demand, with an area for results at its start and the
    ring allocator on the rest, over the interfaces of the helper. *)
From S2P Require Import Prelude.
From S2P Require Import GpuFence.
From S2P Require Import GpuRingBuffer.
From S2P Require Import GpuMappedMemory.

(** What the transfer buffer asks of the helper besides tokens and buffers. *)
Class HelperCommands (H : Type) := {
  HelperFinish : H -> outcome H;
  HelperInsertToken : H -> outcome (Z * H)
}.

(** Both return; the service loses nothing. *)
Class HelperCommandLaws (H : Type) `{TL : TransferBufferLaws H, !HelperCommands H} := {
  finish_spec : forall h, ready h ->
    exists h', HelperFinish h = Ret h' /\ ready h' /\ (forall u, passed h u -> passed h' u) /\
      (forall i b, live h i b -> live h' i b);
  token_spec : forall h, ready h ->
    exists tok h', HelperInsertToken h = Ret (tok, h') /\ ready h' /\ (forall u, passed h u -> passed h' u) /\
      (forall i b, live h i b -> live h' i b)
}.

Module TransferBuffer.

(** ** Sizes *)

(** [for (int i = 4; i >= 0; --i)]. *)
Fixpoint log2_loop (i : nat) (value log : Z) : Z * Z :=
  match i with
  | O => (value, log)
  | S i =>
      let shift := Z.shiftl 1 (Z.of_nat i) in
      let x := Z.shiftr value shift in
      if negb (x =? 0) then log2_loop i x (log + shift) else log2_loop i value log
  end.

Definition Log2Floor (n : Z) : outcome Z :=
  if n =? 0 then Ret (-1)
  else let '(value, log) := log2_loop 5 n 0 in check! value =? 1; Ret log.

Definition Log2Ceiling (n : Z) : outcome Z :=
  if n =? 0 then Ret (-1) else let! log := Log2Floor (u32 (n - 1)) in Ret (1 + log).

(** Shifting a 32-bit 1 by 32 has no defined value. *)
Definition ComputePOTSize (dimension : Z) : outcome Z :=
  if dimension =? 0 then Ret 0
  else let! log := Log2Ceiling dimension in check! log <? 32; Ret (u32 (Z.shiftl 1 log)).

(** ** State *)

(** [AlignedRingBuffer] and the [RingBufferWrapper] it is: the ring, and the address of its
    offset 0. *)
Record ring := AlignedRingBuffer {
  ring_alignment_ : Z;
  ring_shm_id_ : Z;
  ring_allocator_ : RingBuffer.t;
  ring_base_ : Z
}.

Definition new_ring (alignment shm_id base_offset size base : Z) : ring :=
  AlignedRingBuffer alignment shm_id (RingBuffer.init base_offset size) (base - base_offset).

Definition RoundToAlignment (alignment size : Z) : Z :=
  Z.land (u32 (u32 (size + alignment) - 1)) (u32 (Z.lnot (u32 (alignment - 1)))).

Definition set_allocator (a : RingBuffer.t) (r : ring) : ring :=
  AlignedRingBuffer (ring_alignment_ r) (ring_shm_id_ r) a (ring_base_ r).

Record t := mk {
  ring_buffer_ : option ring;
  result_size_ : Z;
  min_buffer_size_ : Z;
  max_buffer_size_ : Z;
  alignment_ : Z;
  buffer_ : Buffer;
  buffer_id_ : Z;
  result_buffer_ : Z;
  result_shm_offset_ : Z;
  usable_ : bool
}.

Definition init : t := mk None 0 0 0 0 (mkBuffer NULL 0) (-1) NULL 0 true.

Definition HaveBuffer (s : t) : bool := negb (buffer_id_ s =? -1).

Definition with_sizes (result min max alignment : Z) (s : t) : t :=
  mk (ring_buffer_ s) result min max alignment (buffer_ s) (buffer_id_ s) (result_buffer_ s)
    (result_shm_offset_ s) (usable_ s).

Definition with_max (max : Z) (s : t) : t :=
  mk (ring_buffer_ s) (result_size_ s) (min_buffer_size_ s) max (alignment_ s) (buffer_ s) (buffer_id_ s)
    (result_buffer_ s) (result_shm_offset_ s) (usable_ s).

Definition with_usable (usable : bool) (s : t) : t :=
  mk (ring_buffer_ s) (result_size_ s) (min_buffer_size_ s) (max_buffer_size_ s) (alignment_ s) (buffer_ s)
    (buffer_id_ s) (result_buffer_ s) (result_shm_offset_ s) usable.

Definition with_buffer (ring : option ring) (buffer : Buffer) (id result offset : Z) (s : t) : t :=
  mk ring (result_size_ s) (min_buffer_size_ s) (max_buffer_size_ s) (alignment_ s) buffer id result offset (usable_ s).

Definition with_ring (r : ring) (s : t) : t :=
  with_buffer (Some r) (buffer_ s) (buffer_id_ s) (result_buffer_ s) (result_shm_offset_ s) s.

(** ** Operations *)

Section Ops.
Context {H : Type} `{!FenceHelper H, !TransferBuffers H, !HelperCommands H}.

(** [AlignedRingBuffer::Alloc]: a pointer. *)
Definition ring_alloc (size : Z) (r : ring) (h : H) : outcome (Z * ring * H) :=
  let! '(o, h) := RingBuffer.Alloc (RoundToAlignment (ring_alignment_ r) size) (ring_allocator_ r) h in
  let '(offset, a) := o in
  Ret (ring_base_ r + offset, set_allocator a r, h).

(** [ring_buffer_.reset()]: the destructor of the ring frees its blocks. *)
Definition reset_ring (r : option ring) (h : H) : outcome H :=
  match r with
  | None => Ret h
  | Some r => let! '(_, h) := RingBuffer.destroy (length (RingBuffer.blocks_ (ring_allocator_ r))) (ring_allocator_ r) h in Ret h
  end.

Definition Free (s : t) (h : H) : outcome (t * H) :=
  if HaveBuffer s then
    let! h := HelperFinish h in
    let h := DestroyTransferBuffer (buffer_id_ s) h in
    let! h := reset_ring (ring_buffer_ s) h in
    Ret (with_buffer None (mkBuffer NULL 0) (-1) NULL 0 s, h)
  else Ret (s, h).

Fixpoint AllocateRingBuffer (fuel : nat) (size : Z) (s : t) (h : H) : outcome (t * H) :=
  if size <? min_buffer_size_ s then Ret (with_usable false s, h)
  else
    match fuel with
    | O => Timeout
    | S fuel =>
        let '(id, h) := CreateTransferBuffer size (-1) h in
        if negb (id =? -1) then
          let buffer := GetTransferBuffer id h in
          let! h := reset_ring (ring_buffer_ s) h in
          let r := new_ring (alignment_ s) id (result_size_ s) (u32 (bsize buffer - result_size_ s))
                     (ptr buffer + result_size_ s) in
          Ret (with_buffer (Some r) buffer id (ptr buffer) 0 s, h)
        else AllocateRingBuffer fuel (size / 2) (with_max (size / 2) s) h
    end.

(** A size of 32 bits can be halved 32 times. *)
Definition ReallocateRingBuffer (size : Z) (s : t) (h : H) : outcome (t * H) :=
  let! needed_buffer_size := ComputePOTSize (u32 (size + result_size_ s)) in
  let needed_buffer_size := Z.max needed_buffer_size (min_buffer_size_ s) in
  let needed_buffer_size := Z.min needed_buffer_size (max_buffer_size_ s) in
  if usable_ s && (negb (HaveBuffer s) || (bsize (buffer_ s) <? needed_buffer_size)) then
    let! '(s, h) := if HaveBuffer s then Free s h else Ret (s, h) in
    AllocateRingBuffer 33 needed_buffer_size s h
  else Ret (s, h).

Definition Initialize (starting_buffer_size result_size min_buffer_size max_buffer_size alignment : Z) (s : t) (h : H) :
    outcome (bool * t * H) :=
  let s := with_sizes result_size min_buffer_size max_buffer_size alignment s in
  let! '(s, h) := ReallocateRingBuffer (u32 (starting_buffer_size - result_size)) s h in
  Ret (HaveBuffer s, s, h).

Definition GetOffset (pointer : Z) (s : t) : outcome Z :=
  let! r := must (ring_buffer_ s) in Ret (u32 (pointer - ring_base_ r)).

Definition FreePendingToken (pointer token : Z) (s : t) : outcome t :=
  let! r := must (ring_buffer_ s) in
  check! negb (pointer =? NULL);
  let! a := RingBuffer.FreePendingToken (u32 (pointer - ring_base_ r)) token (ring_allocator_ r) in
  Ret (with_ring (set_allocator a r) s).

(** The pointer, and what is stored in [size_allocated]. *)
Definition AllocUpTo (size : Z) (s : t) (h : H) : outcome (Z * option Z * t * H) :=
  let! '(s, h) := ReallocateRingBuffer size s h in
  if negb (HaveBuffer s) then Ret (NULL, None, s, h)
  else
    let! r := must (ring_buffer_ s) in
    let max_size := RingBuffer.GetLargestFreeOrPendingSize (ring_allocator_ r) in
    let size_allocated := Z.min max_size size in
    let! '(o, h) := ring_alloc size_allocated r h in
    let '(p, r) := o in
    Ret (p, Some size_allocated, with_ring r s, h).

Definition Alloc (size : Z) (s : t) (h : H) : outcome (Z * t * H) :=
  let! '(s, h) := ReallocateRingBuffer size s h in
  if negb (HaveBuffer s) then Ret (NULL, s, h)
  else
    let! r := must (ring_buffer_ s) in
    let max_size := RingBuffer.GetLargestFreeOrPendingSize (ring_allocator_ r) in
    if max_size <? size then Ret (NULL, s, h)
    else
      let! '(o, h) := ring_alloc size r h in
      let '(p, r) := o in
      Ret (p, with_ring r s, h).

Definition GetResultBuffer (s : t) (h : H) : outcome (Z * t * H) :=
  let! '(s, h) := ReallocateRingBuffer (result_size_ s) s h in Ret (result_buffer_ s, s, h).

Definition GetResultOffset (s : t) (h : H) : outcome (Z * t * H) :=
  let! '(s, h) := ReallocateRingBuffer (result_size_ s) s h in Ret (result_shm_offset_ s, s, h).

Definition GetShmId (s : t) (h : H) : outcome (Z * t * H) :=
  let! '(s, h) := ReallocateRingBuffer (result_size_ s) s h in Ret (buffer_id_ s, s, h).

Definition GetCurrentMaxAllocationWithoutRealloc (s : t) : outcome Z :=
  if HaveBuffer s then let! r := must (ring_buffer_ s) in Ret (RingBuffer.GetLargestFreeOrPendingSize (ring_allocator_ r))
  else Ret 0.

Definition GetMaxAllocation (s : t) : Z := if HaveBuffer s then u32 (max_buffer_size_ s - result_size_ s) else 0.

(** ** Scoped pointers *)

(** [ScopedTransferBufferPtr]: the pointer and its size. *)
Record scoped := ScopedTransferBufferPtr { scoped_buffer_ : Z; scoped_size_ : Z }.

Definition Release (p : scoped) (s : t) (h : H) : outcome (scoped * t * H) :=
  if negb (scoped_buffer_ p =? NULL) then
    let! '(token, h) := HelperInsertToken h in
    let! s := FreePendingToken (scoped_buffer_ p) token s in
    Ret (ScopedTransferBufferPtr NULL 0, s, h)
  else Ret (p, s, h).

Definition Reset (new_size : Z) (p : scoped) (s : t) (h : H) : outcome (scoped * t * H) :=
  let! '(o, h) := Release p s h in
  let '(p, s) := o in
  let! '(o, h) := AllocUpTo new_size s h in
  let '(o, s) := o in
  let '(pointer, size_allocated) := o in
  Ret (ScopedTransferBufferPtr pointer (default (scoped_size_ p) size_allocated), s, h).

End Ops.

(** ** Sizes *)

Lemma log2_loop_spec i value log :
  0 < value < 2 ^ (2 ^ Z.of_nat i) -> log2_loop i value log = (1, log + Z.log2 value).
Proof.
  revert value log. induction i as [|i IH]; intros value log Hv; cbn [log2_loop].
  - change (2 ^ (2 ^ Z.of_nat 0)) with 2 in Hv. assert (value = 1) as -> by lia. by rewrite Z.add_0_r.
  - cbv zeta. rewrite Z.shiftl_mul_pow2, Z.mul_1_l by lia. set (n := 2 ^ Z.of_nat i) in *.
    assert (Hn : 0 < n) by (apply Z.pow_pos_nonneg; lia).
    assert (E : 2 ^ Z.of_nat (S i) = n + n) by (rewrite Nat2Z.inj_succ, Z.pow_succ_r by lia; lia).
    rewrite E, Z.pow_add_r in Hv by lia. assert (0 < 2 ^ n) by (apply Z.pow_pos_nonneg; lia).
    pose proof (Z.shiftr_div_pow2 value n ltac:(lia)) as Ed. destruct (Z.eqb_spec (Z.shiftr value n) 0) as [E0|E0]; cbn [negb].
    + apply IH. rewrite E0 in Ed. symmetry in Ed. apply Z.div_small_iff in Ed; lia.
    + rewrite IH.
      * f_equal. rewrite Z.log2_shiftr by lia.
        assert (n <= Z.log2 value); [|lia]. apply (proj1 (Z.log2_le_pow2 value n ltac:(lia))).
        destruct (Z.le_gt_cases (2 ^ n) value); [done|]. rewrite Ed, Z.div_small in E0; lia.
      * rewrite Ed in E0 |- *. split; [|apply Z.div_lt_upper_bound; lia].
        assert (0 <= value / 2 ^ n) by (apply Z.div_pos; lia). lia.
Qed.

Lemma Log2Floor_spec n : 0 < n < 2 ^ 32 -> Log2Floor n = Ret (Z.log2 n).
Proof.
  intros H. unfold Log2Floor. rewrite (proj2 (Z.eqb_neq _ _)) by lia. rewrite log2_loop_spec by done. done.
Qed.

(** The power of two from a size up. *)
Lemma ComputePOTSize_spec d : 0 < d <= 2 ^ 31 -> ComputePOTSize d = Ret (2 ^ Z.log2_up d).
Proof.
  intros H. unfold ComputePOTSize, Log2Ceiling. rewrite (proj2 (Z.eqb_neq _ _)) by lia.
  assert (Hu : Z.log2_up d <= 31) by (apply Z.log2_up_le_pow2; lia). pose proof (Z.log2_up_nonneg d).
  assert (Hp : 2 ^ Z.log2_up d <= 2 ^ 31) by (apply Z.pow_le_mono_r; lia).
  assert (0 < 2 ^ Z.log2_up d) by (apply Z.pow_pos_nonneg; lia).
  assert (E : (let! log := Log2Floor (u32 (d - 1)) in Ret (1 + log)) = Ret (Z.log2_up d)).
  { rewrite u32_small by lia. destruct (Z.eq_dec d 1) as [->|Hd]; [done|].
    rewrite Log2Floor_spec by lia. cbn [obind]. f_equal. rewrite Z.log2_up_eqn by lia. unfold Z.pred. replace (d + -1) with (d - 1) by lia. lia. }
  rewrite E. cbn [obind]. rewrite (proj2 (Z.ltb_lt _ _)) by lia. cbn [dcheck obind].
  by rewrite Z.shiftl_mul_pow2, Z.mul_1_l, u32_small by lia.
Qed.

Lemma pow2_up d : 0 < d -> d <= 2 ^ Z.log2_up d.
Proof. intros H. destruct (Z.eq_dec d 1) as [->|]; [done|]. by apply Z.log2_up_spec; lia. Qed.

Definition power_of_two (x : Z) : Prop := exists k, 0 <= k < 32 /\ x = 2 ^ k.

(** The smallest multiple of the alignment from a size up. *)
Lemma RoundToAlignment_spec alignment size :
  power_of_two alignment -> 0 <= size -> size + alignment <= 2 ^ 32 ->
  RoundToAlignment alignment size = (size + alignment - 1) / alignment * alignment.
Proof.
  intros (k & Hk & ->) H0 Hs. assert (0 < 2 ^ k) by (apply Z.pow_pos_nonneg; lia).
  assert (Hkk : 2 ^ k <= 2 ^ 31) by (apply Z.pow_le_mono_r; lia). unfold RoundToAlignment.
  assert (E1 : u32 (u32 (size + 2 ^ k) - 1) = size + 2 ^ k - 1).
  { unfold u32. rewrite Zminus_mod_idemp_l. apply Z.mod_small. lia. }
  assert (E2 : u32 (Z.lnot (u32 (2 ^ k - 1))) = Z.ones (32 - k) * 2 ^ k).
  { rewrite (u32_small (2 ^ k - 1)) by lia. unfold Z.lnot, u32. rewrite (Z.ones_equiv (32 - k)), <- (Z.sub_1_r (2 ^ (32 - k))), Z.mul_sub_distr_r, <- Z.pow_add_r by lia.
    replace (32 - k + k) with 32 by lia. symmetry. apply (Z.mod_unique _ _ (-1)); lia. }
  rewrite E1, E2, land_field by lia. f_equal. apply Z.mod_small.
  assert (2 ^ (32 - k) * 2 ^ k = 2 ^ 32) by (rewrite <- Z.pow_add_r by lia; f_equal; lia).
  split; [apply Z.div_pos; lia|apply Z.div_lt_upper_bound; lia].
Qed.

Lemma round_bounds a size :
  0 < a -> size <= (size + a - 1) / a * a < size + a.
Proof. intros Ha. pose proof (Z.div_mod (size + a - 1) a ltac:(lia)). pose proof (Z.mod_pos_bound (size + a - 1) a Ha). nia. Qed.

(** ** Invariant *)

Lemma pow2_divide j k : 0 <= j <= k -> (2 ^ j | 2 ^ k).
Proof. intros H. exists (2 ^ (k - j)). rewrite <- Z.pow_add_r by lia. f_equal. lia. Qed.

(** The sizes of a transfer buffer: powers of two (but the largest one allowed can have
    fallen below the least), with the result area a multiple of the alignment that leaves
    room in the smallest buffer. *)
Record sizes_ok (s : t) : Prop := {
  sz_align : power_of_two (alignment_ s);
  sz_min : power_of_two (min_buffer_size_ s);
  sz_align_min : alignment_ s <= min_buffer_size_ s;
  sz_max : 0 <= max_buffer_size_ s <= 2 ^ 31 /\
           (power_of_two (max_buffer_size_ s) \/ max_buffer_size_ s < min_buffer_size_ s);
  sz_result : 0 <= result_size_ s < min_buffer_size_ s /\ (alignment_ s | result_size_ s)
}.

Lemma pow2_pos x : power_of_two x -> 0 < x <= 2 ^ 31.
Proof.
  intros (k & Hk & ->). split; [apply Z.pow_pos_nonneg; lia|]. apply Z.pow_le_mono_r; lia.
Qed.

Lemma pow2_le_divide x y : power_of_two x -> power_of_two y -> x <= y -> (x | y).
Proof.
  intros (j & Hj & ->) (k & Hk & ->) H. apply pow2_divide.
  destruct (Z.le_gt_cases j k); [lia|]. assert (2 ^ k < 2 ^ j) by (apply Z.pow_lt_mono_r; lia). lia.
Qed.

Lemma pow2_half x : power_of_two x -> 1 < x -> power_of_two (x / 2).
Proof.
  intros (k & Hk & ->) H. destruct (Z.eq_dec k 0) as [->|Hk0]; [lia|]. exists (k - 1). split; [lia|].
  replace k with (k - 1 + 1) at 1 by lia. rewrite Z.pow_add_r, Z.div_mul by lia. done.
Qed.

(** What a request asks for: a power of two between the limits, or less than the least. *)
Lemma needed_size s d :
  sizes_ok s -> 0 < d <= 2 ^ 31 ->
  let n := Z.min (Z.max (2 ^ Z.log2_up d) (min_buffer_size_ s)) (max_buffer_size_ s) in
  n < min_buffer_size_ s /\ max_buffer_size_ s < min_buffer_size_ s \/
  (power_of_two n /\ min_buffer_size_ s <= n <= max_buffer_size_ s /\ (d <= max_buffer_size_ s -> d <= n)).
Proof.
  intros [HA Hmin HAm [Hmax Hp] Hr] Hd n. pose proof (pow2_up d ltac:(lia)). pose proof (pow2_pos _ Hmin).
  destruct (Z.lt_ge_cases (max_buffer_size_ s) (min_buffer_size_ s)) as [|Hge]; [left; lia|right].
  destruct Hp as [Hp|]; [|lia]. split; [|lia]. unfold n.
  assert (Hpow : power_of_two (2 ^ Z.log2_up d)).
  { exists (Z.log2_up d). split; [|done]. assert (Z.log2_up d <= 31) by (apply Z.log2_up_le_pow2; lia).
    pose proof (Z.log2_up_nonneg d). lia. }
  destruct (Z.max_spec (2 ^ Z.log2_up d) (min_buffer_size_ s)) as [[_ ->]|[_ ->]], (Z.min_spec (2 ^ Z.log2_up d) (max_buffer_size_ s)) as [[_ E]|[_ E]],
    (Z.min_spec (min_buffer_size_ s) (max_buffer_size_ s)) as [[_ E']|[_ E']]; rewrite ?E, ?E'; done.
Qed.

Section Laws.
Context {H : Type} `{CL : HelperCommandLaws H}.

(** The ring over the rest of the buffer. *)
Record ring_ok (s : t) (r : ring) : Prop := {
  ro_wf : RingBuffer.wf (ring_allocator_ r);
  ro_offset : RingBuffer.base_offset_ (ring_allocator_ r) = result_size_ s;
  ro_size : RingBuffer.size_ (ring_allocator_ r) = bsize (buffer_ s) - result_size_ s;
  ro_base : ring_base_ r = ptr (buffer_ s);
  ro_alignment : ring_alignment_ r = alignment_ s
}.

(** The current buffer: live, and its start is the result area. *)
Definition has_buffer (h : H) (s : t) (r : ring) : Prop :=
  ring_buffer_ s = Some r /\ ring_ok s r /\ live h (buffer_id_ s) (buffer_ s) /\
  power_of_two (bsize (buffer_ s)) /\ min_buffer_size_ s <= bsize (buffer_ s) <= max_buffer_size_ s /\
  result_buffer_ s = ptr (buffer_ s) /\ result_shm_offset_ s = 0.

Definition wf (h : H) (s : t) : Prop :=
  sizes_ok s /\ if HaveBuffer s then usable_ s = true /\ exists r, has_buffer h s r else ring_buffer_ s = None.

(** No block of the ring is in use. *)
Definition idle (s : t) : Prop :=
  forall r, ring_buffer_ s = Some r -> RingBuffer.back_in_use (ring_allocator_ r) = false.

(** The limits that do not change; the largest size allowed can only shrink. *)
Definition same_sizes (s s' : t) : Prop :=
  result_size_ s' = result_size_ s /\ min_buffer_size_ s' = min_buffer_size_ s /\ alignment_ s' = alignment_ s /\
  max_buffer_size_ s' <= max_buffer_size_ s.

(** A fresh ring over a new buffer. *)
Lemma new_buffer_ok s id buffer h :
  sizes_ok s -> live h id buffer -> id <> -1 -> usable_ s = true ->
  power_of_two (bsize buffer) -> min_buffer_size_ s <= bsize buffer <= max_buffer_size_ s ->
  let r := new_ring (alignment_ s) id (result_size_ s) (u32 (bsize buffer - result_size_ s)) (ptr buffer + result_size_ s) in
  wf h (with_buffer (Some r) buffer id (ptr buffer) 0 s) /\
  ring_allocator_ r = RingBuffer.init (result_size_ s) (bsize buffer - result_size_ s).
Proof.
  intros Hs Hl Hid Hu Hp Hm r. pose proof (pow2_pos _ Hp). destruct Hs as [A1 A2 A3 A4 [A5 A6]].
  split; [|unfold r; by rewrite u32_small by lia].
  split; [by split|]. unfold HaveBuffer. cbn [with_buffer buffer_id_]. rewrite (proj2 (Z.eqb_neq _ _)) by done. cbn [negb].
  split; [done|]. exists r. split; [done|]. split; [|by do 4 (split; [done|])].
  unfold r. rewrite u32_small by lia. split; cbn; [|done|done|lia|done]. apply RingBuffer.ring_wf_init. lia.
Qed.

Lemma AllocateRingBuffer_spec fuel size s h :
  sizes_ok s -> ring_buffer_ s = None -> HaveBuffer s = false -> usable_ s = true -> ready h ->
  size < min_buffer_size_ s \/ (power_of_two size /\ min_buffer_size_ s <= size <= max_buffer_size_ s) ->
  size < 2 ^ Z.of_nat fuel ->
  exists s' h', AllocateRingBuffer fuel size s h = Ret (s', h') /\ wf h' s' /\ RingBuffer.later h h' /\ same_sizes s s' /\
    (forall r, ring_buffer_ s' = Some r -> ring_allocator_ r = RingBuffer.init (result_size_ s') (bsize (buffer_ s') - result_size_ s')) /\
    (HaveBuffer s' = true -> bsize (buffer_ s') = max_buffer_size_ s' \/
      bsize (buffer_ s') = size /\ max_buffer_size_ s' = max_buffer_size_ s).
Proof.
  revert size s h. induction fuel as [|fuel IH]; intros size s h Hs Hr Hb Hu Hre Hsize Hf; cbn [AllocateRingBuffer];
    (destruct (Z.ltb_spec size (min_buffer_size_ s)) as [Hlt|Hge];
     [exists (with_usable false s), h; split; [done|]; split; [split; [by destruct Hs|]; unfold HaveBuffer in *; cbn; by rewrite Hb|];
      split; [by split|]; split; [by unfold same_sizes; cbn; lia|]; split; [by cbn; rewrite Hr|]; unfold HaveBuffer in *; cbn; by rewrite Hb|]).
  - destruct Hs as [_ Hmin _ _ _]. pose proof (pow2_pos _ Hmin). change (2 ^ Z.of_nat 0) with 1 in Hf. lia.
  - destruct Hsize as [|[Hp Hle]]; [lia|]. pose proof (pow2_pos _ Hp) as Hpos.
    destruct (CreateTransferBuffer size (-1) h) as [id h1] eqn:Ec.
    destruct (create_spec h size (-1) id h1 Hre ltac:(lia) Ec) as (Hre1 & Hpass & _ & Hid).
    destruct (Z.eqb_spec id (-1)) as [->|Hne]; cbn [negb].
    + pose proof Hs as [A1 A2 A3 A4 A5]. pose proof (pow2_pos _ A2).
      assert (Hs1 : sizes_ok (with_max (size / 2) s)).
      { split; try done. cbn [with_max max_buffer_size_ min_buffer_size_]. split; [div_lia|].
        destruct (Z.eq_dec size 1) as [->|]; [right; cbn [with_max min_buffer_size_]; change (1 / 2) with 0; lia|left; apply pow2_half; [done|lia]]. }
      destruct (IH (size / 2) (with_max (size / 2) s) h1) as (s' & h' & E & Hw & Hl & Hsame & Hfresh & Hsz); try done.
      { cbn [with_max max_buffer_size_ min_buffer_size_]. destruct (Z.lt_ge_cases (size / 2) (min_buffer_size_ s)); [by left|right].
        split; [|lia]. apply pow2_half; [done|]. destruct (Z.eq_dec size 1) as [->|]; [change (1 / 2) with 0 in *; lia|lia]. }
      { apply Z.div_lt_upper_bound; [lia|]. by rewrite <- Z.pow_succ_r, <- Nat2Z.inj_succ by lia. }
      exists s', h'. split; [done|]. split; [done|]. split; [by eapply RingBuffer.later_trans; [split|]|].
      split; [|split; [done|]].
      * destruct Hsame as (? & ? & ? & Hm). split; [done|]. split; [done|]. split; [done|]. cbn [with_max max_buffer_size_] in Hm.
        assert (size / 2 <= size) by div_lia. lia.
      * intros Hh. left. destruct (Hsz Hh) as [|[-> ->]]; done.
    + destruct Hid as [|(Hnew & Hbs & Hlive)]; [done|]. rewrite Hr. cbn [reset_ring obind].
      destruct (new_buffer_ok s id (GetTransferBuffer id h1) h1) as [Hw Hf1]; [done..|by rewrite Hbs|by rewrite Hbs|].
      eexists _, h1. split; [done|]. split; [done|]. split; [by split|].
      split; [by unfold same_sizes; cbn; lia|]. split; [|right; done]. cbn. intros r [= <-]. done.
Qed.

(** The service is done with every block of the ring. *)
Definition all_reusable (h : H) (s : t) : Prop :=
  forall r b, ring_buffer_ s = Some r -> b ∈ RingBuffer.blocks_ (ring_allocator_ r) -> RingBuffer.reusable h b.

(** The ring, if any, is new. *)
Definition fresh_ring (s : t) : Prop :=
  forall r, ring_buffer_ s = Some r -> ring_allocator_ r = RingBuffer.init (result_size_ s) (bsize (buffer_ s) - result_size_ s).

Lemma Free_spec s h :
  wf h s -> idle s -> ready h ->
  exists s' h', Free s h = Ret (s', h') /\ wf h' s' /\ RingBuffer.later h h' /\
    HaveBuffer s' = false /\ usable_ s' = usable_ s /\ same_sizes s s' /\ max_buffer_size_ s' = max_buffer_size_ s /\
    all_reusable h' s.
Proof.
  intros [Hs Hb] Hi Hre. unfold Free. destruct (HaveBuffer s) eqn:Eb.
  - destruct Hb as (_ & r & Hr & Hring & Hlive & _).
    destruct (finish_spec h Hre) as (h1 & -> & Hre1 & Hp1 & Hl1). cbn [obind]. cbv zeta.
    destruct (destroy_spec h1 (buffer_id_ s) Hre1) as (Hre2 & Hp2 & _).
    rewrite Hr. cbn [reset_ring]. pose proof (ro_wf _ _ Hring) as Hw.
    edestruct (RingBuffer.destroy_spec (length (RingBuffer.blocks_ (ring_allocator_ r))) (ring_allocator_ r)) as (a' & h3 & E & _ & Hl3 & Hf3);
      [done|exact Hre2|by apply RingBuffer.no_in_use_spec, Hi|done|].
    rewrite E. cbn [obind]. eexists _, h3. split; [done|]. split; [by split; [destruct Hs|]|].
    split; [by eapply RingBuffer.later_trans; [|done]; split; [done|]; auto|].
    split; [done|]. split; [done|]. split; [by unfold same_sizes; cbn; lia|]. split; [done|].
    intros r' b Hr'. rewrite Hr in Hr'. injection Hr' as <-. by apply Forall_forall.
  - exists s, h. split; [done|]. split; [by split; [|rewrite Eb]|]. split; [by split|].
    split; [done|]. split; [done|]. split; [by unfold same_sizes; lia|]. split; [done|]. intros r b Hr. congruence.
Qed.

(** After a request for [size] bytes the buffer is as it was, or there is a new ring (or
    none) and every old block has come back; if there is one and the limit allows it, it has
    room for the request. *)
Lemma ReallocateRingBuffer_spec size s h :
  wf h s -> idle s -> ready h -> 0 <= size -> 0 < size + result_size_ s <= 2 ^ 31 ->
  exists s' h', ReallocateRingBuffer size s h = Ret (s', h') /\ wf h' s' /\ RingBuffer.later h h' /\ same_sizes s s' /\
    (s' = s /\ h' = h \/ all_reusable h' s /\ fresh_ring s') /\
    (HaveBuffer s' = true -> size + result_size_ s <= max_buffer_size_ s' -> size + result_size_ s <= bsize (buffer_ s')).
Proof.
  intros Hw Hi Hre Hsz Hd. pose proof Hw as [Hs Hb]. pose proof (sz_result _ Hs).
  unfold ReallocateRingBuffer. rewrite u32_small, ComputePOTSize_spec by lia. cbn [obind]. cbv zeta.
  pose proof (needed_size s (size + result_size_ s) Hs Hd) as Hn. cbv zeta in Hn.
  set (n := Z.min (Z.max (2 ^ Z.log2_up (size + result_size_ s)) (min_buffer_size_ s)) (max_buffer_size_ s)) in *. clearbody n.
  assert (Hn32 : n < 2 ^ Z.of_nat 33).
  { change (2 ^ Z.of_nat 33) with (2 ^ 33). pose proof (pow2_pos _ (sz_min _ Hs)). destruct Hn as [|[Hn _]]; [lia|]. apply pow2_pos in Hn. lia. }
  destruct (usable_ s && (negb (HaveBuffer s) || (bsize (buffer_ s) <? n))) eqn:Ec; swap 1 2.
  { exists s, h. split; [done|]. split; [done|]. split; [by split|]. split; [by unfold same_sizes; lia|]. split; [by left|].
    intros Hh Hm. rewrite Hh in *. cbn [negb orb] in Ec. destruct Hb as (Hu & r & Hhas). rewrite Hu in Ec. cbn [andb] in Ec. zb2p.
    destruct Hhas as (_ & _ & _ & _ & Hle & _). destruct Hn as [|(_ & _ & Hn)]; [lia|]. specialize (Hn Hm). lia. }
  apply andb_true_iff in Ec as [Hu Ec].
  assert (HF : exists s1 h1, (if HaveBuffer s then Free s h else Ret (s, h)) = Ret (s1, h1) /\ wf h1 s1 /\ RingBuffer.later h h1 /\
    HaveBuffer s1 = false /\ usable_ s1 = true /\ same_sizes s s1 /\ max_buffer_size_ s1 = max_buffer_size_ s /\ all_reusable h1 s).
  { destruct (Free_spec s h Hw Hi Hre) as (s1 & h1 & E & F1 & F2 & F3 & F4 & F5 & F6 & F7). rewrite Hu in F4.
    exists s1, h1. split; [|done]. rewrite <- E. unfold Free. by destruct (HaveBuffer s). }
  destruct HF as (s1 & h1 & -> & [Hs1 Hb1] & Hl1 & Hh1 & Hu1 & Hsame1 & Hmax1 & Hall). cbn [obind].
  pose proof Hsame1 as (E1 & E2 & E3 & _). rewrite Hh1 in Hb1.
  destruct (AllocateRingBuffer_spec 33 n s1 h1 Hs1 Hb1 Hh1 Hu1 (proj1 Hl1)) as (s2 & h2 & E & Hw2 & Hl2 & Hsame2 & Hf2 & Hb2).
  { rewrite E2, Hmax1. destruct Hn as [[? _]|(? & ? & _)]; [by left|by right]. }
  { done. }
  pose proof Hsame2 as (E1' & E2' & E3' & Hm').
  exists s2, h2. split; [done|]. split; [done|]. split; [by eapply RingBuffer.later_trans|].
  split; [unfold same_sizes; repeat split; try congruence; lia|]. split.
  - right. split; [|done]. intros r b Hr Hin. eapply RingBuffer.later_reusable; [done|]. by eapply Hall.
  - intros Hh Hm. destruct Hw2 as [_ Hw2]. rewrite Hh in Hw2. destruct Hw2 as (_ & r & _ & _ & _ & _ & Hle & _).
    destruct (Hb2 Hh) as [->|[-> Hmm]]; [done|]. destruct Hn as [|(_ & _ & Hn)]; [lia|]. apply Hn. lia.
Qed.

(** Allocations start at multiples of the alignment. *)
Definition aligned (s : t) : Prop :=
  forall r, ring_buffer_ s = Some r -> RingBuffer.aligned (alignment_ s) (ring_allocator_ r).

Lemma ring_size_divide h s r : sizes_ok s -> has_buffer h s r -> (alignment_ s | bsize (buffer_ s) - result_size_ s).
Proof.
  intros [A1 A2 A3 _ [_ A5]] (_ & _ & _ & Hp & Hle & _). apply Z.divide_sub_r; [|done]. by apply pow2_le_divide; [| |lia].
Qed.

Lemma fresh_aligned h s : wf h s -> fresh_ring s -> aligned s.
Proof.
  intros [Hs Hb] Hf r Hr. destruct (HaveBuffer s); [|congruence]. destruct Hb as (_ & r' & Hh).
  rewrite (Hf r Hr). split; [by eapply ring_size_divide|]. split; [apply Z.divide_0_r|apply Hs].
Qed.

(** Bytes [lo] to [hi] belong to no block of the ring that the service can still use. *)
Definition avoids_pending (h : H) (s : t) (lo hi : Z) : Prop :=
  forall r b x, ring_buffer_ s = Some r -> b ∈ RingBuffer.blocks_ (ring_allocator_ r) -> RingBuffer.in_block b x ->
    lo <= ring_base_ r + RingBuffer.base_offset_ (ring_allocator_ r) + x < hi -> RingBuffer.reusable h b.

(** The last block of the ring is in use and starts at [p]. *)
Definition holds (s : t) (p : Z) : Prop :=
  exists r rest b, ring_buffer_ s = Some r /\ RingBuffer.blocks_ (ring_allocator_ r) = rest ++ [b] /\
    RingBuffer.state b = RingBuffer.IN_USE /\
    p = ring_base_ r + (RingBuffer.base_offset_ (ring_allocator_ r) + RingBuffer.offset b).

(** The bytes of an allocation: in the live buffer after the results. *)
Record granted (h : H) (s : t) (p g : Z) : Prop := {
  gr_live : live h (buffer_id_ s) (buffer_ s);
  gr_low : ptr (buffer_ s) + result_size_ s <= p;
  gr_high : p + Z.max 1 g <= ptr (buffer_ s) + bsize (buffer_ s)
}.

Lemma round_fits a g r : power_of_two a -> (a | r) -> 0 <= g <= r -> r < 2 ^ 31 + 1 ->
  RoundToAlignment a g = (g + a - 1) / a * a /\ g <= RoundToAlignment a g <= r /\ (a | RoundToAlignment a g).
Proof.
  intros Ha [q ->] Hg Hr. pose proof (pow2_pos _ Ha). rewrite RoundToAlignment_spec by (done || lia).
  pose proof (round_bounds a g ltac:(lia)). split; [done|]. split; [|by exists ((g + a - 1) / a)].
  split; [lia|]. assert ((g + a - 1) / a <= q); [|nia].
  destruct (Z.le_gt_cases ((g + a - 1) / a) q); [done|nia].
Qed.

Lemma ring_alloc_spec g s h r :
  wf h s -> ring_buffer_ s = Some r -> idle s -> ready h -> 0 <= g <= RingBuffer.size_ (ring_allocator_ r) ->
  exists p r' h', ring_alloc g r h = Ret (p, r', h') /\ wf h' (with_ring r' s) /\ RingBuffer.later h h' /\
    granted h' (with_ring r' s) p g /\ holds (with_ring r' s) p /\
    avoids_pending h' s p (p + Z.max 1 g) /\
    (0 < g -> aligned s -> (alignment_ s | p - ptr (buffer_ s)) /\ aligned (with_ring r' s)).
Proof.
  intros [Hs Hb] Hr Hi Hre Hg. destruct (HaveBuffer s) eqn:Eb; [|congruence].
  destruct Hb as (Hu & r0 & Hhas). pose proof Hhas as (Hr0 & [Ro1 Ro2 Ro3 Ro4 Ro5] & Hlive & Hp & Hle & Hres & Hoff).
  rewrite Hr in Hr0. injection Hr0 as <-. pose proof (ring_size_divide _ _ _ Hs Hhas) as Hdiv.
  pose proof Hs as [A1 A2 A3 A4 [A5 A6]]. pose proof (pow2_pos _ Hp). rewrite Ro3 in Hg.
  destruct (round_fits _ g _ A1 Hdiv Hg ltac:(lia)) as (Eround & Hround & Hrd). unfold ring_alloc. rewrite Ro5.
  set (n := RoundToAlignment (alignment_ s) g) in *. clearbody n.
  destruct (RingBuffer.ring_Alloc_spec n (ring_allocator_ r) h Ro1 Hre (Hi r Hr))
    as (k & pad & o & a' & h' & E & Hw' & Hl & Hre' & Hbl & Ho & Ho' & Hsz' & Hbo'); [lia..|].
  rewrite E. cbn [obind]. eexists _, (set_allocator a' r), h'. split; [done|].
  assert (Hlive' : live h' (buffer_id_ s) (buffer_ s)).
  { eapply (RingBuffer.Alloc_keeps (fun h => live h (buffer_id_ s) (buffer_ s))); [|done..]. intros t h1 h2 Ew Hl1. by eapply wait_live. }
  split.
  { split; [by destruct Hs|]. unfold HaveBuffer in *. cbn [with_ring with_buffer buffer_id_]. rewrite Eb. split; [done|].
    exists (set_allocator a' r). split; [done|]. split; [split; cbn; congruence|]. done. }
  split; [done|]. split; [split; cbn; [done|lia..]|]. split.
  { exists (set_allocator a' r), (drop k (RingBuffer.blocks_ (ring_allocator_ r)) ++ pad), (RingBuffer.newBlock o (Z.max 1 n) RingBuffer.IN_USE).
    split; [done|]. split; [by rewrite <- app_assoc|]. split; [done|]. cbn. congruence. }
  split.
  - intros r' b x Hr' Hin Hbx Hx. rewrite Hr in Hr'. injection Hr' as <-.
    eapply RingBuffer.new_block_overlap; [done..|lia].
  - intros Hg0 Hal. specialize (Hal r Hr).
    assert (Ha32 : (alignment_ s | 2 ^ 32)) by (destruct A1 as (j & Hj & ->); apply pow2_divide; lia).
    pose proof (RingBuffer.Alloc_aligned _ n _ h _ a' h' Ha32 Hrd ltac:(lia) Hal E) as [D1 D2].
    split; [|intros r' [= <-]; done]. rewrite Ro4. by rewrite Z.add_simpl_l.
Qed.

(** A buffer replaced by [ReallocateRingBuffer], or kept, has the same limits. *)
Lemma same_sizes_trans s1 s2 s3 : same_sizes s1 s2 -> same_sizes s2 s3 -> same_sizes s1 s3.
Proof. unfold same_sizes. intros (? & ? & ? & ?) (? & ? & ? & ?). repeat split; congruence || lia. Qed.

(** What an allocation of [g] bytes at [p] does, [s0] being the state before. *)
Record allocated (h' : H) (s0 s' : t) (p g : Z) : Prop := {
  al_granted : granted h' s' p g;
  al_holds : holds s' p;
  al_pending : avoids_pending h' s0 p (p + Z.max 1 g);
  al_aligned : 0 < g -> aligned s0 -> (alignment_ s' | p - ptr (buffer_ s')) /\ aligned s'
}.

(** [ReallocateRingBuffer] and then an allocation from the ring. *)
Lemma realloc_then_alloc size s h :
  wf h s -> idle s -> ready h -> 0 <= size -> 0 < size + result_size_ s <= 2 ^ 31 ->
  exists s1 h1, ReallocateRingBuffer size s h = Ret (s1, h1) /\ wf h1 s1 /\ RingBuffer.later h h1 /\ same_sizes s s1 /\
    (HaveBuffer s1 = true -> exists r, ring_buffer_ s1 = Some r /\
      let cap := RingBuffer.GetLargestFreeOrPendingSize (ring_allocator_ r) in
      cap = bsize (buffer_ s1) - result_size_ s1 /\ 0 < cap /\ (size <= GetMaxAllocation s1 -> size <= cap) /\
      forall g, 0 <= g <= cap -> exists p r' h', ring_alloc g r h1 = Ret (p, r', h') /\ wf h' (with_ring r' s1) /\
        RingBuffer.later h h' /\ allocated h' s (with_ring r' s1) p g).
Proof.
  intros Hw Hi Hre Hsz Hd. destruct (ReallocateRingBuffer_spec size s h) as (s1 & h1 & E & Hw1 & Hl1 & Hsame & Hcase & Hroom); [done..|].
  exists s1, h1. do 4 (split; [done|]). intros Hh. pose proof Hw1 as [Hs1 Hb1]. rewrite Hh in Hb1. destruct Hb1 as (_ & r & Hhas).
  pose proof Hhas as (Hr & [_ _ Ro3 _ _] & _ & Hp & Hle & _). exists r. split; [done|]. cbv zeta. unfold RingBuffer.GetLargestFreeOrPendingSize.
  pose proof Hs1 as [A1 A2 A3 A4 [A5 A6]]. pose proof (pow2_pos _ Hp). split; [done|]. split; [lia|]. split.
  { intros Hm. unfold GetMaxAllocation in Hm. rewrite Hh, u32_small in Hm by lia. destruct Hsame as (Er & _). rewrite Er in *.
    specialize (Hroom Hh ltac:(lia)). lia. }
  intros g Hg.
  assert (Hi1 : idle s1).
  { destruct Hcase as [[-> ->]|[_ Hf]]; [done|]. intros r' Hr'. by rewrite (Hf r' Hr'). }
  destruct (ring_alloc_spec g s1 h1 r Hw1 Hr Hi1 (proj1 Hl1) Hg) as (p & r' & h' & E2 & Hw2 & Hl2 & Hg2 & Hh2 & Ha2 & Hal2).
  exists p, r', h'. split; [done|]. split; [done|]. split; [by eapply RingBuffer.later_trans|]. split; [done|done| |].
  - destruct Hcase as [[-> ->]|[Hall _]]; [done|]. intros r0 b x Hr0 Hin _ _. eapply RingBuffer.later_reusable; [done|]. by eapply Hall.
  - intros Hg0 Hal. apply Hal2; [done|]. destruct Hcase as [[-> ->]|[_ Hf]]; [done|]. by eapply fresh_aligned.
Qed.

(** An allocation of up to [size] bytes returns [NULL] only without a buffer; else it grants
    what fits the ring, all of it up to [GetMaxAllocation]. *)
Lemma AllocUpTo_spec size s h :
  wf h s -> idle s -> ready h -> 0 <= size -> 0 < size + result_size_ s <= 2 ^ 31 ->
  exists p n s' h', AllocUpTo size s h = Ret (p, n, s', h') /\ wf h' s' /\ RingBuffer.later h h' /\ same_sizes s s' /\
    match n with
    | None => HaveBuffer s' = false /\ p = NULL
    | Some g => g = Z.min size (bsize (buffer_ s') - result_size_ s') /\ (size <= GetMaxAllocation s' -> g = size) /\
        allocated h' s s' p g
    end.
Proof.
  intros Hw Hi Hre Hsz Hd. destruct (realloc_then_alloc size s h) as (s1 & h1 & E & Hw1 & Hl1 & Hsame & Halloc); [done..|].
  unfold AllocUpTo. rewrite E. cbn [obind]. destruct (HaveBuffer s1) eqn:Eb; cbn [negb].
  - destruct (Halloc eq_refl) as (r & Hr & Hcap & Hpos & Hmax & Hall). rewrite Hr. cbn [must obind]. cbv zeta.
    set (cap := RingBuffer.GetLargestFreeOrPendingSize (ring_allocator_ r)) in *.
    destruct (Hall (Z.min cap size) ltac:(lia)) as (p & r' & h' & -> & Hw2 & Hl2 & Ha). cbn [obind].
    exists p, (Some (Z.min cap size)), (with_ring r' s1), h'. do 4 (split; [done|]).
    cbn [with_ring with_buffer buffer_ result_size_]. rewrite <- Hcap. split; [lia|]. split; [|done].
    intros Hm. specialize (Hmax Hm). lia.
  - exists NULL, None, s1, h1. done.
Qed.

(** [Alloc] returns the whole request or [NULL]; it grants every request up to
    [GetMaxAllocation] when there is a buffer. *)
Lemma Alloc_spec size s h :
  wf h s -> idle s -> ready h -> 0 <= size -> 0 < size + result_size_ s <= 2 ^ 31 ->
  exists p s' h', Alloc size s h = Ret (p, s', h') /\ wf h' s' /\ RingBuffer.later h h' /\ same_sizes s s' /\
    (p = NULL \/ allocated h' s s' p size) /\ (HaveBuffer s' = true -> size <= GetMaxAllocation s' -> p <> NULL).
Proof.
  intros Hw Hi Hre Hsz Hd. destruct (realloc_then_alloc size s h) as (s1 & h1 & E & Hw1 & Hl1 & Hsame & Halloc); [done..|].
  unfold Alloc. rewrite E. cbn [obind]. destruct (HaveBuffer s1) eqn:Eb; cbn [negb].
  - destruct (Halloc eq_refl) as (r & Hr & Hcap & Hpos & Hmax & Hall). rewrite Hr. cbn [must obind]. cbv zeta.
    set (cap := RingBuffer.GetLargestFreeOrPendingSize (ring_allocator_ r)) in *. destruct (Z.ltb_spec cap size).
    + exists NULL, s1, h1. do 4 (split; [done|]). split; [by left|]. intros _ Hm. specialize (Hmax Hm). lia.
    + destruct (Hall size ltac:(lia)) as (p & r' & h' & -> & Hw2 & Hl2 & Ha). cbn [obind].
      exists p, (with_ring r' s1), h'. do 4 (split; [done|]). split; [by right|]. intros _ _ ->.
      destruct Ha as [[Hlive Hlow _] _ _ _]. destruct (live_bounds _ _ _ Hlive) as [Hp _].
      destruct Hw2 as [Hs2 _]. destruct (sz_result _ Hs2) as [[? _] _]. unfold NULL in Hlow. lia.
  - exists NULL, s1, h1. do 4 (split; [done|]). split; [by left|]. congruence.
Qed.

(** ** Initialization and scoped pointers *)

Lemma Initialize_spec starting result min max alignment (h : H) :
  sizes_ok (with_sizes result min max alignment init) -> 0 < starting <= 2 ^ 31 -> result <= starting -> ready h ->
  exists s h', Initialize starting result min max alignment init h = Ret (HaveBuffer s, s, h') /\
    wf h' s /\ idle s /\ aligned s /\ RingBuffer.later h h' /\ result_size_ s = result /\ alignment_ s = alignment.
Proof.
  intros Hs Hst Hle Hre. unfold Initialize. destruct (sz_result _ Hs) as [[Hr _] _]. cbn in Hr.
  destruct (ReallocateRingBuffer_spec (starting - result) (with_sizes result min max alignment init) h)
    as (s & h' & E & Hw & Hl & (E1 & _ & E3 & _) & Hcase & _); [by split|done|done|lia|cbn; lia|].
  rewrite u32_small by lia. cbv zeta. rewrite E. cbn [obind]. exists s, h'. split; [done|]. split; [done|].
  destruct Hcase as [[-> ->]|[_ Hf]]; [done|]. split; [intros r Hr'; by rewrite (Hf r Hr')|]. split; [by eapply fresh_aligned|done].
Qed.

(** A scoped pointer is empty, or holds the block in use. *)
Definition scoped_ok (s : t) (p : scoped) : Prop :=
  p = ScopedTransferBufferPtr NULL 0 /\ idle s \/ scoped_buffer_ p <> NULL /\ holds s (scoped_buffer_ p).

Lemma Release_spec p s h :
  wf h s -> ready h -> scoped_ok s p ->
  exists s' h', Release p s h = Ret (ScopedTransferBufferPtr NULL 0, s', h') /\ wf h' s' /\ idle s' /\ RingBuffer.later h h' /\
    same_sizes s s' /\ max_buffer_size_ s' = max_buffer_size_ s /\ (aligned s -> aligned s').
Proof.
  intros Hw Hre [[-> Hi]|(Hne & r & rest & b & Hr & Hb & Hst & Hp)]; unfold Release.
  { exists s, h. do 3 (split; [done|]). split; [by split|]. split; [by unfold same_sizes; lia|done]. }
  rewrite (proj2 (Z.eqb_neq _ _) Hne). cbn [negb].
  destruct (token_spec h Hre) as (tok & h1 & -> & Hre1 & Hp1 & Hl1). cbn [obind].
  destruct Hw as [Hs Hbuf]. destruct (HaveBuffer s) eqn:Eb; [|congruence].
  destruct Hbuf as (Hu & r0 & Hr0 & [Ro1 Ro2 Ro3 Ro4 Ro5] & Hlive & Hpow & Hle & Hres).
  rewrite Hr in Hr0. injection Hr0 as <-. destruct (sz_result _ Hs) as [Hrs _]. pose proof (pow2_pos _ Hpow).
  destruct (RingBuffer.ring_free_pending tok (ring_allocator_ r) b rest) as (a & Ea & Hwa & Hba & Hia); [done..|lia|lia|].
  pose proof (RingBuffer.FreePendingToken_frame _ _ _ _ Ea) as (F1 & F2 & F3).
  unfold FreePendingToken. rewrite Hr. cbn [must obind]. rewrite (proj2 (Z.eqb_neq _ _) Hne). cbn [negb dcheck obind].
  pose proof (RingBuffer.chain_sizes _ _ _ _ (RingBuffer.wf_chain _ Ro1)) as HF. rewrite Hb in HF.
  apply Forall_app in HF as [_ HF]. apply Forall_cons in HF as [HF _].
  replace (scoped_buffer_ p - ring_base_ r) with (RingBuffer.base_offset_ (ring_allocator_ r) + RingBuffer.offset b) by lia.
  rewrite u32_small by lia. rewrite Ea. cbn [obind].
  exists (with_ring (set_allocator a r) s), h1. split; [done|]. split.
  { split; [by destruct Hs|]. unfold HaveBuffer in *. cbn [with_ring with_buffer buffer_id_]. rewrite Eb. split; [done|].
    exists (set_allocator a r). split; [done|]. split; [split; cbn; congruence|]. split; [|done]. cbn. by apply Hl1. }
  split; [by intros r' [= <-]|]. split; [by split|]. split; [by unfold same_sizes; cbn; lia|]. split; [done|].
  intros Hal r' [= <-]. destruct (Hal r Hr) as (D1 & D2 & D3). unfold RingBuffer.aligned. cbn. rewrite F1, F2, F3. done.
Qed.

(** C34: in every well-formed state of the transfer buffer, the sizes it was made with being
    powers of two, a scoped pointer that is empty or holds the block in use can be reset to
    any size that with the result area is positive and at most 2^31 (beyond that a shift has
    no defined value, pot_size_overflow): the old block is freed behind a new token, the
    buffer is replaced when it is too small, and the pointer is [NULL] only when the service
    gives no buffer.  Otherwise its bytes lie in the live buffer after the result area,
    overlap only blocks whose token the service has passed, are as many as asked for up to
    [GetMaxAllocation], and start at a multiple of the alignment as long as no request was
    for no bytes (zero_size_misaligns); and the state allows the next reset. *)
Theorem scoped_reset_safe : forall size p s (h : H),
  wf h s -> ready h -> scoped_ok s p -> 0 <= size -> 0 < size + result_size_ s <= 2 ^ 31 ->
  exists s1 h1 p' s' h',
    Release p s h = Ret (ScopedTransferBufferPtr NULL 0, s1, h1) /\ (aligned s -> aligned s1) /\
    Reset size p s h = Ret (p', s', h') /\ wf h' s' /\ RingBuffer.later h h' /\ same_sizes s s' /\ scoped_ok s' p' /\
    (HaveBuffer s' = false /\ p' = ScopedTransferBufferPtr NULL 0 \/
     scoped_size_ p' = Z.min size (bsize (buffer_ s') - result_size_ s') /\
     (size <= GetMaxAllocation s' -> scoped_size_ p' = size) /\
     allocated h' s1 s' (scoped_buffer_ p') (scoped_size_ p')).
Proof.
  intros size p s h Hw Hre Hp Hsz Hd.
  destruct (Release_spec p s h Hw Hre Hp) as (s1 & h1 & E1 & Hw1 & Hi1 & Hl1 & Hsame1 & _ & Hal).
  assert (Er : result_size_ s1 = result_size_ s) by apply Hsame1. rewrite <- Er in Hd.
  destruct (AllocUpTo_spec size s1 h1 Hw1 Hi1 (proj1 Hl1) Hsz Hd) as (q & n & s' & h' & E2 & Hw2 & Hl2 & Hsame2 & Hn).
  exists s1, h1, (ScopedTransferBufferPtr q (default 0 n)), s', h'. split; [done|]. split; [done|].
  split; [unfold Reset; rewrite E1; cbn [obind]; rewrite E2; done|]. split; [done|].
  split; [by eapply RingBuffer.later_trans|]. split; [by eapply same_sizes_trans|]. pose proof Hw2 as [Hs2 Hb2]. destruct n as [g|].
  - destruct Hn as (Hg & Hm & Ha). pose proof Ha as [[Hlive Hlow Hhigh] Hh _ _]. destruct (live_bounds _ _ _ Hlive) as [Hpos _].
    destruct (sz_result _ Hs2) as [[? _] _]. split; [right; split; [unfold NULL; cbn; lia|done]|]. by right.
  - destruct Hn as [Hb ->]. split; [left; split; [done|]|by left]. intros r Hr. rewrite Hb in Hb2. congruence.
Qed.

(** What a command carries of a scoped pointer, [shm_id] and [offset], leads back to its
    bytes; asking for the identifier moves nothing when the smallest buffer has room for the
    results twice. *)
Lemma scoped_location s s0 p g h h' :
  wf h s -> 0 < 2 * result_size_ s <= min_buffer_size_ s -> allocated h' s0 s p g ->
  GetShmId s h = Ret (buffer_id_ s, s, h) /\ live h (buffer_id_ s) (buffer_ s) /\
  exists offset, GetOffset p s = Ret offset /\ p = ptr (buffer_ s) + offset /\ offset + g <= bsize (buffer_ s).
Proof.
  intros [Hs Hb] Hr [[_ Hlow Hhigh] (r & rest & b & Hrb & _) _ _]. destruct (HaveBuffer s) eqn:Eb; [|congruence].
  destruct Hb as (Hu & r0 & Hr0 & [_ _ _ Ro4 _] & Hlive & Hp & Hle & _). rewrite Hrb in Hr0. injection Hr0 as <-.
  destruct (live_bounds _ _ _ Hlive) as [Hpos Hbs]. pose proof (pow2_pos _ Hp). split.
  - pose proof (pow2_pos _ (sz_min _ Hs)). unfold GetShmId, ReallocateRingBuffer. rewrite u32_small, ComputePOTSize_spec by lia. cbn [obind]. cbv zeta.
    destruct (sz_min _ Hs) as (k & Hk & Ek).
    assert (Hup : 2 ^ Z.log2_up (result_size_ s + result_size_ s) <= min_buffer_size_ s).
    { rewrite Ek. apply Z.pow_le_mono_r; [lia|]. apply Z.log2_up_le_pow2; lia. }
    rewrite Eb, (proj2 (Z.ltb_ge _ _)) by lia. cbn [negb orb]. by rewrite andb_false_r.
  - split; [done|]. exists (p - ptr (buffer_ s)). unfold GetOffset. rewrite Hrb. cbn [must obind]. rewrite Ro4.
    destruct (sz_result _ Hs) as [? _]. rewrite u32_small by lia. split; [done|lia].
Qed.

End Laws.

(** ** Sizes out of range

    A request whose size and result area pass 2^31 bytes shifts a 32-bit 1 by 32. *)
Lemma pot_size_overflow d : 2 ^ 31 < d < 2 ^ 32 -> ComputePOTSize d = Crash.
Proof.
  intros H. unfold ComputePOTSize, Log2Ceiling. rewrite (proj2 (Z.eqb_neq _ _)), u32_small by lia.
  rewrite Log2Floor_spec by lia. cbn [obind].
  assert (E : Z.log2 (d - 1) = 31) by (apply Z.log2_unique; lia). by rewrite E.
Qed.

(** ** The helper of the evaluations *)

#[global] Instance world_commands : HelperCommands MappedMemory.world := {|
  HelperFinish := fun w => Ret w;
  HelperInsertToken := fun w => Ret (MappedMemory.w_token w + 1, w)
|}.

#[global] Program Instance world_command_laws : HelperCommandLaws MappedMemory.world.
Next Obligation. intros w Hw. by exists w. Qed.
Next Obligation. intros w Hw. by exists (MappedMemory.w_token w + 1), w. Qed.

Definition world0 : MappedMemory.world := MappedMemory.mkWorld 0 0 4096 [].

(** A buffer of 64 bytes, 16 for results and allocations at multiples of 8. *)
Definition state0 : t :=
  mk (Some (AlignedRingBuffer 8 0 (RingBuffer.init 16 48) 4096)) 16 64 256 8 (mkBuffer 4096 64) 0 4096 0 true.

Definition world1 : MappedMemory.world := MappedMemory.mkWorld 0 1 4160 [(0, mkBuffer 4096 64)].

Example initialize_evaluated : Initialize 64 16 64 256 8 init world0 = Ret (true, state0, world1).
Proof. vm_compute. reflexivity. Qed.

Lemma state0_sizes : sizes_ok (with_sizes 16 64 256 8 init).
Proof.
  split; cbn; [by exists 3|by exists 6|lia|split; [lia|left; by exists 8]|split; [lia|by exists 2]].
Qed.

Lemma world0_ok : MappedMemory.w_ok world0.
Proof.
  split; [done|]. split; [done|]. split; cbn; [intros i b Hi|intros i j b c Hi]; by apply not_elem_of_nil in Hi.
Qed.

Lemma state0_ok : wf world1 state0 /\ idle state0 /\ ready world1.
Proof.
  destruct (Initialize_spec 64 16 64 256 8 world0 state0_sizes) as (s & w & E & Hw & Hi & _ & [Hr _] & _); [lia..|apply world0_ok|].
  rewrite initialize_evaluated in E. assert (E' : state0 = s /\ world1 = w) by (split; congruence). destruct E' as [<- <-]. done.
Qed.

(** A pointer of 20 bytes, then one of 100, for which the buffer grows to 128. *)
Example resets_evaluated :
  (let! '(o, w) := Reset 20 (ScopedTransferBufferPtr NULL 0) state0 world1 in
   let '(p, s) := o in
   let! '(o, w) := Reset 100 p s w in
   let '(q, s') := o in
   Ret (p, q, bsize (buffer_ s), bsize (buffer_ s'), MappedMemory.w_token w))
  = Ret (ScopedTransferBufferPtr 4112 20, ScopedTransferBufferPtr 4176 100, 64, 128, 1).
Proof. vm_compute. reflexivity. Qed.

(** After a request for no bytes, which takes one byte of the ring, the next pointer is not
    at a multiple of 8. *)
Example zero_size_misaligns :
  (let! '(o, w) := Reset 0 (ScopedTransferBufferPtr NULL 0) state0 world1 in
   let '(p, s) := o in
   let! '(o, w) := Reset 8 p s w in
   let '(q, s') := o in Ret (scoped_buffer_ p, scoped_buffer_ q, scoped_buffer_ q mod 8))
  = Ret (4112, 4113, 1).
Proof. vm_compute. reflexivity. Qed.

Lemma scoped_reset_safe_witness :
  exists s1 h1 p' s' h',
    Release (ScopedTransferBufferPtr NULL 0) state0 world1 = Ret (ScopedTransferBufferPtr NULL 0, s1, h1) /\
    (aligned state0 -> aligned s1) /\
    Reset 20 (ScopedTransferBufferPtr NULL 0) state0 world1 = Ret (p', s', h') /\ wf h' s' /\ RingBuffer.later world1 h' /\
    same_sizes state0 s' /\ scoped_ok s' p' /\
    (HaveBuffer s' = false /\ p' = ScopedTransferBufferPtr NULL 0 \/
     scoped_size_ p' = Z.min 20 (bsize (buffer_ s') - result_size_ s') /\
     (20 <= GetMaxAllocation s' -> scoped_size_ p' = 20) /\
     allocated h' s1 s' (scoped_buffer_ p') (scoped_size_ p')).
Proof.
  apply (scoped_reset_safe 20 (ScopedTransferBufferPtr NULL 0) state0 world1);
    [apply state0_ok|apply state0_ok|left; split; [reflexivity|apply state0_ok]|lia|cbn; lia].
Defined.

End TransferBuffer.
