(* ===== verification/BasePickle.v ===== *)
(** Packed values, [base/pickle.h] and [base/pickle.cc]: a growing buffer to which typed
    values are appended, and the reading of such a buffer received from another process.
    Sizes are those of a 32-bit platform, as of the Android port: [int], [long], [size_t],
    [wchar_t] and pointers take four bytes, in little-endian order. *)
From S2P Require Import Prelude.
From S2P Require Import GpuMappedMemory.

(** ** Integers as bytes *)

(** The integer at a little-endian address. *)
Fixpoint le_value (l : list Z) : Z :=
  match l with
  | [] => 0
  | b :: l => b + 2 ^ 8 * le_value l
  end.

(** The [n] bytes of an integer. *)
Fixpoint le_encode (n : nat) (v : Z) : list Z :=
  match n with
  | O => []
  | S n => v mod 2 ^ 8 :: le_encode n (v / 2 ^ 8)
  end.

(** [realloc]: the new address and what the new memory holds beyond what is copied to it. *)
Class Heap (H : Type) := { realloc : Z -> Z -> H -> option (Z * list Z) * H }.

(** Blocks lie inside the address space. *)
Class HeapLaws (H : Type) `{!Heap H} := {
  realloc_spec : forall old size h p fresh h', realloc old size h = (Some (p, fresh), h') ->
    0 < p /\ p + size < 2 ^ 32 /\ length fresh = Z.to_nat size /\ Forall is_u8 fresh
}.

Lemma le_encode_length n v : length (le_encode n v) = n.
Proof. revert v. induction n as [|n IH]; intros v; cbn; [done|by rewrite IH]. Qed.

Lemma le_encode_u8 n v : Forall is_u8 (le_encode n v).
Proof. revert v. induction n as [|n IH]; intros v; constructor; [apply Z.mod_pos_bound; lia|done]. Qed.

Lemma le_value_encode n v : le_value (le_encode n v) = v mod 2 ^ (8 * Z.of_nat n).
Proof.
  revert v. induction n as [|n IH]; intros v; cbn [le_value le_encode]; [by rewrite Z.mod_1_r|].
  rewrite IH. replace (8 * Z.of_nat (S n)) with (8 + 8 * Z.of_nat n) by lia.
  rewrite Z.pow_add_r by lia. rewrite Z.rem_mul_r by lia. done.
Qed.

Lemma le_value_range l : Forall is_u8 l -> 0 <= le_value l < 2 ^ (8 * Z.of_nat (length l)).
Proof.
  induction 1 as [|b l Hb _ IH]; cbn [le_value length]; [done|].
  replace (8 * Z.of_nat (S (length l))) with (8 + 8 * Z.of_nat (length l)) by lia.
  rewrite Z.pow_add_r by lia. unfold is_u8 in Hb. lia.
Qed.

Module Pickle.

(** ** State *)

Definition kPayloadUnit : Z := 64.
Definition kCapacityReadOnly : Z := 2 ^ 32 - 1.
Definition INT_MAX : Z := 2 ^ 31 - 1.

Definition sizeof_Header : Z := 4.

(** [mem_] is the block at [header_]. *)
Record t := mk {
  header_ : Z;
  header_size_ : Z;
  capacity_ : Z;
  variable_buffer_offset_ : Z;
  mem_ : list Z
}.

Definition set_mem (m : list Z) (p : t) : t :=
  mk (header_ p) (header_size_ p) (capacity_ p) (variable_buffer_offset_ p) m.

Definition set_variable_buffer_offset (o : Z) (p : t) : t :=
  mk (header_ p) (header_size_ p) (capacity_ p) o (mem_ p).

(** The [n] bytes at an address, and storing bytes at one; both stay in the block. *)
Definition load (addr : Z) (n : nat) (p : t) : outcome (list Z) :=
  check! (0 <? header_ p) && (header_ p <=? addr) && (addr + Z.of_nat n <=? header_ p + Z.of_nat (length (mem_ p)));
  Ret (take n (drop (Z.to_nat (addr - header_ p)) (mem_ p))).

Definition store (addr : Z) (l : list Z) (p : t) : outcome t :=
  check! (0 <? header_ p) && (header_ p <=? addr) && (addr + Z.of_nat (length l) <=? header_ p + Z.of_nat (length (mem_ p)));
  Ret (set_mem (splice (Z.to_nat (addr - header_ p)) l (mem_ p)) p).

(** [header_->payload_size]. *)
Definition payload_size (p : t) : outcome Z := let! l := load (header_ p) 4 p in Ret (le_value l).

Definition set_payload_size (n : Z) (p : t) : outcome t := store (header_ p) (le_encode 4 n) p.

Definition payload (p : t) : Z := u32 (header_ p + header_size_ p).

Definition end_of_payload (p : t) : outcome Z :=
  if header_ p =? NULL then Ret NULL else let! n := payload_size p in Ret (u32 (payload p + n)).

Definition size (p : t) : outcome Z := let! n := payload_size p in Ret (u32 (header_size_ p + n)).

Definition AlignInt (i alignment : Z) : Z := u32 (i + (alignment - i mod alignment) mod alignment).

(** A pickle over received bytes at an address; the data are not copied. *)
Definition new_from_data (data : Z) (l : list Z) (data_len : Z) : outcome t :=
  let p := mk data 0 kCapacityReadOnly 0 l in
  let! p :=
    if sizeof_Header <=? data_len then
      let! n := payload_size p in Ret (mk data (u32 (data_len - n)) kCapacityReadOnly 0 l)
    else Ret p in
  let hs := header_size_ p in
  let hs := if u32 data_len <? hs then 0 else hs in
  let hs := if negb (hs =? AlignInt hs 4) then 0 else hs in
  Ret (mk (if hs =? 0 then NULL else data) hs kCapacityReadOnly 0 l).

(** ** Reading

    An iterator is an address; a failed read is [None]. *)

Definition IteratorHasRoomFor (iter len : Z) (p : t) : outcome bool :=
  if (len <? 0) || (iter <? header_ p) then Ret false
  else
    let! e := end_of_payload p in
    if e <? iter then Ret false
    else let end_of_region := u32 (iter + len) in Ret ((iter <=? end_of_region) && (end_of_region <=? e)).

Definition UpdateIter (iter bytes : Z) : Z := u32 (iter + AlignInt (u32 bytes) 4).

Definition start_iter (iter : Z) (p : t) : Z := if iter =? NULL then payload p else iter.

(** What the reads of a type of [n] bytes share: the bytes, copied. *)
Definition read_pod (n : nat) (iter : Z) (p : t) : outcome (option (list Z) * Z) :=
  let iter := start_iter iter p in
  let! room := IteratorHasRoomFor iter (Z.of_nat n) p in
  if negb room then Ret (None, iter)
  else let! l := load iter n p in Ret (Some l, UpdateIter iter (Z.of_nat n)).

Definition as_type {A} (f : list Z -> A) (r : outcome (option (list Z) * Z)) : outcome (option A * Z) :=
  let! '(o, iter) := r in Ret (f <$> o, iter).

Definition ReadInt (iter : Z) (p : t) := as_type (fun l => i32 (le_value l)) (read_pod 4 iter p).
Definition ReadLong (iter : Z) (p : t) := as_type (fun l => i32 (le_value l)) (read_pod 4 iter p).
Definition ReadSize (iter : Z) (p : t) := as_type le_value (read_pod 4 iter p).
Definition ReadUInt16 (iter : Z) (p : t) := as_type le_value (read_pod 2 iter p).
Definition ReadUInt32 (iter : Z) (p : t) := as_type le_value (read_pod 4 iter p).
Definition ReadInt64 (iter : Z) (p : t) := as_type (fun l => i64 (le_value l)) (read_pod 8 iter p).
Definition ReadUInt64 (iter : Z) (p : t) := as_type le_value (read_pod 8 iter p).

Definition ReadBool (iter : Z) (p : t) : outcome (option bool * Z) :=
  let! '(o, iter) := ReadInt iter p in
  match o with
  | None => Ret (None, iter)
  | Some tmp => check! (tmp =? 0) || (tmp =? 1); Ret (Some (negb (tmp =? 0)), iter)
  end.

Definition ReadLength (iter : Z) (p : t) : outcome (option Z * Z) :=
  let! '(o, iter) := ReadInt iter p in
  match o with
  | Some len => Ret (if 0 <=? len then Some len else None, iter)
  | None => Ret (None, iter)
  end.

(** [len] characters of [width] bytes; [bytes] is their size as the calls compute it. *)
Definition read_chars (len : Z) (width : nat) (bytes iter : Z) (p : t) : outcome (option (list Z) * Z) :=
  let! room := IteratorHasRoomFor iter bytes p in
  if negb room then Ret (None, iter)
  else let! l := load iter (Z.to_nat len * width) p in Ret (Some l, UpdateIter iter bytes).

(** The characters of a string of [width]-byte characters. *)
Fixpoint chars (width len : nat) (l : list Z) : list Z :=
  match len with
  | O => []
  | S len => le_value (take width l) :: chars width len (drop width l)
  end.

Definition ReadString (iter : Z) (p : t) : outcome (option (list Z) * Z) :=
  let! '(o, iter) := ReadLength iter p in
  match o with
  | None => Ret (None, iter)
  | Some len => read_chars len 1 len iter p
  end.

Definition ReadWString (iter : Z) (p : t) : outcome (option (list Z) * Z) :=
  let! '(o, iter) := ReadLength iter p in
  match o with
  | None => Ret (None, iter)
  | Some len =>
      if INT_MAX / 4 <? len then Ret (None, iter)
      else as_type (chars 4 (Z.to_nat len)) (read_chars len 4 (i32 (u32 (len * 4))) iter p)
  end.

Definition ReadString16 (iter : Z) (p : t) : outcome (option (list Z) * Z) :=
  let! '(o, iter) := ReadLength iter p in
  match o with
  | None => Ret (None, iter)
  | Some len => as_type (chars 2 (Z.to_nat len)) (read_chars len 2 (i32 (u32 (len * 2))) iter p)
  end.

(** The address of the bytes. *)
Definition ReadBytes (length iter : Z) (p : t) : outcome (option Z * Z) :=
  let iter := start_iter iter p in
  let! room := IteratorHasRoomFor iter length p in
  if negb room then Ret (None, iter) else Ret (Some iter, UpdateIter iter length).

(** The address and the length. *)
Definition ReadData (iter : Z) (p : t) : outcome (option (Z * Z) * Z) :=
  let! '(o, iter) := ReadLength iter p in
  match o with
  | None => Ret (None, iter)
  | Some len => let! '(data, iter) := ReadBytes len iter p in Ret ((fun d => (d, len)) <$> data, iter)
  end.

(** ** Framing *)

(** [FindNext] on memory [l] at address [start], up to [stop]; [NULL] when there is no
    whole pickle. *)
Definition FindNext (header_size start stop : Z) (l : list Z) : outcome Z :=
  check! header_size =? AlignInt header_size 4;
  check! header_size <=? kPayloadUnit;
  if u32 (stop - start) <? sizeof_Header then Ret NULL
  else
    let! n := payload_size (mk start header_size kCapacityReadOnly 0 l) in
    let payload_base := u32 (start + header_size) in
    let payload_end := u32 (payload_base + n) in
    if payload_end <? payload_base then Ret NULL
    else Ret (if stop <? payload_end then NULL else payload_end).

(** ** Writing *)

Section Writing.
Context {H : Type} `{!Heap H}.

Definition Resize (new_capacity : Z) (p : t) (h : H) : outcome (bool * t * H) :=
  let new_capacity := AlignInt new_capacity kPayloadUnit in
  check! negb (capacity_ p =? kCapacityReadOnly);
  let '(r, h) := realloc (header_ p) new_capacity h in
  match r with
  | None => Ret (false, p, h)
  | Some (q, fresh) =>
      let m := take (Z.to_nat new_capacity) (mem_ p ++ drop (length (mem_ p)) fresh) in
      Ret (true, mk q (header_size_ p) new_capacity (variable_buffer_offset_ p) m, h)
  end.

Definition new_with_header (hs : Z) (h : H) : outcome (t * H) :=
  let! '(o, h) := Resize kPayloadUnit (mk NULL hs 0 0 []) h in
  let '(_, p) := o in
  let! p := set_payload_size 0 p in Ret (p, h).

(** [Pickle()] and [Pickle(int header_size)]. *)
Definition new_Pickle (h : H) : outcome (t * H) := new_with_header sizeof_Header h.

Definition new_Pickle_header (header_size : Z) (h : H) : outcome (t * H) :=
  check! sizeof_Header <=? u32 header_size;
  check! header_size <=? kPayloadUnit;
  new_with_header (AlignInt (u32 header_size) 4) h.

(** [Pickle(const Pickle& other)]. *)
Definition copy_Pickle (other : t) (h : H) : outcome (t * H) :=
  let! n := payload_size other in
  let total := u32 (header_size_ other + n) in
  let! '(o, h) := Resize total (mk NULL (header_size_ other) 0 (variable_buffer_offset_ other) []) h in
  let '(resized, p) := o in
  check! resized;
  let! l := load (header_ other) (Z.to_nat total) other in
  let! p := store (header_ p) l p in Ret (p, h).

(** [operator=], from another object. *)
Definition assign (other p : t) (h : H) : outcome (t * H) :=
  let p := if capacity_ p =? kCapacityReadOnly then mk NULL (header_size_ p) 0 (variable_buffer_offset_ p) [] else p in
  let p := if negb (header_size_ p =? header_size_ other)
           then mk NULL (header_size_ other) (capacity_ p) (variable_buffer_offset_ p) [] else p in
  let! n := payload_size other in
  let total := u32 (header_size_ other + n) in
  let! '(o, h) := Resize total p h in
  let '(resized, p) := o in
  check! resized;
  let! l := load (header_ other) (Z.to_nat total) other in
  let! p := store (header_ p) l p in
  Ret (set_variable_buffer_offset (variable_buffer_offset_ other) p, h).

(** The address to write to, or [NULL]. *)
Definition BeginWrite (length : Z) (p : t) (h : H) : outcome (Z * t * H) :=
  let! n := payload_size p in
  let offset := AlignInt n 4 in
  let new_size := u32 (offset + length) in
  let needed_size := u32 (header_size_ p + new_size) in
  let! '(o, h) := if capacity_ p <? needed_size then Resize (Z.max (u32 (capacity_ p * 2)) needed_size) p h
                  else Ret (true, p, h) in
  let '(ok, p) := o in
  if negb ok then Ret (NULL, p, h)
  else let! p := set_payload_size new_size p in Ret (u32 (payload p + offset), p, h).

Definition EndWrite (dest length : Z) (p : t) : outcome t :=
  let r := u32 length mod 4 in
  if negb (r =? 0) then store (u32 (dest + length)) (repeat 0 (Z.to_nat (4 - r))) p else Ret p.

(** [memcpy] of [data_len] of the bytes [data]. *)
Definition WriteBytes (data : list Z) (data_len : Z) (p : t) (h : H) : outcome (bool * t * H) :=
  check! negb (capacity_ p =? kCapacityReadOnly);
  let! '(o, h) := BeginWrite (u32 data_len) p h in
  let '(dest, p) := o in
  if dest =? NULL then Ret (false, p, h)
  else
    check! u32 data_len <=? Z.of_nat (length data);
    let! p := store dest (take (Z.to_nat (u32 data_len)) data) p in
    let! p := EndWrite dest data_len p in Ret (true, p, h).

Definition write_pod (n : nat) (v : Z) := WriteBytes (le_encode n v) (Z.of_nat n).

Definition WriteInt (v : Z) := write_pod 4 v.
Definition WriteBool (v : bool) := WriteInt (if v then 1 else 0).
Definition WriteLong (v : Z) := write_pod 4 v.
Definition WriteSize (v : Z) := write_pod 4 v.
Definition WriteUInt16 (v : Z) := write_pod 2 v.
Definition WriteUInt32 (v : Z) := write_pod 4 v.
Definition WriteInt64 (v : Z) := write_pod 8 v.
Definition WriteUInt64 (v : Z) := write_pod 8 v.

(** A length, and then bytes. *)
Definition write_counted (len : Z) (data : list Z) (data_len : Z) (p : t) (h : H) : outcome (bool * t * H) :=
  let! '(o, h) := WriteInt len p h in
  let '(ok, p) := o in
  if negb ok then Ret (false, p, h) else WriteBytes data data_len p h.

(** The bytes of characters. *)
Definition char_bytes (width : nat) (l : list Z) : list Z := concat (map (le_encode width) l).

Definition WriteString (value : list Z) :=
  write_counted (i32 (Z.of_nat (length value))) value (i32 (Z.of_nat (length value))).

Definition WriteWString (value : list Z) :=
  write_counted (i32 (Z.of_nat (length value))) (char_bytes 4 value) (i32 (u32 (Z.of_nat (length value) * 4))).

Definition WriteString16 (value : list Z) :=
  write_counted (i32 (Z.of_nat (length value))) (char_bytes 2 value)
    (i32 (u32 (u32 (i32 (Z.of_nat (length value))) * 2))).

Definition WriteData (data : list Z) (length : Z) (p : t) (h : H) : outcome (bool * t * H) :=
  if 0 <=? length then write_counted length data length p h else Ret (false, p, h).

(** The address of the buffer, or [NULL]. *)
Definition BeginWriteData (length : Z) (p : t) (h : H) : outcome (Z * t * H) :=
  check! variable_buffer_offset_ p =? 0;
  if length <? 0 then Ret (NULL, p, h)
  else
    let! '(o, h) := WriteInt length p h in
    let '(ok, p) := o in
    if negb ok then Ret (NULL, p, h)
    else
      let! '(o, h) := BeginWrite length p h in
      let '(data_ptr, p) := o in
      if data_ptr =? NULL then Ret (NULL, p, h)
      else
        let p := set_variable_buffer_offset (u32 (data_ptr - header_ p - 4)) p in
        let! p := EndWrite data_ptr length p in Ret (data_ptr, p, h).

(** An invalid length is [NOTREACHED]. *)
Definition TrimWriteData (new_length : Z) (p : t) : outcome t :=
  check! negb (variable_buffer_offset_ p =? 0);
  let cur := u32 (header_ p + variable_buffer_offset_ p) in
  let! l := load cur 4 p in
  let cur_length := i32 (le_value l) in
  check! (0 <=? new_length) && (new_length <=? cur_length);
  let! n := payload_size p in
  let! p := set_payload_size (u32 (n - (cur_length - new_length))) p in
  store cur (le_encode 4 new_length) p.

End Writing.

(** ** Received data *)

(** Address and length of a block of bytes inside the address space. *)
Record block (p : t) : Prop := {
  blk_start : 0 < header_ p;
  blk_end : header_ p + Z.of_nat (length (mem_ p)) < 2 ^ 32;
  blk_bytes : Forall is_u8 (mem_ p)
}.

(** The data of a pickle, header and payload: [R]. *)
Record readable (p : t) (R : list Z) : Prop := {
  rd_block : block p;
  rd_header : 4 <= header_size_ p <= Z.of_nat (length R);
  rd_aligned : header_size_ p mod 4 = 0;
  rd_data : R = take (length R) (mem_ p);
  rd_payload : header_size_ p + le_value (take 4 R) = Z.of_nat (length R)
}.

(** A pickle over data that cannot be one. *)
Definition invalid (p : t) : Prop := header_ p = NULL /\ header_size_ p = 0.

Lemma load_ok addr n p :
  0 < header_ p <= addr -> addr + Z.of_nat n <= header_ p + Z.of_nat (length (mem_ p)) ->
  load addr n p = Ret (take n (drop (Z.to_nat (addr - header_ p)) (mem_ p))).
Proof.
  intros [H1 H2] H3. unfold load. rewrite (proj2 (Z.ltb_lt _ _) H1), (proj2 (Z.leb_le _ _) H2), (proj2 (Z.leb_le _ _) H3). done.
Qed.

Lemma store_ok addr l p :
  0 < header_ p <= addr -> addr + Z.of_nat (length l) <= header_ p + Z.of_nat (length (mem_ p)) ->
  store addr l p = Ret (set_mem (splice (Z.to_nat (addr - header_ p)) l (mem_ p)) p).
Proof.
  intros [H1 H2] H3. unfold store. rewrite (proj2 (Z.ltb_lt _ _) H1), (proj2 (Z.leb_le _ _) H2), (proj2 (Z.leb_le _ _) H3). done.
Qed.

Lemma take_of_prefix {A} (R m : list A) n : R = take (length R) m -> (n <= length R)%nat -> take n m = take n R.
Proof. intros -> H. rewrite length_take in H. rewrite take_take. f_equal. lia. Qed.

Lemma prefix_length {A} (R m : list A) : R = take (length R) m -> (length R <= length m)%nat.
Proof. intros E. apply (f_equal length) in E. rewrite length_take in E. lia. Qed.

Section Readable.
Context (p : t) (R : list Z) (HR : readable p R).

Let size_R := Z.of_nat (length R).

Lemma readable_bounds :
  0 < header_ p /\ 4 <= header_size_ p <= size_R /\ header_ p + size_R < 2 ^ 32 /\ (length R <= length (mem_ p))%nat.
Proof.
  destruct HR as [[H1 H2 H3] H4 H5 H6 H7]. apply prefix_length in H6. unfold size_R in *. split_and!; try lia.
Qed.

Lemma readable_load addr n :
  header_ p <= addr -> addr + Z.of_nat n <= header_ p + size_R ->
  load addr n p = Ret (take n (drop (Z.to_nat (addr - header_ p)) R)).
Proof.
  destruct readable_bounds as (H1 & H2 & H3 & H4). unfold size_R in *. intros H5 H6. rewrite load_ok by lia. f_equal.
  rewrite (rd_data _ _ HR) at 1. rewrite skipn_firstn_comm, take_take. f_equal. lia.
Qed.

Lemma readable_payload_size : payload_size p = Ret (size_R - header_size_ p).
Proof.
  destruct readable_bounds as (H1 & H2 & H3 & H4). unfold payload_size. rewrite readable_load by lia. cbn [obind]. f_equal.
  rewrite Z.sub_diag. change (drop (Z.to_nat 0) R) with R. pose proof (rd_payload _ _ HR). unfold size_R. lia.
Qed.

Lemma readable_payload : payload p = header_ p + header_size_ p.
Proof. destruct readable_bounds as (H1 & H2 & H3 & H4). apply u32_small. lia. Qed.

Lemma readable_end : end_of_payload p = Ret (header_ p + size_R).
Proof.
  destruct readable_bounds as (H1 & H2 & H3 & H4). unfold end_of_payload. rewrite (proj2 (Z.eqb_neq _ _)) by (unfold NULL; lia).
  rewrite readable_payload_size, readable_payload. cbn [obind]. rewrite u32_small by lia. f_equal. lia.
Qed.

(** [len] bytes of the data. *)
Definition in_data (iter len : Z) : Prop := 0 <= len /\ header_ p <= iter /\ iter + len <= header_ p + size_R.

(** An iterator has room exactly for bytes of the data. *)
Lemma room_spec iter len :
  0 <= iter < 2 ^ 32 -> len < 2 ^ 31 ->
  IteratorHasRoomFor iter len p = Ret (bool_decide (in_data iter len)).
Proof.
  unfold in_data. intros Hi Hl. destruct readable_bounds as (H1 & H2 & H3 & H4). unfold IteratorHasRoomFor. rewrite readable_end. cbn [obind].
  destruct (Z.ltb_spec len 0); [rewrite bool_decide_eq_false_2; [done|lia]|].
  destruct (Z.ltb_spec iter (header_ p)); [rewrite bool_decide_eq_false_2; [done|lia]|]. cbn [orb].
  destruct (Z.ltb_spec (header_ p + size_R) iter); [rewrite bool_decide_eq_false_2; [done|lia]|]. cbv zeta. f_equal.
  destruct (Z.lt_ge_cases (iter + len) (2 ^ 32)) as [Hlt|Hge].
  - rewrite u32_small by lia. case_bool_decide; [apply andb_true_iff|apply andb_false_iff]; rewrite ?Z.leb_le, ?Z.leb_gt; lia.
  - rewrite bool_decide_eq_false_2 by lia.
    assert (E : u32 (iter + len) = iter + len - 2 ^ 32) by (symmetry; apply (Z.mod_unique _ _ 1); lia).
    rewrite E, (proj2 (Z.leb_gt _ _)) by lia. done.
Qed.

(** What a read of [n] bytes at an address takes from the data. *)
Definition at_address (iter : Z) (n : nat) : option (list Z) :=
  if bool_decide (in_data iter (Z.of_nat n))
  then Some (take n (drop (Z.to_nat (iter - header_ p)) R)) else None.

Lemma start_iter_range iter : 0 <= iter < 2 ^ 32 -> 0 <= start_iter iter p < 2 ^ 32.
Proof.
  destruct readable_bounds as (H1 & H2 & H3 & H4). intros H. unfold start_iter. rewrite readable_payload. case_match; lia.
Qed.

Lemma read_pod_spec n iter :
  0 <= iter < 2 ^ 32 -> Z.of_nat n < 2 ^ 31 ->
  read_pod n iter p = Ret (match at_address (start_iter iter p) n with
    | Some l => (Some l, UpdateIter (start_iter iter p) (Z.of_nat n))
    | None => (None, start_iter iter p)
    end).
Proof.
  intros Hi Hn. unfold read_pod, at_address. rewrite room_spec by (done || by apply start_iter_range). cbn [obind].
  case_bool_decide as E; [|done]. destruct E as (_ & E1 & E2). cbn [negb]. by rewrite readable_load.
Qed.

Lemma read_chars_spec len width iter :
  0 <= iter < 2 ^ 32 -> 0 <= len -> len * Z.of_nat width < 2 ^ 31 ->
  read_chars len width (len * Z.of_nat width) iter p = Ret (match at_address iter (Z.to_nat len * width) with
    | Some l => (Some l, UpdateIter iter (len * Z.of_nat width))
    | None => (None, iter)
    end).
Proof.
  intros Hi Hl Hw. unfold read_chars, at_address. rewrite room_spec by done. cbn [obind].
  assert (E1 : Z.of_nat (Z.to_nat len * width) = len * Z.of_nat width) by lia. rewrite E1.
  case_bool_decide as E; [|done]. destruct E as (_ & E2 & E3). cbn [negb]. by rewrite readable_load by (done || lia).
Qed.

End Readable.

Lemma invalid_room p iter len : invalid p -> 0 <= iter -> 0 < len < 2 ^ 31 -> IteratorHasRoomFor iter len p = Ret false.
Proof.
  intros [H1 H2] Hi Hl. unfold IteratorHasRoomFor, end_of_payload. rewrite H1. cbn [Z.eqb NULL].
  rewrite (proj2 (Z.ltb_ge len 0)), (proj2 (Z.ltb_ge iter NULL)) by (unfold NULL; lia). cbn [orb obind].
  destruct (Z.ltb_spec NULL iter) as [|Hn]; [done|]. unfold NULL in *. assert (iter = 0) as -> by lia. rewrite u32_small by lia.
  f_equal. apply andb_false_iff. right. apply Z.leb_gt. lia.
Qed.

Lemma at_address_u8 p R iter n l :
  readable p R -> at_address p R iter n = Some l -> Forall is_u8 l /\ length l = n.
Proof.
  intros HR E. unfold at_address in E. case_bool_decide as D; [|done]. injection E as <-. destruct D as (_ & H1 & H2).
  split; [apply Forall_take, Forall_drop; rewrite (rd_data _ _ HR); apply Forall_take, HR|].
  rewrite length_take, length_drop. lia.
Qed.

(** ** Alignment *)

(** The bytes up to the next multiple of four. *)
Definition padding (n : nat) : nat := ((4 - n mod 4) mod 4)%nat.

Lemma padding_spec n : ((n + padding n) mod 4 = 0 /\ padding n < 4)%nat.
Proof.
  unfold padding. pose proof (Nat.mod_upper_bound n 4 ltac:(lia)). split; [|apply Nat.mod_upper_bound; lia].
  rewrite <- Nat.Div0.add_mod_idemp_l. by destruct (n mod 4)%nat as [|[|[|[|]]]]; [..|lia].
Qed.

Lemma padding_add n m : (n mod 4 = 0)%nat -> padding (n + m) = padding m.
Proof. intros H. unfold padding. by rewrite <- Nat.Div0.add_mod_idemp_l, H. Qed.

Lemma align4 n : Z.of_nat n < 2 ^ 32 - 4 -> AlignInt (Z.of_nat n) 4 = Z.of_nat (n + padding n).
Proof.
  intros H. unfold AlignInt, padding. rewrite Nat2Z.inj_add.
  assert (E : Z.of_nat ((4 - n mod 4) mod 4) = (4 - Z.of_nat n mod 4) mod 4).
  { rewrite Nat2Z.inj_mod, Nat2Z.inj_sub, Nat2Z.inj_mod by (pose proof (Nat.mod_upper_bound n 4); lia). done. }
  rewrite E. apply u32_small. pose proof (Z.mod_pos_bound (4 - Z.of_nat n mod 4) 4). lia.
Qed.

Lemma align_unit n :
  0 <= n <= 2 ^ 32 - kPayloadUnit -> n <= AlignInt n kPayloadUnit <= 2 ^ 32 - kPayloadUnit /\ AlignInt n kPayloadUnit mod kPayloadUnit = 0.
Proof.
  unfold AlignInt, kPayloadUnit. intros H.
  assert (E : exists q, n + (64 - n mod 64) mod 64 = 64 * q) by (exists ((n + 63) / 64); div_lia). destruct E as [q E].
  pose proof (Z.mod_pos_bound (64 - n mod 64) 64). rewrite u32_small by lia. split; [lia|]. rewrite E, Z.mul_comm. apply Z.mod_mul. lia.
Qed.

(** ** Pickles being written

    The header is the size of the payload and the bytes [extra] that belong to the caller;
    the payload is [B], and what follows it up to the next multiple of four is zero. *)
Record writable (p : t) (extra B : list Z) : Prop := {
  wr_block : block p;
  wr_header : header_size_ p = Z.of_nat (4 + length extra) /\ (length extra mod 4 = 0)%nat;
  wr_capacity : capacity_ p = Z.of_nat (length (mem_ p)) /\ capacity_ p mod kPayloadUnit = 0;
  wr_mem : exists rest, mem_ p = le_encode 4 (Z.of_nat (length B)) ++ extra ++ B ++ repeat 0 (padding (length B)) ++ rest
}.

Definition data_of (extra B : list Z) : list Z := le_encode 4 (Z.of_nat (length B)) ++ extra ++ B.

Lemma data_of_length extra B : length (data_of extra B) = (4 + length extra + length B)%nat.
Proof. unfold data_of. rewrite !length_app, le_encode_length. lia. Qed.

Lemma writable_readable p extra B : writable p extra B -> readable p (data_of extra B).
Proof.
  intros [Hb [Hh Hm] Hc [rest Hmem]]. pose proof Hb as [H1 H2 H3].
  assert (Hlen : (length (data_of extra B) <= length (mem_ p))%nat) by (rewrite Hmem, data_of_length, !length_app, le_encode_length; lia).
  split; [done|rewrite data_of_length; lia| | |].
  - rewrite Hh. pose proof (Nat.div_mod_eq (length extra) 4) as E. set (q := (length extra / 4)%nat) in *.
    replace (Z.of_nat (4 + length extra)) with ((1 + Z.of_nat q) * 4) by lia. apply Z.mod_mul. lia.
  - rewrite Hmem, data_of_length. unfold data_of. rewrite !(app_assoc _ _ (repeat _ _ ++ _)).
    rewrite take_app_length' by (rewrite !length_app, le_encode_length; lia). done.
  - unfold data_of at 1. rewrite take_app_length' by (by rewrite le_encode_length). rewrite le_value_encode, data_of_length, Z.mod_small; [lia|].
    change (8 * Z.of_nat 4) with 32. rewrite data_of_length in Hlen. lia.
Qed.

(** Copying over a part of known length. *)
Lemma splice_app (a m l b : list Z) : length m = length l -> splice (length a) l (a ++ m ++ b) = a ++ l ++ b.
Proof.
  intros E. unfold splice. rewrite take_app_length, (app_assoc a m b), drop_app_length'; [done|]. rewrite length_app. lia.
Qed.

(** Storing over a part of the block. *)
Lemma store_part addr l p a m b :
  block p -> mem_ p = a ++ m ++ b -> length m = length l -> addr = header_ p + Z.of_nat (length a) ->
  store addr l p = Ret (set_mem (a ++ l ++ b) p).
Proof.
  intros [H1 H2 _] Hm Hl ->. rewrite store_ok; [|lia|rewrite Hm, !length_app, Hl; lia].
  replace (Z.to_nat (header_ p + Z.of_nat (length a) - header_ p)) with (length a) by lia.
  rewrite Hm. by rewrite splice_app.
Qed.

Lemma set_mem_block p a m l b :
  block p -> mem_ p = a ++ m ++ b -> length m = length l -> Forall is_u8 l -> block (set_mem (a ++ l ++ b) p).
Proof.
  intros [H1 H2 H3] Hm Hl Hb. rewrite Hm in *. rewrite !length_app in H2. rewrite !Forall_app in H3.
  split; cbn [set_mem header_ mem_]; [done|rewrite !length_app; lia|]. rewrite !Forall_app. tauto.
Qed.

(** An allocated block whose header announces [len] bytes more than it holds. *)
Record opened (p : t) (extra B : list Z) (len : nat) (rest : list Z) : Prop := {
  op_block : block p;
  op_header : header_size_ p = Z.of_nat (4 + length extra) /\ (length extra mod 4 = 0)%nat;
  op_capacity : capacity_ p = Z.of_nat (length (mem_ p)) /\ capacity_ p mod kPayloadUnit = 0;
  op_mem : mem_ p = le_encode 4 (Z.of_nat (length B + padding (length B) + len)) ++ extra ++ B ++ repeat 0 (padding (length B)) ++ rest;
  op_room : (len + padding len <= length rest)%nat
}.

(** Where the new bytes go. *)
Definition dest_of (p : t) (extra B : list Z) : Z :=
  header_ p + Z.of_nat (4 + length extra + length B + padding (length B)).

(** A block of a multiple of four bytes that has room for [len] more after a multiple of
    four has room for their padding. *)
Lemma padded_room c n len : (c mod 4 = 0 -> n mod 4 = 0 -> n + len <= c -> n + len + padding len <= c)%nat.
Proof.
  intros Hc Hn Hl. destruct (padding_spec len) as [Hp Hp4].
  pose proof (Nat.div_mod_eq c 4) as E1. pose proof (Nat.div_mod_eq n 4) as E2. pose proof (Nat.div_mod_eq (len + padding len) 4) as E3.
  set (qc := (c / 4)%nat) in *. set (qn := (n / 4)%nat) in *. set (ql := ((len + padding len) / 4)%nat) in *. lia.
Qed.

Lemma unit_mod4 n : Z.of_nat n mod kPayloadUnit = 0 -> (n mod 4 = 0)%nat.
Proof.
  unfold kPayloadUnit. intros H. apply Z.mod_divide in H as [q H]; [|done].
  apply Nat2Z.inj. rewrite Nat2Z.inj_mod, H. replace (q * 64) with (q * 16 * Z.of_nat 4) by lia. apply Z.mod_mul. lia.
Qed.

Section WritingProofs.
Context {H : Type} `{HL : HeapLaws H}.

(** A larger block keeps the contents. *)
Lemma Resize_spec n p h extra B :
  writable p extra B -> capacity_ p <= n <= 2 ^ 32 - kPayloadUnit ->
  exists ok p' h', Resize n p h = Ret (ok, p', h') /\ (ok = false -> p' = p) /\
    (ok = true -> writable p' extra B /\ n <= capacity_ p' /\ variable_buffer_offset_ p' = variable_buffer_offset_ p).
Proof.
  intros [[Hb1 Hb2 Hb3] Hh [Hc Hcm] [rest Hmem]] Hn. unfold Resize. cbv zeta. destruct (align_unit n ltac:(lia)) as [Ha1 Ha2].
  set (m := AlignInt n kPayloadUnit) in *.
  rewrite (proj2 (Z.eqb_neq _ _)) by (unfold kCapacityReadOnly, kPayloadUnit in *; lia). cbn [negb dcheck obind].
  destruct (realloc (header_ p) m h) as [[[q fresh]|] h'] eqn:E; [|by exists false, p, h'].
  destruct (realloc_spec _ _ _ _ _ _ E) as (Hq & Hq2 & Hf & Hfb). eexists true, _, h'. split; [done|]. split; [done|]. intros _.
  assert (El : take (Z.to_nat m) (mem_ p ++ drop (length (mem_ p)) fresh) = mem_ p ++ drop (length (mem_ p)) fresh).
  { apply take_ge. rewrite length_app, length_drop. lia. }
  assert (Elen : Z.of_nat (length (mem_ p ++ drop (length (mem_ p)) fresh)) = m) by (rewrite length_app, length_drop; lia).
  rewrite El. split; [|cbn; lia]. split; cbn [header_ header_size_ capacity_ mem_].
  - split; cbn [header_ mem_]; [lia|lia|]. apply Forall_app. split; [done|by apply Forall_drop].
  - done.
  - by rewrite Elen.
  - exists (rest ++ drop (length (mem_ p)) fresh). rewrite Hmem at 1. by rewrite <- !app_assoc.
Qed.

Lemma BeginWrite_spec len p h extra B :
  writable p extra B ->
  Z.of_nat (4 + length extra + length B + padding (length B) + len) <= 2 ^ 32 - kPayloadUnit ->
  exists dest p' h', BeginWrite (Z.of_nat len) p h = Ret (dest, p', h') /\
    (dest = NULL /\ p' = p /\ capacity_ p < Z.of_nat (4 + length extra + length B + padding (length B) + len) \/
     dest = dest_of p' extra B /\ (exists rest, opened p' extra B len rest) /\
     variable_buffer_offset_ p' = variable_buffer_offset_ p).
Proof.
  intros Hw Hlen. pose proof (writable_readable _ _ _ Hw) as HR. pose proof (wr_header _ _ _ Hw) as [Hh Hm].
  unfold kPayloadUnit in Hlen. unfold BeginWrite. rewrite (readable_payload_size _ _ HR), data_of_length, Hh. cbn [obind]. cbv zeta.
  replace (Z.of_nat (4 + length extra + length B) - Z.of_nat (4 + length extra)) with (Z.of_nat (length B)) by lia.
  rewrite align4 by lia. rewrite (u32_small (_ + Z.of_nat len)) by lia. rewrite (u32_small (_ + (_ + Z.of_nat len))) by lia.
  set (needed := Z.of_nat (4 + length extra) + (Z.of_nat (length B + padding (length B)) + Z.of_nat len)).
  assert (HG : exists ok q h', (if capacity_ p <? needed then Resize (Z.max (u32 (capacity_ p * 2)) needed) p h else Ret (true, p, h)) = Ret (ok, q, h') /\
    (ok = false -> q = p /\ capacity_ p < needed) /\ (ok = true -> writable q extra B /\ needed <= capacity_ q /\ variable_buffer_offset_ q = variable_buffer_offset_ p)).
  { destruct (Z.ltb_spec (capacity_ p) needed) as [Hlt|]; [|by exists true, p, h].
    pose proof (wr_capacity _ _ _ Hw) as [_ Hcm]. pose proof (u32_range (capacity_ p * 2)) as Hr. unfold is_u32 in Hr.
    destruct (Resize_spec (Z.max (u32 (capacity_ p * 2)) needed) p h extra B Hw) as (ok & q & h' & E & E1 & E2).
    - split; [lia|]. assert (Eu : u32 (capacity_ p * 2) mod 64 = 0).
      { unfold u32, kPayloadUnit in *. rewrite <- (Znumtheory.Zmod_div_mod 64 (2 ^ 32)) by (done || by exists (2 ^ 26)).
        rewrite Z.mul_mod, Hcm by done. done. }
      unfold kPayloadUnit, needed in *. pose proof (Z.div_mod (u32 (capacity_ p * 2)) 64). lia.
    - exists ok, q, h'. split; [done|]. split; [intros Hok; split; [by apply E1|lia]|]. intros Hok. destruct (E2 Hok) as (? & ? & ?). split; [done|]. split; [lia|done]. }
  destruct HG as (ok & q & h' & -> & Hf & Ht). cbn [obind]. destruct ok; cbn [negb]; [|exists NULL, p, h'; destruct (Hf eq_refl) as [-> Hlt]; split; [done|left; unfold needed in Hlt; split; [done|split; [done|lia]]]].
  destruct (Ht eq_refl) as (Hwq & Hcap & Hvar). pose proof Hwq as [Hb [Hqh _] [Hqc Hqcm] [rest Hqm]].
  unfold set_payload_size. rewrite (store_part _ _ q [] (le_encode 4 (Z.of_nat (length B))) (extra ++ B ++ repeat 0 (padding (length B)) ++ rest));
    [|done|done|by rewrite !le_encode_length|cbn; lia]. cbn [obind app].
  eexists _, _, h'. split; [done|]. right. pose proof (readable_bounds _ _ (writable_readable _ _ _ Hwq)) as (B1 & B2 & B3 & B4).
  rewrite data_of_length in *. unfold dest_of, payload. cbn [set_mem header_ header_size_ variable_buffer_offset_].
  assert (Hsz : Z.of_nat (length (mem_ q)) < 2 ^ 32 - header_ q) by (destruct Hb; lia).
  unfold needed in Hcap. split; [rewrite (u32_small (header_ q + _)), u32_small by lia; lia|]. split; [|done]. exists rest.
  assert (Hlen2 : length (mem_ q) = (4 + length extra + length B + padding (length B) + length rest)%nat).
  { rewrite Hqm, !length_app, le_encode_length, repeat_length. lia. }
  split; cbn [set_mem header_ header_size_ capacity_ mem_].
  - apply (set_mem_block q [] (le_encode 4 (Z.of_nat (length B)))); [done|done|by rewrite !le_encode_length|apply le_encode_u8].
  - done.
  - split; [|done]. rewrite Hqc, Hlen2, !length_app, le_encode_length, repeat_length. lia.
  - do 2 f_equal. lia.
  - assert (Hr : (4 + length extra + length B + padding (length B) + len + padding len <= length (mem_ q))%nat); [|lia].
    apply padded_room; [by apply unit_mod4; rewrite <- Hqc| |lia].
    destruct (padding_spec (length B)) as [Hp _]. rewrite <- Nat.add_assoc, Nat.Div0.add_mod, Hp, Nat.add_0_r, Nat.Div0.mod_mod.
    by rewrite Nat.Div0.add_mod, Hm.
Qed.

(** The payload with [c] written after it. *)
Definition append (B c : list Z) : list Z := B ++ repeat 0 (padding (length B)) ++ c.

Lemma append_length B c : length (append B c) = (length B + padding (length B) + length c)%nat.
Proof. unfold append. rewrite !length_app, repeat_length. lia. Qed.

Lemma append_padding B c : padding (length (append B c)) = padding (length c).
Proof. rewrite append_length. apply padding_add, padding_spec. Qed.

Lemma padding_Z n : Z.of_nat (padding n) = if Z.of_nat n mod 4 =? 0 then 0 else 4 - Z.of_nat n mod 4.
Proof.
  unfold padding. change 4 with (Z.of_nat 4) at 1. rewrite <- Nat2Z.inj_mod. pose proof (Nat.mod_upper_bound n 4).
  destruct (Z.eqb_spec (Z.of_nat (n mod 4)) 0) as [E|E].
  - replace (n mod 4)%nat with 0%nat by lia. done.
  - rewrite Nat.mod_small by lia. rewrite Nat2Z.inj_sub, Nat2Z.inj_mod by lia. done.
Qed.

(** The zeros after the data complete the invariant. *)
Lemma EndWrite_spec p extra B d r :
  opened p extra B (length d) (d ++ r) ->
  exists p', EndWrite (dest_of p extra B) (Z.of_nat (length d)) p = Ret p' /\ writable p' extra (append B d) /\
    header_ p' = header_ p /\ variable_buffer_offset_ p' = variable_buffer_offset_ p.
Proof.
  intros [Hb [Hh Hm] [Hc Hcm] Hmem Hroom]. pose proof (blk_end _ Hb) as Hend. pose proof (blk_start _ Hb) as Hst.
  rewrite length_app in Hroom.
  assert (Hl : length (mem_ p) = (4 + length extra + length B + padding (length B) + length d + length r)%nat).
  { rewrite Hmem, !length_app, le_encode_length, repeat_length. lia. }
  assert (Er : exists z r', r = z ++ r' /\ length z = padding (length d)).
  { exists (take (padding (length d)) r), (drop (padding (length d)) r). rewrite take_drop, length_take. split; [done|lia]. }
  destruct Er as (z & r' & -> & Hz). rewrite length_app in Hl.
  pose (pre := le_encode 4 (Z.of_nat (length (append B d))) ++ extra ++ append B d).
  assert (Hpre : mem_ p = pre ++ z ++ r').
  { rewrite Hmem. unfold pre, append. rewrite <- !app_assoc. do 2 f_equal. rewrite !length_app, repeat_length. lia. }
  assert (Hpl : length pre = (4 + length extra + length B + padding (length B) + length d)%nat).
  { unfold pre. rewrite !length_app, append_length, le_encode_length. lia. }
  assert (HW : writable (set_mem (pre ++ repeat 0 (padding (length d)) ++ r') p) extra (append B d)).
  { assert (Hml : length (pre ++ repeat 0 (padding (length d)) ++ r') = length (mem_ p)).
    { rewrite Hpre, !length_app, repeat_length. lia. }
    split; [apply (set_mem_block p pre z); [done|done|by rewrite repeat_length|apply zeros_u8]|done|cbn [set_mem capacity_ mem_]; by rewrite Hml|].
    exists r'. cbn [set_mem mem_]. unfold pre. by rewrite append_padding, <- !app_assoc. }
  unfold EndWrite. rewrite u32_small by lia. pose proof (padding_Z (length d)) as Hp.
  destruct (Z.eqb_spec (Z.of_nat (length d) mod 4) 0) as [E0|E0]; cbn [negb].
  - exists p. split; [done|]. split; [|done]. assert (z = []) as -> by (apply nil_length_inv; lia).
    assert (Ep : padding (length d) = 0%nat) by lia. rewrite Ep in HW. cbn [repeat app] in HW, Hpre.
    assert (Es : set_mem (pre ++ r') p = p) by (rewrite <- Hpre; by destruct p). by rewrite Es in HW.
  - rewrite <- Hp, Nat2Z.id.
    rewrite (store_part _ _ p pre z r'); [|done|done|by rewrite repeat_length|unfold dest_of in *; rewrite u32_small; lia].
    eexists. split; [done|]. split; [exact HW|done].
Qed.

(** Writing bytes appends them, aligned, or fails and changes nothing. *)
Lemma WriteBytes_spec data p h extra B :
  writable p extra B -> Forall is_u8 data -> Z.of_nat (4 + length extra + length (append B data)) <= 2 ^ 32 - kPayloadUnit ->
  exists ok p' h', WriteBytes data (Z.of_nat (length data)) p h = Ret (ok, p', h') /\ (ok = false -> p' = p /\ capacity_ p < Z.of_nat (4 + length extra + length (append B data))) /\
    (ok = true -> writable p' extra (append B data) /\ variable_buffer_offset_ p' = variable_buffer_offset_ p).
Proof.
  intros Hw Hd Hlen. rewrite append_length in Hlen. destruct (BeginWrite_spec (length data) p h extra B Hw ltac:(lia)) as (dest & q & h' & E & Hcase).
  pose proof (wr_capacity _ _ _ Hw) as [Hc _]. pose proof (wr_block _ _ _ Hw) as [Hb1 Hb2 _]. unfold WriteBytes.
  rewrite (proj2 (Z.eqb_neq _ _)) by (unfold kCapacityReadOnly; lia). cbn [negb dcheck obind].
  unfold kPayloadUnit in Hlen. rewrite u32_small by lia. rewrite E. cbn [obind].
  destruct Hcase as [(-> & -> & Hlt)|(-> & (rest & Ho) & Hv)].
  { exists false, p, h'. split; [done|]. split; [|done]. intros _. split; [done|]. rewrite append_length. lia. }
  pose proof Ho as [Hb [Hh Hm] [Hcq Hcm] Hmem Hroom]. pose proof (blk_start _ Hb). pose proof (blk_end _ Hb) as Hend.
  rewrite (proj2 (Z.eqb_neq _ _)) by (unfold dest_of, NULL; lia). rewrite Z.leb_refl. cbn [dcheck obind].
  rewrite Nat2Z.id, take_ge by lia.
  assert (Er : exists d r, rest = d ++ r /\ length d = length data).
  { exists (take (length data) rest), (drop (length data) rest). rewrite take_drop, length_take. split; [done|lia]. }
  destruct Er as (d & r & -> & Hdl).
  pose (pre := le_encode 4 (Z.of_nat (length B + padding (length B) + length data)) ++ extra ++ B ++ repeat 0 (padding (length B))).
  assert (Hpre : mem_ q = pre ++ d ++ r) by (rewrite Hmem; unfold pre; by rewrite <- !app_assoc).
  assert (Hpl : length pre = (4 + length extra + length B + padding (length B))%nat).
  { unfold pre. rewrite !length_app, le_encode_length, repeat_length. lia. }
  rewrite (store_part _ data q pre d r); [|done|done|done|unfold dest_of; lia]. cbn [obind].
  assert (Ho2 : opened (set_mem (pre ++ data ++ r) q) extra B (length data) (data ++ r)).
  { assert (Hml : length (pre ++ data ++ r) = length (mem_ q)) by (rewrite Hpre, !length_app; lia).
    split; [by apply (set_mem_block q pre d)|done|cbn [set_mem capacity_ mem_]; by rewrite Hml| |].
    - cbn [set_mem mem_]. unfold pre. by rewrite <- !app_assoc.
    - rewrite !length_app in *. lia. }
  destruct (EndWrite_spec _ _ _ _ _ Ho2) as (p' & E2 & Hw' & Hh' & Hv').
  exists true, p', h'. change (dest_of (set_mem (pre ++ data ++ r) q) extra B) with (dest_of q extra B) in E2. rewrite E2. cbn [obind].
  split; [done|]. split; [done|]. intros _. split; [done|]. by rewrite Hv'.
Qed.

(** A new pickle is empty; there is none without memory. *)
Lemma new_with_header_spec n h :
  (n mod 4 = 0)%nat -> (4 + n <= 64)%nat ->
  match realloc NULL kPayloadUnit h with
  | (None, _) => new_with_header (Z.of_nat (4 + n)) h = Crash
  | (Some _, h') => exists p extra, new_with_header (Z.of_nat (4 + n)) h = Ret (p, h') /\ writable p extra [] /\
      length extra = n /\ variable_buffer_offset_ p = 0
  end.
Proof.
  intros Hn Hle. unfold new_with_header, Resize. cbv zeta. change (AlignInt kPayloadUnit kPayloadUnit) with kPayloadUnit.
  cbn [capacity_ header_ mem_ header_size_ variable_buffer_offset_]. change (negb (0 =? kCapacityReadOnly)) with true. cbn [dcheck obind].
  destruct (realloc NULL kPayloadUnit h) as [[[q fresh]|] h'] eqn:E; [|done].
  destruct (realloc_spec _ _ _ _ _ _ E) as (Hq & Hq2 & Hf & Hfb). unfold kPayloadUnit in *. cbn [length app obind].
  rewrite drop_0, take_ge by lia. set (p0 := mk q (Z.of_nat (4 + n)) 64 0 fresh).
  assert (Hb : block p0) by (split; cbn; [lia|lia|done]).
  exists (set_mem (le_encode 4 0 ++ drop 4 fresh) p0), (take n (drop 4 fresh)).
  unfold set_payload_size. rewrite (store_part _ _ p0 [] (take 4 fresh) (drop 4 fresh) Hb);
    [|cbn; by rewrite take_drop|rewrite le_encode_length, length_take; lia|cbn; lia].
  split; [done|]. split; [|split; [rewrite length_take, length_drop; lia|done]].
  assert (Hml : length (le_encode 4 0 ++ drop 4 fresh) = 64%nat) by (rewrite length_app, length_drop, le_encode_length; lia).
  split; cbn [set_mem header_size_ capacity_ mem_].
  - apply (set_mem_block p0 [] (take 4 fresh)); [done|cbn; by rewrite take_drop|rewrite le_encode_length, length_take; lia|apply le_encode_u8].
  - rewrite length_take, length_drop. replace (n `min` (length fresh - 4))%nat with n by lia. done.
  - by rewrite Hml.
  - exists (drop n (drop 4 fresh)). change (repeat 0 (padding (length (@nil Z)))) with (@nil Z).
    cbn [length app]. by rewrite take_drop.
Qed.

End WritingProofs.

End Pickle.
