(* ===== verification/BasePickleTypes.v ===== *)
(** Typed values in pickles, over [base/pickle.cc]: the methods as one pair of operations
    indexed by the type, what reading gives on any received bytes, and that reading the
    types that were written gives the values back. *)
From S2P Require Import Prelude.
From S2P Require Import GpuMappedMemory.
From S2P Require Import BasePickle.

Module PickleTypes.
Import Pickle.

(** ** The types of the methods *)

Inductive ty :=
  | TBool | TInt | TLong | TSize | TUInt16 | TUInt32 | TInt64 | TUInt64
  | TString | TWString | TString16 | TData | TBytes (n : nat).

#[global] Instance ty_eq_dec : EqDecision ty.
Proof. solve_decision. Defined.

Definition denote (t : ty) : Type :=
  match t with
  | TBool => bool
  | TInt | TLong | TSize | TUInt16 | TUInt32 | TInt64 | TUInt64 => Z
  | TString | TWString | TString16 | TData | TBytes _ => list Z
  end.

(** The values of each C++ type. *)
Definition valid (t : ty) : denote t -> Prop :=
  match t with
  | TBool => fun _ => True
  | TInt | TLong => is_i32
  | TSize | TUInt32 => is_u32
  | TUInt16 => is_u16
  | TInt64 => fun v => - 2 ^ 63 <= v < 2 ^ 63
  | TUInt64 => is_u64
  | TString | TData => fun v => Forall is_u8 v /\ Z.of_nat (length v) < 2 ^ 31
  | TWString => fun v => Forall is_u32 v /\ Z.of_nat (length v) * 4 < 2 ^ 31
  | TString16 => fun v => Forall is_u16 v /\ Z.of_nat (length v) * 2 < 2 ^ 31
  | TBytes n => fun v => Forall is_u8 v /\ length v = n /\ Z.of_nat n < 2 ^ 31
  end.

(** Lengths a caller may ask for. *)
Definition ty_ok (t : ty) : Prop := match t with TBytes n => Z.of_nat n < 2 ^ 31 | _ => True end.

(** The caller's copy of the bytes it was pointed to. *)
Definition copy_out (address len : Z) (p : t) : outcome (list Z) :=
  if len =? 0 then Ret [] else load address (Z.to_nat len) p.

Definition read (t : ty) : Z -> Pickle.t -> outcome (option (denote t) * Z) :=
  match t with
  | TBool => ReadBool
  | TInt => ReadInt
  | TLong => ReadLong
  | TSize => ReadSize
  | TUInt16 => ReadUInt16
  | TUInt32 => ReadUInt32
  | TInt64 => ReadInt64
  | TUInt64 => ReadUInt64
  | TString => ReadString
  | TWString => ReadWString
  | TString16 => ReadString16
  | TData => fun iter p =>
      let! '(o, iter) := ReadData iter p in
      match o with
      | None => Ret (None, iter)
      | Some (data, len) => let! l := copy_out data len p in Ret (Some l, iter)
      end
  | TBytes n => fun iter p =>
      let! '(o, iter) := ReadBytes (Z.of_nat n) iter p in
      match o with
      | None => Ret (None, iter)
      | Some data => let! l := copy_out data (Z.of_nat n) p in Ret (Some l, iter)
      end
  end.

Definition write {H : Type} `{!Heap H} (t : ty) : denote t -> Pickle.t -> H -> outcome (bool * Pickle.t * H) :=
  match t with
  | TBool => WriteBool
  | TInt => WriteInt
  | TLong => WriteLong
  | TSize => WriteSize
  | TUInt16 => WriteUInt16
  | TUInt32 => WriteUInt32
  | TInt64 => WriteInt64
  | TUInt64 => WriteUInt64
  | TString => WriteString
  | TWString => WriteWString
  | TString16 => WriteString16
  | TData => fun v => WriteData v (Z.of_nat (length v))
  | TBytes n => fun v => WriteBytes v (Z.of_nat n)
  end.

(** A value with its type. *)
Definition field := { t : ty & denote t }.

Definition field_valid (f : field) : Prop := valid (projT1 f) (projT2 f).

(** Reading types one after the other, from an iterator on. *)
Fixpoint read_all (ts : list ty) (iter : Z) (p : Pickle.t) : outcome (list { t : ty & option (denote t) } * Z) :=
  match ts with
  | [] => Ret ([], iter)
  | t :: ts =>
      let! '(o, iter) := read t iter p in
      let! '(os, iter) := read_all ts iter p in
      Ret (existT t o :: os, iter)
  end.

(** Writing fields until one fails. *)
Fixpoint write_all {H : Type} `{!Heap H} (fs : list field) (p : Pickle.t) (h : H) : outcome (bool * Pickle.t * H) :=
  match fs with
  | [] => Ret (true, p, h)
  | existT t v :: fs =>
      let! '(o, h) := write t v p h in
      let '(ok, p) := o in
      if ok then write_all fs p h else Ret (false, p, h)
  end.

(** ** Received bytes *)

(** Whether [len] bytes are a pickle, by their first four. *)
Definition is_pickle (l : list Z) (len : Z) : Prop :=
  4 <= len /\ le_value (take 4 l) <= len - 4 /\ (len - le_value (take 4 l)) mod 4 = 0.

#[global] Instance is_pickle_dec l len : Decision (is_pickle l len).
Proof. unfold is_pickle. apply _. Defined.

Lemma le_value_take4 l : Forall is_u8 l -> 0 <= le_value (take 4 l) < 2 ^ 32.
Proof.
  intros Hb. pose proof (le_value_range (take 4 l) (Forall_take _ _ _ Hb)) as [H1 H2]. split; [done|].
  eapply Z.lt_le_trans; [exact H2|]. apply Z.pow_le_mono_r; [lia|]. rewrite length_take. lia.
Qed.

Lemma align4_id n : 0 <= n < 2 ^ 32 -> (n =? AlignInt n 4) = bool_decide (n mod 4 = 0).
Proof.
  intros H. unfold AlignInt. case_bool_decide as E.
  - rewrite E. change ((4 - 0) mod 4) with 0. rewrite u32_small by lia. apply Z.eqb_eq. lia.
  - apply Z.eqb_neq. intros E2. apply E. pose proof (Z.mod_pos_bound n 4).
    assert (Em : (4 - n mod 4) mod 4 = 4 - n mod 4) by (apply Z.mod_small; lia). rewrite Em in E2. unfold u32 in E2.
    destruct (Z.lt_ge_cases (n + (4 - n mod 4)) (2 ^ 32)); [rewrite Z.mod_small in E2; lia|].
    assert (Ew : (n + (4 - n mod 4)) mod 2 ^ 32 = n + (4 - n mod 4) - 2 ^ 32) by (symmetry; apply (Z.mod_unique _ _ 1); lia). lia.
Qed.

Lemma new_from_data_spec data l len :
  0 < data -> data + Z.of_nat (length l) < 2 ^ 32 -> Forall is_u8 l -> 0 <= len <= Z.of_nat (length l) -> len < 2 ^ 31 ->
  exists p, new_from_data data l len = Ret p /\
    if decide (is_pickle l len)
    then readable p (take (Z.to_nat len) l) /\ header_ p = data /\ header_size_ p = len - le_value (take 4 l)
    else invalid p.
Proof.
  intros Hd Hend Hb Hl Hl31. unfold new_from_data, sizeof_Header, is_pickle. pose proof (le_value_take4 l Hb) as Hn.
  set (n := le_value (take 4 l)) in *. destruct (Z.leb_spec 4 len) as [H4|H4]; cbn [obind].
  - unfold payload_size. rewrite load_ok by (cbn; lia). cbn [mem_ header_ obind header_size_]. rewrite Z.sub_diag, drop_0.
    fold n. cbv zeta. rewrite (u32_small len) by lia.
    assert (Hu : u32 (len - n) = if n <=? len then len - n else len - n + 2 ^ 32).
    { destruct (Z.leb_spec n len); [by apply u32_small; lia|]. symmetry. apply (Z.mod_unique _ _ (-1)); lia. }
    rewrite Hu. destruct (Z.leb_spec n len) as [Hle|Hgt].
    + rewrite (proj2 (Z.ltb_ge _ _)) by lia. rewrite align4_id by lia. case_bool_decide as Em; cbn [negb].
      * eexists. split; [done|]. destruct (Z.eqb_spec (len - n) 0) as [E0|E0].
        -- rewrite decide_False by lia. split; [done|by cbn].
        -- assert (4 <= len - n) by (apply Z.mod_divide in Em as [q Em]; lia). rewrite decide_True by (split; [done|split; [lia|done]]).
           split; [|done]. assert (Hlen : length (take (Z.to_nat len) l) = Z.to_nat len) by (rewrite length_take; lia).
           split; cbn [header_ header_size_ mem_]; [by split|rewrite Hlen; lia|done|by rewrite Hlen|].
           rewrite take_take, Hlen. replace (4 `min` Z.to_nat len)%nat with 4%nat by lia. fold n. lia.
      * eexists. split; [done|]. rewrite decide_False by (intros (_ & _ & ?); done). done.
    + rewrite (proj2 (Z.ltb_lt _ _)) by lia. eexists. split; [done|]. rewrite decide_False by lia. done.
  - eexists. split; [done|]. rewrite decide_False by lia. cbn [header_size_]. rewrite (proj2 (Z.ltb_ge _ _)) by (rewrite u32_small; lia). done.
Qed.

(** ** Reads are typed *)

(** A pickle made from received bytes. *)
Definition received (p : Pickle.t) : Prop := (exists R, readable p R) \/ invalid p.

(** A read returns, and what it gives satisfies [P]. *)
Definition reads_to {A} (r : outcome (option A * Z)) (P : A -> Prop) : Prop :=
  exists o iter, r = Ret (o, iter) /\ is_u32 iter /\ forall v, o = Some v -> P v.

Lemma reads_fail {A} iter (P : A -> Prop) : is_u32 iter -> reads_to (Ret (None, iter)) P.
Proof. intros H. by exists None, iter. Qed.

Lemma reads_some {A} v iter (P : A -> Prop) : is_u32 iter -> P v -> reads_to (Ret (Some v, iter)) P.
Proof. intros H HP. exists (Some v), iter. split; [done|]. split; [done|]. by intros ? [= <-]. Qed.

Lemma reads_bind {A B} (r : outcome (option A * Z)) (P : A -> Prop) (k : option A -> Z -> outcome (option B * Z)) (Q : B -> Prop) :
  reads_to r P -> (forall iter, is_u32 iter -> reads_to (k None iter) Q) ->
  (forall v iter, is_u32 iter -> P v -> reads_to (k (Some v) iter) Q) ->
  reads_to (let! '(o, iter) := r in k o iter) Q.
Proof. intros (o & iter & -> & Hi & Ho) HN HS. cbn [obind]. destruct o; [apply HS; auto|by apply HN]. Qed.

Lemma reads_as {A} (f : list Z -> A) r P Q : reads_to r P -> (forall l, P l -> Q (f l)) -> reads_to (as_type f r) Q.
Proof.
  intros (o & iter & -> & Hi & Ho) HQ. exists (f <$> o), iter. split; [done|]. split; [done|].
  intros v E. destruct o; [|done]. injection E as <-. apply HQ. by apply Ho.
Qed.

Lemma invalid_start p iter : invalid p -> is_u32 iter -> is_u32 (start_iter iter p).
Proof. intros [H1 H2] Hi. unfold start_iter, payload. case_match; [apply u32_range|done]. Qed.

Lemma invalid_room_returns p iter len : invalid p -> exists room, IteratorHasRoomFor iter len p = Ret room.
Proof.
  intros [Hz _]. unfold IteratorHasRoomFor, end_of_payload. rewrite Hz. cbn [Z.eqb NULL]. destruct (_ || _); [by eexists|].
  cbn [obind]. case_match; by eexists.
Qed.

Lemma pod_reads n iter p :
  received p -> is_u32 iter -> (0 < n)%nat -> Z.of_nat n < 2 ^ 31 ->
  reads_to (read_pod n iter p) (fun l => Forall is_u8 l /\ length l = n).
Proof.
  intros [[R HR]|Hinv] Hi Hn0 Hn.
  - rewrite (read_pod_spec _ _ HR) by done. pose proof (start_iter_range _ _ HR iter Hi) as Hs.
    destruct (at_address p R (start_iter iter p) n) eqn:E; [|by apply reads_fail].
    apply reads_some; [apply u32_range|by eapply at_address_u8].
  - unfold read_pod. pose proof (invalid_start p iter Hinv Hi) as Hs. rewrite invalid_room by (done || unfold is_u32 in *; lia).
    by apply reads_fail.
Qed.

Lemma int_reads iter p : received p -> is_u32 iter -> reads_to (ReadInt iter p) is_i32.
Proof. intros Hp Hi. eapply reads_as; [apply pod_reads; (done || lia)|]. intros l _. apply i32_range. Qed.

Lemma unsigned_reads n iter p :
  received p -> is_u32 iter -> (0 < n)%nat -> Z.of_nat n < 2 ^ 31 ->
  reads_to (as_type le_value (read_pod n iter p)) (fun v => 0 <= v < 2 ^ (8 * Z.of_nat n)).
Proof. intros Hp Hi Hn0 Hn. eapply reads_as; [apply pod_reads; (done || lia)|]. intros l [Hl <-]. by apply le_value_range. Qed.

Lemma length_reads iter p : received p -> is_u32 iter -> reads_to (ReadLength iter p) (fun len => 0 <= len < 2 ^ 31).
Proof.
  intros Hp Hi. eapply reads_bind; [by apply int_reads|intros; by apply reads_fail|].
  intros v it Hit Hv. unfold is_i32 in Hv. destruct (Z.leb_spec 0 v); [apply reads_some; [done|cbn; lia]|by apply reads_fail].
Qed.

Lemma chars_valid width n l :
  Forall is_u8 l -> length l = (n * width)%nat ->
  length (chars width n l) = n /\ Forall (fun v => 0 <= v < 2 ^ (8 * Z.of_nat width)) (chars width n l).
Proof.
  revert l. induction n as [|n IH]; intros l Hl Hn; cbn [chars length]; [done|].
  destruct (IH (drop width l)) as [IH1 IH2]; [by apply Forall_drop|rewrite length_drop; lia|]. split; [by rewrite IH1|].
  constructor; [|done]. assert (Ew : length (take width l) = width) by (rewrite length_take; lia). pose proof (le_value_range _ (Forall_take _ width _ Hl)) as Hr. by rewrite Ew in Hr.
Qed.

Lemma chars_reads p R len width bytes iter :
  readable p R -> is_u32 iter -> 0 <= len < 2 ^ 31 ->
  bytes = len * Z.of_nat width /\ bytes < 2 ^ 31 \/ bytes < 0 ->
  reads_to (read_chars len width bytes iter p) (fun l => Forall is_u8 l /\ length l = (Z.to_nat len * width)%nat /\ len * Z.of_nat width < 2 ^ 31).
Proof.
  intros HR Hi Hlen [[-> Hb]|Hb].
  - rewrite (read_chars_spec _ _ HR) by (done || lia). destruct (at_address p R iter _) eqn:E; [|by apply reads_fail].
    apply reads_some; [apply u32_range|]. destruct (at_address_u8 _ _ _ _ _ HR E). done.
  - unfold read_chars, IteratorHasRoomFor. rewrite (proj2 (Z.ltb_lt _ _) Hb). by apply reads_fail.
Qed.

(** The lengths of strings come first; none is read from an invalid pickle. *)
Lemma counted_reads {A} (k : Z -> Z -> outcome (option A * Z)) Q iter p :
  received p -> is_u32 iter ->
  (forall R len it, readable p R -> is_u32 it -> 0 <= len < 2 ^ 31 -> reads_to (k len it) Q) ->
  reads_to (let! '(o, it) := ReadLength iter p in match o with None => Ret (None, it) | Some len => k len it end) Q.
Proof.
  intros Hp Hi Hk. destruct Hp as [[R HR]|Hinv].
  - eapply reads_bind; [apply length_reads; [left; by exists R|done]|intros; by apply reads_fail|]. cbn. eauto.
  - unfold ReadLength, ReadInt, read_pod. pose proof (invalid_start p iter Hinv Hi) as Hs.
    rewrite invalid_room by (done || unfold is_u32 in *; lia). by apply reads_fail.
Qed.

Lemma bytes_reads p R len iter :
  readable p R -> is_u32 iter -> len < 2 ^ 31 ->
  reads_to (ReadBytes len iter p) (fun a => forall n, n = Z.to_nat len -> exists l, load a n p = Ret l /\ Forall is_u8 l /\ length l = n).
Proof.
  intros HR Hi Hl. unfold ReadBytes. pose proof (start_iter_range _ _ HR iter Hi) as Hs. rewrite (room_spec _ _ HR) by done. cbn [obind].
  case_bool_decide as E; cbn [negb]; [|by apply reads_fail]. apply reads_some; [apply u32_range|]. intros n ->.
  destruct E as (E1 & E2 & E3). rewrite (readable_load _ _ HR) by lia. eexists. split; [done|].
  apply (at_address_u8 p R (start_iter iter p) (Z.to_nat len)); [done|]. unfold at_address.
  rewrite bool_decide_eq_true_2; [done|]. split; lia.
Qed.

Lemma copy_out_reads a len p iter :
  0 <= len -> is_u32 iter ->
  (forall n, n = Z.to_nat len -> exists l, load a n p = Ret l /\ Forall is_u8 l /\ length l = n) ->
  reads_to (let! l := copy_out a len p in Ret (Some l, iter)) (fun l => Forall is_u8 l /\ length l = Z.to_nat len).
Proof.
  intros Hl Hi H. unfold copy_out. destruct (Z.eqb_spec len 0) as [->|].
  - cbn [obind]. by apply reads_some.
  - destruct (H _ eq_refl) as (l & -> & Hb & Hlen). cbn [obind]. by apply reads_some.
Qed.

Lemma string_valid {A} (P Q : A -> Prop) width n (l : list A) :
  (forall v, P v -> Q v) -> length l = Z.to_nat n /\ Forall P l -> 0 <= n -> n * Z.of_nat width < 2 ^ 31 ->
  Forall Q l /\ Z.of_nat (length l) * Z.of_nat width < 2 ^ 31.
Proof. intros HPQ [Hl HP] Hn Hw. split; [by eapply Forall_impl|]. rewrite Hl. lia. Qed.

(** Reading any type but [bool] from received bytes returns a value of the type, or none. *)
Lemma read_reads t iter p :
  received p -> is_u32 iter -> ty_ok t -> t <> TBool -> reads_to (read t iter p) (valid t).
Proof.
  intros Hp Hi Ht Hb. destruct t; cbn [read]; try done; try (apply unsigned_reads; (done || lia)); try (by apply int_reads).
  - eapply reads_as; [apply pod_reads; (done || lia)|]. intros l _. cbn. unfold i64. pose proof (Z.mod_pos_bound (le_value l + 2 ^ 63) (2 ^ 64)). lia.
  - apply counted_reads; [done..|]. intros R len it HR Hit Hlen.
    pose proof (chars_reads p R len 1 len it HR Hit Hlen ltac:(lia)) as (o & it' & -> & Hit' & Ho).
    exists o, it'. split; [done|]. split; [done|]. intros v Hv. destruct (Ho v Hv) as (H1 & H2 & H3). split; [done|lia].
  - apply counted_reads; [done..|]. intros R len it HR Hit Hlen. destruct (Z.ltb_spec (INT_MAX / 4) len) as [|Hle]; [by apply reads_fail|].
    change (INT_MAX / 4) with (2 ^ 29 - 1) in Hle. rewrite u32_small, i32_small by lia.
    eapply reads_as; [apply (chars_reads p R); [done..|lia]|]. intros l (H1 & H2 & H3).
    pose proof (chars_valid 4 _ l H1 H2) as Hc. eapply (string_valid _ _ 4); [|exact Hc|lia|lia]. done.
  - apply counted_reads; [done..|]. intros R len it HR Hit Hlen.
    assert (Hbytes : i32 (u32 (len * 2)) = len * Z.of_nat 2 /\ i32 (u32 (len * 2)) < 2 ^ 31 \/ i32 (u32 (len * 2)) < 0).
    { rewrite u32_small by lia. destruct (Z.lt_ge_cases len (2 ^ 30)); [left; rewrite i32_small by lia; lia|right].
      unfold i32. assert (E : (len * 2 + 2 ^ 31) mod 2 ^ 32 = len * 2 + 2 ^ 31 - 2 ^ 32) by (symmetry; apply (Z.mod_unique _ _ 1); lia). lia. }
    eapply reads_as; [apply (chars_reads p R); done|]. intros l (H1 & H2 & H3).
    pose proof (chars_valid 2 _ l H1 H2) as Hc. eapply (string_valid _ _ 2); [|exact Hc|lia|lia]. done.
  - eapply reads_bind with (P := fun r : Z * Z => 0 <= snd r < 2 ^ 31 /\ forall n, n = Z.to_nat (snd r) -> exists l, load (fst r) n p = Ret l /\ Forall is_u8 l /\ length l = n).
    + unfold ReadData. apply counted_reads; [done..|]. intros R len it HR Hit Hlen.
      destruct (bytes_reads p R len it HR Hit ltac:(lia)) as (o & it' & -> & Hit' & Ho). cbn [obind].
      eexists _, it'. split; [done|]. split; [done|]. intros [a len'] E. destruct o; [|done]. injection E as <- <-. cbn [fst snd].
      split; [lia|]. by apply Ho.
    + intros. by apply reads_fail.
    + intros [a len] it Hit [Hlen Hl]. cbn [fst snd] in *. destruct (copy_out_reads a len p it ltac:(lia) Hit Hl) as (o & it' & -> & Hit' & Ho).
      exists o, it'. split; [done|]. split; [done|]. intros v Hv. destruct (Ho v Hv). split; [done|lia].
  - cbn in Ht. destruct Hp as [[R HR]|Hinv].
    + eapply reads_bind; [by apply (bytes_reads p R)|intros; by apply reads_fail|]. intros a it Hit Hl. cbn beta in Hl.
      destruct (copy_out_reads a (Z.of_nat n) p it ltac:(lia) Hit Hl) as (o & it' & -> & Hit' & Ho).
      exists o, it'. split; [done|]. split; [done|]. intros v Hv. destruct (Ho v Hv). cbn. split; [done|lia].
    + pose proof (invalid_start p iter Hinv Hi) as Hs. destruct n as [|n].
      * unfold ReadBytes. change (Z.of_nat 0) with 0 in *.
        destruct (invalid_room_returns p (start_iter iter p) 0 Hinv) as [room ->]. cbn [obind].
        destruct room; cbn [negb obind]; [|by apply reads_fail]. apply reads_some; [apply u32_range|done].
      * unfold ReadBytes. rewrite invalid_room by (done || unfold is_u32 in *; lia). by apply reads_fail.
Qed.

Lemma read_all_reads ts iter p :
  received p -> is_u32 iter -> Forall ty_ok ts -> TBool ∉ ts ->
  exists os iter', read_all ts iter p = Ret (os, iter') /\ map (@projT1 _ _) os = ts /\
    Forall (fun r => forall v, projT2 r = Some v -> valid (projT1 r) v) os.
Proof.
  intros Hp. revert iter. induction ts as [|t ts IH]; intros iter Hi Hok Hb; cbn [read_all]; [by exists [], iter|].
  apply Forall_cons in Hok as [Ht Hok]. apply not_elem_of_cons in Hb as [Hb Hbs].
  destruct (read_reads t iter p) as (o & it & -> & Hit & Ho); [done..|]. cbn [obind].
  destruct (IH it Hit Hok Hbs) as (os & iter' & -> & Ets & Hos). cbn [obind].
  exists (existT t o :: os), iter'. split; [done|]. split; [cbn; by rewrite Ets|by constructor].
Qed.

(** ** What is written *)

(** The pieces a value is written in. *)
Definition chunks (t : ty) : denote t -> list (list Z) :=
  match t with
  | TBool => fun v => [le_encode 4 (if v then 1 else 0)]
  | TInt | TLong | TSize | TUInt32 => fun v => [le_encode 4 v]
  | TUInt16 => fun v => [le_encode 2 v]
  | TInt64 | TUInt64 => fun v => [le_encode 8 v]
  | TString | TData => fun v => [le_encode 4 (Z.of_nat (length v)); v]
  | TWString => fun v => [le_encode 4 (Z.of_nat (length v)); char_bytes 4 v]
  | TString16 => fun v => [le_encode 4 (Z.of_nat (length v)); char_bytes 2 v]
  | TBytes _ => fun v => [v]
  end.

Definition field_chunks (f : field) : list (list Z) := chunks (projT1 f) (projT2 f).

(** Pieces after a payload, each at a multiple of four bytes. *)
Definition layout (B : list Z) (cs : list (list Z)) : list Z := foldl append B cs.

(** The payload that fields make. *)
Definition payload_of (fs : list field) : list Z := layout [] (flat_map field_chunks fs).

Lemma layout_grows B cs : (length B <= length (layout B cs))%nat.
Proof. revert B. induction cs as [|c cs IH]; intros B; cbn; [done|]. etrans; [|apply IH]. rewrite append_length. lia. Qed.

Lemma layout_prefix B cs : exists s, layout B cs = B ++ s.
Proof.
  revert B. induction cs as [|c cs IH]; intros B; cbn; [exists []; by rewrite app_nil_r|].
  destruct (IH (append B c)) as [s E]. unfold layout in E. rewrite E. unfold append. exists (repeat 0 (padding (length B)) ++ c ++ s).
  by rewrite <- !app_assoc.
Qed.

Lemma layout_app B cs ds : layout B (cs ++ ds) = layout (layout B cs) ds.
Proof. apply foldl_app. Qed.

Section Written.
Context {H : Type} `{HL : HeapLaws H}.

(** A write that appends pieces, or fails. *)
Definition appends (r : outcome (bool * Pickle.t * H)) (extra B : list Z) (cs : list (list Z)) : Prop :=
  exists ok p h, r = Ret (ok, p, h) /\ (ok = true -> writable p extra (layout B cs)).

Definition fits (extra B : list Z) : Prop := Z.of_nat (4 + length extra + length B) <= 2 ^ 31.

Lemma fits_layout extra B cs : fits extra (layout B cs) -> fits extra B.
Proof. unfold fits. pose proof (layout_grows B cs). lia. Qed.

Lemma append_bytes c p h extra B :
  writable p extra B -> Forall is_u8 c -> fits extra (append B c) ->
  appends (WriteBytes c (Z.of_nat (length c)) p h) extra B [c].
Proof.
  intros Hw Hc Hf. destruct (WriteBytes_spec c p h extra B Hw Hc) as (ok & p' & h' & E & _ & Hok).
  - unfold fits, kPayloadUnit in *. lia.
  - exists ok, p', h'. split; [done|]. intros Ho. by apply Hok.
Qed.

Lemma append_pod n v p h extra B :
  writable p extra B -> fits extra (append B (le_encode n v)) -> appends (write_pod n v p h) extra B [le_encode n v].
Proof.
  intros Hw Hf. unfold write_pod. pose proof (append_bytes (le_encode n v) p h extra B Hw (le_encode_u8 n v) Hf) as Ha.
  by rewrite le_encode_length in Ha.
Qed.

Lemma append_counted len c data_len p h extra B :
  writable p extra B -> Forall is_u8 c -> data_len = Z.of_nat (length c) ->
  fits extra (layout B [le_encode 4 len; c]) ->
  appends (write_counted len c data_len p h) extra B [le_encode 4 len; c].
Proof.
  intros Hw Hc -> Hf. unfold write_counted, WriteInt.
  destruct (append_pod 4 len p h extra B Hw) as (ok & q & h' & -> & Hok); [by apply (fits_layout extra _ [c])|]. cbn [obind].
  destruct ok; cbn [negb]; [|by exists false, q, h']. by apply (append_bytes c q h' extra (append B (le_encode 4 len))); [apply Hok| |].
Qed.

Lemma char_bytes_length width l : length (char_bytes width l) = (length l * width)%nat.
Proof. unfold char_bytes. induction l as [|v l IH]; cbn; [done|]. rewrite length_app, le_encode_length, IH. done. Qed.

Lemma char_bytes_u8 width l : Forall is_u8 (char_bytes width l).
Proof. unfold char_bytes. induction l as [|v l IH]; cbn; [done|]. apply Forall_app. split; [apply le_encode_u8|done]. Qed.

Lemma write_appends t v p h extra B :
  writable p extra B -> valid t v -> fits extra (layout B (chunks t v)) -> appends (write t v p h) extra B (chunks t v).
Proof.
  intros Hw Hv Hf. destruct t; cbn [write chunks valid] in *; try (by apply append_pod).
  - destruct Hv as [Hv Hl]. unfold WriteString. rewrite i32_small by lia. by apply append_counted.
  - destruct Hv as [Hv Hl]. unfold WriteWString. rewrite i32_small, u32_small, i32_small by lia.
    apply append_counted; [done|apply char_bytes_u8|rewrite char_bytes_length; lia|done].
  - destruct Hv as [Hv Hl]. unfold WriteString16. rewrite !i32_small by lia. rewrite !(u32_small (Z.of_nat _)), u32_small, i32_small by lia.
    apply append_counted; [done|apply char_bytes_u8|rewrite char_bytes_length; lia|done].
  - destruct Hv as [Hv Hl]. unfold WriteData. rewrite (proj2 (Z.leb_le _ _)) by lia. by apply append_counted.
  - destruct Hv as (Hv & Hn & Hl). rewrite <- Hn. by apply append_bytes.
Qed.

Lemma write_all_appends fs p h extra B :
  writable p extra B -> Forall field_valid fs -> fits extra (layout B (flat_map field_chunks fs)) ->
  appends (write_all fs p h) extra B (flat_map field_chunks fs).
Proof.
  revert p h B. induction fs as [|[t v] fs IH]; intros p h B Hw Hv Hf; cbn [write_all flat_map] in *; [by exists true, p, h|].
  apply Forall_cons in Hv as [Hv Hvs]. rewrite layout_app in Hf.
  destruct (write_appends t v p h extra B Hw Hv (fits_layout _ _ _ Hf)) as (ok & q & h' & -> & Hok). cbn [obind].
  destruct ok; [|by exists false, q, h']. destruct (IH q h' _ (Hok eq_refl) Hvs Hf) as (ok & q' & h'' & E & Hok').
  exists ok, q', h''. split; [done|]. rewrite layout_app. done.
Qed.

End Written.

(** ** Reading back *)

Lemma i32_mod v : is_i32 v -> i32 (v mod 2 ^ 32) = v.
Proof. unfold is_i32, i32. intros Hv. rewrite Zplus_mod_idemp_l, Z.mod_small by lia. lia. Qed.

Lemma i64_mod v : - 2 ^ 63 <= v < 2 ^ 63 -> i64 (v mod 2 ^ 64) = v.
Proof. unfold i64. intros Hv. rewrite Zplus_mod_idemp_l, Z.mod_small by lia. lia. Qed.

Lemma chars_bytes width l :
  Forall (fun v => 0 <= v < 2 ^ (8 * Z.of_nat width)) l -> chars width (length l) (char_bytes width l) = l.
Proof.
  unfold char_bytes. induction 1 as [|v l Hv _ IH]; cbn [length chars map concat]; [done|].
  rewrite take_app_length', drop_app_length' by (by rewrite le_encode_length). by rewrite IH, le_value_encode, Z.mod_small.
Qed.

Section Back.
Context (q : Pickle.t) (extra : list Z).

(** Where the piece after the payload [X] starts. *)
Definition place (X : list Z) : Z := header_ q + Z.of_nat (4 + length extra + length X + padding (length X)).

(** The pickle holds [X], then the pieces [cs], and the memory does not end the address space. *)
Record holding (X : list Z) (cs : list (list Z)) : Prop := {
  hd_readable : readable q (data_of extra (layout X cs));
  hd_header : header_size_ q = Z.of_nat (4 + length extra);
  hd_end : header_ q + Z.of_nat (length (data_of extra (layout X cs))) + 4 <= 2 ^ 32
}.

Lemma place_append X c : place (append X c) = place X + Z.of_nat (length c + padding (length c)).
Proof. unfold place. rewrite append_padding, append_length. lia. Qed.

Lemma holding_room X c cs : holding X (c :: cs) -> place X + Z.of_nat (length c) <= header_ q + Z.of_nat (length (data_of extra (layout X (c :: cs)))).
Proof.
  intros _. rewrite data_of_length. cbn [layout foldl]. pose proof (layout_grows (append X c) cs) as Hg. unfold layout in Hg.
  rewrite append_length in Hg. unfold place. lia.
Qed.

Lemma at_piece X c cs : holding X (c :: cs) -> at_address q (data_of extra (layout X (c :: cs))) (place X) (length c) = Some c.
Proof.
  intros Hh. pose proof (holding_room X c cs Hh) as Hr. unfold at_address, in_data. rewrite bool_decide_eq_true_2 by (unfold place in *; lia). f_equal.
  replace (Z.to_nat (place X - header_ q)) with (4 + length extra + length X + padding (length X))%nat by (unfold place; lia).
  cbn [layout foldl]. destruct (layout_prefix (append X c) cs) as [s Es]. unfold layout in Es. unfold data_of. rewrite Es. generalize (le_encode_length 4 (Z.of_nat (length (append X c ++ s)))).
  set (hdr := le_encode 4 _). clearbody hdr. intros Hhdr. unfold append.
  assert (E : hdr ++ extra ++ (X ++ repeat 0 (padding (length X)) ++ c) ++ s = (hdr ++ extra ++ X ++ repeat 0 (padding (length X))) ++ c ++ s)
    by (by rewrite <- !app_assoc).
  rewrite E, drop_app_length' by (rewrite !length_app, Hhdr, repeat_length; lia). by rewrite take_app_length.
Qed.

Lemma next_place X c cs : holding X (c :: cs) -> UpdateIter (place X) (Z.of_nat (length c)) = place (append X c) /\ is_u32 (place (append X c)).
Proof.
  intros Hh. pose proof (holding_room X c cs Hh) as Hr. destruct Hh as [HR _ He]. pose proof (rd_block _ _ HR) as [Hs _ _].
  destruct (padding_spec (length c)) as [_ Hp]. unfold UpdateIter. rewrite (u32_small (Z.of_nat _)), align4 by (unfold place in *; lia).
  rewrite place_append. rewrite u32_small by (unfold place in *; lia). split; [done|]. unfold is_u32, place in *. lia.
Qed.

(** An iterator that is at a piece, or [NULL] before the first. *)
Definition stands (iter : Z) (X : list Z) : Prop := is_u32 iter /\ start_iter iter q = place X.

Lemma stands_place X c cs : holding X (c :: cs) -> stands (place (append X c)) (append X c).
Proof.
  intros Hh. destruct (next_place X c cs Hh) as [_ Hu]. split; [done|]. unfold start_iter. pose proof (blk_start _ (rd_block _ _ (hd_readable _ _ Hh))).
  rewrite (proj2 (Z.eqb_neq _ _)); [done|]. unfold place, NULL. lia.
Qed.

Lemma stands_NULL cs : holding [] cs -> stands NULL [].
Proof.
  intros [HR Hh _]. split; [done|]. unfold start_iter. rewrite Z.eqb_refl, (readable_payload _ _ HR), Hh. unfold place. cbn [length].
  change (padding 0) with 0%nat. lia.
Qed.

Lemma holding_step X c cs : holding X (c :: cs) -> holding (append X c) cs.
Proof. by intros [H1 H2 H3]. Qed.

Lemma pod_back n v X cs iter :
  holding X (le_encode n v :: cs) -> stands iter X -> Z.of_nat n < 2 ^ 31 ->
  read_pod n iter q = Ret (Some (le_encode n v), place (append X (le_encode n v))).
Proof.
  intros Hh [Hi Hst] Hn. rewrite (read_pod_spec _ _ (hd_readable _ _ Hh)) by done. rewrite Hst.
  pose proof (at_piece _ _ _ Hh) as Ha. destruct (next_place _ _ _ Hh) as [Hx _]. rewrite le_encode_length in Ha, Hx. by rewrite Ha, Hx.
Qed.

Lemma int_back v X cs iter :
  is_i32 v -> holding X (le_encode 4 v :: cs) -> stands iter X -> ReadInt iter q = Ret (Some v, place (append X (le_encode 4 v))).
Proof.
  intros Hv Hh Hs. unfold ReadInt. rewrite (pod_back _ _ _ _ _ Hh Hs) by done. unfold as_type. cbn [obind fmap option_fmap option_map].
  rewrite le_value_encode. by rewrite i32_mod.
Qed.

Lemma unsigned_back n v X cs iter :
  0 <= v < 2 ^ (8 * Z.of_nat n) -> Z.of_nat n < 2 ^ 31 -> holding X (le_encode n v :: cs) -> stands iter X ->
  as_type le_value (read_pod n iter q) = Ret (Some v, place (append X (le_encode n v))).
Proof.
  intros Hv Hn Hh Hs. rewrite (pod_back _ _ _ _ _ Hh Hs) by done. unfold as_type. cbn [obind fmap option_fmap option_map].
  by rewrite le_value_encode, Z.mod_small.
Qed.

Lemma length_back n X cs iter :
  Z.of_nat n < 2 ^ 31 -> holding X (le_encode 4 (Z.of_nat n) :: cs) -> stands iter X ->
  ReadLength iter q = Ret (Some (Z.of_nat n), place (append X (le_encode 4 (Z.of_nat n)))).
Proof.
  intros Hn Hh Hs. unfold ReadLength. rewrite (int_back (Z.of_nat n) _ _ _ ltac:(unfold is_i32; lia) Hh Hs). cbn [obind].
  by rewrite (proj2 (Z.leb_le _ _)) by lia.
Qed.

(** The characters after a length. *)
Lemma chars_back (n width : nat) bytes c X cs :
  holding X (c :: cs) -> is_u32 (place X) -> length c = (n * width)%nat -> bytes = Z.of_nat n * Z.of_nat width -> bytes < 2 ^ 31 ->
  read_chars (Z.of_nat n) width bytes (place X) q = Ret (Some c, place (append X c)).
Proof.
  intros Hh Hu Hc -> Hb. rewrite (read_chars_spec _ _ (hd_readable _ _ Hh)) by (done || lia).
  rewrite Nat2Z.id, <- Hc, (at_piece _ _ _ Hh). destruct (next_place _ _ _ Hh) as [Hx _].
  replace (Z.of_nat n * Z.of_nat width) with (Z.of_nat (length c)) by lia. by rewrite Hx.
Qed.

Lemma bytes_back c X cs iter :
  holding X (c :: cs) -> stands iter X -> Z.of_nat (length c) < 2 ^ 31 ->
  ReadBytes (Z.of_nat (length c)) iter q = Ret (Some (place X), place (append X c)) /\ copy_out (place X) (Z.of_nat (length c)) q = Ret c.
Proof.
  intros Hh [Hi Hs] Hc. pose proof (at_piece _ _ _ Hh) as Ha. destruct (next_place _ _ _ Hh) as [Hx _]. unfold at_address in Ha.
  case_bool_decide as Hin; [|done]. injection Ha as Ha. pose proof (holding_room _ _ _ Hh) as Hroom. split.
  - unfold ReadBytes. rewrite Hs, (room_spec _ _ (hd_readable _ _ Hh)).
    + rewrite bool_decide_eq_true_2 by done. cbn [obind negb]. by rewrite Hx.
    + rewrite <- Hs. by apply (start_iter_range _ _ (hd_readable _ _ Hh)).
    + done.
  - unfold copy_out. destruct (Z.eqb_spec (Z.of_nat (length c)) 0) as [E|]; [by destruct c|]. rewrite Nat2Z.id.
    destruct Hin as (_ & H1 & H2). rewrite (readable_load _ _ (hd_readable _ _ Hh)) by done. f_equal. exact Ha.
Qed.

(** Strings: a length and characters. *)
Lemma counted_back {A} (k : Z -> Z -> outcome (option A * Z)) n X c cs iter (v : A) :
  Z.of_nat n < 2 ^ 31 -> holding X (le_encode 4 (Z.of_nat n) :: c :: cs) -> stands iter X ->
  (let Y := append X (le_encode 4 (Z.of_nat n)) in stands (place Y) Y -> k (Z.of_nat n) (place Y) = Ret (Some v, place (append Y c))) ->
  (let! '(o, it) := ReadLength iter q in match o with None => Ret (None, it) | Some len => k len it end) =
  Ret (Some v, place (layout X [le_encode 4 (Z.of_nat n); c])).
Proof.
  intros Hn Hh Hs Hk. rewrite (length_back n _ _ _ Hn Hh Hs). cbn [obind]. apply Hk. by eapply stands_place.
Qed.

Lemma read_back t v X cs iter :
  valid t v -> holding X (chunks t v ++ cs) -> stands iter X ->
  read t iter q = Ret (Some v, place (layout X (chunks t v))).
Proof.
  intros Hv Hh Hs. destruct t; cbn [read chunks valid app] in *;
    try (by eapply int_back); try (by eapply unsigned_back).
  - unfold ReadBool. rewrite (int_back (if v then 1 else 0) _ _ _ ltac:(by destruct v) Hh Hs). cbn [obind]. by destruct v.
  - unfold ReadInt64. rewrite (pod_back _ _ _ _ _ Hh Hs) by done. unfold as_type. cbn [obind fmap option_fmap option_map].
    rewrite le_value_encode. change (2 ^ (8 * Z.of_nat 8)) with (2 ^ 64). by rewrite i64_mod.
  - destruct Hv as [Hv Hl]. eapply counted_back; [done..|]. cbv zeta. intros [Hu _].
    apply (chars_back _ 1 _ _ _ cs); [by apply holding_step|done|lia|lia|lia].
  - destruct Hv as [Hv Hl]. eapply counted_back; [lia|done|done|]. cbv zeta. intros [Hu _]. rewrite (proj2 (Z.ltb_ge _ _)) by (change (INT_MAX / 4) with (2 ^ 29 - 1); lia).
    rewrite (chars_back _ 4 _ (char_bytes 4 v) _ cs);
      [|by apply holding_step|done|by rewrite char_bytes_length|by rewrite u32_small, i32_small by lia|rewrite u32_small, i32_small by lia; lia].
    unfold as_type. cbn [obind fmap option_fmap option_map]. by rewrite Nat2Z.id, chars_bytes.
  - destruct Hv as [Hv Hl]. eapply counted_back; [lia|done|done|]. cbv zeta. intros [Hu _].
    rewrite (chars_back _ 2 _ (char_bytes 2 v) _ cs);
      [|by apply holding_step|done|by rewrite char_bytes_length|by rewrite u32_small, i32_small by lia|rewrite u32_small, i32_small by lia; lia].
    unfold as_type. cbn [obind fmap option_fmap option_map]. by rewrite Nat2Z.id, chars_bytes.
  - destruct Hv as [Hv Hl]. pose (Y := append X (le_encode 4 (Z.of_nat (length v)))).
    destruct (bytes_back v Y cs (place Y) (holding_step _ _ _ Hh) (stands_place _ _ _ Hh) Hl) as [E1 E2].
    unfold ReadData. rewrite (length_back _ _ _ _ Hl Hh Hs). cbn [obind]. fold Y. rewrite E1. cbn [obind fmap option_fmap option_map]. by rewrite E2.
  - destruct Hv as (Hv & Hn & Hl). rewrite <- Hn in *. destruct (bytes_back v X cs iter Hh Hs Hl) as [E1 E2]. rewrite E1. cbn [obind]. by rewrite E2.
Qed.

Definition as_read (f : field) : { t : ty & option (denote t) } := existT (projT1 f) (Some (projT2 f)).

Lemma stands_layout X cs ds : cs <> [] -> holding X (cs ++ ds) -> stands (place (layout X cs)) (layout X cs) /\ holding (layout X cs) ds.
Proof.
  revert X. induction cs as [|c cs IH]; intros X Hne Hh; [done|]. cbn [app] in Hh. destruct cs as [|c' cs].
  - split; [by eapply stands_place|by apply holding_step].
  - apply (IH (append X c)); [done|by apply holding_step].
Qed.

Lemma chunks_cons t v : chunks t v <> [].
Proof. by destruct t. Qed.

Lemma read_all_back fs X iter :
  Forall field_valid fs -> holding X (flat_map field_chunks fs) -> stands iter X ->
  exists iter', read_all (map (@projT1 _ _) fs) iter q = Ret (map as_read fs, iter') /\ is_u32 iter' /\
    start_iter iter' q = place (layout X (flat_map field_chunks fs)).
Proof.
  revert X iter. induction fs as [|[t v] fs IH]; intros X iter Hv Hh Hs; cbn [map read_all flat_map] in *.
  - exists iter. split; [done|]. by destruct Hs.
  - apply Forall_cons in Hv as [Hv Hvs]. cbn [projT1 projT2 field_chunks] in *.
    rewrite (read_back t v X _ _ Hv Hh Hs). cbn [obind].
    destruct (stands_layout X _ _ (chunks_cons t v) Hh) as [Hs' Hh'].
    destruct (IH _ _ Hvs Hh' Hs') as (iter' & E & Hu & Hp). rewrite E. cbn [obind].
    exists iter'. split; [done|]. split; [done|]. by rewrite layout_app.
Qed.

End Back.

(** ** Framing *)

(** [FindNext] finds the end of the pickle that starts the bytes, if they hold all of it. *)
Lemma FindNext_spec hs start l :
  hs mod 4 = 0 -> 4 <= hs <= kPayloadUnit -> 0 < start -> start + Z.of_nat (length l) + kPayloadUnit < 2 ^ 32 -> Forall is_u8 l ->
  FindNext hs start (start + Z.of_nat (length l)) l =
  Ret (if decide (4 <= Z.of_nat (length l) /\ hs + le_value (take 4 l) <= Z.of_nat (length l))
       then start + (hs + le_value (take 4 l)) else NULL).
Proof.
  unfold kPayloadUnit. intros Hm Hhs Hst Hend Hb. unfold FindNext, sizeof_Header. rewrite align4_id, bool_decide_eq_true_2 by (done || lia).
  unfold kPayloadUnit. rewrite (proj2 (Z.leb_le _ _)) by lia. cbn [dcheck obind].
  replace (start + Z.of_nat (length l) - start) with (Z.of_nat (length l)) by lia. rewrite u32_small by lia.
  pose proof (le_value_take4 l Hb) as Hn. destruct (Z.ltb_spec (Z.of_nat (length l)) 4); [by rewrite decide_False by lia|].
  unfold payload_size. rewrite load_ok by (cbn; lia). cbn [mem_ header_ obind]. rewrite Z.sub_diag, drop_0. set (n := le_value (take 4 l)) in *.
  cbv zeta. rewrite (u32_small (start + hs)) by lia. destruct (Z.lt_ge_cases (start + hs + n) (2 ^ 32)) as [Hlt|Hge].
  - rewrite u32_small by lia. rewrite (proj2 (Z.ltb_ge _ _)) by lia. destruct (Z.ltb_spec (start + Z.of_nat (length l)) (start + hs + n)).
    + by rewrite decide_False by lia.
    + rewrite decide_True by lia. f_equal. lia.
  - assert (E : u32 (start + hs + n) = start + hs + n - 2 ^ 32) by (symmetry; apply (Z.mod_unique _ _ 1); lia).
    rewrite E, (proj2 (Z.ltb_lt _ _)) by lia. by rewrite decide_False by lia.
Qed.

Lemma header_mod4 n : (n mod 4 = 0)%nat -> Z.of_nat (4 + n) mod 4 = 0.
Proof.
  intros Hn. assert (E : Z.of_nat ((4 + n) mod 4) = 0) by (by rewrite Nat.Div0.add_mod, Hn). by rewrite Nat2Z.inj_mod in E.
Qed.

(** ** Main theorems *)

(** C17: whatever bytes are received, in a block of memory, a pickle can be made of them and
    any types read from it, from any iterator: no read leaves the bytes or fails an
    assertion (for types other than [bool]), and each gives nothing or a value of the type
    asked for, strings of the length their bytes allow. *)
Theorem received_values_typed : forall data l len ts iter,
  0 < data -> data + Z.of_nat (length l) < 2 ^ 32 -> Forall is_u8 l -> 0 <= len <= Z.of_nat (length l) -> len < 2 ^ 31 ->
  is_u32 iter -> Forall ty_ok ts -> TBool ∉ ts ->
  exists p os iter', new_from_data data l len = Ret p /\ read_all ts iter p = Ret (os, iter') /\
    map (@projT1 _ _) os = ts /\ Forall (fun r => forall v, projT2 r = Some v -> valid (projT1 r) v) os.
Proof.
  intros data l len ts iter Hd He Hb Hl Hl31 Hi Hok Hts.
  destruct (new_from_data_spec data l len Hd He Hb Hl Hl31) as (p & Ep & Hp).
  assert (Hr : received p) by (case_decide; [left; eexists; apply Hp|by right]).
  destruct (read_all_reads ts iter p Hr Hi Hok Hts) as (os & iter' & E & Ets & Hos). by exists p, os, iter'.
Qed.

(** A [bool] read is an assertion on the bytes: it fails for any integer but 0 and 1. *)
Lemma read_bool_asserts p iter z it :
  ReadInt iter p = Ret (Some z, it) -> ReadBool iter p = if (z =? 0) || (z =? 1) then Ret (Some (negb (z =? 0)), it) else Crash.
Proof. intros E. unfold ReadBool. rewrite E. cbn [obind]. by destruct (_ || _). Qed.

Section RoundTrip.
Context {H : Type} `{HL : HeapLaws H}.

(** What a receiver gets of the data of a pickle, at any address. *)
Definition delivers (D : list Z) (fs : list field) : Prop :=
  forall address, 0 < address -> address + Z.of_nat (length D) + 4 <= 2 ^ 32 ->
  exists q iter, new_from_data address D (Z.of_nat (length D)) = Ret q /\
    read_all (map (@projT1 _ _) fs) NULL q = Ret (map as_read fs, iter) /\
    exists it', ReadUInt16 iter q = Ret (None, it').

(** The header has room, the payload follows. *)
Lemma data_delivers extra fs :
  Forall is_u8 (data_of extra (payload_of fs)) -> (length extra mod 4 = 0)%nat ->
  Z.of_nat (length (data_of extra (payload_of fs))) < 2 ^ 31 -> Forall field_valid fs -> delivers (data_of extra (payload_of fs)) fs.
Proof.
  intros Hb Hm Hlen Hv address Ha Hend. set (D := data_of extra (payload_of fs)) in *.
  assert (HDl : length D = (4 + length extra + length (payload_of fs))%nat) by apply data_of_length.
  assert (Hn : le_value (take 4 D) = Z.of_nat (length (payload_of fs))).
  { unfold D, data_of. rewrite take_app_length' by (by rewrite le_encode_length). rewrite le_value_encode. apply Z.mod_small.
    change (8 * Z.of_nat 4) with 32. lia. }
  destruct (new_from_data_spec address D (Z.of_nat (length D))) as (q & Eq & Hq); [done|lia|done|lia|done|]. rewrite Hn in Hq.
  rewrite decide_True in Hq.
  2: { split; [lia|]. rewrite Hn. split; [lia|]. replace (Z.of_nat (length D) - Z.of_nat (length (payload_of fs))) with (Z.of_nat (4 + length extra)) by lia. by apply header_mod4. }
  rewrite Nat2Z.id, take_ge in Hq by done. destruct Hq as (HR & Hha & Hhs).
  assert (Hh : holding q extra [] (flat_map field_chunks fs)) by (split; [done|lia|by rewrite Hha]).
  destruct (read_all_back q extra fs [] NULL Hv Hh (stands_NULL q extra _ Hh)) as (iter & E & Hu & Hst).
  exists q, iter. split; [done|]. split; [done|]. unfold ReadUInt16. rewrite (read_pod_spec _ _ HR) by done. unfold at_address, in_data.
  rewrite bool_decide_eq_false_2; [by eexists|]. rewrite Hst. intros (_ & _ & Hle). unfold place in Hle.
  change (layout [] (flat_map field_chunks fs)) with (payload_of fs) in Hle. fold D in Hle. lia.
Qed.

(** C4: values written into a new pickle, with any header size, one after the other, make,
    unless there is no memory for them, data that depend on the values only (and on the
    caller's part of the header, never on what the memory held); and a process that makes a
    pickle of these data, anywhere in its memory, and reads the same types in the same order
    gets the values back, and then nothing more. *)
Theorem pickle_round_trip : forall n fs (h : H),
  (n mod 4 = 0)%nat -> (4 + n <= 64)%nat -> Forall field_valid fs -> Z.of_nat (4 + n + length (payload_of fs)) < 2 ^ 31 ->
  match realloc NULL kPayloadUnit h with
  | (None, _) => new_Pickle_header (Z.of_nat (4 + n)) h = Crash
  | (Some _, h0) => exists p0 ok p h',
      new_Pickle_header (Z.of_nat (4 + n)) h = Ret (p0, h0) /\ write_all fs p0 h0 = Ret (ok, p, h') /\
      (ok = true -> exists extra, length extra = n /\
         let D := data_of extra (payload_of fs) in
         size p = Ret (Z.of_nat (length D)) /\ load (header_ p) (length D) p = Ret D /\ delivers D fs)
  end.
Proof.
  intros n fs h Hn Hle Hv Hlen. pose proof (new_with_header_spec n h Hn Hle) as Hnew.
  assert (Eh : new_Pickle_header (Z.of_nat (4 + n)) h = new_with_header (Z.of_nat (4 + n)) h).
  { unfold new_Pickle_header, sizeof_Header, kPayloadUnit. rewrite u32_small by lia. rewrite !(proj2 (Z.leb_le _ _)) by lia. cbn [dcheck obind].
    f_equal. symmetry. apply Z.eqb_eq. rewrite align4_id by lia. by apply bool_decide_eq_true_2, header_mod4. }
  rewrite Eh. destruct (realloc NULL kPayloadUnit h) as [[r|] h0]; [|done].
  destruct Hnew as (p0 & extra & E0 & Hw & Hex & _).
  destruct (write_all_appends fs p0 h0 extra [] Hw Hv) as (ok & p & h' & E & Hok).
  { unfold fits. rewrite Hex. change (layout [] (flat_map field_chunks fs)) with (payload_of fs). lia. }
  exists p0, ok, p, h'. split; [done|]. split; [done|]. intros Ho. specialize (Hok Ho). exists extra. split; [done|]. cbv zeta.
  change (layout [] (flat_map field_chunks fs)) with (payload_of fs) in Hok.
  pose proof (writable_readable _ _ _ Hok) as HR. destruct (readable_bounds _ _ HR) as (B1 & B2 & B3 & B4).
  split; [|split].
  - unfold size. rewrite (readable_payload_size _ _ HR). cbn [obind]. rewrite u32_small by lia. f_equal. lia.
  - rewrite (readable_load _ _ HR) by lia. rewrite Z.sub_diag, drop_0, take_ge by done. done.
  - apply data_delivers; [|by destruct (wr_header _ _ _ Hok)|rewrite data_of_length; lia|done].
    rewrite (rd_data _ _ HR). apply Forall_take, Hok.
Qed.

End RoundTrip.

(** ** Copies and trimmed buffers *)

Section Copies.
Context {H : Type} `{HL : HeapLaws H}.

(** A copy has the same data; a pickle over data that cannot be one is not to be copied. *)
Lemma copy_Pickle_spec other R h :
  readable other R -> Z.of_nat (length R) <= 2 ^ 32 - kPayloadUnit ->
  copy_Pickle other h = Crash \/
  exists p h', copy_Pickle other h = Ret (p, h') /\ readable p R /\ header_size_ p = header_size_ other /\
    capacity_ p <> kCapacityReadOnly.
Proof.
  unfold kPayloadUnit. intros HR Hlen. destruct (readable_bounds _ _ HR) as (B1 & B2 & B3 & B4). unfold copy_Pickle.
  rewrite (readable_payload_size _ _ HR). cbn [obind]. replace (header_size_ other + (Z.of_nat (length R) - header_size_ other)) with (Z.of_nat (length R)) by lia.
  cbv zeta. rewrite u32_small by lia. unfold Resize. cbv zeta. destruct (align_unit (Z.of_nat (length R))) as [A1 A2]; [unfold kPayloadUnit; lia|].
  set (m := AlignInt (Z.of_nat (length R)) kPayloadUnit) in *. cbn [capacity_ header_ mem_ header_size_ variable_buffer_offset_].
  change (negb (0 =? kCapacityReadOnly)) with true. cbn [dcheck obind].
  destruct (realloc NULL m h) as [[[a fresh]|] h'] eqn:E; cbn [obind dcheck]; [right|by left].
  destruct (realloc_spec _ _ _ _ _ _ E) as (Hq & Hq2 & Hf & Hfb). cbn [length app]. rewrite drop_0, take_ge by lia.
  rewrite Nat2Z.id, (readable_load _ _ HR) by lia. rewrite Z.sub_diag, drop_0, take_ge by done. cbn [obind].
  set (q := mk a (header_size_ other) m (variable_buffer_offset_ other) fresh).
  assert (Hb : block q) by (split; cbn; [lia|lia|done]).
  assert (Hfr : fresh = take (length R) fresh ++ drop (length R) fresh) by (by rewrite take_drop).
  assert (HlR : length (take (length R) fresh) = length R) by (rewrite length_take; lia).
  match goal with |- context [store ?x R ?y] => change (store x R y) with (store a R q) end.
  rewrite (store_part a R q [] (take (length R) fresh) (drop (length R) fresh) Hb); [|done|done|cbn; lia]. cbn [obind].
  eexists _, h'. split; [done|]. pose proof HR as [Ho1 Ho2 Ho3 Ho4 Ho5]. split; [|split; [done|unfold kCapacityReadOnly, kPayloadUnit in *; cbn; lia]].
  split; cbn [set_mem header_size_ mem_ app q]; try done.
  - apply (set_mem_block q [] (take (length R) fresh)); [done|done|done|]. rewrite Ho4. by apply Forall_take, Ho1.
  - by rewrite take_app_length.
Qed.

Lemma copy_invalid other h : invalid other -> copy_Pickle other h = Crash.
Proof. intros [Hz _]. unfold copy_Pickle, payload_size, load. by rewrite Hz. Qed.

(** [BeginWriteData] writes the length and makes room for the bytes after it. *)
Lemma BeginWriteData_spec n p h extra B :
  writable p extra B -> variable_buffer_offset_ p = 0 -> fits extra (append (append B (le_encode 4 (Z.of_nat n))) (repeat 0 n)) ->
  exists a p' h', BeginWriteData (Z.of_nat n) p h = Ret (a, p', h') /\
    (a = NULL \/ exists d, length d = n /\ writable p' extra (layout B [le_encode 4 (Z.of_nat n); d]) /\
       a = place p' extra (append B (le_encode 4 (Z.of_nat n))) /\ variable_buffer_offset_ p' = place p' extra B - header_ p').
Proof.
  intros Hw Hv Hf. unfold fits in Hf. rewrite append_length, append_padding, append_length, !le_encode_length, repeat_length in Hf.
  change (padding 4) with 0%nat in Hf. unfold BeginWriteData. rewrite Hv. cbn [Z.eqb dcheck obind].
  rewrite (proj2 (Z.ltb_ge _ _)) by lia.
  destruct (append_pod 4 (Z.of_nat n) p h extra B Hw) as (ok & q & h1 & E1 & Hq); [unfold fits; rewrite append_length, le_encode_length; lia|].
  unfold WriteInt. rewrite E1. cbn [obind]. destruct ok; cbn [negb]; [|exists NULL, q, h1; split; [done|by left]].
  specialize (Hq eq_refl). cbn [layout foldl] in Hq. set (Y := append B (le_encode 4 (Z.of_nat n))) in *.
  assert (HY : length Y = (length B + padding (length B) + 4)%nat) by (unfold Y; by rewrite append_length, le_encode_length).
  assert (HpY : padding (length Y) = 0%nat) by (unfold Y; rewrite append_padding, le_encode_length; done).
  destruct (BeginWrite_spec n q h1 extra Y Hq) as (a & q2 & h2 & E2 & Hcase); [rewrite HpY, HY; unfold kPayloadUnit; lia|].
  rewrite E2. cbn [obind]. destruct Hcase as [(-> & -> & _)|(Ha & (rest & Ho) & Hv2)]; [exists NULL, q, h2; split; [done|by left]|].
  pose proof (op_room _ _ _ _ _ Ho) as Hroom.
  assert (Hr : rest = take n rest ++ drop n rest) by (by rewrite take_drop). rewrite Hr in Ho.
  assert (Hd : length (take n rest) = n) by (rewrite length_take; lia).
  pose proof (op_block _ _ _ _ _ Ho) as [S1 S2 _]. pose proof (op_mem _ _ _ _ _ Ho) as Hmem.
  apply (f_equal (@length Z)) in Hmem. rewrite !length_app, le_encode_length, repeat_length, Hd, HpY in Hmem.
  rewrite (proj2 (Z.eqb_neq a NULL)) by (unfold NULL, dest_of in *; lia). cbv zeta.
  assert (Eo : u32 (a - header_ q2 - 4) = place q2 extra B - header_ q2).
  { rewrite Ha. unfold dest_of, place. rewrite u32_small; rewrite HpY, HY; lia. }
  rewrite Eo. set (q3 := set_variable_buffer_offset (place q2 extra B - header_ q2) q2).
  assert (Ho3 : opened q3 extra Y (length (take n rest)) (take n rest ++ drop n rest)) by (rewrite Hd; by destruct Ho as [[? ? ?] ? ? ? ?]; split).
  destruct (EndWrite_spec q3 extra Y _ _ Ho3) as (p' & E3 & Hw3 & Hh3 & Hv3). rewrite Hd in E3.
  change (dest_of q3 extra Y) with (dest_of q2 extra Y) in E3. rewrite <- Ha in E3. rewrite E3. cbn [obind].
  exists a, p', h2. split; [done|]. right. exists (take n rest). split; [done|]. split; [done|].
  rewrite Hv3. unfold place. rewrite Hh3. split; [rewrite Ha; unfold dest_of; cbn [header_ q3 set_variable_buffer_offset]; lia|].
  cbn [header_ variable_buffer_offset_ q3 set_variable_buffer_offset]. unfold place. lia.
Qed.

(** The caller's bytes, and the buffer trimmed: what [WriteData] of the kept bytes gives. *)
Lemma TrimWriteData_spec m p extra B n d :
  writable p extra (layout B [le_encode 4 (Z.of_nat n); d]) -> length d = n -> (m <= n)%nat -> Z.of_nat n < 2 ^ 31 ->
  variable_buffer_offset_ p = place p extra B - header_ p ->
  exists p', TrimWriteData (Z.of_nat m) p = Ret p' /\ readable p' (data_of extra (layout B [le_encode 4 (Z.of_nat m); take m d])).
Proof.
  intros Hw Hd Hm Hn Hv. pose proof (writable_readable _ _ _ Hw) as HR. destruct (readable_bounds _ _ HR) as (B1 & B2 & B3 & B4).
  pose proof Hw as [Hb [Hh Hex] Hc [rest Hmem]]. cbn [layout foldl] in *. rewrite data_of_length in *.
  set (Y := append B (le_encode 4 (Z.of_nat n))) in *.
  assert (HY : length Y = (length B + padding (length B) + 4)%nat) by (unfold Y; by rewrite append_length, le_encode_length).
  assert (HpY : padding (length Y) = 0%nat) by (unfold Y; rewrite append_padding, le_encode_length; done).
  assert (Ed : append Y d = B ++ repeat 0 (padding (length B)) ++ le_encode 4 (Z.of_nat n) ++ d).
  { unfold append at 1. rewrite HpY. cbn [repeat app]. unfold Y, append. by rewrite <- !app_assoc. }
  assert (Hap : length (append Y d) = (length B + padding (length B) + 4 + n)%nat) by (rewrite append_length, HpY; lia).
  rewrite Hap in *. set (size := Z.of_nat (length B + padding (length B) + 4 + n)) in *.
  pose (pre := extra ++ B ++ repeat 0 (padding (length B))).
  assert (Hm1 : mem_ p = le_encode 4 size ++ pre ++ le_encode 4 (Z.of_nat n) ++ d ++ repeat 0 (padding (length B + padding (length B) + 4 + n)) ++ rest).
  { rewrite Hmem, Ed. unfold pre. by rewrite <- !app_assoc. }
  set (tail := d ++ repeat 0 (padding (length B + padding (length B) + 4 + n)) ++ rest) in *.
  assert (Hpl : length pre = (length extra + length B + padding (length B))%nat) by (unfold pre; rewrite !length_app, repeat_length; lia).
  assert (Hml : length (mem_ p) = (4 + length pre + 4 + length tail)%nat) by (rewrite Hm1, !length_app, !le_encode_length; lia).
  pose proof Hb as [S1 S2 _]. unfold TrimWriteData. rewrite Hv. unfold place at 1.
  rewrite (proj2 (Z.eqb_neq _ _)) by lia. cbn [negb dcheck obind]. cbv zeta.
  replace (header_ p + (place p extra B - header_ p)) with (place p extra B) by lia.
  assert (Hpl2 : place p extra B = header_ p + Z.of_nat (length (le_encode 4 size ++ pre))) by (unfold place; rewrite length_app, le_encode_length, Hpl; lia).
  rewrite u32_small by (rewrite Hpl2, length_app, le_encode_length; lia).
  rewrite load_ok by (rewrite Hpl2, length_app, le_encode_length; lia). cbn [obind].
  replace (Z.to_nat (place p extra B - header_ p)) with (length (le_encode 4 size ++ pre)) by lia.
  rewrite Hm1, (app_assoc (le_encode 4 size)), drop_app_length, take_app_length' by (by rewrite le_encode_length).
  rewrite le_value_encode, i32_mod by (unfold is_i32; lia). rewrite !(proj2 (Z.leb_le _ _)) by lia. cbn [andb dcheck obind].
  rewrite (readable_payload_size _ _ HR). cbn [obind]. rewrite data_of_length, Hap, Hh.
  replace (Z.of_nat (4 + length extra + (length B + padding (length B) + 4 + n)) - Z.of_nat (4 + length extra)) with size by lia.
  rewrite u32_small by lia. set (size' := size - (Z.of_nat n - Z.of_nat m)).
  unfold set_payload_size. rewrite (store_part _ _ p [] (le_encode 4 size) (pre ++ le_encode 4 (Z.of_nat n) ++ tail) Hb Hm1);
    [|by rewrite !le_encode_length|cbn; lia]. cbn [obind app].
  set (p1 := set_mem _ p).
  assert (Hb1 : block p1) by (by apply (set_mem_block p [] (le_encode 4 size)); [| |rewrite !le_encode_length|apply le_encode_u8]).
  assert (Hm2 : mem_ p1 = (le_encode 4 size' ++ pre) ++ le_encode 4 (Z.of_nat n) ++ tail) by (unfold p1; cbn [set_mem mem_]; by rewrite <- app_assoc).
  rewrite (store_part _ _ p1 _ _ _ Hb1 Hm2); [|by rewrite !le_encode_length|rewrite Hpl2, !length_app, !le_encode_length; done].
  eexists. split; [done|].
  assert (EA : append (append B (le_encode 4 (Z.of_nat m))) (take m d) = B ++ repeat 0 (padding (length B)) ++ le_encode 4 (Z.of_nat m) ++ take m d).
  { unfold append at 1. rewrite append_padding, le_encode_length. cbn [padding repeat app]. unfold append. by rewrite <- !app_assoc. }
  assert (HE : Z.of_nat (length (append (append B (le_encode 4 (Z.of_nat m))) (take m d))) = size').
  { rewrite EA, !length_app, repeat_length, le_encode_length, length_take. lia. }
  assert (HD : data_of extra (append (append B (le_encode 4 (Z.of_nat m))) (take m d)) = ((le_encode 4 size' ++ pre) ++ le_encode 4 (Z.of_nat m)) ++ take m d).
  { unfold data_of. rewrite HE, EA. unfold pre. by rewrite <- !app_assoc. }
  split; cbn [set_mem header_size_ mem_].
  - by apply (set_mem_block p1 (le_encode 4 size' ++ pre) (le_encode 4 (Z.of_nat n))); [| |rewrite !le_encode_length|apply le_encode_u8].
  - rewrite data_of_length. change (header_size_ p1) with (header_size_ p). lia.
  - exact (rd_aligned _ _ HR).
  - rewrite HD at 1. rewrite HD at 1. rewrite length_app. rewrite (app_assoc (le_encode 4 size' ++ pre)). rewrite take_app_add.
    f_equal. unfold tail. rewrite length_take, take_app_le by lia. f_equal. lia.
  - change (header_size_ p1) with (header_size_ p). rewrite data_of_length. unfold data_of. rewrite take_app_length' by (by rewrite le_encode_length).
    rewrite le_value_encode, HE, Z.mod_small; [lia|]. change (8 * Z.of_nat 4) with 32. lia.
Qed.

End Copies.

(** ** Evaluations

    A heap that gives one block after the other, full of the byte 205. *)
#[global] Instance bump_heap : Heap Z := {|
  realloc := fun _ size h =>
    if (0 <? h) && (0 <=? size) && (h + size <? 2 ^ 32) then (Some (h, repeat 205 (Z.to_nat size)), h + size) else (None, h)
|}.

#[global] Program Instance bump_heap_laws : HeapLaws Z.
Next Obligation.
  cbn. intros old size h p fresh h' E. destruct (_ && _) eqn:Ec; [|done]. injection E as <- <- <-. zb2p.
  split; [done|]. split; [done|]. split; [by rewrite repeat_length|]. apply Forall_forall. intros x Hx%list_elem_of_In%repeat_spec. by rewrite Hx.
Qed.

Definition demo_fields : list field :=
  [existT TInt (-2); existT TString [97; 98; 99]; existT TBool true; existT TUInt16 65535; existT TString16 [945; 946]].

Definition demo_heap : Z := 4096.

Example round_trip_evaluated :
  (let! '(p, h) := new_Pickle demo_heap in
   let! '(o, h) := write_all demo_fields p h in
   let '(ok, p) := o in
   let! n := size p in
   let! D := load (header_ p) (Z.to_nat n) p in
   let! q := new_from_data 8192 D n in
   let! '(os, _) := read_all (map (@projT1 _ _) demo_fields) NULL q in
   Ret (ok, n, D, os))
  = Ret (true, 32, [28; 0; 0; 0; 254; 255; 255; 255; 3; 0; 0; 0; 97; 98; 99; 0; 1; 0; 0; 0; 255; 255; 0; 0; 2; 0; 0; 0; 177; 3; 178; 3],
     map as_read demo_fields).
Proof. vm_compute. reflexivity. Qed.

(** A copy is not zero-padded: what is written after it follows a byte of fresh memory. *)
Example copy_leaks_padding :
  (let! '(p, h) := new_Pickle demo_heap in
   let! '(o, h) := WriteString [97; 98; 99] p h in
   let! '(c, h) := copy_Pickle (snd o) h in
   let! '(o, h) := WriteInt 1 c h in
   load (header_ (snd o) + 8) 8 (snd o))
  = Ret [97; 98; 99; 205; 1; 0; 0; 0].
Proof. vm_compute. reflexivity. Qed.

(** A trimmed buffer keeps, before what is written next, a byte that was trimmed off; here one
    the caller has not set. *)
Example trim_leaves_bytes :
  (let! '(p, h) := new_Pickle demo_heap in
   let! '(o, h) := BeginWriteData 4 p h in
   let! p := store (fst o) [97; 98; 99] (snd o) in
   let! p := TrimWriteData 3 p in
   let! '(o, h) := WriteInt 1 p h in
   load (header_ (snd o) + 8) 8 (snd o))
  = Ret [97; 98; 99; 205; 1; 0; 0; 0].
Proof. vm_compute. reflexivity. Qed.

Lemma demo_fields_valid : Forall field_valid demo_fields.
Proof.
  unfold demo_fields, field_valid. repeat constructor; cbn; unfold is_i32, is_u8, is_u16; lia.
Qed.

Lemma received_values_typed_witness :
  exists p os iter', new_from_data 100 [4; 0; 0; 0; 255; 255; 255; 127] 8 = Ret p /\ read_all [TString; TInt] NULL p = Ret (os, iter') /\
    map (@projT1 _ _) os = [TString; TInt] /\ Forall (fun r => forall v, projT2 r = Some v -> valid (projT1 r) v) os.
Proof.
  apply (received_values_typed 100 [4; 0; 0; 0; 255; 255; 255; 127] 8 [TString; TInt] NULL);
    [lia|cbn; lia|apply bytes_u8; reflexivity|cbn; lia|lia|split; [reflexivity|reflexivity]|repeat constructor|].
  intros Hin. apply elem_of_cons in Hin as [Hin|Hin]; [discriminate|]. apply elem_of_cons in Hin as [Hin|Hin]; [discriminate|].
  by apply not_elem_of_nil in Hin.
Defined.

Lemma pickle_round_trip_witness :
  exists p0 ok p h',
    new_Pickle_header 8 demo_heap = Ret (p0, 4160) /\ write_all demo_fields p0 4160 = Ret (ok, p, h') /\
    (ok = true -> exists extra, length extra = 4%nat /\
       let D := data_of extra (payload_of demo_fields) in
       size p = Ret (Z.of_nat (length D)) /\ load (header_ p) (length D) p = Ret D /\ delivers D demo_fields).
Proof.
  assert (Hlen : Z.of_nat (4 + 4 + length (payload_of demo_fields)) < 2 ^ 31) by (vm_compute; reflexivity).
  pose proof (pickle_round_trip 4 demo_fields demo_heap eq_refl ltac:(lia) demo_fields_valid Hlen) as W.
  change (realloc NULL kPayloadUnit demo_heap) with (Some (4096, repeat 205 64), 4160) in W. exact W.
Defined.

End PickleTypes.
