(* ===== verification/IpcMessage.v ===== *)
(** Messages between processes, [ipc/ipc_message.h], [ipc/ipc_message.cc] and
    [ipc/file_descriptor_set_posix.cc]: a pickle with a larger header, and the file
    descriptors that go with it. *)
From S2P Require Import Prelude.
From S2P Require Import GpuMappedMemory.
From S2P Require Import BasePickle.
From S2P Require Import BasePickleTypes.

(** ** Sets of descriptors *)
Module FileDescriptorSet.

Definition kMaxDescriptorsPerMessage : Z := 5.

(** [base::FileDescriptor]. *)
Record FileDescriptor := mkFD { fd : Z; auto_close : bool }.

Record t := mk { descriptors_ : list FileDescriptor; consumed_descriptor_highwater_ : Z }.

Definition init : t := mk [] 0.

Definition size (s : t) : Z := Z.of_nat (length (descriptors_ s)).

Definition empty (s : t) : bool := bool_decide (descriptors_ s = []).

(** [Add] and [AddAndAutoClose]: [None] when the set is full. *)
Definition add (n : Z) (close : bool) (s : t) : option t :=
  if size s =? kMaxDescriptorsPerMessage then None
  else Some (mk (descriptors_ s ++ [mkFD n close]) (consumed_descriptor_highwater_ s)).

Definition Add (n : Z) : t -> option t := add n false.
Definition AddAndAutoClose (n : Z) : t -> option t := add n true.

(** The index is an [unsigned]. *)
Definition GetDescriptorAt (index : Z) (s : t) : Z * t :=
  match descriptors_ s !! Z.to_nat index with
  | None => (-1, s)
  | Some d =>
      let high := if (index =? 0) && (consumed_descriptor_highwater_ s =? size s) then 0 else consumed_descriptor_highwater_ s in
      let s := mk (descriptors_ s) high in
      if negb (index =? high) then (-1, s) else (fd d, mk (descriptors_ s) (index + 1))
  end.

Definition GetDescriptors (s : t) : list Z := map fd (descriptors_ s).

Definition ContainsDirectoryDescriptor (is_directory : Z -> bool) (s : t) : bool :=
  existsb (fun d => is_directory (fd d)) (descriptors_ s).

(** The descriptors that are closed, and the empty set. *)
Definition CommitAll (s : t) : list Z * t := (map fd (filter (fun d => auto_close d = true) (descriptors_ s)), init).

Definition SetDescriptors (buffer : list Z) (s : t) : outcome t :=
  check! Z.of_nat (length buffer) <=? kMaxDescriptorsPerMessage;
  check! size s =? 0;
  check! consumed_descriptor_highwater_ s =? 0;
  Ret (mk (map (fun n => mkFD n true) buffer) 0).

(** What the destructor closes. *)
Definition destroy (s : t) : list Z :=
  if consumed_descriptor_highwater_ s =? size s then []
  else map fd (filter (fun d => auto_close d = true) (drop (Z.to_nat (consumed_descriptor_highwater_ s)) (descriptors_ s))).

(** ** Walking a set

    The descriptors of a set are got in order, and then again. *)
Fixpoint walk (n : nat) (index : Z) (s : t) : list Z * t :=
  match n with
  | O => ([], s)
  | S n => let '(d, s) := GetDescriptorAt index s in let '(ds, s) := walk n (index + 1) s in (d :: ds, s)
  end.

Lemma walk_from ds i :
  (i <= length ds)%nat ->
  walk (length ds - i) (Z.of_nat i) (mk ds (Z.of_nat i)) = (map fd (drop i ds), mk ds (Z.of_nat (length ds))).
Proof.
  intros Hi. remember (length ds - i)%nat as n eqn:En. revert i Hi En. induction n as [|n IH]; intros i Hi En; cbn [walk].
  - assert (i = length ds) as -> by lia. by rewrite drop_all.
  - destruct (lookup_lt_is_Some_2 ds i) as [d Hd]; [lia|]. unfold GetDescriptorAt. cbn [descriptors_ consumed_descriptor_highwater_ size].
    rewrite Nat2Z.id, Hd. unfold size. cbn [descriptors_].
    assert (Eh : (if (Z.of_nat i =? 0) && (Z.of_nat i =? Z.of_nat (length ds)) then 0 else Z.of_nat i) = Z.of_nat i).
    { destruct (Z.eqb_spec (Z.of_nat i) (Z.of_nat (length ds))); [lia|]. by rewrite andb_false_r. }
    rewrite Eh, Z.eqb_refl. cbn [negb]. replace (Z.of_nat i + 1) with (Z.of_nat (S i)) by lia.
    rewrite (IH (S i)) by lia. by rewrite (drop_S ds d i Hd).
Qed.

Lemma GetDescriptorAt_first x s :
  descriptors_ s = [x] -> consumed_descriptor_highwater_ s = 0 -> GetDescriptorAt 0 s = (fd x, mk [x] 1).
Proof. destruct s as [ds high]. cbn. by intros -> ->. Qed.

(** Every descriptor of a received set can be taken, once per walk, however often; after a
    walk the destructor closes none, before it all. *)
Lemma walk_received buffer s :
  SetDescriptors buffer init = Ret s ->
  destroy s = buffer /\
  exists s', walk (length buffer) 0 s = (buffer, s') /\ destroy s' = [] /\ walk (length buffer) 0 s' = (buffer, s').
Proof.
  unfold SetDescriptors. intros E. inv_outcome. set (ds := map (fun n => mkFD n true) buffer).
  assert (Eb : map fd ds = buffer) by (unfold ds; rewrite map_map; apply map_id).
  assert (El : length ds = length buffer) by apply length_map.
  assert (Ef : filter (fun d => auto_close d = true) ds = ds).
  { unfold ds. clear. induction buffer as [|n l IH]; [done|]. cbn [map]. rewrite filter_cons_True by done. by rewrite IH. }
  split.
  - unfold destroy. cbn [consumed_descriptor_highwater_ descriptors_ size]. unfold size. cbn [descriptors_]. rewrite El.
    destruct buffer as [|n l]; [done|]. destruct (Z.eqb_spec 0 (Z.of_nat (length (n :: l)))) as [E0|E0]; [cbn in E0; lia|].
    cbn [Z.to_nat]. rewrite drop_0. by rewrite Ef.
  - exists (mk ds (Z.of_nat (length ds))). rewrite <- El.
    pose proof (walk_from ds 0 ltac:(lia)) as Hw. rewrite Nat.sub_0_r, drop_0, Eb in Hw. change (Z.of_nat 0) with 0 in Hw.
    split; [done|]. split; [unfold destroy, size; cbn; by rewrite Z.eqb_refl|].
    destruct ds as [|d ds'] eqn:Ed; [cbn in *; by rewrite <- Eb|]. rewrite <- Hw.
    assert (E1 : GetDescriptorAt 0 (mk (d :: ds') (Z.of_nat (length (d :: ds')))) = GetDescriptorAt 0 (mk (d :: ds') 0)).
    { unfold GetDescriptorAt, size. cbn [descriptors_ consumed_descriptor_highwater_]. rewrite !Z.eqb_refl. cbn [andb]. by case_match. }
    assert (Ew : forall n x y, GetDescriptorAt 0 x = GetDescriptorAt 0 y -> walk (S n) 0 x = walk (S n) 0 y) by (intros n x y E; cbn [walk]; by rewrite E).
    by apply (Ew (length ds')).
Qed.

End FileDescriptorSet.

(** ** Messages *)
Module Message.
Import Pickle.

(** The header: payload size, routing, type, flags, and two 16-bit words. *)
Definition sizeof_Header : Z := 20.
Definition routing_offset : Z := 4.
Definition type_offset : Z := 8.
Definition flags_offset : Z := 12.
Definition num_fds_offset : Z := 16.
Definition pad_offset : Z := 18.

Definition PRIORITY_MASK : Z := 0x0003.
Definition SYNC_BIT : Z := 0x0004.
Definition REPLY_BIT : Z := 0x0008.
Definition REPLY_ERROR_BIT : Z := 0x0010.
Definition UNBLOCK_BIT : Z := 0x0020.
Definition PUMPING_MSGS_BIT : Z := 0x0040.

Definition MSG_ROUTING_NONE : Z := -2.
Definition HELLO_MESSAGE_TYPE : Z := 0xffff.

(** The descriptors of a message, allocated when first asked for. *)
Record t := mk { pickle : Pickle.t; file_descriptor_set_ : option FileDescriptorSet.t }.

Definition file_descriptor_set (m : t) : FileDescriptorSet.t := default FileDescriptorSet.init (file_descriptor_set_ m).

Definition set_pickle (p : Pickle.t) (m : t) : t := mk p (file_descriptor_set_ m).
Definition set_descriptors (s : FileDescriptorSet.t) (m : t) : t := mk (pickle m) (Some s).

(** [header()->...]: a field of the header, and setting it. *)
Definition header_field (offset : Z) (n : nat) (p : Pickle.t) : outcome Z :=
  check! header_size_ p =? sizeof_Header;
  let! l := load (header_ p + offset) n p in Ret (le_value l).

Definition set_header_field (offset : Z) (n : nat) (v : Z) (p : Pickle.t) : outcome Pickle.t :=
  check! header_size_ p =? sizeof_Header; store (header_ p + offset) (le_encode n v) p.

Definition routing_id (p : Pickle.t) : outcome Z := let! v := header_field routing_offset 4 p in Ret (i32 v).
Definition type (p : Pickle.t) : outcome Z := header_field type_offset 4 p.
Definition flags (p : Pickle.t) : outcome Z := header_field flags_offset 4 p.
Definition num_fds (p : Pickle.t) : outcome Z := header_field num_fds_offset 2 p.
Definition set_num_fds (n : Z) (p : Pickle.t) : outcome Pickle.t := set_header_field num_fds_offset 2 n p.

Definition set_routing_id (new_id : Z) (p : Pickle.t) : outcome Pickle.t := set_header_field routing_offset 4 new_id p.

Definition priority (p : Pickle.t) : outcome Z := let! f := flags p in Ret (Z.land f PRIORITY_MASK).

Definition has_bit (bit : Z) (p : Pickle.t) : outcome bool := let! f := flags p in Ret (negb (Z.land f bit =? 0)).
Definition set_bit (bit : Z) (p : Pickle.t) : outcome Pickle.t :=
  let! f := flags p in set_header_field flags_offset 4 (Z.lor f bit) p.

Definition is_sync := has_bit SYNC_BIT.
Definition is_reply := has_bit REPLY_BIT.
Definition is_reply_error := has_bit REPLY_ERROR_BIT.
Definition should_unblock := has_bit UNBLOCK_BIT.
Definition is_caller_pumping_messages := has_bit PUMPING_MSGS_BIT.
Definition set_reply := set_bit REPLY_BIT.
Definition set_reply_error := set_bit REPLY_ERROR_BIT.

Definition set_unblock (unblock : bool) (p : Pickle.t) : outcome Pickle.t :=
  let! f := flags p in
  set_header_field flags_offset 4 (if unblock then Z.lor f UNBLOCK_BIT else Z.land f (u32 (Z.lnot UNBLOCK_BIT))) p.

Definition IsHelloMessage (p : Pickle.t) : outcome bool :=
  let! r := routing_id p in
  let! t := type p in
  Ret ((r =? MSG_ROUTING_NONE) && (t =? HELLO_MESSAGE_TYPE)).

(** [Message(const char* data, int data_len)]. *)
Definition new_from_data (data : Z) (l : list Z) (data_len : Z) : outcome t :=
  let! p := Pickle.new_from_data data l data_len in Ret (mk p None).

(** [Message::FindNext]. *)
Definition FindNext (start stop : Z) (l : list Z) : outcome Z := Pickle.FindNext sizeof_Header start stop l.

(** The descriptor with its index; on a received message it is taken from the set. *)
Definition ReadFileDescriptor (iter : Z) (m : t) : outcome (option Z * Z * t) :=
  let! '(o, iter) := ReadInt iter (pickle m) in
  match o, file_descriptor_set_ m with
  | Some index, Some s =>
      let '(d, s) := FileDescriptorSet.GetDescriptorAt (u32 index) s in
      Ret (if 0 <=? d then Some d else None, iter, set_descriptors s m)
  | _, _ => Ret (None, iter, m)
  end.

Section Building.
Context {H : Type} `{!Heap H}.

(** [Message(int32 routing_id, uint32 type, PriorityValue priority)]. *)
Definition new_Message (routing_id type priority : Z) (h : H) : outcome (t * H) :=
  let! '(p, h) := new_Pickle_header sizeof_Header h in
  let! p := set_header_field routing_offset 4 routing_id p in
  let! p := set_header_field type_offset 4 type p in
  let! p := set_header_field flags_offset 4 priority p in
  let! p := set_header_field num_fds_offset 2 0 p in
  let! p := set_header_field pad_offset 2 0 p in
  Ret (mk p None, h).

Definition WriteFileDescriptor (d : FileDescriptorSet.FileDescriptor) (m : t) (h : H) : outcome (bool * t * H) :=
  let! '(o, h) := WriteInt (FileDescriptorSet.size (file_descriptor_set m)) (pickle m) h in
  let '(_, p) := o in
  let s := file_descriptor_set m in
  match FileDescriptorSet.add (FileDescriptorSet.fd d) (FileDescriptorSet.auto_close d) s with
  | Some s => Ret (true, mk p (Some s), h)
  | None => Ret (false, mk p (Some s), h)
  end.

End Building.

End Message.
