(* ===== verification/IpcChannel.v ===== *)
(** A channel between two processes, [ipc/ipc_channel_posix.cc]: the cutting of the bytes of
    a socket into messages, the passing of file descriptors beside them, and the queue of
    messages to write.  The configuration is the one with a socket of its own for
    descriptors ([IPC_USES_READWRITE]).  What the kernel answers to each call is given as a
    list; an empty list stands for no data and for a full socket. *)
From S2P Require Import Prelude.
From S2P Require Import GpuMappedMemory.
From S2P Require Import BasePickle.
From S2P Require Import BasePickleTypes.
From S2P Require Import IpcMessage.

Module Channel.
Import Pickle.

Definition kMaximumMessageSize : Z := 128 * 1024 * 1024.
Definition kReadBufferSize : Z := 4 * 1024.

(** ** Data *)

(** [ChannelImpl]; a descriptor that is not open is -1. *)
Record t := mk {
  server : bool;
  is_blocked_on_write_ : bool;
  waiting_connect_ : bool;
  message_send_bytes_written_ : Z;
  pipe_ : Z;
  fd_pipe_ : Z;
  output_queue_ : list Message.t;
  input_overflow_buf_ : list Z;
  input_overflow_fds_ : list Z
}.

Definition set_input (buf fds : list Z) (s : t) : t :=
  mk (server s) (is_blocked_on_write_ s) (waiting_connect_ s) (message_send_bytes_written_ s) (pipe_ s) (fd_pipe_ s)
    (output_queue_ s) buf fds.

Definition set_fd_pipe (n : Z) (s : t) : t :=
  mk (server s) (is_blocked_on_write_ s) (waiting_connect_ s) (message_send_bytes_written_ s) (pipe_ s) n
    (output_queue_ s) (input_overflow_buf_ s) (input_overflow_fds_ s).

Definition set_output (blocked : bool) (written : Z) (queue : list Message.t) (s : t) : t :=
  mk (server s) blocked (waiting_connect_ s) written (pipe_ s) (fd_pipe_ s) queue (input_overflow_buf_ s) (input_overflow_fds_ s).

Definition set_connection (waiting : bool) (pipe : Z) (s : t) : t :=
  mk (server s) (is_blocked_on_write_ s) waiting (message_send_bytes_written_ s) pipe (fd_pipe_ s) (output_queue_ s)
    (input_overflow_buf_ s) (input_overflow_fds_ s).

(** What [recvmsg] or [read] gives: bytes, with descriptors and whether some were cut off. *)
Inductive read_result := Bytes (l : list Z) (control : list Z) (truncated : bool) | NoData | Closed | ReadError.

(** A byte of the socket for descriptors, with the descriptors it carries. *)
Record control_message := mkControl { wire_fds : list Z; ctrunc : bool }.

(** What a channel does: calls of the listener, with the message and its descriptors, and
    descriptors closed. *)
Inductive event :=
  | OnChannelConnected (pid : Z) (data fds : list Z)
  | OnMessageReceived (data fds : list Z)
  | OnChannelError
  | CloseFds (fds : list Z).

(** ** Reading *)

(** Descriptors at hand: [fds] from [fds_i] on, those saved, and the socket's. *)
Record descriptors := mkDescriptors {
  d_fd_pipe : Z;
  d_saved : list Z;
  d_fds : list Z;
  d_socket : list control_message
}.

(** One [recvmsg] on the socket for descriptors; [None] when some are lost. *)
Definition receive_fds (d : descriptors) : option descriptors * list event :=
  if d_fd_pipe d <? 0 then (Some d, [])
  else
    match d_socket d with
    | [] => (Some d, [])
    | c :: socket =>
        if bool_decide (wire_fds c = []) then (Some (mkDescriptors (d_fd_pipe d) (d_saved d) (d_fds d) socket), [])
        else if ctrunc c then (None, [CloseFds (wire_fds c)])
        else
          match d_saved d with
          | [] => (Some (mkDescriptors (d_fd_pipe d) [] (wire_fds c) socket), [])
          | _ =>
              let saved := d_saved d ++ wire_fds c in
              (Some (mkDescriptors (d_fd_pipe d) saved saved socket), [])
          end
    end.

(** The descriptors of a message: its set, or the failure of the channel.  A failure leaves
    the saved descriptors that [Close] will close. *)
Definition take_fds (header_fds : Z) (d : descriptors) :
    outcome ((FileDescriptorSet.t * descriptors) + (list Z * list control_message * list event)) :=
  if header_fds =? 0 then Ret (inl (FileDescriptorSet.init, d))
  else
    let '(o, evs) := if Z.of_nat (length (d_fds d)) <? header_fds then receive_fds d else (Some d, []) in
    match o with
    | None => Ret (inr (d_saved d, tail (d_socket d), evs))
    | Some d =>
        if (Z.of_nat (length (d_fds d)) <? header_fds) || (FileDescriptorSet.kMaxDescriptorsPerMessage <? header_fds)
        then Ret (inr ([], d_socket d, evs ++ [CloseFds (d_fds d)]))
        else
          let! s := FileDescriptorSet.SetDescriptors (take (Z.to_nat header_fds) (d_fds d)) FileDescriptorSet.init in
          Ret (inl (s, mkDescriptors (d_fd_pipe d) (d_saved d) (drop (Z.to_nat header_fds) (d_fds d)) (d_socket d)))
    end.

(** The hello message: the process of the peer and, to a server, the socket for
    descriptors. *)
Definition on_hello (is_server : bool) (m : Message.t) (d : descriptors) : outcome (Z * descriptors) :=
  let! '(o, iter) := ReadInt NULL (Message.pickle m) in
  let! pid := must o in
  if is_server then
    check! FileDescriptorSet.size (Message.file_descriptor_set m) =? 1;
    let! '(o, m) := Message.ReadFileDescriptor iter m in
    let! n := must (fst o) in
    Ret (pid, mkDescriptors n (d_saved d) (d_fds d) (d_socket d))
  else Ret (pid, d).

(** How the loop over the messages ends: with the bytes of the last, partial one, or with
    the failure of the channel. *)
Inductive loop_end :=
  | Rest (l : list Z) (d : descriptors)
  | Failed (fd_pipe : Z) (saved : list Z) (socket : list control_message).

Fixpoint message_loop (fuel : nat) (is_server : bool) (p : Z) (l : list Z) (d : descriptors) : outcome (loop_end * list event) :=
  match l with
  | [] => Ret (Rest [] d, [])
  | _ =>
      match fuel with
      | O => Timeout
      | S fuel =>
          let! message_tail := Message.FindNext p (p + Z.of_nat (length l)) l in
          if message_tail =? NULL then Ret (Rest l d, [])
          else
            let len := i32 (message_tail - p) in
            let! m := Message.new_from_data p l len in
            let! header_fds := Message.num_fds (Message.pickle m) in
            let! data := load p (Z.to_nat len) (Message.pickle m) in
            let! r := take_fds header_fds d in
            match r with
            | inr (saved, socket, evs) => Ret (Failed (d_fd_pipe d) saved socket, evs)
            | inl (s, d) =>
                let m := if header_fds =? 0 then m else Message.set_descriptors s m in
                let! hello := Message.IsHelloMessage (Message.pickle m) in
                let fds := FileDescriptorSet.GetDescriptors s in
                let! '(e, d) :=
                  if hello then let! '(pid, d) := on_hello is_server m d in Ret (OnChannelConnected pid data fds, d)
                  else Ret (OnMessageReceived data fds, d) in
                let d := mkDescriptors (d_fd_pipe d) (d_fds d) (d_fds d) (d_socket d) in
                let! '(r, evs) := message_loop fuel is_server message_tail (drop (Z.to_nat len) l) d in
                Ret (r, e :: evs)
            end
      end
  end.

Section Reading.
(** Where the bytes being cut lie in memory. *)
Context (address : list Z -> Z).

(** One turn of the loop of [ProcessIncomingMessages]: [None] is to read on. *)
Definition process_read (bytes control : list Z) (truncated : bool) (s : t) (socket : list control_message) :
    outcome (option bool * t * list control_message * list event) :=
  check! negb (bool_decide (bytes = []));
  let control := if 0 <=? fd_pipe_ s then [] else control in
  if negb (bool_decide (control = [])) && truncated then Ret (Some false, s, socket, [CloseFds control])
  else if negb (bool_decide (input_overflow_buf_ s = [])) &&
          (kMaximumMessageSize - Z.of_nat (length bytes) <? Z.of_nat (length (input_overflow_buf_ s)))
  then Ret (Some false, set_input [] (input_overflow_fds_ s) s, socket, [])
  else
    let l := input_overflow_buf_ s ++ bytes in
    let saved_buf := if bool_decide (input_overflow_buf_ s = []) then [] else l in
    let '(saved, fds) :=
      if bool_decide (input_overflow_fds_ s = []) then ([], control)
      else (input_overflow_fds_ s ++ control, input_overflow_fds_ s ++ control) in
    let! '(r, evs) := message_loop (length l) (server s) (address l) l (mkDescriptors (fd_pipe_ s) saved fds socket) in
    match r with
    | Failed fd_pipe saved socket => Ret (Some false, set_fd_pipe fd_pipe (set_input saved_buf saved s), socket, evs)
    | Rest l d =>
        let s := set_fd_pipe (d_fd_pipe d) (set_input l (d_fds d) s) in
        Ret (if bool_decide (l = []) && negb (bool_decide (d_fds d = [])) then Some false else None, s, d_socket d, evs)
    end.

(** The result, and what the kernel still holds. *)
Fixpoint ProcessIncomingMessages (reads : list read_result) (s : t) (socket : list control_message) :
    outcome (bool * t * list control_message * list event) :=
  if pipe_ s =? -1 then Ret (false, s, socket, [])
  else
    match reads with
    | [] | NoData :: _ => Ret (true, s, socket, [])
    | Closed :: _ | ReadError :: _ => Ret (false, s, socket, [])
    | Bytes bytes control truncated :: reads =>
        let! '(o, evs) := process_read bytes control truncated s socket in
        let '(o, socket) := o in
        let '(r, s) := o in
        match r with
        | Some b => Ret (b, s, socket, evs)
        | None =>
            let! '(o, evs') := ProcessIncomingMessages reads s socket in
            Ret (o, evs ++ evs')
        end
    end.

End Reading.

(** ** Writing *)

Inductive write_result := Wrote (n : Z) | WouldBlock | PipeClosed | WriteError.

(** Bytes written to the socket, with or without descriptors; descriptors sent on the other
    socket; descriptors closed. *)
Inductive output :=
  | WriteBytes (l fds : list Z)
  | SendFds (fds : list Z)
  | CloseSent (fds : list Z).

(** What deleting a queue of messages closes. *)
Definition delete_all (queue : list Message.t) : list Z :=
  flat_map (fun m => FileDescriptorSet.destroy (Message.file_descriptor_set m)) queue.

(** Closing the connection; what is saved of the input and of a message half written stays. *)
Definition ResetToAcceptingConnectionState (s : t) : t * list output :=
  (mk (server s) (is_blocked_on_write_ s) (waiting_connect_ s) (message_send_bytes_written_ s) (-1) (-1) []
     (input_overflow_buf_ s) [],
   [CloseSent (delete_all (output_queue_ s)); CloseSent (input_overflow_fds_ s)]).

Section Writing.
Context (is_directory : Z -> bool).

(** [sendmsg] of the descriptors of the first chunk: the message with the number of them in
    its header, what was written, the answers left, and whether the message carries them
    itself. *)
Definition send_fds (s : t) (m : Message.t) (script : list write_result) :
    outcome (Message.t * write_result * bool * list write_result * list output) :=
  let set := Message.file_descriptor_set m in
  if (message_send_bytes_written_ s =? 0) && negb (FileDescriptorSet.empty set) then
    check! FileDescriptorSet.size set <=? FileDescriptorSet.kMaxDescriptorsPerMessage;
    check! negb (FileDescriptorSet.ContainsDirectoryDescriptor is_directory set);
    let! p := Message.set_num_fds (u16 (FileDescriptorSet.size set)) (Message.pickle m) in
    let m := Message.set_pickle p m in
    let! hello := Message.IsHelloMessage p in
    if negb hello then
      match script with
      | Wrote _ :: script =>
          let '(closed, set') := FileDescriptorSet.CommitAll set in
          Ret (Message.set_descriptors set' m, Wrote 1, false, script, [SendFds (FileDescriptorSet.GetDescriptors set); CloseSent closed])
      | r :: script => Ret (m, r, false, script, [])
      | [] => Ret (m, WouldBlock, false, [], [])
      end
    else Ret (m, Wrote 1, true, script, [])
  else Ret (m, Wrote 1, false, script, []).

(** The write of the bytes of the message that are left. *)
Definition write_message (s : t) (m : Message.t) (with_fds : bool) (bytes : list Z) (script : list write_result) :
    outcome (Message.t * write_result * list write_result * list output) :=
  let set := Message.file_descriptor_set m in
  let! hello := Message.IsHelloMessage (Message.pickle m) in
  check! negb (negb (server s) && hello) || (FileDescriptorSet.size set =? 1);
  match script with
  | Wrote n :: script =>
      let n := Z.max 1 (Z.min n (Z.of_nat (length bytes))) in
      let '(closed, set') := FileDescriptorSet.CommitAll set in
      Ret (Message.set_descriptors set' m, Wrote n, script,
        [WriteBytes (take (Z.to_nat n) bytes) (if with_fds then FileDescriptorSet.GetDescriptors set else []); CloseSent closed])
  | r :: script => Ret (m, r, script, [])
  | [] => Ret (m, WouldBlock, [], [])
  end.

(** The loop over the queue: the result, or [None] where the pipe is found closed and
    [Close] is called. *)
Fixpoint out_loop (queue : list Message.t) (s : t) (script : list write_result) : outcome (option bool * t * list output) :=
  match queue with
  | [] => Ret (Some true, set_output (is_blocked_on_write_ s) (message_send_bytes_written_ s) [] s, [])
  | m :: queue =>
      let! size := Pickle.size (Message.pickle m) in
      let amt_to_write := u32 (size - message_send_bytes_written_ s) in
      check! negb (amt_to_write =? 0);
      let! '(o, out) := send_fds s m script in
      let '(o, script) := o in
      let '(o, with_fds) := o in
      let '(m, r) := o in
      let! bytes := load (header_ (Message.pickle m) + message_send_bytes_written_ s) (Z.to_nat amt_to_write) (Message.pickle m) in
      let! '(o, out') :=
        match r with
        | Wrote _ => write_message s m with_fds bytes script
        | _ => Ret (m, r, script, [])
        end in
      let '(o, script) := o in
      let '(m, r) := o in
      let out := out ++ out' in
      match r with
      | PipeClosed => Ret (None, set_output (is_blocked_on_write_ s) (message_send_bytes_written_ s) (m :: queue) s, out)
      | WriteError => Ret (Some false, set_output (is_blocked_on_write_ s) (message_send_bytes_written_ s) (m :: queue) s, out)
      | WouldBlock => Ret (Some true, set_output true (message_send_bytes_written_ s) (m :: queue) s, out)
      | Wrote n =>
          if negb (n =? amt_to_write)
          then Ret (Some true, set_output true (u32 (message_send_bytes_written_ s + n)) (m :: queue) s, out)
          else
            let! '(o, out') := out_loop queue (set_output (is_blocked_on_write_ s) 0 queue s) script in
            Ret (o, out ++ out')
      end
  end.

(** [ProcessOutgoingMessages] up to the call of [Close]. *)
Definition write_queue (s : t) (script : list write_result) : outcome (option bool * t * list output) :=
  check! negb (waiting_connect_ s);
  if bool_decide (output_queue_ s = []) then Ret (Some true, s, [])
  else if pipe_ s =? -1 then Ret (Some false, s, [])
  else out_loop (output_queue_ s) s script.

Definition ProcessOutgoingMessages (s : t) (script : list write_result) : outcome (bool * t * list output) :=
  let! '(o, out) := write_queue s script in
  let '(r, s) := o in
  match r with
  | Some ok => Ret (ok, s, out)
  | None => let '(s, closed) := ResetToAcceptingConnectionState s in Ret (false, s, out ++ closed)
  end.

Definition Send (m : Message.t) (s : t) (script : list write_result) : outcome (bool * t * list output) :=
  let s := set_output (is_blocked_on_write_ s) (message_send_bytes_written_ s) (output_queue_ s ++ [m]) s in
  if negb (is_blocked_on_write_ s) && negb (waiting_connect_ s) then ProcessOutgoingMessages s script else Ret (true, s, []).

(** [ClosePipeOnError], of a channel that is not a server accepting connections: it calls
    [Close]. *)
Definition ClosePipeOnError (s : t) : t * list output := ResetToAcceptingConnectionState s.

Definition OnFileCanWriteWithoutBlocking (s : t) (script : list write_result) : outcome (t * list output) :=
  let s := set_output false (message_send_bytes_written_ s) (output_queue_ s) s in
  let! '(o, out) := ProcessOutgoingMessages s script in
  let '(ok, s) := o in
  if ok then Ret (s, out) else let '(s, out') := ClosePipeOnError s in Ret (s, out ++ out').

End Writing.

(** The read handler of a connected pipe. *)
Definition OnFileCanReadWithoutBlocking (address : list Z -> Z) (is_directory : Z -> bool) (reads : list read_result)
    (script : list write_result) (s : t) (socket : list control_message) :
    outcome (t * list control_message * list event * list output) :=
  let hello := waiting_connect_ s && server s in
  let s := set_connection (waiting_connect_ s && negb (server s)) (pipe_ s) s in
  let! '(o, evs) := ProcessIncomingMessages address reads s socket in
  let '(o, socket) := o in
  let '(ok, s) := o in
  if negb ok then let '(s, out) := ClosePipeOnError s in Ret (s, socket, evs ++ [OnChannelError], out)
  else if hello then let! '(o, out) := ProcessOutgoingMessages is_directory s script in let '(_, s) := o in Ret (s, socket, evs, out)
  else Ret (s, socket, evs, []).

End Channel.
