(* ===== verification/IpcFrames.v ===== *)
(** What a channel makes of the bytes it receives, over [ipc/ipc_channel_posix.cc]: the
    messages that the bytes spell out, whatever the reads they come in, and an account of
    the descriptors received. *)
From S2P Require Import Prelude.
From S2P Require Import GpuMappedMemory.
From S2P Require Import BasePickle.
From S2P Require Import BasePickleTypes.
From S2P Require Import IpcMessage.
From S2P Require Import IpcChannel.

Module Frames.
Import Pickle.
Import PickleTypes.
Import Channel.

(** ** Messages in a stream of bytes *)

(** The bytes of a message: a header, and the payload its first field announces. *)
Definition is_message (m : list Z) : Prop := Z.of_nat (length m) = 20 + le_value (take 4 m) /\ 20 <= Z.of_nat (length m).

(** No message starts the bytes. *)
Definition incomplete (l : list Z) : Prop := forall m k, l = m ++ k -> ~ is_message m.

(** Bytes cut into messages and a rest that is not yet one. *)
Inductive cut : list Z -> list (list Z) -> list Z -> Prop :=
  | cut_rest l : incomplete l -> cut l [] l
  | cut_message m l ms rest : is_message m -> cut l ms rest -> cut (m ++ l) (m :: ms) rest.

(** Fields of the header. *)
Definition field (offset n : nat) (m : list Z) : Z := le_value (take n (drop offset m)).
Definition num_fds_of (m : list Z) : Z := field 16 2 m.
Definition is_hello_of (m : list Z) : bool :=
  (i32 (field 4 4 m) =? Message.MSG_ROUTING_NONE) && (field 8 4 m =? Message.HELLO_MESSAGE_TYPE).

Definition whole (l : list Z) : Prop := 4 <= Z.of_nat (length l) /\ 20 + le_value (take 4 l) <= Z.of_nat (length l).

#[global] Instance whole_dec l : Decision (whole l).
Proof. unfold whole. apply _. Defined.

Definition first_message (l : list Z) : list Z := take (Z.to_nat (20 + le_value (take 4 l))) l.

Lemma message_take4 m k : is_message m -> take 4 (m ++ k) = take 4 m.
Proof. intros [_ H]. apply take_app_le. lia. Qed.

Lemma whole_message m k : is_message m -> whole (m ++ k) /\ first_message (m ++ k) = m.
Proof.
  intros Hm. pose proof Hm as [H1 H2]. unfold whole, first_message. rewrite message_take4 by done. rewrite length_app. split; [lia|].
  rewrite <- H1, Nat2Z.id. by rewrite take_app_length.
Qed.

Lemma first_message_spec l : Forall is_u8 l -> whole l -> is_message (first_message l) /\ l = first_message l ++ drop (length (first_message l)) l.
Proof.
  intros Hb [H1 H2]. pose proof (le_value_take4 l Hb) as Hn. unfold first_message, is_message.
  assert (El : length (take (Z.to_nat (20 + le_value (take 4 l))) l) = Z.to_nat (20 + le_value (take 4 l))) by (rewrite length_take; lia).
  rewrite El. split; [|by rewrite take_drop]. rewrite take_take. replace (4 `min` Z.to_nat (20 + le_value (take 4 l)))%nat with 4%nat by lia. lia.
Qed.

Lemma incomplete_whole l : Forall is_u8 l -> incomplete l <-> ~ whole l.
Proof.
  intros Hb. split.
  - intros Hi Hw. destruct (first_message_spec l Hb Hw) as [Hm El]. by apply (Hi _ _ El).
  - intros Hw m k -> Hm. apply Hw. by destruct (whole_message m k Hm).
Qed.

Lemma incomplete_nil : incomplete [].
Proof. intros m k E [_ H]. apply (f_equal length) in E. rewrite length_app in E. cbn in E. lia. Qed.

(** Messages do not start each other. *)
Lemma message_prefix m m' k k' : is_message m -> is_message m' -> m ++ k = m' ++ k' -> m = m' /\ k = k'.
Proof.
  intros Hm Hm' E. destruct (whole_message m k Hm) as [_ E1]. destruct (whole_message m' k' Hm') as [_ E2]. rewrite E, E2 in E1. subst m'.
  by apply app_inv_head in E.
Qed.

(** There is one way to cut bytes. *)
Lemma cut_unique l ms rest ms' rest' : cut l ms rest -> cut l ms' rest' -> ms = ms' /\ rest = rest'.
Proof.
  intros H. revert ms' rest'. induction H as [l Hi|m l ms rest Hm Hc IH]; intros ms' rest' H'.
  - inversion H' as [|m l' ms2 rest2 Hm]; subst; [done|]. by destruct (Hi m l' eq_refl).
  - inversion H' as [l' Hi|m' l' ms2 rest2 Hm' Hc']; subst; [by destruct (Hi m l eq_refl)|].
    destruct (message_prefix m' m l' l Hm' Hm) as [-> ->]; [done|]. by destruct (IH _ _ Hc') as [-> ->].
Qed.

(** More bytes after the rest. *)
Lemma cut_app l k ms rest ms' rest' : cut l ms rest -> cut (rest ++ k) ms' rest' -> cut (l ++ k) (ms ++ ms') rest'.
Proof. induction 1 as [l Hi|m l ms rest Hm Hc IH]; intros H'; [done|]. rewrite <- app_assoc. constructor; auto. Qed.

Lemma cut_concat l ms rest : cut l ms rest -> l = concat ms ++ rest /\ Forall is_message ms /\ incomplete rest.
Proof. induction 1 as [l Hi|m l ms rest Hm Hc (-> & IH1 & IH2)]; [done|]. split; [cbn; by rewrite <- app_assoc|]. by split; [constructor|]. Qed.

Lemma cut_of_messages ms rest : Forall is_message ms -> incomplete rest -> cut (concat ms ++ rest) ms rest.
Proof.
  intros Hms Hr. induction Hms as [|m ms Hm _ IH]; [by constructor|]. cbn. rewrite <- app_assoc. by constructor.
Qed.

(** ** A message as received *)

(** Bytes at an address, below the size where offsets could wrap. *)
Definition placed (p : Z) (l : list Z) : Prop :=
  0 < p /\ p + Z.of_nat (length l) + kPayloadUnit < 2 ^ 32 /\ Z.of_nat (length l) < 2 ^ 31 /\ Forall is_u8 l.

Lemma placed_app p m l : placed p (m ++ l) -> placed (p + Z.of_nat (length m)) l.
Proof. intros (H1 & H2 & H3 & H4). rewrite length_app in *. apply Forall_app in H4 as [_ H4]. split; [lia|]. split; [lia|]. by split; [lia|]. Qed.

(** The message object over the bytes of a message. *)
Record received_as (q : Pickle.t) (p : Z) (m : list Z) : Prop := {
  ra_readable : readable q m;
  ra_header : header_ q = p;
  ra_size : header_size_ q = 20
}.

Lemma received_load q p m offset n :
  received_as q p m -> (offset + n <= length m)%nat ->
  load (p + Z.of_nat offset) n q = Ret (take n (drop offset m)).
Proof.
  intros [HR <- _] H. rewrite (readable_load _ _ HR) by lia. by replace (Z.to_nat (header_ q + Z.of_nat offset - header_ q)) with offset by lia.
Qed.

Lemma received_field q p m offset n :
  received_as q p m -> is_message m -> (offset + n <= 20)%nat -> Message.header_field (Z.of_nat offset) n q = Ret (field offset n m).
Proof.
  intros Hq [_ Hm] H. unfold Message.header_field. rewrite (ra_size _ _ _ Hq). cbn [Z.eqb dcheck obind]. rewrite (ra_header _ _ _ Hq).
  rewrite (received_load q p m) by (done || lia). done.
Qed.

Lemma received_num_fds q p m : received_as q p m -> is_message m -> Message.num_fds q = Ret (num_fds_of m).
Proof. intros. by apply (received_field q p m 16 2); [| |lia]. Qed.

Lemma received_hello q p m : received_as q p m -> is_message m -> Message.IsHelloMessage q = Ret (is_hello_of m).
Proof.
  intros Hq Hm. unfold Message.IsHelloMessage, Message.routing_id, Message.type.
  change Message.routing_offset with (Z.of_nat 4). change Message.type_offset with (Z.of_nat 8).
  rewrite (received_field q p m 4 4 Hq Hm) by lia. cbn [obind]. by rewrite (received_field q p m 8 4 Hq Hm) by lia.
Qed.

(** [FindNext] and the message it finds. *)
Lemma next_message p m l :
  placed p (m ++ l) -> is_message m ->
  Message.FindNext p (p + Z.of_nat (length (m ++ l))) (m ++ l) = Ret (p + Z.of_nat (length m)) /\
  exists q, Message.new_from_data p (m ++ l) (Z.of_nat (length m)) = Ret (Message.mk q None) /\ received_as q p m.
Proof.
  intros (P1 & P2 & P3 & P4) Hm. pose proof Hm as [Hm1 Hm2]. unfold kPayloadUnit in *. unfold Message.FindNext.
  rewrite FindNext_spec by (done || (unfold Message.sizeof_Header, kPayloadUnit; lia)). change Message.sizeof_Header with 20.
  destruct (whole_message m l Hm) as [Hw _]. rewrite decide_True by exact Hw. rewrite message_take4 by done.
  split; [f_equal; lia|]. unfold Message.new_from_data. rewrite length_app in *.
  destruct (new_from_data_spec p (m ++ l) (Z.of_nat (length m))) as (q & Eq & Hq); [done|rewrite length_app; lia|done|rewrite length_app; lia|lia|].
  rewrite Eq. cbn [obind]. exists q. split; [done|]. rewrite decide_True in Hq.
  - rewrite Nat2Z.id, take_app_length, message_take4 in Hq by done. destruct Hq as (HR & Hh & Hs). split; [done|done|lia].
  - split; [lia|]. rewrite message_take4 by done. split; [lia|]. replace (Z.of_nat (length m) - le_value (take 4 m)) with 20 by lia. done.
Qed.

Lemma no_message p l : placed p l -> incomplete l -> Message.FindNext p (p + Z.of_nat (length l)) l = Ret NULL.
Proof.
  intros (P1 & P2 & P3 & P4) Hi. unfold Message.FindNext.
  rewrite FindNext_spec by (done || (unfold Message.sizeof_Header, kPayloadUnit; lia)). change Message.sizeof_Header with 20.
  rewrite decide_False; [done|]. by apply (incomplete_whole l P4).
Qed.

(** ** One turn of the loop over messages *)

Lemma loop_rest fuel srv p l d : (length l <= fuel)%nat -> placed p l -> incomplete l -> message_loop fuel srv p l d = Ret (Rest l d, []).
Proof.
  intros Hf Hp Hi. destruct l as [|b l]; [by destruct fuel|]. destruct fuel as [|fuel]; [cbn in Hf; lia|]. cbn [message_loop].
  by rewrite no_message.
Qed.

(** What is done with a message and its descriptors. *)
Definition handle (srv : bool) (q : Pickle.t) (m : list Z) (s : FileDescriptorSet.t) (d : descriptors) : outcome (event * descriptors) :=
  let fds := FileDescriptorSet.GetDescriptors s in
  if is_hello_of m then
    let! '(pid, d) := on_hello srv (if num_fds_of m =? 0 then Message.mk q None else Message.mk q (Some s)) d in
    Ret (OnChannelConnected pid m fds, d)
  else Ret (OnMessageReceived m fds, d).

Lemma loop_message fuel srv p m l d :
  (length (m ++ l) <= S fuel)%nat -> placed p (m ++ l) -> is_message m ->
  exists q, received_as q p m /\
    message_loop (S fuel) srv p (m ++ l) d =
    let! r := take_fds (num_fds_of m) d in
    match r with
    | inr (saved, socket, evs) => Ret (Failed (d_fd_pipe d) saved socket, evs)
    | inl (s, d) =>
        let! '(e, d) := handle srv q m s d in
        let! '(r, evs) := message_loop fuel srv (p + Z.of_nat (length m)) l (mkDescriptors (d_fd_pipe d) (d_fds d) (d_fds d) (d_socket d)) in
        Ret (r, e :: evs)
    end.
Proof.
  intros Hf Hp Hm. destruct (next_message p m l Hp Hm) as (En & q & Eq & Hq). pose proof Hm as [_ Hm2]. pose proof Hp as (P1 & P2 & P3 & _).
  rewrite length_app in P2, P3. exists q. split; [done|]. destruct m as [|b m']; [cbn in Hm2; lia|]. set (m := b :: m') in *.
  change (message_loop (S fuel) srv p (m ++ l) d) with
    (let! message_tail := Message.FindNext p (p + Z.of_nat (length (m ++ l))) (m ++ l) in
     if message_tail =? NULL then Ret (Rest (m ++ l) d, [])
     else
      let len := i32 (message_tail - p) in
      let! mm := Message.new_from_data p (m ++ l) len in
      let! header_fds := Message.num_fds (Message.pickle mm) in
      let! data := load p (Z.to_nat len) (Message.pickle mm) in
      let! r := take_fds header_fds d in
      match r with
      | inr (saved, socket, evs) => Ret (Failed (d_fd_pipe d) saved socket, evs)
      | inl (s, d) =>
          let mm := if header_fds =? 0 then mm else Message.set_descriptors s mm in
          let! hello := Message.IsHelloMessage (Message.pickle mm) in
          let fds := FileDescriptorSet.GetDescriptors s in
          let! '(e, d) :=
            if hello then let! '(pid, d) := on_hello srv mm d in Ret (OnChannelConnected pid data fds, d)
            else Ret (OnMessageReceived data fds, d) in
          let d := mkDescriptors (d_fd_pipe d) (d_fds d) (d_fds d) (d_socket d) in
          let! '(r, evs) := message_loop fuel srv message_tail (drop (Z.to_nat len) (m ++ l)) d in
          Ret (r, e :: evs)
      end).
  rewrite En. cbn [obind]. rewrite (proj2 (Z.eqb_neq _ _)) by (unfold NULL; lia). cbv zeta.
  replace (p + Z.of_nat (length m) - p) with (Z.of_nat (length m)) by lia. rewrite i32_small by lia.
  rewrite Eq. cbn [obind Message.pickle]. rewrite (received_num_fds q p m Hq Hm). cbn [obind].
  pose proof (received_load q p m 0 (length m) Hq ltac:(lia)) as El. rewrite Z.add_0_r, drop_0, take_ge in El by done.
  rewrite Nat2Z.id, El. cbn [obind]. rewrite drop_app_length. unfold handle.
  assert (Eh : forall s, Message.IsHelloMessage (Message.pickle (if num_fds_of m =? 0 then Message.mk q None else Message.set_descriptors s (Message.mk q None))) = Ret (is_hello_of m)).
  { intros s. rewrite <- (received_hello q p m Hq Hm). by destruct (_ =? _). }
  destruct (take_fds (num_fds_of m) d) as [[[s d']|[[saved socket] evs]]| |]; cbn [obind]; [|done..]. rewrite Eh. cbn [obind].
  by destruct (is_hello_of m).
Qed.

(** ** The account of messages and descriptors *)

(** The messages among events, the descriptors given with them, and those closed. *)
Definition event_messages (e : event) : list (list Z) :=
  match e with OnChannelConnected _ data _ | OnMessageReceived data _ => [data] | _ => [] end.
Definition event_fds (e : event) : list Z :=
  match e with OnChannelConnected _ _ fds | OnMessageReceived _ fds => fds | _ => [] end.
Definition event_closed (e : event) : list Z := match e with CloseFds fds => fds | _ => [] end.

Definition messages (evs : list event) : list (list Z) := flat_map event_messages evs.
Definition delivered (evs : list event) : list Z := flat_map event_fds evs.
Definition closed (evs : list event) : list Z := flat_map event_closed evs.

(** A message comes with as many descriptors as its header says. *)
Definition counted (e : event) : Prop :=
  forall m, event_messages e = [m] -> Z.of_nat (length (event_fds e)) = num_fds_of m /\ num_fds_of m <= 5.

(** A hello that does not fail the assertions on it. *)
Definition hello_ok (srv : bool) (m : list Z) : Prop :=
  is_hello_of m = true ->
  (24 <= length m)%nat /\ (srv = true -> (28 <= length m)%nat /\ num_fds_of m = 1 /\ field 24 4 m = 0).

Definition hellos_ok (srv : bool) (l : list Z) : Prop :=
  forall ms k, l = concat ms ++ k -> Forall is_message ms -> Forall (hello_ok srv) ms.

Lemma hellos_ok_tail srv m l : is_message m -> hellos_ok srv (m ++ l) -> hello_ok srv m /\ hellos_ok srv l.
Proof.
  intros Hm Hh. split.
  - specialize (Hh [m] l). cbn in Hh. rewrite app_nil_r in Hh. specialize (Hh eq_refl ltac:(by constructor)). by inversion Hh.
  - intros ms k -> Hms. specialize (Hh (m :: ms) k). cbn in Hh. rewrite <- app_assoc in Hh. specialize (Hh eq_refl ltac:(by constructor)).
    by inversion Hh.
Qed.

(** When the messages of some bytes have good hellos, so have those of any other cut. *)
Lemma cut_prefix l ms rest ms' k : cut l ms rest -> l = concat ms' ++ k -> Forall is_message ms' -> exists ms2, ms = ms' ++ ms2.
Proof.
  intros H. revert ms'. induction H as [l Hi|m l ms rest Hm Hc IH]; intros [|m' ms'] E Hms'; [by exists []| |by exists (m :: ms)|];
    apply Forall_cons in Hms' as [Hm' Hms']; cbn [concat] in E; rewrite <- app_assoc in E.
  - by destruct (Hi _ _ E).
  - destruct (message_prefix m m' _ _ Hm Hm' E) as [-> El]. destruct (IH ms' El Hms') as [ms2 ->]. by exists ms2.
Qed.

Lemma hellos_ok_cut srv l ms rest : cut l ms rest -> Forall (hello_ok srv) ms -> hellos_ok srv l.
Proof.
  intros Hc Hh ms' k E Hms'. destruct (cut_prefix l ms rest ms' k Hc E Hms') as [ms2 ->]. by apply Forall_app in Hh as [Hh _].
Qed.

Definition is_fd (n : Z) : Prop := 0 <= n.

(** The descriptors at hand are the saved ones, or come from the pipe itself before there is
    a socket for them. *)
Definition balanced (d : descriptors) : Prop := d_saved d = d_fds d \/ d_saved d = [] /\ d_fd_pipe d < 0.

Definition all_fds (d : descriptors) : list Z := d_fds d ++ flat_map wire_fds (d_socket d).

Lemma receive_fds_spec d :
  balanced d ->
  match receive_fds d with
  | (Some d', evs) => evs = [] /\ d_fd_pipe d' = d_fd_pipe d /\ exists used, d_socket d = used ++ d_socket d' /\
      d_fds d' = d_fds d ++ flat_map wire_fds used
  | (None, evs) => messages evs = [] /\ delivered evs = [] /\ exists c, d_socket d = c :: tail (d_socket d) /\
      closed evs = wire_fds c /\ d_saved d = d_fds d
  end.
Proof.
  intros Hb. unfold receive_fds. destruct (Z.ltb_spec (d_fd_pipe d) 0) as [Hlt|Hge].
  { split; [done|]. split; [done|]. exists []. cbn. by rewrite app_nil_r. }
  assert (Hs : d_saved d = d_fds d) by (destruct Hb as [|[_ ?]]; [done|lia]).
  destruct (d_socket d) as [|c socket] eqn:Es.
  { split; [done|]. split; [done|]. exists []. cbn. by rewrite app_nil_r, ?Es. }
  case_bool_decide as Ew.
  { split; [done|]. split; [done|]. exists [c]. split; [done|]. cbn. by rewrite Ew, !app_nil_r. }
  destruct (ctrunc c).
  { split; [done|]. split; [done|]. exists c. cbn. split; [done|]. by rewrite app_nil_r. }
  rewrite Hs. destruct (d_fds d) as [|n ns] eqn:Ed; (split; [done|]; split; [done|]; exists [c]; split; [done|]; cbn; by rewrite app_nil_r).
Qed.

Lemma take_fds_spec n d :
  0 <= n -> balanced d ->
  exists r, take_fds n d = Ret r /\
  match r with
  | inl (s, d') => d_fd_pipe d' = d_fd_pipe d /\ n <= 5 /\ Z.of_nat (length (FileDescriptorSet.GetDescriptors s)) = n /\
      FileDescriptorSet.consumed_descriptor_highwater_ s = 0 /\
      exists used, d_socket d = used ++ d_socket d' /\
        FileDescriptorSet.GetDescriptors s ++ d_fds d' = d_fds d ++ flat_map wire_fds used
  | inr (saved, socket, evs) => messages evs = [] /\ delivered evs = [] /\
      exists used, d_socket d = used ++ socket /\ closed evs ++ saved ≡ₚ d_fds d ++ flat_map wire_fds used
  end.
Proof.
  intros Hn Hb. unfold take_fds. destruct (Z.eqb_spec n 0) as [->|Hne].
  { eexists. split; [done|]. do 4 (split; [done|]). exists []. cbn. by rewrite app_nil_r. }
  pose proof (receive_fds_spec d Hb) as Hr.
  destruct (Z.of_nat (length (d_fds d)) <? n).
  - destruct (receive_fds d) as [[d'|] evs].
    + destruct Hr as (-> & Hp & used & Hu & Hd). destruct ((_ <? _) || _) eqn:Ec.
      * eexists. split; [done|]. cbn. split; [done|]. split; [done|]. exists used. split; [done|]. by rewrite !app_nil_r, Hd.
      * zb2p. unfold FileDescriptorSet.kMaxDescriptorsPerMessage in *. unfold FileDescriptorSet.SetDescriptors, FileDescriptorSet.kMaxDescriptorsPerMessage.
        assert (El : length (take (Z.to_nat n) (d_fds d')) = Z.to_nat n) by (rewrite length_take; lia).
        rewrite El, (proj2 (Z.leb_le _ _)) by lia. cbn [dcheck obind]. eexists. split; [done|]. split; [done|]. split; [done|].
        unfold FileDescriptorSet.GetDescriptors. cbn [FileDescriptorSet.descriptors_ d_fds d_socket]. rewrite map_map, map_id, El.
        split; [lia|]. split; [done|]. exists used. split; [done|]. by rewrite take_drop.
    + destruct Hr as (H1 & H2 & c & Hc & Hcl & Hs). eexists. split; [done|]. cbn. split; [done|]. split; [done|].
      exists [c]. split; [done|]. cbn. rewrite Hcl, Hs, app_nil_r. apply Permutation_app_comm.
  - destruct ((_ <? _) || _) eqn:Ec.
    + eexists. split; [done|]. cbn. split; [done|]. split; [done|]. exists []. split; [done|]. cbn. by rewrite !app_nil_r.
    + zb2p. unfold FileDescriptorSet.kMaxDescriptorsPerMessage in *. unfold FileDescriptorSet.SetDescriptors, FileDescriptorSet.kMaxDescriptorsPerMessage.
      assert (El : length (take (Z.to_nat n) (d_fds d)) = Z.to_nat n) by (rewrite length_take; lia).
      rewrite El, (proj2 (Z.leb_le _ _)) by lia. cbn [dcheck obind]. eexists. split; [done|]. split; [done|]. split; [done|].
      unfold FileDescriptorSet.GetDescriptors. cbn [FileDescriptorSet.descriptors_ d_fds d_socket]. rewrite map_map, map_id, El.
      split; [lia|]. split; [done|]. exists []. split; [done|]. cbn. by rewrite take_drop, app_nil_r.
Qed.

(** The process identifier of a hello. *)
Lemma hello_int q p m k iter :
  received_as q p m -> placed p m -> (20 + 4 * k + 4 <= length m)%nat ->
  start_iter iter q = p + 20 + 4 * Z.of_nat k -> is_u32 iter ->
  ReadInt iter q = Ret (Some (i32 (field (20 + 4 * k) 4 m)), p + 20 + 4 * Z.of_nat (S k)).
Proof.
  intros Hq (P1 & P2 & P3 & P4) Hk Hst Hi. unfold kPayloadUnit in *. pose proof (ra_readable _ _ _ Hq) as HR. unfold ReadInt.
  rewrite (read_pod_spec _ _ HR) by done. rewrite Hst. unfold at_address, in_data. rewrite (ra_header _ _ _ Hq).
  rewrite bool_decide_eq_true_2 by lia. unfold as_type. cbn [obind fmap option_fmap option_map]. unfold field.
  replace (Z.to_nat (p + 20 + 4 * Z.of_nat k - p)) with (20 + 4 * k)%nat by lia. unfold UpdateIter.
  change (AlignInt (u32 (Z.of_nat 4)) 4) with 4. rewrite u32_small by lia. do 2 f_equal. lia.
Qed.

Lemma handle_message srv q p m s d :
  received_as q p m -> placed p m -> is_message m -> hello_ok srv m ->
  Z.of_nat (length (FileDescriptorSet.GetDescriptors s)) = num_fds_of m -> num_fds_of m <= 5 ->
  FileDescriptorSet.consumed_descriptor_highwater_ s = 0 -> Forall is_fd (FileDescriptorSet.GetDescriptors s) ->
  exists e n, handle srv q m s d = Ret (e, mkDescriptors n (d_saved d) (d_fds d) (d_socket d)) /\
    event_messages e = [m] /\ event_fds e = FileDescriptorSet.GetDescriptors s /\ event_closed e = [] /\ counted e /\
    (srv = false \/ is_hello_of m = false -> n = d_fd_pipe d).
Proof.
  intros Hq Hp Hm Hh Hn H5 Hhi Hfd. unfold handle. destruct (is_hello_of m) eqn:Eh.
  - destruct (Hh Eh) as [H24 Hs]. unfold on_hello. pose proof Hp as (P1 & P2 & _). unfold kPayloadUnit in P2.
    assert (Hst : start_iter NULL q = p + 20 + 4 * Z.of_nat 0).
    { unfold start_iter. rewrite Z.eqb_refl, (readable_payload _ _ (ra_readable _ _ _ Hq)), (ra_header _ _ _ Hq), (ra_size _ _ _ Hq). lia. }
    set (mm := if num_fds_of m =? 0 then Message.mk q None else Message.mk q (Some s)).
    assert (Epk : Message.pickle mm = q) by (unfold mm; by destruct (_ =? _)).
    rewrite Epk, (hello_int q p m 0 NULL Hq Hp) by (done || lia). cbn [obind must]. destruct srv.
    + destruct (Hs eq_refl) as (H28 & Hone & Hidx).
      assert (Em : mm = Message.mk q (Some s)) by (unfold mm; by rewrite Hone). clearbody mm. subst mm. cbn [Message.file_descriptor_set Message.file_descriptor_set_ default from_option].
      unfold FileDescriptorSet.size. rewrite Hone in Hn. unfold FileDescriptorSet.GetDescriptors in Hn. rewrite length_map in Hn.
      unfold Message.file_descriptor_set. cbn [Message.file_descriptor_set_ default from_option].
      unfold id. assert (Hd1 : exists x, FileDescriptorSet.descriptors_ s = [x]).
      { destruct (FileDescriptorSet.descriptors_ s) as [|x [|y l]]; cbn in Hn; [lia|by exists x|lia]. }
      destruct Hd1 as [x Hx]. rewrite Hn. change (1 =? 1) with true. cbn [dcheck obind]. unfold Message.ReadFileDescriptor. cbn [Message.pickle].
      rewrite (hello_int q p m 1 (p + 20 + 4 * Z.of_nat 1) Hq Hp); [|lia| |unfold is_u32; lia].
      2: { unfold start_iter. by rewrite (proj2 (Z.eqb_neq _ _)) by (unfold NULL; lia). }
      change (20 + 4 * 1)%nat with 24%nat. rewrite Hidx. change (i32 0) with 0. cbn [obind Message.file_descriptor_set_].
      change (u32 0) with 0. rewrite (FileDescriptorSet.GetDescriptorAt_first x s Hx Hhi).
      assert (Hfx : 0 <= FileDescriptorSet.fd x) by (unfold FileDescriptorSet.GetDescriptors in Hfd; rewrite Hx in Hfd; by inversion Hfd).
      rewrite (proj2 (Z.leb_le _ _) Hfx). cbn [obind fst must]. eexists _, _. split; [done|]. split; [done|]. split; [done|]. split; [done|].
      split; [|intros [|]; done]. intros m' [= <-]. cbn [event_fds]. unfold FileDescriptorSet.GetDescriptors. rewrite length_map. lia.
    + cbn [obind]. eexists _, (d_fd_pipe d). split; [by destruct d|]. do 3 (split; [done|]). split; [|done]. by intros m' [= <-].
  - eexists _, (d_fd_pipe d). split; [by destruct d|]. do 3 (split; [done|]). split; [|done]. by intros m' [= <-].
Qed.

(** ** The loop *)

Definition fds_ok (d : descriptors) : Prop := Forall is_fd (all_fds d).

Lemma cut_nil : cut [] [] [].
Proof. constructor. apply incomplete_nil. Qed.

(** The outcome of the loop on bytes [l]: messages cut from them, and where the descriptors
    went. *)
Definition loop_result (srv : bool) (l : list Z) (d : descriptors) (r : loop_end) (evs : list event) : Prop :=
  Forall counted evs /\
  match r with
  | Rest rest d' => cut l (messages evs) rest /\ closed evs = [] /\
      exists used, d_socket d = used ++ d_socket d' /\ delivered evs ++ d_fds d' = d_fds d ++ flat_map wire_fds used
  | Failed _ saved socket => (exists k, l = concat (messages evs) ++ k) /\ Forall is_message (messages evs) /\
      exists used, d_socket d = used ++ socket /\ delivered evs ++ closed evs ++ saved ≡ₚ d_fds d ++ flat_map wire_fds used
  end /\
  (srv = false \/ Forall (fun m => is_hello_of m = false) (messages evs) ->
   d_fd_pipe d = match r with Rest _ d' => d_fd_pipe d' | Failed n _ _ => n end).

Lemma message_loop_spec fuel srv p l d :
  (length l <= fuel)%nat -> placed p l -> balanced d -> fds_ok d -> hellos_ok srv l ->
  exists r evs, message_loop fuel srv p l d = Ret (r, evs) /\ loop_result srv l d r evs.
Proof.
  revert p l d. induction fuel as [|fuel IH]; intros p l d Hf Hp Hb Hfd Hh.
  { destruct l; [|cbn in Hf; lia]. exists (Rest [] d), []. split; [done|]. split; [done|]. split; [|done]. split; [apply cut_nil|]. split; [done|].
    exists []. cbn. by rewrite app_nil_r. }
  pose proof Hp as (P1 & P2 & P3 & P4). destruct (decide (whole l)) as [Hw|Hw].
  2: { apply (incomplete_whole l P4) in Hw. rewrite (loop_rest (S fuel) srv p l d) by done. exists (Rest l d), []. split; [done|]. split; [done|].
       split; [|done]. split; [by constructor|]. split; [done|]. exists []. cbn. by rewrite app_nil_r. }
  destruct (first_message_spec l P4 Hw) as [Hm El]. revert Hm El. generalize (first_message l) (drop (length (first_message l)) l).
  intros m l' Hm ->. destruct (loop_message fuel srv p m l' d Hf Hp Hm) as (q & Hq & ->).
  destruct (hellos_ok_tail srv m l' Hm Hh) as [Hhm Hhl].
  assert (Hn : 0 <= num_fds_of m).
  { apply Forall_app in P4 as [P4 _]. unfold num_fds_of, field. apply le_value_range. by apply Forall_take, Forall_drop. }
  destruct (take_fds_spec (num_fds_of m) d Hn Hb) as (r & -> & Hr). cbn [obind]. destruct r as [[s d1]|[[saved socket] evs]].
  - destruct Hr as (Hp1 & H5 & Hlen & Hhi & used & Hu & Hd).
    assert (Hall : Forall is_fd (FileDescriptorSet.GetDescriptors s ++ d_fds d1) /\ Forall is_fd (flat_map wire_fds (d_socket d1))).
    { unfold fds_ok, all_fds in Hfd. rewrite Hu, flat_map_app, app_assoc, <- Hd in Hfd. by apply Forall_app. }
    destruct Hall as [Hs1 Hs2]. apply Forall_app in Hs1 as [Hs0 Hs1].
    destruct (handle_message srv q p m s d1 Hq) as (e & n & -> & E1 & E2 & E3 & Ec & En); try done.
    { by destruct Hp as (? & ? & ? & ?); rewrite length_app in *; apply Forall_app in P4 as [? _]; split; [done|]; split; [lia|]; split; [lia|]. }
    cbn [obind d_fd_pipe d_fds d_socket].
    pose proof Hm as [_ Hm2].
    destruct (IH (p + Z.of_nat (length m)) l' (mkDescriptors n (d_fds d1) (d_fds d1) (d_socket d1))) as (r & evs & -> & Hc & Hres & Hpipe).
    { rewrite length_app in Hf. lia. }
    { by apply placed_app. }
    { by left. }
    { unfold fds_ok, all_fds. cbn. by apply Forall_app. }
    { done. }
    cbn [obind]. exists r, (e :: evs). split; [done|]. split; [by constructor|]. cbn [d_fd_pipe d_fds d_socket] in *.
    assert (Em : messages (e :: evs) = m :: messages evs) by (unfold messages; cbn; by rewrite E1).
    assert (Ed : delivered (e :: evs) = FileDescriptorSet.GetDescriptors s ++ delivered evs) by (unfold delivered; cbn; by rewrite E2).
    assert (Ecl : closed (e :: evs) = closed evs) by (unfold closed; cbn; by rewrite E3). rewrite Em, Ed, Ecl.
    split.
    + destruct r as [rest d'|n' saved socket].
      * destruct Hres as (Hcut & Hcl & used' & Hu' & Hd'). split; [by constructor|]. split; [done|]. exists (used ++ used').
        rewrite Hu, Hu', <- app_assoc. split; [done|]. rewrite flat_map_app, <- app_assoc, Hd', !app_assoc, Hd. by rewrite <- !app_assoc.
      * destruct Hres as ([k ->] & Hms & used' & Hu' & Hd'). split; [exists k; cbn; by rewrite <- app_assoc|]. split; [by constructor|].
        exists (used ++ used'). rewrite Hu, Hu', <- app_assoc. split; [done|].
        rewrite flat_map_app, <- app_assoc, Hd', !app_assoc, Hd. by rewrite <- !app_assoc.
    + intros Hno. rewrite <- Hp1, <- (En ltac:(destruct Hno as [->|Hno]; [by left|right; by inversion Hno])). apply Hpipe.
      destruct Hno as [|Hno]; [by left|right; by inversion Hno].
  - destruct Hr as (Hm0 & Hd0 & used & Hu & Hperm). eexists _, evs. split; [done|].
    assert (Hc0 : forall e, e ∈ evs -> event_messages e = []).
    { intros e He. unfold messages in Hm0. clear -Hm0 He. induction He as [e l|e x l He IH]; cbn in Hm0; apply app_eq_nil in Hm0 as [? ?]; auto. }
    split; [apply Forall_forall; intros e He m'; by rewrite (Hc0 e He)|]. split; [|done].
    rewrite Hm0, Hd0. split; [by exists (m ++ l')|]. split; [done|]. exists used. done.
Qed.

(** ** Reads *)

(** Between reads: what is saved is the start of a message. *)
Record input_ok (s : t) : Prop := {
  in_bytes : Forall is_u8 (input_overflow_buf_ s);
  in_partial : incomplete (input_overflow_buf_ s);
  in_fds : Forall is_fd (input_overflow_fds_ s);
  in_empty : input_overflow_buf_ s = [] -> input_overflow_fds_ s = []
}.

(** The fields reading does not touch. *)
Definition same_output (s s' : t) : Prop :=
  server s' = server s /\ pipe_ s' = pipe_ s /\ output_queue_ s' = output_queue_ s /\ is_blocked_on_write_ s' = is_blocked_on_write_ s /\
  message_send_bytes_written_ s' = message_send_bytes_written_ s /\ waiting_connect_ s' = waiting_connect_ s.

(** The descriptors of a read from the pipe: [read] takes none. *)
Definition taken (s : t) (control : list Z) : list Z := if 0 <=? fd_pipe_ s then [] else control.

(** More bytes than a message may have. *)
Definition too_big (s : t) (bytes : list Z) : Prop :=
  input_overflow_buf_ s <> [] /\ kMaximumMessageSize < Z.of_nat (length (input_overflow_buf_ s ++ bytes)).

Section Reads.
Context (address : list Z -> Z).

(** Buffers of at most the size of the largest message are not at the end of memory. *)
Definition addresses_ok : Prop :=
  forall l, Z.of_nat (length l) <= kMaximumMessageSize -> Forall is_u8 l -> placed (address l) l.

Lemma process_read_spec bytes control truncated s socket :
  addresses_ok -> input_ok s -> bytes <> [] -> Z.of_nat (length bytes) <= kReadBufferSize -> Forall is_u8 bytes ->
  Forall is_fd (control ++ flat_map wire_fds socket) -> hellos_ok (server s) (input_overflow_buf_ s ++ bytes) ->
  exists r s' socket' evs, process_read address bytes control truncated s socket = Ret (r, s', socket', evs) /\
    Forall counted evs /\ same_output s s' /\
    (r = None -> cut (input_overflow_buf_ s ++ bytes) (messages evs) (input_overflow_buf_ s') /\ closed evs = [] /\ input_ok s') /\
    (forall b, r = Some b -> b = false /\ Forall is_message (messages evs) /\ exists k, input_overflow_buf_ s ++ bytes = concat (messages evs) ++ k) /\
    exists used, socket = used ++ socket' /\
      (too_big s bytes /\ evs = [] /\ used = [] /\ input_overflow_fds_ s' = input_overflow_fds_ s \/
       delivered evs ++ closed evs ++ input_overflow_fds_ s' ≡ₚ input_overflow_fds_ s ++ taken s control ++ flat_map wire_fds used).
Proof.
  intros Ha [I1 I2 I3 I4] Hne Hlen Hb Hfd Hh. unfold process_read. rewrite bool_decide_eq_false_2 by done. cbn [negb dcheck obind].
  fold (taken s control). cbv zeta. apply Forall_app in Hfd as [Hfc Hfs].
  assert (Hft : Forall is_fd (taken s control)) by (unfold taken; by destruct (_ <=? _)).
  destruct (negb (bool_decide (taken s control = [])) && truncated).
  { exists (Some false), s, socket, [CloseFds (taken s control)]. split; [done|]. split; [by repeat constructor|]. split; [done|]. split; [done|].
    split; [intros b [= <-]; split; [done|]; split; [done|]; by eexists|]. exists []. split; [done|]. right. cbn.
    rewrite !app_nil_r. apply Permutation_app_comm. }
  destruct (negb (bool_decide (input_overflow_buf_ s = [])) && (kMaximumMessageSize - Z.of_nat (length bytes) <? Z.of_nat (length (input_overflow_buf_ s)))) eqn:Ebig.
  { apply andb_true_iff in Ebig as [Eb Ebig]. apply negb_true_iff, bool_decide_eq_false in Eb. zb2p. eexists (Some false), _, socket, [].
    split; [done|]. split; [done|]. split; [done|]. split; [done|]. split; [intros b [= <-]; split; [done|]; split; [done|]; by eexists|].
    exists []. split; [done|]. left. split; [|done]. split; [done|]. rewrite length_app. lia. }
  set (l := input_overflow_buf_ s ++ bytes) in *.
  assert (Hl : Z.of_nat (length l) <= kMaximumMessageSize).
  { unfold l. rewrite length_app. apply andb_false_iff in Ebig as [Eb|Eb]; [|zb2p; lia].
    apply negb_false_iff, bool_decide_eq_true in Eb. rewrite Eb. unfold kMaximumMessageSize, kReadBufferSize in *. cbn [length]. lia. }
  assert (Hlb : Forall is_u8 l) by (by apply Forall_app).
  set (sf := if bool_decide (input_overflow_fds_ s = []) then ([], taken s control)
             else (input_overflow_fds_ s ++ taken s control, input_overflow_fds_ s ++ taken s control)).
  assert (Hsf : snd sf = input_overflow_fds_ s ++ taken s control /\ (fst sf = snd sf \/ fst sf = [] /\ fd_pipe_ s < 0)).
  { unfold sf. destruct (bool_decide_reflect (input_overflow_fds_ s = [])) as [E|E]; cbn [fst snd]; [|split; [done|by left]]. rewrite E. split; [done|].
    unfold taken. destruct (Z.leb_spec 0 (fd_pipe_ s)); [by left|right; split; [done|lia]]. }
  destruct sf as [saved fds]. cbn [fst snd] in Hsf. destruct Hsf as [-> Hbal].
  destruct (message_loop_spec (length l) (server s) (address l) l (mkDescriptors (fd_pipe_ s) saved (input_overflow_fds_ s ++ taken s control) socket))
    as (r & evs & -> & Hc & Hr & _); [done|by apply Ha|exact Hbal|by apply Forall_app; split; [apply Forall_app|]|done|].
  cbn [obind]. destruct r as [rest d|n saved' socket'].
  - destruct Hr as (Hcut & Hcl & used & Hu & Hd). cbn [d_socket d_fds] in Hu, Hd. eexists _, _, _, evs. split; [done|]. split; [done|]. split; [done|].
    destruct (cut_concat _ _ _ Hcut) as (El & Hms & Hir). cbn [set_fd_pipe set_input input_overflow_buf_ input_overflow_fds_].
    assert (Hdf : Forall is_fd (d_fds d)).
    { assert (Hall : Forall is_fd (delivered evs ++ d_fds d)); [|by apply Forall_app in Hall as [_ Hall]]. rewrite Hd. apply Forall_app.
      split; [by apply Forall_app|]. rewrite Hu, flat_map_app in Hfs. by apply Forall_app in Hfs as [Hfs _]. }
    split; [|split].
    + intros E. split; [done|]. split; [done|]. split; cbn; [rewrite El in Hlb; by apply Forall_app in Hlb as [_ Hlb]|done|done|].
      intros ->. rewrite bool_decide_eq_true_2 in E by done. cbn [andb] in E. case_bool_decide; done.
    + intros b E. destruct (_ && _) in E; [|done]. injection E as <-. split; [done|]. split; [done|]. by exists rest.
    + exists used. split; [done|]. right. rewrite Hcl. cbn. rewrite Hd. by rewrite <- app_assoc.
  - destruct Hr as ([k El] & Hms & used & Hu & Hperm). cbn [d_socket d_fds] in Hu, Hperm. eexists (Some false), _, _, evs. split; [done|]. split; [done|].
    split; [done|]. split; [done|]. split; [intros b [= <-]; split; [done|]; split; [done|]; by exists k|].
    exists used. split; [done|]. right. cbn. rewrite Hperm. by rewrite <- app_assoc.
Qed.

(** The bytes of reads. *)
Definition bytes_of (reads : list read_result) : list Z :=
  flat_map (fun r => match r with Bytes l _ _ => l | _ => [] end) reads.

(** What the kernel may answer: at least one byte, at most a buffer. *)
Definition read_ok (r : read_result) : Prop :=
  match r with
  | Bytes l control _ => l <> [] /\ Z.of_nat (length l) <= kReadBufferSize /\ Forall is_u8 l /\ Forall is_fd control
  | _ => True
  end.

Lemma hellos_ok_prefix srv l k : hellos_ok srv (l ++ k) -> hellos_ok srv l.
Proof. intros H ms k' -> Hms. apply (H ms (k' ++ k)); [by rewrite <- app_assoc|done]. Qed.

Lemma hellos_ok_rest srv l ms rest : cut l ms rest -> forall k, hellos_ok srv (l ++ k) -> hellos_ok srv (rest ++ k).
Proof.
  induction 1 as [l Hi|m l ms rest Hm Hc IH]; intros k Hh; [done|]. rewrite <- app_assoc in Hh. apply IH. by apply (hellos_ok_tail srv m).
Qed.

Lemma messages_app evs evs' : messages (evs ++ evs') = messages evs ++ messages evs'.
Proof. apply flat_map_app. Qed.

(** C8: whatever a peer sends and however its bytes are split into reads, short of hello
    messages the channel asserts about, the loop returns, never reads outside its buffers,
    and hands the listener exactly the messages that the bytes spell out, in order: all of
    them, the start of the next one being saved, while the channel is in order, and a first
    part of them when it is not; each with as many descriptors as its header says, at most
    five.  A channel with no bytes saved has no descriptors saved. *)
Theorem incoming_messages : forall reads s socket,
  addresses_ok -> input_ok s -> Forall read_ok reads -> Forall is_fd (flat_map wire_fds socket) ->
  hellos_ok (server s) (input_overflow_buf_ s ++ bytes_of reads) -> pipe_ s <> -1 ->
  exists b s' socket' evs, ProcessIncomingMessages address reads s socket = Ret (b, s', socket', evs) /\
    Forall counted evs /\ same_output s s' /\
    exists n, let l := input_overflow_buf_ s ++ bytes_of (take n reads) in
      if b
      then cut l (messages evs) (input_overflow_buf_ s') /\ input_ok s' /\ Forall (fun r => r <> Closed /\ r <> ReadError) (take n reads) /\
           (reads !! n = None \/ reads !! n = Some NoData)
      else Forall is_message (messages evs) /\ exists k, l = concat (messages evs) ++ k.
Proof.
  intros reads. induction reads as [|r reads IH]; intros s socket Ha Hin Hr Hs Hh Hp; cbn [ProcessIncomingMessages];
    rewrite (proj2 (Z.eqb_neq _ _) Hp).
  { exists true, s, socket, []. split; [done|]. split; [done|]. split; [done|]. exists 0%nat. cbn. rewrite app_nil_r.
    split; [constructor; apply Hin|]. split; [done|]. split; [done|]. by left. }
  apply Forall_cons in Hr as [Hr Hrs]. destruct r as [bytes control truncated| | |].
  - destruct Hr as (R1 & R2 & R3 & R4). cbn [bytes_of flat_map] in Hh. fold (bytes_of reads) in Hh. rewrite app_assoc in Hh.
    destruct (process_read_spec bytes control truncated s socket Ha Hin R1 R2 R3) as (o & s1 & socket1 & evs & -> & Hc & Hsame & Hnone & Hsome & used & Hu & _);
      [by apply Forall_app|by eapply hellos_ok_prefix|]. cbn [obind]. destruct o as [b|].
    + destruct (Hsome b eq_refl) as (-> & Hms & k & El). exists false, s1, socket1, evs. split; [done|]. split; [done|]. split; [done|].
      exists 1%nat. cbn. rewrite take_0. cbn. rewrite app_nil_r. split; [done|]. by exists k.
    + destruct (Hnone eq_refl) as (Hcut & _ & Hin1). destruct Hsame as (S1 & S2 & S3 & S4 & S5 & S6).
      destruct (IH s1 socket1 Ha Hin1 Hrs) as (b & s2 & socket2 & evs2 & -> & Hc2 & Hsame2 & n & Hn).
      { rewrite Hu, flat_map_app in Hs. by apply Forall_app in Hs as [_ Hs]. }
      { rewrite S1. by eapply hellos_ok_rest. }
      { by rewrite S2. }
      cbn [obind]. exists b, s2, socket2, (evs ++ evs2). split; [done|]. split; [by apply Forall_app|].
      split; [destruct Hsame2 as (? & ? & ? & ? & ? & ?); repeat split; congruence|].
      exists (S n). cbn [take bytes_of flat_map]. fold (bytes_of (take n reads)). cbv zeta in Hn |- *. rewrite app_assoc, messages_app. destruct b.
      * destruct Hn as (Hcut2 & Hin2 & Hall & Hend). split; [by eapply cut_app|]. split; [done|]. split; [by constructor|].
        done.
      * destruct Hn as (Hms2 & k & Ek). destruct (cut_concat _ _ _ Hcut) as (El & Hms1 & _). split; [by apply Forall_app|]. exists k.
        rewrite El, <- app_assoc, Ek, concat_app. by rewrite <- app_assoc.
  - exists true, s, socket, []. split; [done|]. split; [done|]. split; [done|]. exists 0%nat. cbn. rewrite app_nil_r.
    split; [constructor; apply Hin|]. split; [done|]. split; [done|]. by right.
  - exists false, s, socket, []. split; [done|]. split; [done|]. split; [done|]. exists 0%nat. split; [done|]. by eexists.
  - exists false, s, socket, []. split; [done|]. split; [done|]. split; [done|]. exists 0%nat. split; [done|]. by eexists.
Qed.

(** C29: every descriptor at hand after a read, saved before, come with the bytes or taken
    from the socket, has been given to the listener with a message, closed, or saved; except
    those that come with the bytes that make a message too big, which are lost. *)
Theorem descriptors_accounted : forall bytes control truncated s socket,
  addresses_ok -> input_ok s -> bytes <> [] -> Z.of_nat (length bytes) <= kReadBufferSize -> Forall is_u8 bytes ->
  Forall is_fd (control ++ flat_map wire_fds socket) -> hellos_ok (server s) (input_overflow_buf_ s ++ bytes) ->
  exists r s' socket' evs used, process_read address bytes control truncated s socket = Ret (r, s', socket', evs) /\ socket = used ++ socket' /\
    (too_big s bytes /\ evs = [] /\ used = [] /\ input_overflow_fds_ s' = input_overflow_fds_ s \/
     delivered evs ++ closed evs ++ input_overflow_fds_ s' ≡ₚ input_overflow_fds_ s ++ taken s control ++ flat_map wire_fds used).
Proof.
  intros bytes control truncated s socket Ha Hin Hne Hlen Hb Hfd Hh.
  destruct (process_read_spec bytes control truncated s socket Ha Hin Hne Hlen Hb Hfd Hh)
    as (r & s' & socket' & evs & E & _ & _ & _ & _ & used & Hu & Hcase). by exists r, s', socket', evs, used.
Qed.

End Reads.

(** ** Examples

    A hello, a message with two descriptors and the start of a third, in two reads. *)
Definition demo_hello : list Z := [4; 0; 0; 0; 254; 255; 255; 255; 255; 255; 0; 0; 0; 0; 0; 0; 0; 0; 0; 0; 7; 0; 0; 0].
Definition demo_message : list Z := [0; 0; 0; 0; 1; 0; 0; 0; 5; 0; 0; 0; 2; 0; 0; 0; 2; 0; 0; 0].
(** A message without descriptors. *)
Definition demo_plain : list Z := [0; 0; 0; 0; 1; 0; 0; 0; 5; 0; 0; 0; 2; 0; 0; 0; 0; 0; 0; 0].

Definition demo_stream : list Z := (demo_hello ++ demo_message) ++ [3; 0; 0].
Definition demo_reads : list read_result := [Bytes (take 15 demo_stream) [] false; Bytes (drop 15 demo_stream) [] false; NoData].
Definition demo_channel : t := mk false false false 0 3 9 [] [] [].
Definition demo_socket : list control_message := [mkControl [11; 12] false; mkControl [13] false].

Lemma demo_addresses : addresses_ok (fun _ => 4096).
Proof. intros l Hl Hb. unfold kMaximumMessageSize in Hl. unfold placed, kPayloadUnit. split; [lia|]. split; [lia|]. by split; [lia|]. Qed.

Lemma demo_cut : cut demo_stream [demo_hello; demo_message] [3; 0; 0].
Proof.
  apply (cut_of_messages [demo_hello; demo_message]).
  - repeat constructor; cbn; lia.
  - apply incomplete_whole; [by apply bytes_u8|]. intros [H _]. cbn in H. lia.
Qed.

Lemma demo_hellos : hellos_ok false demo_stream.
Proof.
  apply (hellos_ok_cut false demo_stream _ _ demo_cut). apply Forall_cons. split; [|apply Forall_cons; split; [|done]].
  - intros _. split; [cbn; lia|done].
  - intros E. by vm_compute in E.
Qed.

Lemma demo_input : input_ok demo_channel.
Proof. split; [done|apply incomplete_nil|done|done]. Qed.

Lemma demo_fds : Forall is_fd [11; 12; 13].
Proof. repeat constructor; unfold is_fd; lia. Qed.

Example demo_evaluated :
  ProcessIncomingMessages (fun _ => 4096) demo_reads demo_channel demo_socket =
  Ret (true, set_input [3; 0; 0] [] demo_channel, [mkControl [13] false],
       [OnChannelConnected 7 demo_hello []; OnMessageReceived demo_message [11; 12]]).
Proof. vm_compute. reflexivity. Qed.

(** A server whose client goes away in the middle of a message keeps its start, and makes
    one message of it and what the next client sends. *)
Example reset_keeps_partial_input :
  (let s := set_input [3; 0; 0] [] (mk true false false 0 3 (-1) [] [] []) in
   let '(s, _) := ResetToAcceptingConnectionState s in
   let s := set_connection false 8 s in
   let! '(o, evs) := ProcessIncomingMessages (fun _ => 4096) [Bytes demo_plain [] false] s [] in
   Ret (fst (fst o), evs))
  = Ret (true, [OnMessageReceived ([3; 0; 0] ++ demo_plain) []]).
Proof. vm_compute. reflexivity. Qed.

Lemma incoming_messages_witness :
  exists b s' socket' evs, ProcessIncomingMessages (fun _ => 4096) demo_reads demo_channel demo_socket = Ret (b, s', socket', evs) /\
    Forall counted evs /\ same_output demo_channel s' /\
    exists n, let l := [] ++ bytes_of (take n demo_reads) in
      if b
      then cut l (messages evs) (input_overflow_buf_ s') /\ input_ok s' /\
           Forall (fun r => r <> Closed /\ r <> ReadError) (take n demo_reads) /\
           (demo_reads !! n = None \/ demo_reads !! n = Some NoData)
      else Forall is_message (messages evs) /\ exists k, l = concat (messages evs) ++ k.
Proof.
  apply (incoming_messages (fun _ => 4096) demo_reads demo_channel demo_socket).
  - apply demo_addresses.
  - apply demo_input.
  - repeat constructor; cbn; (discriminate || lia || (apply bytes_u8; reflexivity) || done).
  - apply demo_fds.
  - apply demo_hellos.
  - discriminate.
Defined.

Lemma descriptors_accounted_witness :
  exists r s' socket' evs used,
    process_read (fun _ => 4096) demo_stream [] false demo_channel demo_socket = Ret (r, s', socket', evs) /\ demo_socket = used ++ socket' /\
    (too_big demo_channel demo_stream /\ evs = [] /\ used = [] /\ input_overflow_fds_ s' = [] \/
     delivered evs ++ closed evs ++ input_overflow_fds_ s' ≡ₚ [] ++ [] ++ flat_map wire_fds used).
Proof.
  apply (descriptors_accounted (fun _ => 4096) demo_stream [] false demo_channel demo_socket).
  - apply demo_addresses.
  - apply demo_input.
  - discriminate.
  - cbn. unfold kReadBufferSize. lia.
  - apply bytes_u8. reflexivity.
  - apply demo_fds.
  - apply demo_hellos.
Defined.

End Frames.
