(* ===== verification/IpcPipe.v ===== *)
(** Two channels joined by their sockets, over [ipc/ipc_channel_posix.cc]: whatever is
    written or read in part, the messages sent on one arrive on the other, in order and
    with their descriptors. *)
From S2P Require Import Prelude.
From S2P Require Import GpuMappedMemory.
From S2P Require Import BasePickle.
From S2P Require Import BasePickleTypes.
From S2P Require Import IpcMessage.
From S2P Require Import IpcChannel.
From S2P Require Import IpcFrames.

Module Pipe.
Import Pickle.
Import PickleTypes.
Import Channel.
Import Frames.

(** A message as it is on the pipe: its bytes, and its descriptors. *)
Definition parcel : Type := list Z * list Z.

(** The sets that go through the socket for descriptors. *)
Definition sets (xs : list parcel) : list (list Z) := flat_map (fun x => if bool_decide (x.2 = []) then [] else [x.2]) xs.

Definition control (fds : list Z) : control_message := mkControl fds false.

(** Messages that a receiver may be sent: small enough for the pieces of two messages in its
    buffer, with the number of descriptors in their header. *)
Definition kLargestSent : Z := kMaximumMessageSize - kReadBufferSize.

Section Transfer.
Context (is_directory : Z -> bool) (address : list Z -> Z).

Record parcel_ok (tx_server : bool) (x : parcel) : Prop := {
  po_message : is_message x.1;
  po_bytes : Forall is_u8 x.1;
  po_size : Z.of_nat (length x.1) <= kLargestSent;
  po_count : num_fds_of x.1 = Z.of_nat (length x.2) /\ Z.of_nat (length x.2) <= 5;
  po_fds : Forall is_fd x.2 /\ existsb is_directory x.2 = false;
  po_hello : is_hello_of x.1 = true -> x.2 = [] /\ tx_server = true /\ (24 <= length x.1)%nat
}.

(** ** Messages being sent *)

(** The header with the number of descriptors. *)
Definition with_num_fds (n : Z) (D : list Z) : list Z := splice 16 (le_encode 2 n) D.

(** A message whose descriptors are still to be sent. *)
Definition unsent (tx_server : bool) (m : Message.t) (x : parcel) : Prop :=
  parcel_ok tx_server x /\ header_size_ (Message.pickle m) = 20 /\
  FileDescriptorSet.GetDescriptors (Message.file_descriptor_set m) = x.2 /\
  exists D, readable (Message.pickle m) D /\ x.1 = if bool_decide (x.2 = []) then D else with_num_fds (Z.of_nat (length x.2)) D.

(** A message whose descriptors, if any, are sent. *)
Definition started (tx_server : bool) (m : Message.t) (x : parcel) : Prop :=
  parcel_ok tx_server x /\ header_size_ (Message.pickle m) = 20 /\
  FileDescriptorSet.GetDescriptors (Message.file_descriptor_set m) = [] /\ readable (Message.pickle m) x.1.

(** The queue holds [xs]; [b]: the descriptors of the first have been sent. *)
Definition queued (s : t) (queue : list Message.t) (xs : list parcel) (b : bool) : Prop :=
  match queue, xs with
  | [], [] => b = false /\ message_send_bytes_written_ s = 0
  | m :: queue, x :: xs => Forall2 (unsent (server s)) queue xs /\
      if b then started (server s) m x /\ 0 <= message_send_bytes_written_ s < Z.of_nat (length x.1)
      else unsent (server s) m x /\ message_send_bytes_written_ s = 0
  | _, _ => False
  end.

(** What of the first message has gone out. *)
Definition bytes_out (s : t) (xs : list parcel) : list Z :=
  match xs with [] => [] | x :: _ => take (Z.to_nat (message_send_bytes_written_ s)) x.1 end.
Definition sets_out (b : bool) (xs : list parcel) : list (list Z) :=
  match xs with x :: _ => if b then sets [x] else [] | [] => [] end.

Definition out_bytes (out : list output) : list Z := flat_map (fun o => match o with WriteBytes l _ => l | _ => [] end) out.
Definition out_sets (out : list output) : list (list Z) := flat_map (fun o => match o with SendFds fds => [fds] | _ => [] end) out.

Lemma sets_app xs ys : sets (xs ++ ys) = sets xs ++ sets ys.
Proof. apply flat_map_app. Qed.

Lemma out_bytes_app a b : out_bytes (a ++ b) = out_bytes a ++ out_bytes b.
Proof. apply flat_map_app. Qed.
Lemma out_sets_app a b : out_sets (a ++ b) = out_sets a ++ out_sets b.
Proof. apply flat_map_app. Qed.

Lemma with_num_fds_length n D : (18 <= length D)%nat -> length (with_num_fds n D) = length D.
Proof. intros H. apply splice_length. rewrite le_encode_length. lia. Qed.

Lemma with_num_fds_take4 n D : (18 <= length D)%nat -> take 4 (with_num_fds n D) = take 4 D.
Proof.
  intros H. unfold with_num_fds, splice. rewrite take_app_le by (rewrite length_take; lia). by rewrite take_take.
Qed.

Lemma with_num_fds_twice n D : (18 <= length D)%nat -> with_num_fds n (with_num_fds n D) = with_num_fds n D.
Proof.
  intros H. unfold with_num_fds at 1. set (e := le_encode 2 n). assert (He : length e = 2%nat) by apply le_encode_length.
  unfold with_num_fds. fold e. unfold splice. rewrite take_app_length' by (rewrite length_take; lia). do 2 f_equal.
  rewrite (app_assoc (take 16 D)), drop_app_length'; [done|]. rewrite length_app, length_take. lia.
Qed.

(** Setting the number of descriptors in the header. *)
Lemma set_num_fds_spec n p D :
  readable p D -> header_size_ p = 20 ->
  exists p', Message.set_num_fds n p = Ret p' /\ readable p' (with_num_fds n D) /\ header_size_ p' = 20.
Proof.
  intros HR Hh. destruct (readable_bounds _ _ HR) as (B1 & B2 & B3 & B4). unfold Message.set_num_fds, Message.set_header_field.
  rewrite Hh. cbn [Z.eqb dcheck obind]. change (20 =? Message.sizeof_Header) with true. cbn [dcheck obind]. change Message.num_fds_offset with 16.
  assert (HD : (18 <= length D)%nat) by lia.
  rewrite store_ok by (rewrite ?le_encode_length; lia). eexists. split; [done|]. split; [|done].
  replace (Z.to_nat (header_ p + 16 - header_ p)) with 16%nat by lia. destruct HR as [[H1 H2 H3] H4 H5 H6 H7].
  assert (Hml : length (splice 16 (le_encode 2 n) (mem_ p)) = length (mem_ p)) by (apply splice_length; rewrite le_encode_length; lia).
  split; cbn [set_mem header_size_ mem_ header_].
  - split; cbn [set_mem header_ mem_]; [done|by rewrite Hml|]. by apply splice_bytes; [apply le_encode_u8|].
  - by rewrite with_num_fds_length.
  - done.
  - rewrite with_num_fds_length by done. unfold with_num_fds. rewrite H6 at 1. unfold splice. rewrite le_encode_length.
    rewrite !take_app, !length_take, le_encode_length, take_take, skipn_firstn_comm.
    replace (length D `min` 16)%nat with 16%nat by lia. replace (16 `min` length D)%nat with 16%nat by lia.
    rewrite (take_ge (take 16 _)) by (rewrite length_take; lia). f_equal.
    replace (length D - 16 `min` length (mem_ p))%nat with (length D - 16)%nat by lia. rewrite (take_ge (le_encode 2 n)) by (rewrite le_encode_length; lia).
    f_equal. f_equal. lia.
  - by rewrite with_num_fds_length, with_num_fds_take4.
Qed.

(** Setting the number of descriptors leaves the rest of the header. *)
Lemma readable_as p l : readable p l -> header_size_ p = 20 -> received_as p (header_ p) l.
Proof. by split. Qed.

Lemma readable_size p l : readable p l -> header_size_ p = 20 -> Pickle.size p = Ret (Z.of_nat (length l)).
Proof.
  intros HR Hh. destruct (readable_bounds _ _ HR) as (B1 & B2 & B3 & B4). unfold Pickle.size. rewrite (readable_payload_size _ _ HR). cbn [obind].
  f_equal. rewrite u32_small; lia.
Qed.

Lemma readable_from p l w :
  readable p l -> (w <= length l)%nat -> load (header_ p + Z.of_nat w) (length l - w) p = Ret (drop w l).
Proof.
  intros HR Hw. destruct (readable_bounds _ _ HR) as (B1 & B2 & B3 & B4). rewrite (readable_load _ _ HR) by lia.
  replace (Z.to_nat (header_ p + Z.of_nat w - header_ p)) with w by lia. by rewrite take_ge by (rewrite length_drop; lia).
Qed.

(** The answers of a socket that stays open. *)
Definition open_script (script : list write_result) : Prop :=
  Forall (fun r => match r with Wrote _ | WouldBlock => True | _ => False end) script.

(** The next write is refused. *)
Definition refused (script : list write_result) : Prop := head script = None \/ head script = Some WouldBlock.

(** What is left after the descriptors. *)
Definition left_after (script script' : list write_result) : Prop := script' = script \/ script' = tail script.

(** The first message of the queue. *)
Definition first_ok (s : t) (m : Message.t) (x : parcel) (b : bool) : Prop :=
  if b then started (server s) m x /\ 0 <= message_send_bytes_written_ s < Z.of_nat (length x.1)
  else unsent (server s) m x /\ message_send_bytes_written_ s = 0.

Lemma first_bytes s m x b :
  first_ok s m x b -> exists D, readable (Message.pickle m) D /\ header_size_ (Message.pickle m) = 20 /\ length D = length x.1 /\
    0 <= message_send_bytes_written_ s < Z.of_nat (length x.1) /\ Z.of_nat (length x.1) <= kLargestSent.
Proof.
  destruct b; cbn.
  - intros [(Hx & Hh & _ & HR) Hw]. exists x.1. split; [done|]. split; [done|]. split; [done|]. split; [done|]. apply (po_size _ _ Hx).
  - intros [(Hx & Hh & _ & D & HR & E) Hw]. destruct (readable_bounds _ _ HR) as (B1 & B2 & B3 & B4). exists D. split; [done|]. split; [done|].
    assert (El : length D = length x.1) by (rewrite E; case_bool_decide; [done|]; symmetry; apply with_num_fds_length; lia).
    split; [done|]. split; [rewrite Hw; lia|]. apply (po_size _ _ Hx).
Qed.

Lemma sets_single x : sets [x] = if bool_decide (x.2 = []) then [] else [x.2].
Proof. unfold sets. cbn. apply app_nil_r. Qed.

Lemma set_of_fds m fds :
  FileDescriptorSet.GetDescriptors (Message.file_descriptor_set m) = fds ->
  FileDescriptorSet.empty (Message.file_descriptor_set m) = bool_decide (fds = []) /\
  FileDescriptorSet.size (Message.file_descriptor_set m) = Z.of_nat (length fds) /\
  FileDescriptorSet.ContainsDirectoryDescriptor is_directory (Message.file_descriptor_set m) = existsb is_directory fds.
Proof.
  intros <-. unfold FileDescriptorSet.empty, FileDescriptorSet.size, FileDescriptorSet.ContainsDirectoryDescriptor, FileDescriptorSet.GetDescriptors.
  destruct (FileDescriptorSet.descriptors_ (Message.file_descriptor_set m)) as [|y l]; [done|]. split; [done|].
  split; [by rewrite length_map|]. generalize (y :: l). intros k. induction k as [|z k IH]; cbn; [done|]. by rewrite IH.
Qed.

(** The descriptors of the first message go out before its bytes, once. *)
Lemma send_fds_spec s m x b script :
  first_ok s m x b -> open_script script ->
  exists m' r script' out, send_fds is_directory s m script = Ret (m', r, false, script', out) /\ open_script script' /\ out_bytes out = [] /\
    (r = Wrote 1 /\ started (server s) m' x /\ sets_out b [x] ++ out_sets out = sets [x] /\ left_after script script' \/
     r = WouldBlock /\ b = false /\ first_ok s m' x b /\ out_sets out = [] /\ refused script).
Proof.
  intros Hf Hs. unfold send_fds. cbn [sets_out]. destruct b; cbn [first_ok] in Hf.
  - destruct Hf as [Hst Hw]. pose proof Hst as (Hx & Hh & Hset & HR). destruct (set_of_fds m [] Hset) as (He & _ & _). rewrite He.
    rewrite andb_false_r. eexists m, _, script, []. split; [done|]. split; [done|]. split; [done|]. left. split; [done|]. split; [done|]. rewrite app_nil_r. split; [done|by left].
  - destruct Hf as [Hu Hw]. pose proof Hu as (Hx & Hh & Hset & D & HR & E). destruct (set_of_fds m _ Hset) as (He & Hsz & Hdir). rewrite He, Hw.
    rewrite sets_single. change (0 =? 0) with true. cbn [andb]. destruct (bool_decide_reflect (x.2 = [])) as [Ex|Ex].
    + cbn [negb]. eexists m, _, script, []. split; [done|]. split; [done|]. split; [done|]. left. split; [done|].
      split; [split; [done|]; split; [done|]; split; [by rewrite Hset|by rewrite E]|]. split; [done|by left].
    + cbn [negb]. destruct (po_count _ _ Hx) as [Hc1 Hc2]. rewrite Hsz, (proj2 (Z.leb_le _ _)) by (unfold FileDescriptorSet.kMaxDescriptorsPerMessage; lia).
      cbn [dcheck obind]. rewrite Hdir, (proj2 (po_fds _ _ Hx)). cbn [negb dcheck obind].
      replace (u16 (Z.of_nat (length x.2))) with (Z.of_nat (length x.2)) by (symmetry; apply Z.mod_small; lia). destruct (set_num_fds_spec (Z.of_nat (length x.2)) _ D HR Hh) as (p' & -> & HR' & Hh'). cbn [obind].
      rewrite (received_hello _ _ _ (readable_as _ _ HR' Hh')) by (rewrite <- E; apply (po_message _ _ Hx)). cbn [obind]. rewrite <- E.
      assert (Ehl : is_hello_of x.1 = false) by (destruct (is_hello_of x.1) eqn:Eh; [by destruct (po_hello _ _ Hx Eh)|done]).
      rewrite Ehl. cbn [negb]. rewrite <- E in HR'.
      assert (Hu' : unsent (server s) (Message.set_pickle p' m) x).
      { split; [done|]. split; [done|]. split; [done|]. exists x.1. split; [done|]. rewrite bool_decide_eq_false_2 by done. rewrite E.
        symmetry. apply with_num_fds_twice. pose proof (rd_header _ _ HR). lia. }
      destruct script as [|r script].
      { eexists _, _, _, _. split; [done|]. split; [done|]. split; [done|]. right. split_and!; try done. by left. }
      apply Forall_cons in Hs as [Hr Hs]. destruct r; try done.
      * eexists _, _, _, _. split; [done|]. split; [done|]. split; [done|]. left. split; [done|].
        split; [split; [done|]; split; [done|]; by split|]. split; [cbn; by rewrite Hset|by right].
      * eexists _, _, _, _. split; [done|]. split; [done|]. split; [done|]. right. split_and!; try done. by right.
Qed.

Lemma write_message_spec s m x bytes script :
  started (server s) m x -> open_script script -> bytes <> [] ->
  exists m' r script' out, write_message s m false bytes script = Ret (m', r, script', out) /\ open_script script' /\ started (server s) m' x /\
    out_sets out = [] /\
    (r = WouldBlock /\ out_bytes out = [] /\ refused script \/
     exists n n', r = Wrote n /\ 1 <= n <= Z.of_nat (length bytes) /\ out_bytes out = take (Z.to_nat n) bytes /\
       script = Wrote n' :: script' /\ n = Z.max 1 (Z.min n' (Z.of_nat (length bytes)))).
Proof.
  intros Hst Hs Hb. pose proof Hst as (Hx & Hh & Hset & HR). unfold write_message.
  rewrite (received_hello _ _ _ (readable_as _ _ HR Hh) (po_message _ _ Hx)). cbn [obind].
  assert (Hok : negb (server s) && is_hello_of x.1 = false).
  { destruct (is_hello_of x.1) eqn:Eh; [|apply andb_false_r]. destruct (po_hello _ _ Hx Eh) as (_ & -> & _). done. }
  rewrite Hok. cbn [negb orb dcheck obind]. destruct script as [|r script].
  { eexists m, _, _, _. split; [done|]. split; [done|]. split; [done|]. split; [done|]. left. split_and!; try done. by left. }
  apply Forall_cons in Hs as [Hr Hs]. destruct r; try done.
  - eexists _, _, _, _. split; [done|]. split; [done|]. split; [split; [done|]; split; [done|]; by split|]. split; [done|]. right.
    eexists _, _. split; [done|]. assert (0 < length bytes)%nat by (destruct bytes; [done|cbn; lia]). split; [lia|].
    split; [cbn; by rewrite app_nil_r|]. by split.
  - eexists m, _, _, _. split; [done|]. split; [done|]. split; [done|]. split; [done|]. left. split_and!; try done. by right.
Qed.

(** ** The queue of messages to write *)

(** The fields writing does not touch. *)
Definition same_input (s s' : t) : Prop :=
  server s' = server s /\ waiting_connect_ s' = waiting_connect_ s /\ pipe_ s' = pipe_ s /\ fd_pipe_ s' = fd_pipe_ s /\
  input_overflow_buf_ s' = input_overflow_buf_ s /\ input_overflow_fds_ s' = input_overflow_fds_ s.

(** What has gone out, of messages finished and of the first of those left. *)
Definition sent_up_to (s : t) (xs : list parcel) (b : bool) (out : list output) (s' : t) (done xs' : list parcel) (b' : bool) : Prop :=
  xs = done ++ xs' /\ queued s' (output_queue_ s') xs' b' /\
  bytes_out s xs ++ out_bytes out = concat (map fst done) ++ bytes_out s' xs' /\
  sets_out b xs ++ out_sets out = sets done ++ sets_out b' xs'.

Lemma queued_first s m queue x xs b :
  queued s (m :: queue) (x :: xs) b <-> Forall2 (unsent (server s)) queue xs /\ first_ok s m x b.
Proof. done. Qed.

Lemma queued_unsent s queue xs :
  Forall2 (unsent (server s)) queue xs -> message_send_bytes_written_ s = 0 -> queued s queue xs false.
Proof. intros H Hw. by destruct H. Qed.

(** Answers that take all that is written, enough of them. *)
Definition eager (queue : list Message.t) (script : list write_result) : Prop :=
  Forall (fun r => r = Wrote kMaximumMessageSize) script /\ (2 * length queue <= length script)%nat.

Lemma eager_not_refused m queue script : eager (m :: queue) script -> ~ refused script.
Proof.
  intros [Hs Hl]. destruct script as [|r script]; [cbn in Hl; lia|]. apply Forall_cons in Hs as [-> _]. intros [H|H]; discriminate.
Qed.

Lemma eager_left m queue script script1 :
  eager (m :: queue) script -> left_after script script1 -> Forall (fun r => r = Wrote kMaximumMessageSize) script1 /\ (2 * length queue + 1 <= length script1)%nat.
Proof.
  intros [Hs Hl] [->| ->]; [split; [done|cbn in Hl; lia]|]. destruct script as [|r script]; [cbn in Hl; lia|]. apply Forall_cons in Hs as [_ Hs].
  split; [done|]. cbn in *. lia.
Qed.

Lemma out_loop_spec queue s xs b script :
  queued s queue xs b -> open_script script ->
  exists s' out done xs' b', out_loop is_directory queue s script = Ret (Some true, s', out) /\ same_input s s' /\ sent_up_to s xs b out s' done xs' b' /\
    (eager queue script -> output_queue_ s' = []).
Proof.
  revert s xs b script. induction queue as [|m queue IH]; intros s xs b script Hq Hs.
  { destruct xs as [|x xs]; [|done]. destruct Hq as [-> Hw]. eexists _, [], [], [], false. split; [done|]. split; [by repeat split|]. split; [by repeat split|done]. }
  destruct xs as [|x xs]; [done|]. apply queued_first in Hq as [Hrest Hf].
  destruct (first_bytes _ _ _ _ Hf) as (D & HR & Hh & El & Hw & Hsz). cbn [out_loop]. rewrite (readable_size _ _ HR Hh), El. cbn [obind].
  set (w := message_send_bytes_written_ s) in *. unfold kLargestSent, kMaximumMessageSize, kReadBufferSize in Hsz. rewrite (u32_small (_ - w)) by lia.
  rewrite (proj2 (Z.eqb_neq _ _)) by lia. cbn [negb dcheck obind].
  destruct (send_fds_spec s m x b script Hf Hs) as (m1 & r1 & script1 & out1 & -> & Hs1 & Ho1 & Hcase). cbn [obind].
  assert (Hf1 : exists b1, first_ok s m1 x b1).
  { destruct Hcase as [(_ & Hst & _)|(_ & _ & Hf1 & _ & _)]; [exists true; exact (conj Hst Hw)|exists b; exact Hf1]. }
  destruct Hf1 as [b1 Hf1]. destruct (first_bytes _ _ _ _ Hf1) as (D1 & HR1 & Hh1 & El1 & _ & _).
  pose proof (readable_from _ D1 (Z.to_nat w) HR1 ltac:(lia)) as Hload. rewrite Z2Nat.id in Hload by lia.
  replace (Z.to_nat (Z.of_nat (length x.1) - w)) with (length D1 - Z.to_nat w)%nat by lia. rewrite Hload. cbn [obind].
  destruct Hcase as [(-> & Hst & Hsets & Hleft)|(-> & -> & Hf' & Hsets & Href)].
  - pose proof Hst as (_ & _ & _ & HRx).
    assert (ED : D1 = x.1).
    { pose proof (rd_data _ _ HRx) as E1. rewrite <- El1 in E1. rewrite (rd_data _ _ HR1), E1 at 1. done. } subst D1.
    assert (Hld : length (drop (Z.to_nat w) x.1) = (length x.1 - Z.to_nat w)%nat) by apply length_drop.
    destruct (write_message_spec s m1 x (drop (Z.to_nat w) x.1) script1 Hst Hs1) as (m2 & r2 & script2 & out2 & -> & Hs2 & Hst2 & Hos2 & Hcase2).
    { intros E. rewrite E in Hld. cbn in Hld. lia. }
    cbn [obind]. destruct Hcase2 as [(-> & Ho2 & Href)|(n & n' & -> & Hn & Ho2 & Escr & En')].
    + eexists _, _, [], (x :: xs), true. split; [done|]. split; [done|]. split.
      2: { intros He. destruct (eager_left _ _ _ _ He Hleft) as [He1 He2]. destruct script1 as [|r1 script1]; [cbn in He2; lia|].
           apply Forall_cons in He1 as [-> _]. by destruct Href. }
      split; [done|]. split.
      { cbn [output_queue_ set_output]. apply queued_first. split; [done|]. by split. }
      rewrite out_bytes_app, out_sets_app, Ho1, Ho2, Hos2, !app_nil_r. split; [done|]. exact Hsets.
    + destruct (Z.eqb_spec n (Z.of_nat (length x.1) - w)) as [En|En]; cbn [negb].
      * destruct (IH (set_output (is_blocked_on_write_ s) 0 queue s) xs false script2) as (s' & out3 & dn & xs' & b' & -> & Hsame & (Hxs & Hq' & Hb' & Hst') & Heager); [|done|].
        { by apply queued_unsent. }
        cbn [obind]. exists s', ((out1 ++ out2) ++ out3), (x :: dn), xs', b'. split; [done|]. split; [done|]. split.
        2: { intros He. apply Heager. destruct (eager_left _ _ _ _ He Hleft) as [He1 He2]. rewrite Escr in He1, He2. apply Forall_cons in He1 as [_ He1].
             split; [done|]. cbn in He2. lia. }
        split; [cbn; by rewrite Hxs|]. split; [done|].
        rewrite !out_bytes_app, !out_sets_app, Ho1, Ho2, Hos2, app_nil_r. cbn [app map concat bytes_out]. fold w.
        rewrite (take_ge (drop _ _)) by lia. rewrite (app_assoc (take _ _)), take_drop.
        assert (E0 : bytes_out (set_output (is_blocked_on_write_ s) 0 queue s) xs = []) by (by destruct xs).
        rewrite E0 in Hb'. cbn [app] in Hb'. rewrite Hb'. split; [by rewrite <- app_assoc|].
        change (sets_out b (x :: xs)) with (sets_out b [x]). rewrite app_assoc, Hsets. change (sets (x :: dn)) with (sets ([x] ++ dn)).
        rewrite sets_app, <- app_assoc. f_equal. assert (E1 : sets_out false xs = []) by (by destruct xs). by rewrite E1 in Hst'.
      * rewrite u32_small by lia. eexists _, _, [], (x :: xs), true. split; [done|]. split; [done|]. split.
        2: { intros He. destruct (eager_left _ _ _ _ He Hleft) as [He1 He2]. rewrite Escr in He1. apply Forall_cons in He1 as [[= ->] _].
             unfold kMaximumMessageSize in En'. lia. }
        split; [done|]. split.
        { cbn [output_queue_ set_output]. apply queued_first. split; [done|]. split; [done|]. cbn. lia. }
        rewrite out_bytes_app, out_sets_app, Ho1, Ho2, Hos2, app_nil_r. cbn [app map concat bytes_out]. fold w. split; [|exact Hsets].
        cbn [message_send_bytes_written_ set_output]. rewrite Z2Nat.inj_add by lia. apply take_take_drop.
  - eexists _, _, [], (x :: xs), false. split; [done|]. split; [done|]. split; [|intros He; by destruct (eager_not_refused _ _ _ He)].
    split; [done|]. split.
    { cbn [output_queue_ set_output]. apply queued_first. by split. }
    rewrite app_nil_r, Ho1, Hsets, !app_nil_r. done.
Qed.

(** ** Messages received *)

(** A message handed to the listener, with its descriptors. *)
Definition arrived (e : event) : list parcel :=
  match e with OnChannelConnected _ m fds | OnMessageReceived m fds => [(m, fds)] | _ => [] end.

Definition arrivals (evs : list event) : list parcel := flat_map arrived evs.

Lemma arrived_of e m fds : event_messages e = [m] -> event_fds e = fds -> arrived e = [(m, fds)].
Proof. destruct e; cbn; intros E1 <-; by simplify_eq. Qed.

(** A receiver with its socket for descriptors, and none at hand. *)
Definition no_fds_at_hand (n : Z) (socket : list control_message) : descriptors := mkDescriptors n [] [] socket.

Lemma incomplete_prefix l k : incomplete (l ++ k) -> incomplete l.
Proof. intros H m k' -> Hm. apply (H m (k' ++ k)); [by rewrite app_assoc|done]. Qed.

(** A part of a message that is not all of it. *)
Lemma incomplete_part l z m : is_message m -> m = l ++ z -> z <> [] -> incomplete l.
Proof.
  intros Hm E Hz m' k -> Hm'. rewrite <- app_assoc in E. destruct (message_prefix m' m (k ++ z) [] Hm' Hm) as [_ E2]; [by rewrite app_nil_r|].
  apply app_eq_nil in E2 as [_ ->]. done.
Qed.

(** The socket gives a message its own descriptors. *)
Lemma take_own_fds srv x n extra :
  parcel_ok srv x -> 0 <= n ->
  exists s, take_fds (num_fds_of x.1) (no_fds_at_hand n (map control (sets [x]) ++ extra)) = Ret (inl (s, no_fds_at_hand n extra)) /\
    FileDescriptorSet.GetDescriptors s = x.2 /\ FileDescriptorSet.consumed_descriptor_highwater_ s = 0.
Proof.
  intros Hx Hn. destruct (po_count _ _ Hx) as [Hc1 Hc2]. unfold take_fds. rewrite Hc1, sets_single.
  destruct (bool_decide_reflect (x.2 = [])) as [E|E].
  { rewrite E. cbn. by eexists. }
  assert (0 < length x.2)%nat by (destruct (x.2); [done|cbn; lia]). rewrite (proj2 (Z.eqb_neq _ _)) by lia. cbn [no_fds_at_hand d_fds length].
  rewrite (proj2 (Z.ltb_lt _ _)) by lia. unfold receive_fds. cbn [d_fd_pipe d_socket map app control wire_fds ctrunc d_saved no_fds_at_hand].
  rewrite (proj2 (Z.ltb_ge _ _)) by lia. rewrite bool_decide_eq_false_2 by done. cbn [d_fds d_fd_pipe d_saved d_socket].
  rewrite Z.ltb_irrefl, (proj2 (Z.ltb_ge _ _)) by (unfold FileDescriptorSet.kMaxDescriptorsPerMessage; lia). cbn [orb].
  rewrite Nat2Z.id, take_ge by done. unfold FileDescriptorSet.SetDescriptors.
  rewrite (proj2 (Z.leb_le _ _)) by (unfold FileDescriptorSet.kMaxDescriptorsPerMessage; lia). cbn [dcheck obind]. rewrite drop_all.
  eexists. split; [done|]. split; [|done]. unfold FileDescriptorSet.GetDescriptors. cbn. by rewrite map_map, map_id.
Qed.

(** The loop over the bytes of a stream of messages of which [k] is still to come. *)
Lemma rx_loop srv tx_server xs : forall fuel p l k rest n extra,
  (length l <= fuel)%nat -> placed p l -> Forall (parcel_ok tx_server) xs -> srv = negb tx_server -> 0 <= n ->
  l ++ k = concat (map fst xs) ++ rest -> incomplete rest ->
  exists xs1 xs2 l1 evs, message_loop fuel srv p l (no_fds_at_hand n (map control (sets xs) ++ extra)) =
      Ret (Rest l1 (no_fds_at_hand n (map control (sets xs2) ++ extra)), evs) /\
    xs = xs1 ++ xs2 /\ arrivals evs = xs1 /\ l = concat (map fst xs1) ++ l1 /\ incomplete l1.
Proof.
  induction xs as [|x xs IH]; intros fuel p l k rest n extra Hf Hp Hxs Hsrv Hn E Hr.
  { cbn in E. subst rest. exists [], [], l, []. rewrite loop_rest by (done || by apply (incomplete_prefix l k)). split; [done|].
    split; [done|]. split; [done|]. split; [done|]. by apply (incomplete_prefix l k). }
  apply Forall_cons in Hxs as [Hx Hxs]. pose proof (po_message _ _ Hx) as Hm. cbn [map concat] in E. rewrite <- app_assoc in E.
  destruct (decide (length l < length x.1)%nat) as [Hlt|Hge].
  - assert (Hi : incomplete l).
    { pose proof (f_equal (take (length x.1)) E) as E1. rewrite take_app_length, take_app_ge in E1 by lia.
      apply (incomplete_part l (take (length x.1 - length l) k) x.1); [done|done|]. intros E0. rewrite E0, app_nil_r in E1. subst l. lia. }
    exists [], (x :: xs), l, []. by rewrite loop_rest.
  - assert (El : exists l', l = x.1 ++ l').
    { exists (drop (length x.1) l). rewrite <- (take_drop (length x.1) l) at 1. f_equal. pose proof (f_equal (take (length x.1)) E) as E1.
      rewrite take_app_length, take_app_le in E1 by lia. done. }
    destruct El as [l' ->]. rewrite <- app_assoc in E. apply app_inv_head in E. clear Hge.
    pose proof Hm as [_ Hm2]. rewrite length_app in Hf. destruct fuel as [|fuel]; [lia|].
    change (x :: xs) with ([x] ++ xs). rewrite sets_app, map_app, <- app_assoc.
    destruct (loop_message fuel srv p x.1 l' (no_fds_at_hand n (map control (sets [x]) ++ map control (sets xs) ++ extra))) as (q & Hq & ->);
      [rewrite length_app; lia|done|done|].
    destruct (take_own_fds tx_server x n (map control (sets xs) ++ extra) Hx Hn) as (s & -> & Hs & Hhi). cbn [obind].
    destruct (po_count _ _ Hx) as [Hc1 Hc2].
    destruct (handle_message srv q p x.1 s (no_fds_at_hand n (map control (sets xs) ++ extra))) as (e & n' & -> & E1 & E2 & E3 & Ec & En); try done.
    { destruct Hp as (P1 & P2 & P3 & P4). rewrite length_app in *. apply Forall_app in P4 as [P4 _]. split; [done|]. split; [lia|]. by split; [lia|]. }
    { intros Eh. destruct (po_hello _ _ Hx Eh) as (_ & Et & H24). split; [done|]. rewrite Hsrv, Et. done. }
    { by rewrite Hs. }
    { lia. }
    { rewrite Hs. apply (po_fds _ _ Hx). }
    rewrite En.
    2: { destruct (is_hello_of x.1) eqn:Eh; [|by right]. destruct (po_hello _ _ Hx Eh) as (_ & Et & _). left. by rewrite Hsrv, Et. }
    cbn [obind d_fd_pipe d_fds d_socket no_fds_at_hand].
    destruct (IH fuel (p + Z.of_nat (length x.1)) l' k rest n extra) as (xs1 & xs2 & l1 & evs & Eloop & -> & Ha & El & Hi);
      [lia|by apply placed_app|done..|].
    unfold no_fds_at_hand in Eloop. rewrite Eloop. cbn [obind]. exists (x :: xs1), xs2, l1, (e :: evs). split; [done|]. split; [done|].
    split; [|split; [cbn; rewrite El; by rewrite <- app_assoc|done]]. unfold arrivals. cbn [flat_map]. rewrite (arrived_of e x.1 x.2) by (done || congruence).
    destruct x. cbn. by rewrite <- Ha.
Qed.

(** ** One direction

    What is between two channels: bytes on the pipe, descriptors on the other socket; and
    what the one was asked to send and the other has handed to its listener. *)
Record link := mkLink { bytes : list Z; controls : list control_message; posted : list parcel; got : list parcel }.

Definition carry (out : list output) (l : link) : link :=
  mkLink (bytes l ++ out_bytes out) (controls l ++ map control (out_sets out)) (posted l) (got l).

Definition post (x : parcel) (l : link) : link := mkLink (bytes l) (controls l) (posted l ++ [x]) (got l).

Record in_transit (tx rx : t) (l : link) (xs1 xs2 : list parcel) (b : bool) : Prop := {
  it_posted : posted l = got l ++ xs1 ++ xs2;
  it_queued : queued tx (output_queue_ tx) xs2 b;
  it_ok : Forall (parcel_ok (server tx)) xs1;
  it_bytes : input_overflow_buf_ rx ++ bytes l = concat (map fst xs1) ++ bytes_out tx xs2;
  it_controls : controls l = map control (sets xs1 ++ sets_out b xs2)
}.

Record link_ok (tx rx : t) (l : link) : Prop := {
  lk_transit : exists xs1 xs2 b, in_transit tx rx l xs1 xs2 b;
  lk_fds : input_overflow_fds_ rx = [] /\ 0 <= fd_pipe_ rx;
  lk_partial : incomplete (input_overflow_buf_ rx) /\ Forall is_u8 (input_overflow_buf_ rx ++ bytes l);
  lk_sides : server rx = negb (server tx)
}.

Lemma queued_ok s queue xs b : queued s queue xs b -> Forall (parcel_ok (server s)) xs.
Proof.
  destruct queue as [|m queue], xs as [|x xs]; try done. intros [Hrest Hf]. constructor.
  - destruct b; destruct Hf as [Hf _]; apply Hf.
  - clear -Hrest. induction Hrest as [|m x queue xs Hx _ IH]; constructor; [apply Hx|done].
Qed.

Lemma queued_snoc s queue xs b m x : queued s queue xs b -> unsent (server s) m x -> queued s (queue ++ [m]) (xs ++ [x]) b.
Proof.
  intros Hq Hu. destruct queue as [|m0 queue], xs as [|x0 xs]; try done; cbn [app].
  - destruct Hq as [-> Hw]. by apply queued_first.
  - destruct Hq as [Hrest Hf]. split; [|done]. apply Forall2_app; [done|]. by constructor.
Qed.

(** The first of the messages left is sent in part at most. *)
Lemma bytes_out_incomplete s queue xs b : queued s queue xs b -> incomplete (bytes_out s xs) /\ Z.of_nat (length (bytes_out s xs)) <= kLargestSent.
Proof.
  intros Hq. pose proof (queued_ok _ _ _ _ Hq) as Hok. destruct queue as [|m queue], xs as [|x xs]; try done.
  { split; [apply incomplete_nil|]. cbn. unfold kLargestSent, kMaximumMessageSize, kReadBufferSize. lia. }
  apply queued_first in Hq as [_ Hf]. destruct (first_bytes _ _ _ _ Hf) as (_ & _ & _ & _ & Hw & Hsz). apply Forall_cons in Hok as [Hx _].
  cbn [bytes_out]. split; [|rewrite length_take; lia]. apply (incomplete_part _ (drop (Z.to_nat (message_send_bytes_written_ s)) x.1) x.1).
  - apply (po_message _ _ Hx).
  - by rewrite take_drop.
  - intros E. apply (f_equal length) in E. rewrite length_drop in E. cbn in E. lia.
Qed.

Lemma parcels_u8 tx_server xs : Forall (parcel_ok tx_server) xs -> Forall is_u8 (concat (map fst xs)).
Proof. intros H. induction H as [|x xs Hx _ IH]; cbn; [done|]. apply Forall_app. split; [apply (po_bytes _ _ Hx)|done]. Qed.

Lemma bytes_out_u8 s queue xs b : queued s queue xs b -> Forall is_u8 (bytes_out s xs).
Proof.
  intros Hq. apply queued_ok in Hq. destruct xs as [|x xs]; [done|]. apply Forall_cons in Hq as [Hx _]. by apply Forall_take, (po_bytes _ _ Hx).
Qed.

Lemma link_write tx rx l xs1 xs2 b out tx' dn xs' b' :
  in_transit tx rx l xs1 xs2 b -> link_ok tx rx l -> server tx' = server tx -> sent_up_to tx xs2 b out tx' dn xs' b' ->
  link_ok tx' rx (carry out l).
Proof.
  intros [H1 H2 H3 H4 H5] [_ L2 [L3 L4] L5] Hsrv (-> & Hq & Hb & Hs). pose proof (queued_ok _ _ _ _ H2) as Hok. apply Forall_app in Hok as [Hdn _].
  assert (E : input_overflow_buf_ rx ++ bytes (carry out l) = concat (map fst (xs1 ++ dn)) ++ bytes_out tx' xs').
  { cbn. by rewrite app_assoc, H4, map_app, concat_app, <- !app_assoc, Hb. }
  split; [|done| |by rewrite Hsrv].
  - exists (xs1 ++ dn), xs', b'. split; [cbn; by rewrite H1, !app_assoc|done|rewrite Hsrv; by apply Forall_app|done|].
    cbn. by rewrite H5, sets_app, <- map_app, <- !app_assoc, Hs.
  - split; [done|]. rewrite E. apply Forall_app. split; [|by eapply bytes_out_u8]. apply (parcels_u8 (server tx)). by apply Forall_app.
Qed.

Lemma link_frame tx rx tx' rx' l :
  link_ok tx rx l -> server tx' = server tx -> output_queue_ tx' = output_queue_ tx ->
  message_send_bytes_written_ tx' = message_send_bytes_written_ tx -> server rx' = server rx -> fd_pipe_ rx' = fd_pipe_ rx ->
  input_overflow_buf_ rx' = input_overflow_buf_ rx -> input_overflow_fds_ rx' = input_overflow_fds_ rx -> link_ok tx' rx' l.
Proof.
  intros [(xs1 & xs2 & b & [H1 H2 H3 H4 H5]) L2 L3 L5] E1 E2 E3 E4 E5 E6 E7.
  assert (Eb : bytes_out tx' xs2 = bytes_out tx xs2) by (destruct xs2; cbn; [done|by rewrite E3]).
  split; [|by rewrite E7, E5|by rewrite E6|by rewrite E4, E1]. exists xs1, xs2, b. split; [done| |by rewrite E1|by rewrite E6, Eb|done].
  unfold queued in *. rewrite E1, E2, E3. done.
Qed.

(** The listener is handed what has arrived. *)
Definition hand_over (bs : list Z) (socket : list control_message) (evs : list event) (l : link) : link :=
  mkLink bs socket (posted l) (got l ++ arrivals evs).

(** One read of a part of what is on the pipe. *)
Lemma link_read tx rx l bs k :
  addresses_ok address -> link_ok tx rx l -> bytes l = bs ++ k -> bs <> [] -> Z.of_nat (length bs) <= kReadBufferSize ->
  exists rx' socket' evs, process_read address bs [] false rx (controls l) = Ret (None, rx', socket', evs) /\
    same_output rx rx' /\ link_ok tx rx' (hand_over k socket' evs l).
Proof.
  intros Ha Hok Ebs Hne Hlen. destruct Hok as [(xs1 & xs2 & b & [H1 H2 H3 H4 H5]) [L1 L2] [L3 L4] L5].
  rewrite Ebs, app_assoc in L4. rewrite Ebs in H4. destruct (bytes_out_incomplete _ _ _ _ H2) as [Hi Hr]. rewrite app_assoc in H4.
  assert (Hsmall : Z.of_nat (length (input_overflow_buf_ rx)) <= kLargestSent).
  { destruct xs1 as [|x xs1]; [apply (f_equal length) in H4; cbn in H4; rewrite !length_app in H4; lia|].
    apply Forall_cons in H3 as [Hx _]. pose proof (po_size _ _ Hx). destruct (decide (length (input_overflow_buf_ rx) < length x.1)%nat); [lia|].
    destruct (L3 x.1 (drop (length x.1) (input_overflow_buf_ rx))); [|apply (po_message _ _ Hx)]. rewrite <- (take_drop (length x.1) (input_overflow_buf_ rx)) at 1.
    f_equal. apply (f_equal (take (length x.1))) in H4. cbn in H4. rewrite <- !app_assoc, take_app_length, take_app_le in H4 by lia. done. }
  unfold process_read. rewrite bool_decide_eq_false_2 by done. cbn [negb dcheck obind]. rewrite (proj2 (Z.leb_le _ _) L2). cbv zeta.
  rewrite (bool_decide_eq_true_2 ([] = [])) by done. cbn [negb andb].
  rewrite (proj2 (Z.ltb_ge _ _)) by (unfold kLargestSent in *; lia). rewrite andb_false_r, L1, (bool_decide_eq_true_2 ([] = [])) by done.
  set (L := input_overflow_buf_ rx ++ bs) in *. apply Forall_app in L4 as [L4 L4'].
  assert (HL : Z.of_nat (length L) <= kMaximumMessageSize) by (unfold L, kLargestSent in *; rewrite length_app; lia).
  destruct (rx_loop (server rx) (server tx) xs1 (length L) (address L) L k (bytes_out tx xs2) (fd_pipe_ rx) (map control (sets_out b xs2)))
    as (ys1 & ys2 & l1 & evs & Eloop & -> & Harr & EL & Hi1); [done|by apply Ha|done..|].
  unfold no_fds_at_hand in Eloop. rewrite H5, map_app, Eloop. cbn [obind d_fds d_fd_pipe d_socket]. rewrite (bool_decide_eq_true_2 ([] = [])) by done.
  cbn [negb]. rewrite andb_false_r. eexists _, _, evs. split; [done|]. split; [done|].
  apply Forall_app in H3 as [H3 H3']. split; cbn [set_fd_pipe set_input server fd_pipe_ input_overflow_buf_ input_overflow_fds_ hand_over bytes].
  - exists ys2, xs2, b. split; cbn; [by rewrite H1, Harr, <- !app_assoc|done|done| |by rewrite <- map_app].
    rewrite EL, map_app, concat_app, <- !app_assoc in H4. by apply app_inv_head in H4.
  - done.
  - split; [done|]. apply Forall_app. split; [|done]. rewrite EL in L4. by apply Forall_app in L4 as [_ L4].
  - done.
Qed.

(** The reads of a handler: each takes at most a buffer, and at least one byte, of what is
    there; none is there in the end. *)
Fixpoint kernel_reads (ns : list nat) (bs : list Z) : list read_result * list Z :=
  match ns, bs with
  | [], _ | _, [] => ([NoData], bs)
  | n :: ns, _ =>
      let n := Nat.max 1 (Nat.min n (Z.to_nat kReadBufferSize)) in
      let '(rs, rest) := kernel_reads ns (drop n bs) in
      (Bytes (take n bs) [] false :: rs, rest)
  end.

Lemma link_reads ns : forall tx rx l,
  addresses_ok address -> link_ok tx rx l -> pipe_ rx <> -1 ->
  exists rx' socket' evs, ProcessIncomingMessages address (fst (kernel_reads ns (bytes l))) rx (controls l) = Ret (true, rx', socket', evs) /\
    same_output rx rx' /\ link_ok tx rx' (hand_over (snd (kernel_reads ns (bytes l))) socket' evs l).
Proof.
  induction ns as [|n ns IH]; intros tx rx l Ha Hok Hp.
  { cbn. rewrite (proj2 (Z.eqb_neq _ _) Hp). exists rx, (controls l), []. split; [done|]. split; [done|]. unfold hand_over. cbn. rewrite app_nil_r. by destruct l. }
  destruct (decide (bytes l = [])) as [E|E].
  { rewrite E. cbn. rewrite (proj2 (Z.eqb_neq _ _) Hp). exists rx, (controls l), []. split; [done|]. split; [done|].
    unfold hand_over. cbn. rewrite app_nil_r, <- E. by destruct l. }
  set (k := Nat.max 1 (Nat.min n (Z.to_nat kReadBufferSize))).
  assert (Ek : kernel_reads (n :: ns) (bytes l) =
    let '(rs, rest) := kernel_reads ns (drop k (bytes l)) in (Bytes (take k (bytes l)) [] false :: rs, rest)) by (by destruct (bytes l)).
  rewrite Ek. clear Ek. assert (Hk : (1 <= k)%nat /\ Z.of_nat k <= kReadBufferSize) by (unfold k, kReadBufferSize; lia).
  destruct (link_read tx rx l (take k (bytes l)) (drop k (bytes l))) as (rx1 & socket1 & evs1 & E1 & Hsame & Hok1); [done|done|by rewrite take_drop| | |].
  { intros E0. apply (f_equal length) in E0. rewrite length_take in E0. destruct (bytes l); [done|]. cbn in E0. lia. }
  { rewrite length_take. lia. }
  destruct Hsame as (S1 & S2 & S3 & S4 & S5 & S6). assert (Hp1 : pipe_ rx1 <> -1) by (by rewrite S2).
  destruct (IH tx rx1 _ Ha Hok1 Hp1) as (rx2 & socket2 & evs2 & E2 & Hsame2 & Hok2). cbn [hand_over bytes controls] in E2, Hok2.
  destruct (kernel_reads ns (drop k (bytes l))) as [rs rest]. cbn [fst snd] in *. cbn [ProcessIncomingMessages]. rewrite (proj2 (Z.eqb_neq _ _) Hp).
  rewrite E1. cbn [obind]. rewrite E2. cbn [obind]. exists rx2, socket2, (evs1 ++ evs2). split; [done|].
  split; [destruct Hsame2 as (? & ? & ? & ? & ? & ?); repeat split; congruence|]. unfold hand_over in *. cbn [posted got] in Hok2.
  unfold arrivals in *. by rewrite flat_map_app, app_assoc.
Qed.

(** ** Two ends *)

(** The end that acts and the other, what goes forth from the one and what comes back. *)
Record ends := mkEnds { near : t; far : t; forth : link; back : link }.

Definition flip (e : ends) : ends := mkEnds (far e) (near e) (back e) (forth e).

(** A call of [Send] with a message, and the handlers called when the pipe can be written or
    read, with what the kernel answers. *)
Inductive action :=
  | Post (x : parcel) (m : Message.t) (script : list write_result)
  | Writable (script : list write_result)
  | Readable (ns : list nat).

Definition act (a : action) (e : ends) : outcome ends :=
  match a with
  | Post x m script =>
      let! '(o, out) := Send is_directory m (near e) script in
      Ret (mkEnds (snd o) (far e) (carry out (post x (forth e))) (back e))
  | Writable script =>
      let! '(tx, out) := OnFileCanWriteWithoutBlocking is_directory (near e) script in
      Ret (mkEnds tx (far e) (carry out (forth e)) (back e))
  | Readable ns =>
      let '(reads, rest) := kernel_reads ns (bytes (back e)) in
      let! '(o, out) := OnFileCanReadWithoutBlocking address is_directory reads [] (near e) (controls (back e)) in
      let '(rx, socket, evs) := o in
      Ret (mkEnds rx (far e) (carry out (forth e)) (hand_over rest socket evs (back e)))
  end.

(** Actions of either end; [true] is the first. *)
Fixpoint run (acts : list (bool * action)) (e : ends) : outcome ends :=
  match acts with
  | [] => Ret e
  | (first, a) :: acts =>
      let! e := if (first : bool) then act a e else let! e := act a (flip e) in Ret (flip e) in
      run acts e
  end.

Definition connected (c : t) : Prop := waiting_connect_ c = false /\ pipe_ c <> -1.

Definition ends_ok (e : ends) : Prop :=
  connected (near e) /\ connected (far e) /\ link_ok (near e) (far e) (forth e) /\ link_ok (far e) (near e) (back e).

(** What an end may be asked, and may meet. *)
Definition allowed (is_server : bool) (a : action) : Prop :=
  match a with
  | Post x m script => unsent is_server m x /\ open_script script
  | Writable script => open_script script
  | Readable _ => True
  end.

Definition post_of (a : action) : list parcel := match a with Post x _ _ => [x] | _ => [] end.

Lemma flip_ok e : ends_ok e -> ends_ok (flip e).
Proof. intros (H1 & H2 & H3 & H4). by split_and!. Qed.

(** A write by the near end, of a queue in order. *)
Lemma writes_ok e tx l queue script xs1 xs2 b :
  ends_ok e -> same_input (near e) tx -> output_queue_ tx = queue -> in_transit tx (far e) l xs1 xs2 b -> link_ok tx (far e) l ->
  open_script script ->
  exists tx' out, out_loop is_directory queue tx script = Ret (Some true, tx', out) /\
    ends_ok (mkEnds tx' (far e) (carry out l) (back e)) /\ same_input tx tx' /\ (eager queue script -> output_queue_ tx' = []).
Proof.
  intros ([C1 C2] & C3 & _ & Hb) (I1 & I2 & I3 & I4 & I5 & I6) Eq Ht Hl Hs. subst queue.
  destruct (out_loop_spec (output_queue_ tx) tx xs2 b script (it_queued _ _ _ _ _ _ Ht) Hs) as (tx' & out & dn & xs' & b' & E & Hsame & Hup & He).
  pose proof Hsame as (J1 & J2 & J3 & J4 & J5 & J6). exists tx', out. split; [done|]. split; [|done]. split_and!.
  - split; cbn; [congruence|]. by rewrite J3, I3.
  - done.
  - by eapply link_write.
  - cbn. eapply link_frame; [exact Hb|done|done|done|congruence..].
Qed.

(** Writing without anything to write. *)
Lemma write_queue_ok e tx l script :
  ends_ok e -> same_input (near e) tx -> link_ok tx (far e) l -> open_script script ->
  exists tx' out, write_queue is_directory tx script = Ret (Some true, tx', out) /\
    ends_ok (mkEnds tx' (far e) (carry out l) (back e)) /\ (eager (output_queue_ tx) script -> output_queue_ tx' = []).
Proof.
  intros He Hsame Hl Hs. pose proof He as ([C1 C2] & C3 & _ & Hb). pose proof Hsame as (I1 & I2 & I3 & I4 & I5 & I6).
  unfold write_queue. rewrite I2, C1. cbn [negb dcheck obind].
  destruct (bool_decide_reflect (output_queue_ tx = [])) as [E|E].
  - exists tx, []. split; [done|]. split; [|done]. split_and!.
    + split; cbn; congruence.
    + done.
    + cbn. unfold carry. cbn. rewrite !app_nil_r. by destruct l.
    + cbn. eapply link_frame; [exact Hb|done|done|done|congruence..].
  - rewrite I3, (proj2 (Z.eqb_neq _ _) C2). destruct (lk_transit _ _ _ Hl) as (xs1 & xs2 & b & Ht).
    destruct (writes_ok e tx l (output_queue_ tx) script xs1 xs2 b He Hsame eq_refl Ht Hl Hs) as (tx' & out & E1 & Hok & _ & Heag).
    by exists tx', out.
Qed.

Lemma outgoing_ok e tx l script :
  ends_ok e -> same_input (near e) tx -> link_ok tx (far e) l -> open_script script ->
  exists tx' out, ProcessOutgoingMessages is_directory tx script = Ret (true, tx', out) /\
    ends_ok (mkEnds tx' (far e) (carry out l) (back e)) /\ (eager (output_queue_ tx) script -> output_queue_ tx' = []).
Proof.
  intros He Hsame Hl Hs. destruct (write_queue_ok e tx l script He Hsame Hl Hs) as (tx' & out & E & H). exists tx', out. split; [|done].
  unfold ProcessOutgoingMessages. by rewrite E.
Qed.

Lemma link_post tx rx l m x :
  link_ok tx rx l -> unsent (server tx) m x ->
  link_ok (set_output (is_blocked_on_write_ tx) (message_send_bytes_written_ tx) (output_queue_ tx ++ [m]) tx) rx (post x l).
Proof.
  intros [(xs1 & xs2 & b & [H1 H2 H3 H4 H5]) L2 L3 L5] Hu. assert (Hq : queued tx (output_queue_ tx ++ [m]) (xs2 ++ [x]) b) by (by apply queued_snoc).
  assert (Eb : bytes_out tx (xs2 ++ [x]) = bytes_out tx xs2 /\ sets_out b (xs2 ++ [x]) = sets_out b xs2).
  { destruct xs2 as [|x0 xs2]; [|done]. destruct (output_queue_ tx); [|done]. destruct H2 as [-> Hw]. cbn. by rewrite Hw. }
  destruct Eb as [Eb Es]. split; [|done|done|done]. exists xs1, (xs2 ++ [x]), b. split; cbn [posted post got bytes controls].
  - by rewrite H1, !app_assoc.
  - exact Hq.
  - done.
  - by rewrite H4, <- Eb.
  - by rewrite H5, Es.
Qed.

Lemma act_ok a e :
  addresses_ok address -> ends_ok e -> allowed (server (near e)) a ->
  exists e', act a e = Ret e' /\ ends_ok e' /\ server (near e') = server (near e) /\ server (far e') = server (far e) /\
    posted (forth e') = posted (forth e) ++ post_of a /\ posted (back e') = posted (back e).
Proof.
  intros Ha He Hal. pose proof He as (Hc & Hc' & Hf & Hb). destruct a as [x m script|script|ns]; cbn [act allowed post_of] in *.
  - destruct Hal as [Hu Hs]. unfold Send. set (tx := set_output _ _ _ (near e)).
    assert (Hl : link_ok tx (far e) (post x (forth e))) by exact (link_post _ _ _ _ _ Hf Hu).
    change (is_blocked_on_write_ tx) with (is_blocked_on_write_ (near e)). change (waiting_connect_ tx) with (waiting_connect_ (near e)).
    destruct (_ && _) eqn:Eb.
    + destruct (outgoing_ok e tx (post x (forth e)) script He) as (tx' & out & -> & Hok & _); [done|done|done|]. cbn [obind snd].
      eexists. split; [done|]. split; [done|]. destruct Hok as (_ & _ & H1 & H2). pose proof (lk_sides _ _ _ Hf). pose proof (lk_sides _ _ _ H1). cbn in *.
      split_and!; [|done..]. destruct (server tx'), (server (near e)); cbn in *; congruence.
    + cbn [obind snd]. eexists. split; [done|]. split; [|done]. split_and!; cbn.
      * done.
      * done.
      * unfold carry. cbn. rewrite !app_nil_r. by destruct Hl.
      * by eapply link_frame.
  - unfold OnFileCanWriteWithoutBlocking. set (tx := set_output _ _ _ (near e)).
    assert (Hl : link_ok tx (far e) (forth e)) by (by eapply link_frame).
    destruct (outgoing_ok e tx (forth e) script He) as (tx' & out & -> & Hok & _); [done|done|done|]. cbn [obind].
    eexists. split; [done|]. split; [done|]. destruct Hok as (_ & _ & H1 & H2). pose proof (lk_sides _ _ _ Hf). pose proof (lk_sides _ _ _ H1). cbn in *.
    rewrite app_nil_r. split_and!; [|done..]. destruct (server tx'), (server (near e)); cbn in *; congruence.
  - unfold OnFileCanReadWithoutBlocking. destruct Hc as [Hw Hp]. rewrite Hw. cbn [andb]. set (rx := set_connection _ _ (near e)).
    assert (Hl : link_ok (far e) rx (back e)) by (by eapply link_frame).
    destruct (link_reads ns (far e) rx (back e) Ha Hl Hp) as (rx' & socket & evs & E1 & Hsame & Hok).
    destruct (kernel_reads ns (bytes (back e))) as [reads rest]. cbn [fst snd] in E1, Hok. rewrite E1. cbn [obind negb].
    destruct Hsame as (S1 & S2 & S3 & S4 & S5 & S6). eexists. split; [done|]. cbn [near far forth back]. rewrite app_nil_r.
    split; [|split_and!; [exact S1|done|cbn; done|done]]. split_and!; cbn.
    + split; [by rewrite S6|by rewrite S2].
    + done.
    + assert (Hf' : link_ok rx' (far e) (forth e)).
      { eapply link_frame; [exact Hf|exact S1|exact S3|exact S5|done|done|done|done]. }
      unfold carry. cbn. rewrite !app_nil_r. by destruct (forth e).
    + done.
Qed.

(** What an end was asked to send. *)
Definition posts (first : bool) (acts : list (bool * action)) : list parcel :=
  flat_map (fun fa => if eqb (fst fa) first then post_of (snd fa) else []) acts.

(** The sides of the two ends are those of [e0]. *)
Definition same_sides (e0 e : ends) : Prop := server (near e) = server (near e0) /\ server (far e) = server (far e0).

Definition all_allowed (e : ends) (acts : list (bool * action)) : Prop :=
  Forall (fun fa => allowed (if fst fa : bool then server (near e) else server (far e)) (snd fa)) acts.

Lemma run_ok acts : forall e,
  addresses_ok address -> ends_ok e -> all_allowed e acts ->
  exists e', run acts e = Ret e' /\ ends_ok e' /\ same_sides e e' /\
    posted (forth e') = posted (forth e) ++ posts true acts /\ posted (back e') = posted (back e) ++ posts false acts.
Proof.
  induction acts as [|[first a] acts IH]; intros e Ha He Hal.
  { exists e. split; [done|]. split; [done|]. split; [done|]. cbn. by rewrite !app_nil_r. }
  apply Forall_cons in Hal as [Hal Hals]. cbn [fst snd] in Hal. cbn [run].
  assert (Hstep : exists e1, (if first then act a e else let! e := act a (flip e) in Ret (flip e)) = Ret e1 /\ ends_ok e1 /\ same_sides e e1 /\
    posted (forth e1) = posted (forth e) ++ posts true [(first, a)] /\ posted (back e1) = posted (back e) ++ posts false [(first, a)]).
  { destruct first.
    - destruct (act_ok a e Ha He Hal) as (e1 & -> & H1 & H2 & H3 & H4 & H5). exists e1. split; [done|]. split; [done|]. split; [done|].
      cbn. by rewrite !app_nil_r.
    - destruct (act_ok a (flip e) Ha (flip_ok e He) Hal) as (e1 & -> & H1 & H2 & H3 & H4 & H5). cbn [obind]. exists (flip e1). split; [done|].
      split; [by apply flip_ok|]. split; [done|]. cbn. by rewrite !app_nil_r. }
  destruct Hstep as (e1 & -> & He1 & [S1 S2] & P1 & P2). cbn [obind].
  destruct (IH e1 Ha He1) as (e2 & E2 & He2 & [T1 T2] & Q1 & Q2).
  { unfold all_allowed in *. by rewrite S1, S2. }
  exists e2. split; [done|]. split; [done|]. split; [split; congruence|]. rewrite Q1, Q2, P1, P2, <- !app_assoc. unfold posts. cbn [flat_map].
  by rewrite !app_nil_r.
Qed.

(** A channel just connected: nothing written or read, and the sockets for descriptors at
    hand. *)
Record just_connected (e : ends) : Prop := {
  jc_connected : connected (near e) /\ connected (far e);
  jc_sides : server (far e) = negb (server (near e));
  jc_fd_pipes : 0 <= fd_pipe_ (near e) /\ 0 <= fd_pipe_ (far e);
  jc_queues : output_queue_ (near e) = [] /\ output_queue_ (far e) = [];
  jc_written : message_send_bytes_written_ (near e) = 0 /\ message_send_bytes_written_ (far e) = 0;
  jc_input : input_overflow_buf_ (near e) = [] /\ input_overflow_buf_ (far e) = [];
  jc_input_fds : input_overflow_fds_ (near e) = [] /\ input_overflow_fds_ (far e) = [];
  jc_links : forth e = mkLink [] [] [] [] /\ back e = mkLink [] [] [] []
}.

Lemma just_connected_ok e : just_connected e -> ends_ok e.
Proof.
  intros [[C1 C2] Hs [F1 F2] [Q1 Q2] [W1 W2] [I1 I2] [J1 J2] [L1 L2]].
  assert (H : forall tx rx, output_queue_ tx = [] -> message_send_bytes_written_ tx = 0 -> input_overflow_buf_ rx = [] -> input_overflow_fds_ rx = [] ->
    0 <= fd_pipe_ rx -> server rx = negb (server tx) -> link_ok tx rx (mkLink [] [] [] [])).
  { intros tx rx H1 H2 H3 H4 H5 H6. split; [|done| |done].
    - exists [], [], false. split; cbn; [done|by rewrite H1|done|by rewrite H3|done].
    - rewrite H3. split; [apply incomplete_nil|done]. }
  split; [done|]. split; [done|]. rewrite L1, L2. split; apply H; try done. rewrite Hs. by destruct (server (near e)).
Qed.

(** What has arrived is the start of what was sent, and all of it when nothing is left. *)
Lemma in_order tx rx l :
  link_ok tx rx l -> (exists late, posted l = got l ++ late) /\ (output_queue_ tx = [] -> bytes l = [] -> posted l = got l).
Proof.
  intros [(xs1 & xs2 & b & [H1 H2 H3 H4 H5]) L2 [L3 L4] L5]. split; [by exists (xs1 ++ xs2)|]. intros Eq Eb.
  rewrite Eq in H2. destruct xs2 as [|x xs2]; [|done]. rewrite Eb, app_nil_r in H4. cbn in H4. rewrite app_nil_r in H4.
  destruct xs1 as [|x xs1]; [by rewrite H1, app_nil_r|]. apply Forall_cons in H3 as [Hx _]. cbn in H4.
  by destruct (L3 _ _ H4 (po_message _ _ Hx)).
Qed.

(** C1: two channels connected to each other, each asked to send any messages and called to
    write and to read in any order, with writes and reads that take any part, or are
    refused: every call returns and the channel stays open, and what the one's listener is
    handed is at all times a first part of what the other was asked to send, in order, each
    message with its own bytes and its own descriptors; and the whole of it once the queue
    and the pipe are empty. *)
Theorem channel_in_order : forall e acts,
  addresses_ok address -> just_connected e -> all_allowed e acts ->
  exists e', run acts e = Ret e' /\ connected (near e') /\ connected (far e') /\
    (exists late, posts true acts = got (forth e') ++ late) /\
    (exists late, posts false acts = got (back e') ++ late) /\
    (output_queue_ (near e') = [] -> bytes (forth e') = [] -> posts true acts = got (forth e')) /\
    (output_queue_ (far e') = [] -> bytes (back e') = [] -> posts false acts = got (back e')).
Proof.
  intros e acts Ha Hj Hal. destruct (run_ok acts e Ha (just_connected_ok e Hj) Hal) as (e' & E & (C1 & C2 & Hf & Hb) & _ & P1 & P2).
  destruct (jc_links _ Hj) as [L1 L2]. rewrite L1 in P1. rewrite L2 in P2. cbn in P1, P2. rewrite <- P1, <- P2.
  destruct (in_order _ _ _ Hf) as [F1 F2]. destruct (in_order _ _ _ Hb) as [B1 B2]. exists e'. by split_and!.
Qed.

(** Enough reads empty the pipe. *)
Lemma reads_all ns : forall bs, (length bs <= length ns)%nat -> snd (kernel_reads ns bs) = [].
Proof.
  induction ns as [|n ns IH]; intros bs H; [destruct bs; [done|cbn in H; lia]|]. destruct bs as [|z bs]; [done|]. cbn [kernel_reads].
  set (k := Nat.max 1 _). specialize (IH (drop k (z :: bs))). destruct (kernel_reads ns (drop k (z :: bs))) as [rs rest].
  cbn [snd] in *. apply IH. rewrite length_drop. cbn in H |- *. unfold k. lia.
Qed.

(** C16: whatever state two connected channels have come to, once the one's pipe takes all
    that is written and the other reads on, everything the one was asked to send has been
    handed to the other's listener. *)
Theorem channel_delivers : forall e acts e' ns script,
  addresses_ok address -> just_connected e -> all_allowed e acts -> run acts e = Ret e' ->
  eager (output_queue_ (near e')) script ->
  (forall e2, run [(true, Writable script)] e' = Ret e2 -> (length (bytes (forth e2)) <= length ns)%nat) ->
  exists e3, run [(true, Writable script); (false, Readable ns)] e' = Ret e3 /\ got (forth e3) = posts true acts /\
    output_queue_ (near e3) = [] /\ bytes (forth e3) = [].
Proof.
  intros e acts e' ns script Ha Hj Hal E [He1 He2] Hns.
  destruct (run_ok acts e Ha (just_connected_ok e Hj) Hal) as (e0 & E0 & Hok & [S1 S2] & P1 & _). rewrite E in E0. injection E0 as <-.
  destruct (jc_links _ Hj) as [L1 _]. rewrite L1 in P1. cbn in P1.
  assert (Hs : open_script script) by (eapply Forall_impl; [exact He1|]; by intros r ->).
  assert (Hw : exists e2, act (Writable script) e' = Ret e2 /\ ends_ok e2 /\ output_queue_ (near e2) = [] /\ posted (forth e2) = posts true acts).
  { cbn [act]. unfold OnFileCanWriteWithoutBlocking. set (tx := set_output _ _ _ (near e')). destruct Hok as (C1 & C2 & Hf & Hb).
    assert (Hl : link_ok tx (far e') (forth e')) by (by eapply link_frame).
    destruct (outgoing_ok e' tx (forth e') script (conj C1 (conj C2 (conj Hf Hb)))) as (tx' & out & -> & Hok' & Heag); [done|done|done|].
    cbn [obind]. eexists. split; [done|]. split; [done|]. split; [by apply Heag|exact P1]. }
  destruct Hw as (e2 & E2 & Hok2 & Hq & Hp). cbn [run] in Hns |- *. rewrite E2 in Hns |- *. cbn [obind] in Hns |- *. specialize (Hns e2 eq_refl).
  pose proof Hok2 as (C1 & C2 & Hf2 & Hb2).
  destruct (act_ok (Readable ns) (flip e2) Ha (flip_ok _ Hok2) I) as (e3 & E3 & Hok3 & _ & _ & Hp3 & Hp3').
  rewrite E3. cbn [obind run]. exists (flip e3). split; [done|]. pose proof Hok3 as (D1 & D2 & Hf3 & Hb3).
  assert (Hsame : output_queue_ (far e3) = [] /\ bytes (back e3) = []).
  { cbn [act flip near far forth back] in E3. pose proof (reads_all ns (bytes (forth e2)) Hns) as Hr.
    destruct (kernel_reads ns (bytes (forth e2))) as [reads rest]. cbn [snd] in Hr. inv_outcome. cbn. done. }
  destruct Hsame as [Hq3 Hb3e]. destruct (in_order _ _ _ Hb3) as [_ Hall]. cbn [flip near far forth back] in *.
  split; [|done]. rewrite <- (Hall Hq3 Hb3e), Hp3'. exact Hp.
Qed.

End Transfer.

(** ** Examples

    The server sends a hello, then a message with two descriptors; the client sends one
    without.  Writes take a part, or nothing. *)
Definition demo_message_of (D fds : list Z) : Message.t :=
  Message.mk (Pickle.mk 4096 20 64 0 D) (Some (FileDescriptorSet.mk (map (fun n => FileDescriptorSet.mkFD n false) fds) 0)).

Definition demo_ends : ends :=
  mkEnds (mk true false false 0 3 5 [] [] []) (mk false false false 0 4 6 [] [] []) (mkLink [] [] [] []) (mkLink [] [] [] []).

Definition demo_acts : list (bool * action) :=
  [(true, Post (demo_hello, []) (demo_message_of demo_hello []) [Wrote 9]);
   (false, Readable [4096%nat]);
   (true, Post (demo_message, [11; 12]) (demo_message_of demo_plain [11; 12]) []);
   (false, Post (demo_plain, []) (demo_message_of demo_plain []) [Wrote 20]);
   (true, Writable [Wrote 100; Wrote 1; Wrote 7]);
   (false, Readable [3%nat; 4096%nat]);
   (true, Readable [5%nat; 6%nat; 4096%nat]);
   (true, Writable [WouldBlock]);
   (true, Writable [Wrote 13])].

Definition demo_run : outcome ends := run (fun _ => false) (fun _ => 4096) demo_acts demo_ends.

Example demo_run_evaluated :
  (let! e := demo_run in Ret (got (forth e), bytes (forth e), controls (forth e), got (back e), bytes (back e), input_overflow_buf_ (far e)))
  = Ret ([(demo_hello, [])], drop 7 demo_message, [mkControl [11; 12] false], [(demo_plain, [])], [], take 7 demo_message).
Proof. vm_compute. reflexivity. Qed.

Lemma demo_parcel srv m fds :
  is_message m -> forallb (fun b => (0 <=? b) && (b <? 256)) m = true -> Z.of_nat (length m) <= 100 ->
  num_fds_of m = Z.of_nat (length fds) -> (length fds <= 5)%nat -> Forall is_fd fds ->
  (is_hello_of m = true -> fds = [] /\ srv = true /\ (24 <= length m)%nat) -> parcel_ok (fun _ => false) srv (m, fds).
Proof.
  intros H1 H2 H3 H4 H5 H6 H7. split; cbn [fst snd]; [done|by apply bytes_u8| |split; [done|lia]| |done].
  - unfold kLargestSent, kMaximumMessageSize, kReadBufferSize. lia.
  - split; [done|]. clear. by induction fds.
Qed.

Lemma demo_unsent srv D fds x :
  parcel_ok (fun _ => false) srv (x, fds) -> forallb (fun b => (0 <=? b) && (b <? 256)) D = true -> is_message D -> Z.of_nat (length D) <= 100 ->
  x = (if bool_decide (fds = []) then D else with_num_fds (Z.of_nat (length fds)) D) ->
  unsent (fun _ => false) srv (demo_message_of D fds) (x, fds).
Proof.
  intros Hx Hb [Hm1 Hm2] Hl E. split; [done|]. split; [done|]. split.
  { unfold FileDescriptorSet.GetDescriptors. cbn. by rewrite map_map, map_id. }
  exists D. split; [|done]. split; cbn [Message.pickle demo_message_of header_size_ mem_].
  - split; cbn [header_ mem_]; [lia|lia|by apply bytes_u8].
  - lia.
  - done.
  - by rewrite take_ge.
  - lia.
Qed.

Lemma demo_allowed : all_allowed (fun _ => false) demo_ends demo_acts.
Proof.
  assert (Hh : unsent (fun _ => false) true (demo_message_of demo_hello []) (demo_hello, [])).
  { apply demo_unsent; [apply demo_parcel|..]; try done; try (split; cbn; lia); try (cbn; lia). }
  assert (Hm : unsent (fun _ => false) true (demo_message_of demo_plain [11; 12]) (demo_message, [11; 12])).
  { apply demo_unsent; [apply demo_parcel|..]; try done; try (split; cbn; lia); try (cbn; lia). repeat constructor; unfold is_fd; lia. }
  assert (Hp : unsent (fun _ => false) false (demo_message_of demo_plain []) (demo_plain, [])).
  { apply demo_unsent; [apply demo_parcel|..]; try done; try (split; cbn; lia); try (cbn; lia). }
  unfold all_allowed, demo_acts. repeat (apply Forall_cons; split); cbn [fst snd allowed]; try done; try (split; [done|]); unfold open_script; repeat constructor.
Qed.

Lemma demo_connected : just_connected demo_ends.
Proof. by repeat split. Qed.

Lemma channel_in_order_witness :
  exists e', run (fun _ => false) (fun _ => 4096) demo_acts demo_ends = Ret e' /\ connected (near e') /\ connected (far e') /\
    (exists late, [(demo_hello, []); (demo_message, [11; 12])] = got (forth e') ++ late) /\
    (exists late, [(demo_plain, [])] = got (back e') ++ late) /\
    (output_queue_ (near e') = [] -> bytes (forth e') = [] -> [(demo_hello, []); (demo_message, [11; 12])] = got (forth e')) /\
    (output_queue_ (far e') = [] -> bytes (back e') = [] -> [(demo_plain, [])] = got (back e')).
Proof.
  apply (channel_in_order (fun _ => false) (fun _ => 4096) demo_ends demo_acts demo_addresses demo_connected demo_allowed).
Defined.

(** Two writes of the whole queue, and reads of four thousand bytes at a time. *)
Definition demo_script : list write_result := repeat (Wrote kMaximumMessageSize) 4.

Definition demo_state : ends := match demo_run with Ret e => e | _ => demo_ends end.

Lemma demo_state_run : run (fun _ => false) (fun _ => 4096) demo_acts demo_ends = Ret demo_state.
Proof. vm_compute. reflexivity. Qed.

Lemma demo_state_eager : eager (output_queue_ (near demo_state)) demo_script.
Proof. split; [repeat constructor|]. apply Nat.leb_le. vm_compute. reflexivity. Qed.

Lemma demo_state_bytes :
  match run (fun _ => false) (fun _ => 4096) [(true, Writable demo_script)] demo_state with Ret e2 => Nat.leb (length (bytes (forth e2))) 40 | _ => true end = true.
Proof. vm_compute. reflexivity. Qed.

Lemma channel_delivers_witness :
  exists e3, run (fun _ => false) (fun _ => 4096) [(true, Writable demo_script); (false, Readable (repeat 4096%nat 40))] demo_state = Ret e3 /\
    got (forth e3) = posts true demo_acts /\ output_queue_ (near e3) = [] /\ bytes (forth e3) = [].
Proof.
  apply (channel_delivers (fun _ => false) (fun _ => 4096) demo_ends demo_acts demo_state (repeat 4096%nat 40) demo_script
    demo_addresses demo_connected demo_allowed demo_state_run demo_state_eager).
  intros e2 E2. pose proof demo_state_bytes as Hb. rewrite E2 in Hb. apply Nat.leb_le in Hb. rewrite repeat_length. exact Hb.
Defined.

End Pipe.
