(* ===== verification/IpcValues.v ===== *)
(** Messages with values and descriptors in them, over [ipc/ipc_message.cc]: what a message
    is made of when it is built, sent through a channel and read by the other process. *)
From S2P Require Import Prelude.
From S2P Require Import GpuMappedMemory.
From S2P Require Import BasePickle.
From S2P Require Import BasePickleTypes.
From S2P Require Import IpcMessage.
From S2P Require Import IpcChannel.
From S2P Require Import IpcFrames.
From S2P Require Import IpcPipe.

Module Values.
Import Pickle.
Import PickleTypes.
Import Channel.
Import Frames.
Import Pipe.

(** The header after the payload size. *)
Definition header_words (routing_id type flags n : Z) : list Z :=
  le_encode 4 routing_id ++ le_encode 4 type ++ le_encode 4 flags ++ le_encode 2 n ++ le_encode 2 0.

Lemma header_words_length r t f n : length (header_words r t f n) = 16%nat.
Proof. unfold header_words. by rewrite !length_app, !le_encode_length. Qed.

(** Descriptors added one after the other. *)
Fixpoint add_all (fds : list FileDescriptorSet.FileDescriptor) (s : FileDescriptorSet.t) : option FileDescriptorSet.t :=
  match fds with
  | [] => Some s
  | d :: fds =>
      match FileDescriptorSet.add (FileDescriptorSet.fd d) (FileDescriptorSet.auto_close d) s with
      | Some s => add_all fds s
      | None => None
      end
  end.

(** A set takes five, then none. *)
Lemma add_all_spec fds s :
  (length (FileDescriptorSet.descriptors_ s) <= 5)%nat ->
  add_all fds s =
    if bool_decide (length (FileDescriptorSet.descriptors_ s ++ fds) <= 5)%nat
    then Some (FileDescriptorSet.mk (FileDescriptorSet.descriptors_ s ++ fds) (FileDescriptorSet.consumed_descriptor_highwater_ s)) else None.
Proof.
  revert s. induction fds as [|d fds IH]; intros s Hs; cbn [add_all].
  - rewrite app_nil_r, bool_decide_eq_true_2 by done. by destruct s.
  - unfold FileDescriptorSet.add, FileDescriptorSet.size, FileDescriptorSet.kMaxDescriptorsPerMessage.
    destruct (Z.eqb_spec (Z.of_nat (length (FileDescriptorSet.descriptors_ s))) 5) as [E|E].
    + rewrite bool_decide_eq_false_2; [done|]. rewrite length_app. cbn. lia.
    + rewrite IH by (cbn; rewrite length_app; cbn; lia). cbn. destruct d as [n c]. cbn. by rewrite <- app_assoc.
Qed.

Section Built.
Context {H : Type} `{HL : HeapLaws H}.

(** Setting a part of the header. *)
Lemma set_field_spec offset n v p a m b B :
  writable p (a ++ m ++ b) B -> length (a ++ m ++ b) = 16%nat -> length m = n -> offset = 4 + Z.of_nat (length a) ->
  exists p', Message.set_header_field offset n v p = Ret p' /\ writable p' (a ++ le_encode n v ++ b) B.
Proof.
  intros Hw Hl Hm ->. pose proof Hw as [Hb [Hh Hmod] Hc [rest Hmem]]. unfold Message.set_header_field. rewrite Hh, Hl.
  change (Z.of_nat (4 + 16) =? Message.sizeof_Header) with true. cbn [dcheck obind].
  assert (Hmem' : mem_ p = (le_encode 4 (Z.of_nat (length B)) ++ a) ++ m ++ b ++ B ++ repeat 0 (padding (length B)) ++ rest).
  { rewrite Hmem, <- !app_assoc. done. }
  rewrite (store_part _ _ p _ m _ Hb Hmem'); [|by rewrite le_encode_length|rewrite length_app, le_encode_length; lia].
  eexists. split; [done|]. split; cbn [set_mem header_size_ capacity_ mem_].
  - apply (set_mem_block p _ m); [done|done|by rewrite le_encode_length|apply le_encode_u8].
  - assert (El : length (a ++ le_encode n v ++ b) = length (a ++ m ++ b)) by (rewrite !length_app, le_encode_length; lia). by rewrite El.
  - destruct Hc as [Hc Hcm]. split; [|done]. rewrite Hc, Hmem'. rewrite !length_app, !le_encode_length, Hm. done.
  - exists rest. by rewrite <- !app_assoc.
Qed.

Lemma new_Message_spec r t f h :
  match realloc NULL kPayloadUnit h with
  | (None, _) => Message.new_Message r t f h = Crash
  | (Some _, h') => exists p, Message.new_Message r t f h = Ret (Message.mk p None, h') /\ writable p (header_words r t f 0) []
  end.
Proof.
  pose proof (new_with_header_spec (H := H) 16 h eq_refl ltac:(lia)) as Hnew. change (Z.of_nat (4 + 16)) with Message.sizeof_Header in Hnew.
  assert (E0 : new_Pickle_header Message.sizeof_Header h = new_with_header Message.sizeof_Header h) by done.
  unfold Message.new_Message. rewrite E0. destruct (realloc NULL kPayloadUnit h) as [[q|] h']; [|by rewrite Hnew].
  destruct Hnew as (p & extra & -> & Hw & Hl & _). cbn [obind].
  assert (Hsplit : exists e1 e2 e3 e4 e5, extra = e1 ++ e2 ++ e3 ++ e4 ++ e5 /\ length e1 = 4%nat /\ length e2 = 4%nat /\ length e3 = 4%nat /\
    length e4 = 2%nat /\ length e5 = 2%nat).
  { exists (take 4 extra), (take 4 (drop 4 extra)), (take 4 (drop 8 extra)), (take 2 (drop 12 extra)), (drop 14 extra).
    split; [|rewrite !length_take, !length_drop; lia]. rewrite <- (take_drop 4 extra) at 1. f_equal.
    rewrite <- (take_drop 4 (drop 4 extra)) at 1. f_equal. rewrite drop_drop. rewrite <- (take_drop 4 (drop (4 + 4) extra)) at 1. f_equal.
    rewrite drop_drop. rewrite <- (take_drop 2 (drop (4 + 4 + 4) extra)) at 1. f_equal. by rewrite drop_drop. }
  destruct Hsplit as (e1 & e2 & e3 & e4 & e5 & -> & L1 & L2 & L3 & L4 & L5).
  destruct (set_field_spec Message.routing_offset 4 r p [] e1 (e2 ++ e3 ++ e4 ++ e5) [] Hw Hl L1 eq_refl) as (p1 & -> & Hw1). cbn [obind app] in *.
  destruct (set_field_spec Message.type_offset 4 t p1 (le_encode 4 r) e2 (e3 ++ e4 ++ e5) [] Hw1) as (p2 & -> & Hw2);
    [rewrite !length_app, !le_encode_length; lia|done|done|]. cbn [obind]. rewrite app_assoc in Hw2.
  destruct (set_field_spec Message.flags_offset 4 f p2 (le_encode 4 r ++ le_encode 4 t) e3 (e4 ++ e5) [] Hw2) as (p3 & -> & Hw3);
    [rewrite !length_app, !le_encode_length; lia|done|done|]. cbn [obind]. rewrite app_assoc in Hw3.
  destruct (set_field_spec Message.num_fds_offset 2 0 p3 ((le_encode 4 r ++ le_encode 4 t) ++ le_encode 4 f) e4 e5 [] Hw3) as (p4 & E4 & Hw4);
    [rewrite !length_app, !le_encode_length; lia|done|done|]. rewrite E4. cbn [obind]. rewrite app_assoc in Hw4.
  destruct (set_field_spec Message.pad_offset 2 0 p4 (((le_encode 4 r ++ le_encode 4 t) ++ le_encode 4 f) ++ le_encode 2 0) e5 [] []) as (p5 & E5 & Hw5);
    [by rewrite app_nil_r|rewrite app_nil_r, !length_app, !le_encode_length; lia|done|done|]. rewrite E5. cbn [obind].
  exists p5. split; [done|]. unfold header_words. rewrite app_nil_r, <- !app_assoc in Hw5. done.
Qed.

(** A message with its number of descriptors set. *)
Lemma with_num_fds_words n r t f B : with_num_fds n (data_of (header_words r t f 0) B) = data_of (header_words r t f n) B.
Proof.
  unfold with_num_fds, data_of, header_words.
  set (a := le_encode 4 (Z.of_nat (length B)) ++ le_encode 4 r ++ le_encode 4 t ++ le_encode 4 f).
  pose proof (splice_app a (le_encode 2 0) (le_encode 2 n) (le_encode 2 0 ++ B)) as E. rewrite !le_encode_length in E.
  assert (La : length a = 16%nat) by (unfold a; by rewrite !length_app, !le_encode_length). rewrite La in E. unfold a in E. rewrite <- !app_assoc in E.
  rewrite <- !app_assoc. by apply E.
Qed.

Lemma data_u8 r t f n B : Forall is_u8 B -> Forall is_u8 (data_of (header_words r t f n) B).
Proof. intros HB. unfold data_of, header_words. rewrite !Forall_app. repeat split; auto using le_encode_u8. Qed.

End Built.

(** Fields of the header. *)
Lemma field_at (c a d : list Z) offset n : offset = length c -> n = length a -> field offset n (c ++ a ++ d) = le_value a.
Proof. intros -> ->. unfold field. by rewrite drop_app_length, take_app_length. Qed.

Lemma words_fields r t f n B :
  let m := data_of (header_words r t f n) B in
  le_value (take 4 m) = Z.of_nat (length B) mod 2 ^ 32 /\ field 4 4 m = r mod 2 ^ 32 /\ field 8 4 m = t mod 2 ^ 32 /\ num_fds_of m = n mod 2 ^ 16.
Proof.
  cbv zeta. unfold num_fds_of, data_of, header_words. rewrite <- !app_assoc. set (s := le_encode 4 (Z.of_nat (length B))).
  assert (Ls : length s = 4%nat) by apply le_encode_length.
  split; [rewrite take_app_length' by done; apply (le_value_encode 4)|].
  split; [rewrite (field_at s) by (rewrite ?le_encode_length; done); apply (le_value_encode 4)|].
  split.
  - rewrite (app_assoc s), (field_at (s ++ le_encode 4 r)) by (rewrite ?length_app, ?le_encode_length; lia). apply (le_value_encode 4).
  - rewrite (app_assoc s), (app_assoc (s ++ _)), (app_assoc ((s ++ _) ++ _)).
    rewrite (field_at (((s ++ le_encode 4 r) ++ le_encode 4 t) ++ le_encode 4 f)) by (rewrite ?length_app, ?le_encode_length; lia). apply (le_value_encode 2).
Qed.

(** A routing identifier and a type that are not those of the hello message. *)
Definition not_hello (routing_id type : Z) : Prop :=
  is_i32 routing_id /\ is_u32 type /\ ~ (routing_id = Message.MSG_ROUTING_NONE /\ type = Message.HELLO_MESSAGE_TYPE).

Lemma words_not_hello r t f n B : not_hello r t -> is_hello_of (data_of (header_words r t f n) B) = false.
Proof.
  intros (Hr & Ht & Hn). destruct (words_fields r t f n B) as (_ & E4 & E8 & _). unfold is_hello_of. rewrite E4, E8, (i32_mod r Hr).
  rewrite (Z.mod_small t) by apply Ht. apply andb_false_iff. destruct (Z.eqb_spec r Message.MSG_ROUTING_NONE) as [E1|E1]; [|by left].
  right. apply Z.eqb_neq. intros E2. by apply Hn.
Qed.

Section Sent.
Context (is_directory : Z -> bool).

(** Descriptors that can be sent. *)
Definition sendable (fds : list Z) : Prop := (length fds <= 5)%nat /\ Forall is_fd fds /\ existsb is_directory fds = false.

Lemma words_parcel srv r t f B fds :
  not_hello r t -> sendable fds -> Forall is_u8 B -> Z.of_nat (20 + length B) <= kLargestSent ->
  parcel_ok is_directory srv (data_of (header_words r t f (Z.of_nat (length fds))) B, fds).
Proof.
  intros Hh (F1 & F2 & F3) HB Hs. destruct (words_fields r t f (Z.of_nat (length fds)) B) as (E0 & _ & _ & E16).
  assert (Hl : length (data_of (header_words r t f (Z.of_nat (length fds))) B) = (20 + length B)%nat) by (rewrite data_of_length, header_words_length; lia).
  unfold kLargestSent, kMaximumMessageSize, kReadBufferSize in *.
  split; cbn [fst snd].
  - unfold is_message. rewrite Hl, E0, Z.mod_small by lia. lia.
  - by apply data_u8.
  - rewrite Hl. unfold kLargestSent, kMaximumMessageSize, kReadBufferSize. lia.
  - rewrite E16, Z.mod_small by lia. lia.
  - done.
  - by rewrite words_not_hello.
Qed.

Lemma payload_u8 p extra B : writable p extra B -> Forall is_u8 B.
Proof. intros [Hb _ _ [rest Hmem]]. pose proof (blk_bytes _ Hb) as Hu. rewrite Hmem in Hu. rewrite !Forall_app in Hu. tauto. Qed.

Lemma built_unsent srv p r t f B fds :
  writable p (header_words r t f 0) B -> not_hello r t -> sendable (map FileDescriptorSet.fd fds) -> Z.of_nat (20 + length B) <= kLargestSent ->
  unsent is_directory srv (Message.mk p (Some (FileDescriptorSet.mk fds 0)))
    (data_of (header_words r t f (Z.of_nat (length fds))) B, map FileDescriptorSet.fd fds).
Proof.
  intros Hw Hh Hf Hs. pose proof (words_parcel srv r t f B (map FileDescriptorSet.fd fds) Hh Hf (payload_u8 _ _ _ Hw) Hs) as Hx.
  rewrite length_map in Hx. split; [done|]. cbn [Message.pickle]. split.
  { destruct (wr_header _ _ _ Hw) as [E _]. by rewrite E, header_words_length. }
  split; [done|]. exists (data_of (header_words r t f 0) B). split; [by apply writable_readable|]. cbn [fst snd].
  case_bool_decide as E; [by destruct fds|]. by rewrite length_map, with_num_fds_words.
Qed.

(** C15: a message built from values and descriptors and sent goes over the channel as bytes
    that depend on the values, the header and the number of descriptors only, fit to be
    sent; and the process that receives them reads the values back, in order, and no
    more. *)
Theorem built_message_carries : forall {H : Type} `{HL : HeapLaws H} srv routing_id type priority fs fds (h : H),
  not_hello routing_id type -> sendable (map FileDescriptorSet.fd fds) -> Forall field_valid fs ->
  Z.of_nat (20 + length (payload_of fs)) <= kLargestSent ->
  match realloc NULL kPayloadUnit h with
  | (None, _) => Message.new_Message routing_id type priority h = Crash
  | (Some _, h0) => exists m ok p h',
      Message.new_Message routing_id type priority h = Ret (m, h0) /\ write_all fs (Message.pickle m) h0 = Ret (ok, p, h') /\
      (ok = true -> exists s, add_all fds (Message.file_descriptor_set m) = Some s /\
         let D := data_of (header_words routing_id type priority (Z.of_nat (length fds))) (payload_of fs) in
         unsent is_directory srv (Message.mk p (Some s)) (D, map FileDescriptorSet.fd fds) /\ delivers D fs)
  end.
Proof.
  intros H HH HL srv r t f fs fds h Hh Hf Hv Hs. pose proof (new_Message_spec (H := H) r t f h) as Hnew.
  destruct (realloc NULL kPayloadUnit h) as [[q|] h0]; [|done]. destruct Hnew as (p0 & -> & Hw0).
  pose proof Hs as Hs'. unfold kLargestSent, kMaximumMessageSize, kReadBufferSize in Hs'.
  destruct (write_all_appends fs p0 h0 _ [] Hw0 Hv) as (ok & p & h' & E & Hok).
  { unfold fits. rewrite header_words_length. change (layout [] (flat_map field_chunks fs)) with (payload_of fs). lia. }
  exists (Message.mk p0 None), ok, p, h'. split; [done|]. split; [done|]. intros Ho. specialize (Hok Ho).
  change (layout [] (flat_map field_chunks fs)) with (payload_of fs) in Hok. pose proof Hf as (F1 & _). rewrite length_map in F1.
  rewrite add_all_spec by (cbn; lia). cbn [Message.file_descriptor_set Message.file_descriptor_set_ default from_option FileDescriptorSet.init FileDescriptorSet.descriptors_ FileDescriptorSet.consumed_descriptor_highwater_ app].
  rewrite bool_decide_eq_true_2 by done. eexists. split; [done|]. cbv zeta. split; [by apply built_unsent|].
  apply data_delivers; [apply data_u8; by eapply payload_u8|by rewrite header_words_length|rewrite data_of_length, header_words_length; lia|done].
Qed.

End Sent.

(** ** Example *)

Definition demo_sent_fds : list FileDescriptorSet.FileDescriptor := [FileDescriptorSet.mkFD 11 false; FileDescriptorSet.mkFD 12 true].

Lemma built_message_carries_witness :
  exists m ok p h', Message.new_Message 7 66 2 demo_heap = Ret (m, 4160) /\ write_all demo_fields (Message.pickle m) 4160 = Ret (ok, p, h') /\
    (ok = true -> exists s, add_all demo_sent_fds (Message.file_descriptor_set m) = Some s /\
       let D := data_of (header_words 7 66 2 2) (payload_of demo_fields) in
       unsent (fun _ => false) true (Message.mk p (Some s)) (D, [11; 12]) /\ delivers D demo_fields).
Proof.
  assert (Hh : not_hello 7 66) by (split; [unfold is_i32; lia|]; split; [unfold is_u32; lia|]; by intros [? _]).
  assert (Hf : sendable (fun _ => false) (map FileDescriptorSet.fd demo_sent_fds)).
  { split; [cbn; lia|]. split; [repeat constructor; unfold is_fd; cbn; lia|done]. }
  assert (Hs : Z.of_nat (20 + length (payload_of demo_fields)) <= kLargestSent) by (apply Z.leb_le; vm_compute; reflexivity).
  pose proof (built_message_carries (fun _ => false) true 7 66 2 demo_fields demo_sent_fds demo_heap Hh Hf demo_fields_valid Hs) as W.
  change (realloc NULL kPayloadUnit demo_heap) with (Some (4096, repeat 205 64), 4160) in W. exact W.
Defined.

End Values.
