(* ===== verification/IpcConnection.v ===== *)
(** The making and unmaking of connections, [ipc/ipc_channel_posix.cc]: sockets, the map of
    pipe names, the hello message, and the handlers of a listening and of a connected
    socket. *)
From S2P Require Import Prelude.
From S2P Require Import GpuMappedMemory.
From S2P Require Import BasePickle.
From S2P Require Import BasePickleTypes.
From S2P Require Import IpcMessage.
From S2P Require Import IpcChannel.

Module Connection.
Import Channel.

(** [Channel::ModeFlags]. *)
Definition MODE_SERVER_FLAG : Z := 0x1.
Definition MODE_CLIENT_FLAG : Z := 0x2.
Definition MODE_NAMED_FLAG : Z := 0x4.
Definition MODE_OPEN_ACCESS_FLAG : Z := 0x8.

Definition has_flag (mode flag : Z) : bool := negb (Z.land mode flag =? 0).

Definition kMaxPipeNameLength : Z := 104.
Definition PRIORITY_NORMAL : Z := 2.

(** ** The operating system

    The calls made, [None] or [false] when they fail, and the descriptors this process has
    open.  Names are bytes. *)
Class Sockets (K : Type) := {
  socketpair : K -> option (Z * Z) * K;
  socket : K -> option Z * K;
  dup : Z -> K -> option Z * K;
  accept : Z -> K -> option Z * K;
  set_nonblocking : Z -> K -> bool * K;
  is_nonblocking : Z -> K -> option bool;
  create_directory_of : list Z -> K -> bool * K;
  bind : Z -> list Z -> K -> bool * K;
  listen : Z -> K -> bool * K;
  connect : Z -> list Z -> K -> bool * K;
  unlink : list Z -> K -> K;
  close : Z -> K -> K;
  peer_euid : Z -> K -> option Z;
  geteuid : K -> Z;
  getpid : K -> Z;
  primary_channel : K -> Z
}.

Section Code.
Context {K : Type} `{!Sockets K}.

Definition SocketPair (k : K) : option (Z * Z) * K :=
  match socketpair k with
  | (None, k) => (None, k)
  | (Some (fd1, fd2), k) =>
      let '(ok, k) := set_nonblocking fd1 k in
      let '(ok, k) := if ok then set_nonblocking fd2 k else (false, k) in
      if ok then (Some (fd1, fd2), k) else (None, close fd2 (close fd1 k))
  end.

(** A socket by name; the name has no zero byte in it. *)
Definition name_ok (pipe_name : list Z) : bool :=
  (0 <? Z.of_nat (length pipe_name)) && (Z.of_nat (length pipe_name) <? kMaxPipeNameLength).

Definition CreateServerUnixDomainSocket (pipe_name : list Z) (k : K) : outcome (option Z * K) :=
  if negb (name_ok pipe_name) then Ret (None, k)
  else
    match socket k with
    | (None, k) => Ret (None, k)
    | (Some fd, k) =>
        let '(ok, k) := set_nonblocking fd k in
        if negb ok then Ret (None, close fd k)
        else
          let k := unlink pipe_name k in
          let '(ok, k) := create_directory_of pipe_name k in
          if negb ok then Ret (None, close fd k)
          else
            check! negb (bool_decide (0 ∈ pipe_name));
            let '(ok, k) := bind fd pipe_name k in
            if negb ok then Ret (None, close fd k)
            else let '(ok, k) := listen fd k in Ret (if ok then (Some fd, k) else (None, close fd k))
    end.

Definition CreateClientUnixDomainSocket (pipe_name : list Z) (k : K) : outcome (option Z * K) :=
  check! name_ok pipe_name;
  match socket k with
  | (None, k) => Ret (None, k)
  | (Some fd, k) =>
      let '(ok, k) := set_nonblocking fd k in
      if negb ok then Ret (None, close fd k)
      else
        check! negb (bool_decide (0 ∈ pipe_name));
        let '(ok, k) := connect fd pipe_name k in Ret (if ok then (Some fd, k) else (None, close fd k))
  end.

Definition ServerAcceptConnection (server_listen_fd : Z) (k : K) : option Z * K :=
  match accept server_listen_fd k with
  | (None, k) => (None, k)
  | (Some fd, k) => let '(ok, k) := set_nonblocking fd k in if ok then (Some fd, k) else (None, close fd k)
  end.

(** ** Data *)

(** [ChannelImpl]: the channel of [IpcChannel] and the fields for connections. *)
Record t := mk {
  channel : Channel.t;
  mode_ : Z;
  server_listen_pipe_ : Z;
  client_pipe_ : Z;
  remote_fd_pipe_ : Z;
  must_unlink_ : bool;
  pipe_name_ : list Z
}.

Definition set_channel (ch : Channel.t) (c : t) : t :=
  mk ch (mode_ c) (server_listen_pipe_ c) (client_pipe_ c) (remote_fd_pipe_ c) (must_unlink_ c) (pipe_name_ c).
Definition set_listen (fd : Z) (unlink : bool) (c : t) : t :=
  mk (channel c) (mode_ c) fd (client_pipe_ c) (remote_fd_pipe_ c) unlink (pipe_name_ c).
Definition set_client_pipe (fd : Z) (c : t) : t :=
  mk (channel c) (mode_ c) (server_listen_pipe_ c) fd (remote_fd_pipe_ c) (must_unlink_ c) (pipe_name_ c).
Definition set_remote (fd : Z) (c : t) : t :=
  mk (channel c) (mode_ c) (server_listen_pipe_ c) (client_pipe_ c) fd (must_unlink_ c) (pipe_name_ c).
Definition set_pipe (fd : Z) (c : t) : t := set_channel (set_connection (waiting_connect_ (channel c)) fd (channel c)) c.
Definition set_waiting (b : bool) (c : t) : t := set_channel (set_connection b (pipe_ (channel c)) (channel c)) c.

(** The process: its kernel state, the [PipeMap], and whether the initial channel was used. *)
Record world := mkWorld { kernel : K; pipe_map : gmap (list Z) Z; used_initial_channel : bool }.

Definition set_kernel (k : K) (w : world) : world := mkWorld k (pipe_map w) (used_initial_channel w).

(** [PipeMap]. *)
Definition Lookup (channel_id : list Z) (w : world) : Z := default (-1) (pipe_map w !! channel_id).
Definition Remove (channel_id : list Z) (w : world) : world := mkWorld (kernel w) (delete channel_id (pipe_map w)) (used_initial_channel w).
Definition Insert (channel_id : list Z) (fd : Z) (w : world) : outcome world :=
  check! negb (fd =? -1);
  check! bool_decide (pipe_map w !! channel_id = None);
  Ret (mkWorld (kernel w) (<[channel_id := fd]> (pipe_map w)) (used_initial_channel w)).

Definition is_server (c : t) : bool := has_flag (mode_ c) MODE_SERVER_FLAG.
Definition is_client (c : t) : bool := has_flag (mode_ c) MODE_CLIENT_FLAG.
Definition is_named (c : t) : bool := has_flag (mode_ c) MODE_NAMED_FLAG.

Definition AcceptsConnections (c : t) : bool := negb (server_listen_pipe_ c =? -1).
Definition HasAcceptedConnection (c : t) : bool := AcceptsConnections c && negb (pipe_ (channel c) =? -1).

(** ** Making the pipe *)

(** [local_pipe], or the failure of [CreatePipe]. *)
Definition local_pipe (handle : Z) (c : t) (w : world) : outcome (option Z * t * world) :=
  if negb (handle =? -1) then
    Ret (match is_nonblocking handle (kernel w) with Some true => Some handle | _ => None end, c, w)
  else if is_named c then
    if is_server c then
      let! '(o, k) := CreateServerUnixDomainSocket (pipe_name_ c) (kernel w) in
      Ret (o, if o then set_listen (server_listen_pipe_ c) true c else c, set_kernel k w)
    else if is_client c then
      let! '(o, k) := CreateClientUnixDomainSocket (pipe_name_ c) (kernel w) in Ret (o, c, set_kernel k w)
    else Ret (None, c, w)
  else
    let found := Lookup (pipe_name_ c) w in
    if is_client c then
      if negb (found =? -1) then
        let '(o, k) := dup found (kernel w) in Ret (Some (default (-1) o), c, Remove (pipe_name_ c) (set_kernel k w))
      else
        check! negb (used_initial_channel w);
        check! negb (primary_channel (kernel w) =? -1);
        Ret (Some (primary_channel (kernel w)), c, mkWorld (kernel w) (pipe_map w) true)
    else if is_server c then
      if negb (found =? -1) then Ret (None, c, w)
      else
        match SocketPair (kernel w) with
        | (None, k) => Ret (None, c, set_kernel k w)
        | (Some (fd, client), k) => let! w := Insert (pipe_name_ c) client (set_kernel k w) in Ret (Some fd, set_client_pipe client c, w)
        end
    else Ret (None, c, w).

Definition CreatePipe (handle : Z) (c : t) (w : world) : outcome (bool * t * world) :=
  check! (server_listen_pipe_ c =? -1) && (pipe_ (channel c) =? -1);
  let! '(oc, w) := local_pipe handle c w in
  let '(o, c) := oc in
  match o with
  | None => Ret (false, c, w)
  | Some fd =>
      let '(fds, k) := if is_client c then SocketPair (kernel w) else (Some (-1, -1), kernel w) in
      let w := set_kernel k w in
      match fds with
      | None => Ret (false, c, w)
      | Some (a, b) =>
          let c' := if is_client c then set_remote b (set_channel (set_fd_pipe a (channel c)) c) else c in
          let c' := if is_server c && is_named c then set_listen fd (must_unlink_ c') c' else set_pipe fd c' in
          Ret (true, c', w)
      end
  end.

(** The constructor; a failure is logged. *)
Definition new_ChannelImpl (handle mode : Z) (name : list Z) (w : world) : outcome (t * world) :=
  let c := mk (Channel.mk (has_flag mode MODE_SERVER_FLAG) false true 0 (-1) (-1) [] [] []) mode (-1) (-1) (-1) false name in
  let! '(o, w) := CreatePipe handle c w in Ret (snd o, w).

(** ** Closing *)

Definition close_if (fd : Z) (k : K) : K := if fd =? -1 then k else close fd k.

Definition CloseClientFileDescriptor (c : t) (w : world) : t * world :=
  if client_pipe_ c =? -1 then (c, w)
  else let w := Remove (pipe_name_ c) w in (set_client_pipe (-1) c, set_kernel (close (client_pipe_ c) (kernel w)) w).

Definition GetClientFileDescriptor (c : t) : Z := client_pipe_ c.

Definition TakeClientFileDescriptor (c : t) (w : world) : Z * t * world :=
  if client_pipe_ c =? -1 then (-1, c, w) else (client_pipe_ c, set_client_pipe (-1) c, Remove (pipe_name_ c) w).

Definition close_all (fds : list Z) (k : K) : K := foldl (fun k fd => close fd k) k fds.

(** The descriptors closed on the way. *)
Definition close_sent (out : list output) (k : K) : K :=
  foldl (fun k o => match o with CloseSent fds => close_all fds k | _ => k end) k out.

(** [ResetToAcceptingConnectionState]: it closes the pipes, those of the messages it deletes
    and those received. *)
Definition reset (c : t) (k : K) : t * K :=
  let '(ch, out) := ResetToAcceptingConnectionState (channel c) in
  let k := close_if (remote_fd_pipe_ c) (close_if (fd_pipe_ (channel c)) (close_if (pipe_ (channel c)) k)) in
  (set_remote (-1) (set_channel ch c), close_sent out k).

Definition Close (c : t) (w : world) : t * world :=
  let '(c, k) := reset c (kernel w) in
  let k := if must_unlink_ c then unlink (pipe_name_ c) k else k in
  let k := close_if (server_listen_pipe_ c) k in
  CloseClientFileDescriptor (set_listen (-1) false c) (set_kernel k w).

(** Calls of the listener about the connection. *)
Inductive notice := ChannelError | ChannelListenError | ChannelDenied.

Definition ClosePipeOnError (c : t) (w : world) : t * world * list notice :=
  if HasAcceptedConnection c then let '(c, k) := reset c (kernel w) in (c, set_kernel k w, [ChannelError])
  else
    let '(c, w) := Close c w in
    (c, w, [if AcceptsConnections c then ChannelListenError else ChannelError]).

(** ** Connecting *)

Section Connecting.
Context {H : Type} `{!Heap H} (is_directory : Z -> bool) (global_pid : Z).

(** [ProcessOutgoingMessages]; a pipe found closed is [Close]. *)
Definition process_outgoing (c : t) (w : world) (script : list write_result) : outcome (bool * t * world * list output) :=
  let! '(o, out) := write_queue is_directory (channel c) script in
  let '(r, ch) := o in
  let c := set_channel ch c in
  let w := set_kernel (close_sent out (kernel w)) w in
  match r with
  | Some ok => Ret (ok, c, w, out)
  | None => let '(c, w) := Close c w in Ret (false, c, w, out)
  end.

(** [Send]. *)
Definition send_message (m : Message.t) (c : t) (w : world) (script : list write_result) : outcome (bool * t * world * list output) :=
  let ch := channel c in
  let c := set_channel (set_output (is_blocked_on_write_ ch) (message_send_bytes_written_ ch) (output_queue_ ch ++ [m]) ch) c in
  if negb (is_blocked_on_write_ ch) && negb (waiting_connect_ ch) then process_outgoing c w script else Ret (true, c, w, []).

Definition GetHelloMessageProcId (k : K) : Z := if global_pid =? 0 then getpid k else global_pid.

Definition QueueHelloMessage (c : t) (k : K) (h : H) : outcome (t * H) :=
  let! '(m, h) := Message.new_Message Message.MSG_ROUTING_NONE Message.HELLO_MESSAGE_TYPE PRIORITY_NORMAL h in
  let! '(o, h) := Pickle.WriteInt (GetHelloMessageProcId k) (Message.pickle m) h in
  let '(ok, p) := o in
  check! ok;
  let m := Message.set_pickle p m in
  let! '(m, h) :=
    if negb (remote_fd_pipe_ c =? -1) then
      let! '(o, h) := Message.WriteFileDescriptor (FileDescriptorSet.mkFD (remote_fd_pipe_ c) false) m h in
      let '(ok, m) := o in
      check! ok;
      check! FileDescriptorSet.size (Message.file_descriptor_set m) =? 1;
      Ret (m, h)
    else Ret (m, h) in
  let ch := channel c in
  Ret (set_channel (set_output (is_blocked_on_write_ ch) (message_send_bytes_written_ ch) (output_queue_ ch ++ [m]) ch) c, h).

(** Neither a client nor a server is [NOTREACHED]. *)
Definition AcceptConnection (c : t) (w : world) (h : H) (script : list write_result) : outcome (bool * t * world * H * list output) :=
  let! '(c, h) := QueueHelloMessage c (kernel w) h in
  if is_client c then
    let! '(o, out) := process_outgoing (set_waiting false c) w script in let '(ok, c, w) := o in Ret (ok, c, w, h, out)
  else if is_server c then Ret (true, set_waiting true c, w, h, [])
  else Crash.

Definition Connect (c : t) (w : world) (h : H) (script : list write_result) : outcome (bool * t * world * H * list output) :=
  if (server_listen_pipe_ c =? -1) && (pipe_ (channel c) =? -1) then Ret (false, c, w, h, [])
  else if negb (server_listen_pipe_ c =? -1) then Ret (true, c, w, h, [])
  else AcceptConnection c w h script.

(** ** Handlers *)

(** A connection can be accepted.  After a failure the code goes on, with descriptor 0. *)
Definition on_listen_readable (c : t) (w : world) (h : H) (script : list write_result) : outcome (t * world * H * list notice * list output) :=
  let '(o, k) := ServerAcceptConnection (server_listen_pipe_ c) (kernel w) in
  let w := set_kernel k w in
  let '(c, w, notices) := match o with Some _ => (c, w, []) | None => let '(c, w) := Close c w in (c, w, [ChannelListenError]) end in
  let new_pipe := default 0 o in
  if negb (pipe_ (channel c) =? -1) then Ret (c, set_kernel (close new_pipe (kernel w)) w, h, notices ++ [ChannelDenied], [])
  else
    let c := set_pipe new_pipe c in
    let! authorised :=
      if has_flag (mode_ c) MODE_OPEN_ACCESS_FLAG then Ret true
      else check! HasAcceptedConnection c; Ret (bool_decide (peer_euid new_pipe (kernel w) = Some (geteuid (kernel w)))) in
    if negb authorised then let '(c, k) := reset c (kernel w) in Ret (c, set_kernel k w, h, notices, [])
    else
      let! '(o, out) := AcceptConnection c w h script in
      let '(ok, c, w, h) := o in
      check! ok;
      let! '(o, out') := process_outgoing (set_waiting false c) w script in
      let '(_, c, w) := o in
      Ret (c, w, h, notices, out ++ out').

(** The pipe of a connection can be read. *)
Definition on_pipe_readable (address : list Z -> Z) (reads : list read_result) (script : list write_result) (c : t) (w : world)
    (socket : list control_message) : outcome (t * world * list control_message * list event * list notice * list output) :=
  let hello := waiting_connect_ (channel c) && is_server c in
  let c := set_waiting (waiting_connect_ (channel c) && negb (is_server c)) c in
  let '(c, w) :=
    match reads with
    | Bytes _ _ _ :: _ => if pipe_ (channel c) =? -1 then (c, w) else CloseClientFileDescriptor c w
    | _ => (c, w)
    end in
  let! '(o, evs) := ProcessIncomingMessages address reads (channel c) socket in
  let '(ok, ch, socket) := o in
  let c := set_channel ch c in
  if negb ok then let '(c, w, notices) := ClosePipeOnError c w in Ret (c, w, socket, evs, notices, [])
  else if hello then
    let! '(o, out) := process_outgoing c w script in let '(_, c, w) := o in Ret (c, w, socket, evs, [], out)
  else Ret (c, w, socket, evs, [], []).

(** The pipe of a connection can be written. *)
Definition on_pipe_writable (script : list write_result) (c : t) (w : world) : outcome (t * world * list notice * list output) :=
  let ch := channel c in
  let c := set_channel (set_output false (message_send_bytes_written_ ch) (output_queue_ ch) ch) c in
  let! '(o, out) := process_outgoing c w script in
  let '(ok, c, w) := o in
  if ok then Ret (c, w, [], out) else let '(c, w, notices) := ClosePipeOnError c w in Ret (c, w, notices, out).

End Connecting.

End Code.

End Connection.
