(* ===== verification/IpcDescriptors.v ===== *)
(** The descriptors a channel opens for its connections, over [ipc/ipc_channel_posix.cc]:
    each is in a field of the channel until it is closed. *)
From stdpp Require Import gmultiset.
From S2P Require Import Prelude.
From S2P Require Import GpuMappedMemory.
From S2P Require Import BasePickle.
From S2P Require Import BasePickleTypes.
From S2P Require Import IpcMessage.
From S2P Require Import IpcChannel.
From S2P Require Import IpcConnection.

Module Descriptors.
Import Channel.
Import Connection.

(** What the operating system does with the descriptors of the process. *)
Class SocketsLaws (K : Type) `{!Sockets K} := {
  fds : K -> gmultiset Z;
  socketpair_fds : forall k, match socketpair k with
    | (Some (a, b), k') => 0 <= a /\ 0 <= b /\ fds k' = {[+ a; b +]} ⊎ fds k
    | (None, k') => fds k' = fds k
    end;
  socket_fds : forall k, match socket k with (Some n, k') => 0 <= n /\ fds k' = {[+ n +]} ⊎ fds k | (None, k') => fds k' = fds k end;
  dup_fds : forall d k, match dup d k with (Some n, k') => 0 <= n /\ fds k' = {[+ n +]} ⊎ fds k | (None, k') => fds k' = fds k end;
  accept_fds : forall d k, match accept d k with (Some n, k') => 0 <= n /\ fds k' = {[+ n +]} ⊎ fds k | (None, k') => fds k' = fds k end;
  set_nonblocking_fds : forall d k, fds (snd (set_nonblocking d k)) = fds k;
  create_directory_fds : forall l k, fds (snd (create_directory_of l k)) = fds k;
  bind_fds : forall d l k, fds (snd (bind d l k)) = fds k;
  listen_fds : forall d k, fds (snd (listen d k)) = fds k;
  connect_fds : forall d l k, fds (snd (connect d l k)) = fds k;
  unlink_fds : forall l k, fds (unlink l k) = fds k;
  close_fds : forall d k, fds (close d k) = fds k ∖ {[+ d +]}
}.

Section Owned.
Context {K : Type} `{HL : SocketsLaws K}.

(** A field with a descriptor, or -1. *)
Definition slot (fd : Z) : gmultiset Z := if fd =? -1 then ∅ else {[+ fd +]}.

Definition held (c : Connection.t) : gmultiset Z :=
  slot (pipe_ (channel c)) ⊎ slot (fd_pipe_ (channel c)) ⊎ slot (remote_fd_pipe_ c) ⊎ list_to_set_disj (input_overflow_fds_ (channel c)) ⊎
  slot (server_listen_pipe_ c) ⊎ slot (client_pipe_ c).

(** Those of the messages that wait to be sent, which are closed once they are sent. *)
Definition queued (c : Connection.t) : gmultiset Z := list_to_set_disj (delete_all (output_queue_ (channel c))).

(** None of the messages that wait has been read from. *)
Definition unread (m : Message.t) : Prop := FileDescriptorSet.consumed_descriptor_highwater_ (Message.file_descriptor_set m) = 0.

(** The process has its own descriptors, the channel's and those of the messages. *)
Definition owns (base : gmultiset Z) (c : Connection.t) (k : K) : Prop :=
  fds k = held c ⊎ queued c ⊎ base /\ Forall unread (output_queue_ (channel c)).

Lemma slot_fd n : 0 <= n -> slot n = {[+ n +]}.
Proof. intros H. unfold slot. by rewrite (proj2 (Z.eqb_neq _ _)) by lia. Qed.

Lemma slot_none : slot (-1) = ∅.
Proof. done. Qed.

Lemma close_if_fds n k : fds (close_if n k) = fds k ∖ slot n.
Proof. unfold close_if, slot. destruct (n =? -1); [multiset_solver|apply close_fds]. Qed.

Lemma opened_closed n (k k' : K) : fds k' = {[+ n +]} ⊎ fds k -> forall k2, fds k2 = fds k' -> fds (close n k2) = fds k.
Proof. intros E k2 E2. rewrite close_fds, E2, E. multiset_solver. Qed.

(** A call that gives a descriptor, or none and leaves the process as it was. *)
Definition gives (o : option Z) (k k' : K) : Prop :=
  match o with Some n => 0 <= n /\ fds k' = {[+ n +]} ⊎ fds k | None => fds k' = fds k end.

Lemma SocketPair_fds k :
  match SocketPair k with
  | (Some (a, b), k') => 0 <= a /\ 0 <= b /\ fds k' = {[+ a; b +]} ⊎ fds k
  | (None, k') => fds k' = fds k
  end.
Proof.
  unfold SocketPair. pose proof (socketpair_fds k) as H. destruct (socketpair k) as [[[a b]|] k1]; [|done]. destruct H as (Ha & Hb & E).
  pose proof (set_nonblocking_fds a k1) as E1. destruct (set_nonblocking a k1) as [[] k2]; cbn [snd] in E1.
  - pose proof (set_nonblocking_fds b k2) as E2. destruct (set_nonblocking b k2) as [[] k3]; cbn [snd] in E2.
    + split; [done|]. split; [done|]. by rewrite E2, E1.
    + rewrite !close_fds, E2, E1, E. multiset_solver.
  - rewrite !close_fds, E1, E. multiset_solver.
Qed.

Lemma CreateServer_gives name k o k' : CreateServerUnixDomainSocket name k = Ret (o, k') -> gives o k k'.
Proof.
  unfold CreateServerUnixDomainSocket. destruct (name_ok name); cbn [negb]; [|intros [= <- <-]; done].
  pose proof (socket_fds k) as H. destruct (socket k) as [[n|] k1]; [|intros [= <- <-]; exact H]. destruct H as [Hn E].
  pose proof (opened_closed n k k1 E) as Hclose.
  pose proof (set_nonblocking_fds n k1) as E1. destruct (set_nonblocking n k1) as [[] k2]; cbn [snd negb] in *; [|intros [= <- <-]; by apply Hclose].
  pose proof (unlink_fds name k2) as E2. pose proof (create_directory_fds name (unlink name k2)) as E3.
  destruct (create_directory_of name (unlink name k2)) as [[] k3]; cbn [snd negb] in *; [|intros [= <- <-]; apply Hclose; congruence].
  destruct (bool_decide (0 ∈ name)); cbn [negb dcheck obind]; [done|].
  pose proof (bind_fds n name k3) as E4. destruct (bind n name k3) as [[] k4]; cbn [snd negb] in *; [|intros [= <- <-]; apply Hclose; congruence].
  pose proof (listen_fds n k4) as E5. destruct (listen n k4) as [[] k5]; cbn [snd] in *; intros [= <- <-]; [|apply Hclose; congruence].
  split; [done|]. congruence.
Qed.

Lemma CreateClient_gives name k o k' : CreateClientUnixDomainSocket name k = Ret (o, k') -> gives o k k'.
Proof.
  unfold CreateClientUnixDomainSocket. destruct (name_ok name); cbn [dcheck obind]; [|done].
  pose proof (socket_fds k) as H. destruct (socket k) as [[n|] k1]; [|intros [= <- <-]; exact H]. destruct H as [Hn E].
  pose proof (opened_closed n k k1 E) as Hclose.
  pose proof (set_nonblocking_fds n k1) as E1. destruct (set_nonblocking n k1) as [[] k2]; cbn [snd negb] in *; [|intros [= <- <-]; by apply Hclose].
  destruct (bool_decide (0 ∈ name)); cbn [negb dcheck obind]; [done|].
  pose proof (connect_fds n name k2) as E2. destruct (connect n name k2) as [[] k3]; cbn [snd] in *; intros [= <- <-]; [|apply Hclose; congruence].
  split; [done|]. congruence.
Qed.

Lemma accept_gives d k o k' : ServerAcceptConnection d k = (o, k') -> gives o k k'.
Proof.
  unfold ServerAcceptConnection. pose proof (accept_fds d k) as H. destruct (accept d k) as [[n|] k1]; [|intros [= <- <-]; exact H]. destruct H as [Hn E].
  pose proof (set_nonblocking_fds n k1) as E1. destruct (set_nonblocking n k1) as [[] k2]; cbn [snd] in *; intros [= <- <-].
  - split; [done|]. congruence.
  - by apply (opened_closed n k k1 E).
Qed.

(** ** Closing *)

Lemma close_all_fds l k : fds (close_all l k) = fds k ∖ list_to_set_disj l.
Proof.
  unfold close_all. revert k. induction l as [|n l IH]; intros k; cbn [foldl]; [rewrite list_to_set_disj_nil; multiset_solver|].
  rewrite IH, close_fds, list_to_set_disj_cons. multiset_solver.
Qed.

(** The descriptors closed by a list of outputs. *)
Definition closed_by (out : list output) : list Z := flat_map (fun o => match o with CloseSent l => l | _ => [] end) out.

Lemma close_sent_fds out k : fds (close_sent out k) = fds k ∖ list_to_set_disj (closed_by out).
Proof.
  unfold close_sent, closed_by. revert k. induction out as [|o out IH]; intros k; cbn [foldl flat_map]; [rewrite list_to_set_disj_nil; multiset_solver|].
  rewrite IH, list_to_set_disj_app. destruct o; [rewrite list_to_set_disj_nil; multiset_solver..|]. rewrite close_all_fds. multiset_solver.
Qed.

Lemma reset_owns base c k : owns base c k -> let '(c', k') := reset c k in
  owns base c' k' /\ pipe_ (channel c') = -1 /\ fd_pipe_ (channel c') = -1 /\ remote_fd_pipe_ c' = -1 /\ input_overflow_fds_ (channel c') = [] /\
  output_queue_ (channel c') = [] /\ server_listen_pipe_ c' = server_listen_pipe_ c /\ client_pipe_ c' = client_pipe_ c.
Proof.
  unfold owns, held, queued. intros [E Hu]. cbn [reset ResetToAcceptingConnectionState]. split; [|done].
  rewrite close_sent_fds, !close_if_fds, E. cbn [closed_by flat_map]. rewrite app_nil_r, list_to_set_disj_app.
  cbn [set_remote set_channel channel pipe_ fd_pipe_ remote_fd_pipe_ input_overflow_fds_ output_queue_ server_listen_pipe_ client_pipe_].
  cbn [delete_all flat_map]. rewrite slot_none, list_to_set_disj_nil. split; [|done]. fold (delete_all (output_queue_ (channel c))). multiset_solver.
Qed.

Lemma close_client_owns base c w : owns base c (kernel w) -> let '(c', w') := CloseClientFileDescriptor c w in
  owns base c' (kernel w') /\ client_pipe_ c' = -1 /\ channel c' = channel c /\ remote_fd_pipe_ c' = remote_fd_pipe_ c /\
  server_listen_pipe_ c' = server_listen_pipe_ c.
Proof.
  unfold owns, held, queued, CloseClientFileDescriptor. intros [E Hu]. destruct (Z.eqb_spec (client_pipe_ c) (-1)) as [Ec|Ec]; [done|]. split; [|done].
  cbn [set_client_pipe set_kernel kernel Remove channel client_pipe_ server_listen_pipe_ remote_fd_pipe_]. rewrite close_fds, E, slot_none. split; [|done].
  assert (Es : slot (client_pipe_ c) = {[+ client_pipe_ c +]}) by (unfold slot; by rewrite (proj2 (Z.eqb_neq _ _) Ec)). rewrite Es. multiset_solver.
Qed.

(** [Close] gives everything back. *)
Lemma Close_owns base c w : owns base c (kernel w) -> let '(c', w') := Close c w in
  fds (kernel w') = base /\ owns base c' (kernel w').
Proof.
  intros E. unfold Close. pose proof (reset_owns base c (kernel w) E) as H. destruct (reset c (kernel w)) as [c1 k1].
  destruct H as (E1 & P1 & P2 & P3 & P4 & P5 & P6 & P7). set (k2 := if must_unlink_ c1 then unlink (pipe_name_ c1) k1 else k1).
  assert (E2 : fds k2 = fds k1) by (unfold k2; destruct (must_unlink_ c1); [apply unlink_fds|done]). clearbody k2.
  assert (E3 : owns base (set_listen (-1) false c1) (kernel (set_kernel (close_if (server_listen_pipe_ c1) k2) w))).
  { unfold owns, held, queued in *. cbn [set_kernel kernel set_listen channel client_pipe_ server_listen_pipe_ remote_fd_pipe_].
    destruct E1 as [E1 ?]. split; [|done]. rewrite close_if_fds, E2, E1, slot_none. multiset_solver. }
  pose proof (close_client_owns base _ _ E3) as H. destruct (CloseClientFileDescriptor _ _) as [c2 w2]. destruct H as (E4 & Q1 & Q2 & Q3 & Q4).
  split; [|done]. destruct E4 as [E4 _]. rewrite E4. unfold held, queued. rewrite Q1, Q2, Q3, Q4.
  cbn [set_listen channel remote_fd_pipe_ server_listen_pipe_]. rewrite P1, P2, P3, P4, P5, slot_none. cbn [delete_all flat_map].
  rewrite list_to_set_disj_nil. multiset_solver.
Qed.

(** ** Making the pipe *)

(** What the channel is given: a socket, or the primary channel of the process. *)
Definition given (handle : Z) (c : Connection.t) (w : world) : gmultiset Z :=
  if negb (handle =? -1) then slot handle
  else if negb (is_named c) && is_client c && (Lookup (pipe_name_ c) w =? -1) then slot (primary_channel (kernel w)) else ∅.

(** A channel with nothing open. *)
Definition unopened (c : Connection.t) : Prop :=
  pipe_ (channel c) = -1 /\ fd_pipe_ (channel c) = -1 /\ remote_fd_pipe_ c = -1 /\ input_overflow_fds_ (channel c) = [] /\
  server_listen_pipe_ c = -1 /\ client_pipe_ c = -1.

Lemma unopened_held c : unopened c -> held c = ∅.
Proof. intros (H1 & H2 & H3 & H4 & H5 & H6). unfold held. rewrite H1, H2, H3, H4, H5, H6, slot_none, list_to_set_disj_nil. multiset_solver. Qed.

Lemma local_pipe_spec handle base c w o c' w' :
  unopened c -> fds (kernel w) = given handle c w ⊎ base -> local_pipe handle c w = Ret (o, c', w') ->
  channel c' = channel c /\ mode_ c' = mode_ c /\ remote_fd_pipe_ c' = -1 /\ server_listen_pipe_ c' = -1 /\
  (is_server c = false -> client_pipe_ c' = -1) /\
  match o with
  | Some fd => fds (kernel w') = slot fd ⊎ slot (client_pipe_ c') ⊎ base
  | None => client_pipe_ c' = -1 /\ fds (kernel w') = given handle c w ⊎ base
  end.
Proof.
  intros (U1 & U2 & U3 & U4 & U5 & U6) E. unfold given in *. unfold local_pipe. destruct (handle =? -1) eqn:Eh; cbn [negb] in *.
  2: { intros [= <- <- <-]. split_and!; try done. destruct (is_nonblocking handle (kernel w)) as [[]|]; [|done..]. rewrite E, U6, slot_none. multiset_solver. }
  destruct (is_named c); cbn [negb andb] in *.
  - destruct (is_server c).
    + intros Hc. inv_outcome. destruct o as [n|]; [|apply CreateServer_gives in H; split_and!; try done; by rewrite <- E].
      apply CreateServer_gives in H as [Hn Ek]. split_and!; try done. cbn. rewrite Ek, E, U6, slot_none, slot_fd by done. multiset_solver.
    + destruct (is_client c); [|intros [= <- <- <-]; by split_and!]. intros Hc. inv_outcome. apply CreateClient_gives in H. split_and!; try done.
      destruct o as [n|]; [|split; [done|]; by rewrite <- E]. destruct H as [Hn Ek]. cbn. rewrite Ek, E, U6, slot_none, slot_fd by done. multiset_solver.
  - destruct (is_client c); cbn [andb] in *.
    + destruct (Z.eqb_spec (Lookup (pipe_name_ c) w) (-1)) as [El|El]; cbn [negb].
      * intros Hc. inv_outcome. split_and!; try done. cbn. rewrite E, U6, slot_none. multiset_solver.
      * pose proof (dup_fds (Lookup (pipe_name_ c) w) (kernel w)) as Hd. destruct (dup _ _) as [[n|] k1]; intros [= <- <- <-]; split_and!; try done; cbn.
        -- destruct Hd as [Hn Ek]. rewrite Ek, E, U6, slot_none, slot_fd by done. multiset_solver.
        -- rewrite Hd, E, U6, slot_none. multiset_solver.
    + destruct (is_server c) eqn:Es; [|intros [= <- <- <-]; by split_and!].
      destruct (Z.eqb_spec (Lookup (pipe_name_ c) w) (-1)) as [El|El]; cbn [negb]; [|intros [= <- <- <-]; by split_and!].
      pose proof (SocketPair_fds (kernel w)) as Hp. destruct (SocketPair (kernel w)) as [[[a b]|] k1].
      * destruct Hp as (Ha & Hb & Ek). unfold Insert. intros Hc. inv_outcome. split_and!; try done. cbn. rewrite Ek, E, !slot_fd by done. multiset_solver.
      * intros [= <- <- <-]. split_and!; try done. cbn. by rewrite Hp.
Qed.

Lemma nothing_queued base c (k : K) : output_queue_ (channel c) = [] -> fds k = held c ⊎ base -> owns base c k.
Proof.
  intros Eq E. unfold owns, queued. rewrite Eq. cbn [delete_all flat_map]. rewrite list_to_set_disj_nil. split; [|done]. rewrite E. multiset_solver.
Qed.

(** A channel whose pipe was not made. *)
Definition failed (c : Connection.t) : Prop := server_listen_pipe_ c = -1 /\ pipe_ (channel c) = -1.

Lemma CreatePipe_owns handle base c w ok c' w' :
  unopened c -> output_queue_ (channel c) = [] -> is_client c && is_server c = false -> fds (kernel w) = given handle c w ⊎ base -> CreatePipe handle c w = Ret (ok, c', w') ->
  exists lost, owns (lost ⊎ base) c' (kernel w') /\ (lost = ∅ \/ failed c' /\ exists n, lost = {[+ n +]}).
Proof.
  intros Hu Hq Hm E. unfold CreatePipe. pose proof Hu as (U1 & U2 & U3 & U4 & U5 & U6). rewrite U5, U1. cbn [andb Z.eqb dcheck obind].
  change (-1 =? -1) with true. cbn [andb dcheck obind]. intros Hc. inv_outcome. rename H0 into Hl.
  destruct (local_pipe_spec handle base c w _ _ _ Hu E Hl) as (L1 & L2 & L3 & L4 & L5 & L6).
  match goal with H : local_pipe _ _ _ = Ret (?x, ?y, ?z) |- _ => rename x into o, y into c1, z into w1 end.
  assert (Es : is_server c1 = is_server c /\ is_client c1 = is_client c /\ is_named c1 = is_named c) by (unfold is_server, is_client, is_named; by rewrite L2).
  destruct Es as (Es & Ec & En). destruct o as [fd|].
  2: { injection Hc as <- <- <-. destruct L6 as [L6 Ek]. exists (given handle c w). split.
       - apply nothing_queued; [by rewrite L1|]. rewrite unopened_held; [rewrite Ek; multiset_solver|]. unfold unopened. rewrite L1. by split_and!.
       - unfold given, slot. repeat case_match; try (by left); right; (split; [split; [done|by rewrite L1]|by eexists]). }
  rewrite Es, Ec, En in *. destruct (is_client c) eqn:Ecl; cbn [andb] in Hm.
  - rewrite Hm in *. cbn [andb] in Hc. specialize (L5 eq_refl). pose proof (SocketPair_fds (kernel w1)) as Hp.
    destruct (SocketPair (kernel w1)) as [[[a b]|] k1]; injection Hc as <- <- <-.
    + destruct Hp as (Ha & Hb & Ek). exists ∅. split; [|by left]. apply nothing_queued; [cbn; by rewrite L1|]. unfold held.
      cbn [set_pipe set_remote set_channel set_connection set_fd_pipe set_kernel kernel channel pipe_ fd_pipe_ remote_fd_pipe_ input_overflow_fds_ server_listen_pipe_ client_pipe_].
      rewrite Ek, L6, L5, L4, L1, U4, slot_none, list_to_set_disj_nil, (slot_fd a), (slot_fd b) by done. multiset_solver.
    + assert (Hu1 : unopened c1) by (unfold unopened; rewrite L1; by split_and!).
      exists (slot fd). split.
      * apply nothing_queued; [by rewrite L1|]. rewrite (unopened_held _ Hu1). cbn [set_kernel kernel]. rewrite Hp, L6, L5, slot_none. multiset_solver.
      * unfold slot. destruct (fd =? -1); [by left|]. right. split; [|by eexists]. split; [done|]. by rewrite L1.
  - injection Hc as <- <- <-. exists ∅. split; [|by left]. apply nothing_queued; [destruct (is_server c && is_named c); cbn; by rewrite L1|]. unfold held. destruct (is_server c && is_named c);
      cbn [set_listen set_pipe set_channel set_connection set_kernel kernel channel pipe_ fd_pipe_ remote_fd_pipe_ input_overflow_fds_ server_listen_pipe_ client_pipe_];
      rewrite ?L6, ?L3, ?L4, ?L1, ?U1, ?U2, ?U4, ?slot_none, ?list_to_set_disj_nil; multiset_solver.
Qed.

(** ** Calls *)

Section Calls.
Context {H : Type} `{!Heap H} (is_directory : Z -> bool) (global_pid : Z).

(** Writing leaves the descriptors of the channel. *)
Definition keeps (s s' : Channel.t) : Prop :=
  pipe_ s' = pipe_ s /\ fd_pipe_ s' = fd_pipe_ s /\ input_overflow_fds_ s' = input_overflow_fds_ s.

Lemma keeps_refl s : keeps s s.
Proof. done. Qed.

Lemma keeps_trans s1 s2 s3 : keeps s1 s2 -> keeps s2 s3 -> keeps s1 s3.
Proof. intros (? & ? & ?) (? & ? & ?). by split_and!; etrans. Qed.

Lemma out_loop_keeps queue : forall s script r s' out,
  out_loop is_directory queue s script = Ret (r, s', out) -> keeps s s'.
Proof.
  induction queue as [|m queue IH]; intros s script r s' out; cbn [out_loop]; [by intros [= <- <- <-]|].
  intros Hc. inv_outcome.
  match goal with H : match ?w with Wrote _ => if _ then _ else _ | _ => _ end = Ret _ |- _ => destruct w end; inv_outcome; try done.
  match goal with H : (if ?b then _ else _) = Ret _ |- _ => destruct b end; inv_outcome; [done|].
  match goal with H : out_loop _ _ _ _ = Ret _ |- _ => apply IH in H end. done.
Qed.

(** What is closed on the way is what the messages sent had to have closed. *)
Notation closes m := (FileDescriptorSet.destroy (Message.file_descriptor_set m)).

Definition passes (m m' : Message.t) (out : list output) : Prop := unread m' /\ closes m = closed_by out ++ closes m'.

Lemma commit_closes m : unread m -> closes m = fst (FileDescriptorSet.CommitAll (Message.file_descriptor_set m)).
Proof.
  intros Hu. unfold FileDescriptorSet.destroy, FileDescriptorSet.size. rewrite Hu. cbn [Z.to_nat fst FileDescriptorSet.CommitAll]. rewrite drop_0.
  destruct (FileDescriptorSet.descriptors_ _); [done|]. by rewrite (proj2 (Z.eqb_neq _ _)) by (cbn [length]; lia).
Qed.

Lemma passes_none m p : unread m -> passes m (Message.set_pickle p m) [].
Proof. done. Qed.

Lemma passes_commit m p l fds : unread m ->
  passes m (Message.set_descriptors FileDescriptorSet.init (Message.set_pickle p m))
    [WriteBytes l fds; CloseSent (fst (FileDescriptorSet.CommitAll (Message.file_descriptor_set m)))] /\
  passes m (Message.set_descriptors FileDescriptorSet.init (Message.set_pickle p m))
    [SendFds fds; CloseSent (fst (FileDescriptorSet.CommitAll (Message.file_descriptor_set m)))].
Proof. intros Hu. unfold passes. rewrite (commit_closes m Hu). split; (split; [done|]); cbn; by rewrite ?app_nil_r. Qed.

Lemma send_fds_passes s m script m' r b script' out :
  unread m -> send_fds is_directory s m script = Ret (m', r, b, script', out) -> passes m m' out.
Proof.
  intros Hu. unfold send_fds. destruct (_ && _); [|intros [= <- <- <- <- <-]; done]. intros Hc. inv_outcome.
  match goal with H : (if negb ?h then _ else _) = Ret _ |- _ => destruct h end; cbn [negb] in *; inv_outcome; [done|].
  match goal with H : match script with _ => _ end = Ret _ |- _ => destruct script as [|[n| | |] l] end; inv_outcome; try done.
  cbn [FileDescriptorSet.CommitAll] in Hc. injection Hc as <- <- <- <- <-. exact (proj2 (passes_commit m _ [] _ Hu)).
Qed.

Lemma write_message_passes s m b bytes script m' r script' out :
  unread m -> write_message s m b bytes script = Ret (m', r, script', out) ->
  passes m m' out /\ (forall n, r = Wrote n -> closes m' = []).
Proof.
  intros Hu. unfold write_message. intros Hc. inv_outcome.
  match goal with H : match script with _ => _ end = Ret _ |- _ => destruct script as [|[n| | |] l] end; inv_outcome; try (split; [done|intros ? E; discriminate E]).
  cbn [FileDescriptorSet.CommitAll] in Hc. injection Hc as <- <- <- <-. split; [|done]. exact (proj1 (passes_commit m (Message.pickle m) _ _ Hu)).
Qed.

Lemma passes_trans m1 m2 m3 out out' : passes m1 m2 out -> passes m2 m3 out' -> passes m1 m3 (out ++ out').
Proof. intros [_ E1] [Hu E2]. split; [done|]. unfold closed_by in *. by rewrite flat_map_app, <- app_assoc, <- E2. Qed.

Lemma out_loop_passes queue : forall s script r s' out,
  Forall unread queue -> out_loop is_directory queue s script = Ret (r, s', out) ->
  Forall unread (output_queue_ s') /\ delete_all queue = closed_by out ++ delete_all (output_queue_ s').
Proof.
  induction queue as [|m queue IH]; intros s script r s' out Hu; cbn [out_loop]; [by intros [= <- <- <-]|].
  apply Forall_cons in Hu as [Hm Hu]. intros Hc. inv_outcome. cbn [delete_all flat_map]. fold (delete_all queue).
  match goal with H : send_fds _ _ _ _ = Ret _ |- _ => apply send_fds_passes in H as Hp; [|done] end.
  match goal with H : match ?w with Wrote _ => write_message _ _ _ _ _ | _ => _ end = Ret (?m2, ?r2, _, ?o2) |- _ =>
    assert (Hp2 : passes m m2 (_ ++ o2) /\ (forall n, r2 = Wrote n -> closes m2 = []))
      by (destruct w; [apply write_message_passes in H as [H ?]; [split; [exact (passes_trans _ _ _ _ _ Hp H)|done]|by destruct Hp]|inv_outcome; rewrite app_nil_r; (split; [exact Hp|done])..])
  end. clear Hp. destruct Hp2 as [[Hm2 Hp] Hw].
  match goal with H : match ?w with Wrote _ => if _ then _ else _ | _ => _ end = Ret _ |- _ => destruct w end; inv_outcome;
    try (cbn [set_output output_queue_ delete_all flat_map]; rewrite Hp, <- app_assoc; split; [by apply Forall_cons|done]).
  match goal with H : (if ?b then _ else _) = Ret _ |- _ => destruct b end; inv_outcome;
    [cbn [set_output output_queue_ delete_all flat_map]; rewrite Hp, <- app_assoc; split; [by apply Forall_cons|done]|].
  match goal with H : out_loop _ _ _ _ = Ret _ |- _ => apply IH in H as [Hq E]; [|done] end. split; [done|].
  rewrite Hp, E, (Hw _ eq_refl), app_nil_r. unfold closed_by. by rewrite !flat_map_app, !app_assoc.
Qed.

(** A channel with the same descriptors. *)
Lemma held_channel c ch : keeps (channel c) ch -> held (set_channel ch c) = held c.
Proof. intros (E1 & E2 & E3). unfold held. cbn [set_channel channel remote_fd_pipe_ server_listen_pipe_ client_pipe_]. by rewrite E1, E2, E3. Qed.

Lemma owns_channel base c ch (k : K) : keeps (channel c) ch -> output_queue_ ch = output_queue_ (channel c) -> owns base c k -> owns base (set_channel ch c) k.
Proof. intros Hk Eq [E Hu]. unfold owns, queued. cbn [set_channel channel]. rewrite held_channel, Eq by done. done. Qed.

Lemma write_queue_owns base c k script r ch out :
  owns base c k -> write_queue is_directory (channel c) script = Ret (r, ch, out) -> owns base (set_channel ch c) (close_sent out k).
Proof.
  intros [E Hu] Hc. unfold write_queue in Hc. inv_outcome. 
  assert (Hsame : owns base (set_channel (channel c) c) k) by (unfold owns; rewrite held_channel by done; done).
  destruct (bool_decide _); [by inv_outcome|]. destruct (pipe_ (channel c) =? -1); [by inv_outcome|].
  pose proof (out_loop_keeps _ _ _ _ _ _ Hc) as Hk. apply out_loop_passes in Hc as [Hq Ed]; [|done].
  unfold owns, queued in *. rewrite held_channel by done. cbn [set_channel channel]. split; [|done].
  rewrite close_sent_fds, E, Ed, list_to_set_disj_app. multiset_solver.
Qed.

Lemma process_outgoing_owns base c w script ok c' w' out :
  owns base c (kernel w) -> process_outgoing is_directory c w script = Ret (ok, c', w', out) -> owns base c' (kernel w').
Proof.
  intros E. unfold process_outgoing. intros Hc. inv_outcome.
  match goal with H : write_queue _ _ _ = Ret _ |- _ => apply (write_queue_owns base c (kernel w)) in H; [|done]; rename H into Ho end.
  match goal with H : match ?r with Some _ => _ | None => _ end = Ret _ |- _ => destruct r end; [by inv_outcome|].
  match goal with H : (let '(_, _) := Close ?x ?y in _) = Ret _ |- _ => pose proof (Close_owns base x y Ho) as Hcl; destruct (Close x y) end.
  injection Hc as <- <- <- <-. by destruct Hcl.
Qed.

(** The hello of a client has a descriptor that stays open once it is sent. *)
Lemma QueueHello_owns base c k k' h c' h' : owns base c k' -> QueueHelloMessage global_pid c k h = Ret (c', h') -> owns base c' k'.
Proof.
  intros [E Hu] Hc. unfold QueueHelloMessage in Hc. inv_outcome.
  match goal with |- owns _ (set_channel (set_output _ _ (_ ++ [?m]) _) _) _ => assert (Hm : unread m /\ closes m = []) end.
  { match goal with H : Message.new_Message _ _ _ _ = Ret _ |- _ => unfold Message.new_Message in H end. inv_outcome.
    match goal with H : (if ?b then _ else _) = Ret _ |- _ => destruct b end; inv_outcome; [|done].
    match goal with H : Message.WriteFileDescriptor _ _ _ = Ret _ |- _ => unfold Message.WriteFileDescriptor in H end. inv_outcome.
    match goal with H : match ?x with Some _ => _ | None => _ end = Ret _ |- _ => change x with (Some (FileDescriptorSet.mk [FileDescriptorSet.mkFD (remote_fd_pipe_ c) false] 0)) in H; by injection H as <- <- end. }
  destruct Hm as [Hm Hd]. unfold owns, queued, held in *. cbn [set_channel channel set_output output_queue_ pipe_ fd_pipe_ input_overflow_fds_ remote_fd_pipe_ server_listen_pipe_ client_pipe_].
  unfold delete_all. rewrite flat_map_app. cbn [flat_map]. rewrite Hd, !app_nil_r. split; [done|]. apply Forall_app. by split; [|apply Forall_singleton].
Qed.

Lemma AcceptConnection_owns base c w h script ok c' w' h' out :
  owns base c (kernel w) -> AcceptConnection is_directory global_pid c w h script = Ret (ok, c', w', h', out) -> owns base c' (kernel w').
Proof.
  intros E Hc. unfold AcceptConnection in Hc. inv_outcome. match goal with H : QueueHelloMessage _ _ _ _ = Ret (?x, _) |- _ => rename x into c1 end.
  apply (QueueHello_owns base c _ (kernel w)) in H0; [|done].
  assert (Ew : forall b, owns base (set_waiting b c1) (kernel w)) by (intros b; by apply owns_channel).
  destruct (is_client c1); [|destruct (is_server c1); [|done]]; inv_outcome; [|by apply Ew].
  eapply process_outgoing_owns; [apply Ew|eassumption].
Qed.

Lemma ClosePipeOnError_owns base c w c' w' notices : owns base c (kernel w) -> ClosePipeOnError c w = (c', w', notices) -> owns base c' (kernel w').
Proof.
  intros E. unfold ClosePipeOnError. destruct (HasAcceptedConnection c).
  - pose proof (reset_owns base c (kernel w) E) as Hr. destruct (reset c (kernel w)) as [c1 k1]. intros [= <- <- <-]. by destruct Hr.
  - pose proof (Close_owns base c w E) as Hr. destruct (Close c w) as [c1 w1]. intros [= <- <- <-]. by destruct Hr.
Qed.

Lemma set_pipe_owns base c k fd : pipe_ (channel c) = -1 -> owns (slot fd ⊎ base) c k -> owns base (set_pipe fd c) k.
Proof.
  intros Ep [E Hu]. unfold owns, held, queued in *.
  cbn [set_pipe set_channel set_connection channel pipe_ fd_pipe_ remote_fd_pipe_ input_overflow_fds_ output_queue_ server_listen_pipe_ client_pipe_].
  split; [|done]. rewrite E, Ep, slot_none. multiset_solver.
Qed.

Lemma on_listen_owns base c w h script c' w' h' notices out :
  owns base c (kernel w) -> fst (ServerAcceptConnection (server_listen_pipe_ c) (kernel w)) <> None ->
  on_listen_readable is_directory global_pid c w h script = Ret (c', w', h', notices, out) -> owns base c' (kernel w').
Proof.
  intros E Ha. unfold on_listen_readable. destruct (ServerAcceptConnection _ _) as [o k] eqn:Ea. cbn [fst] in Ha. destruct o as [n|]; [|done].
  apply accept_gives in Ea as [Hn Ek]. cbn [default from_option]. unfold id. cbn [set_kernel kernel].
  destruct (Z.eqb_spec (pipe_ (channel c)) (-1)) as [Ep|Ep]; cbn [negb].
  2: { intros [= <- <- <- <- <-]. cbn [set_kernel kernel]. unfold owns in *. destruct E as [E ?]. split; [|done]. rewrite close_fds, Ek, E. multiset_solver. }
  assert (E1 : owns base (set_pipe n c) (kernel (set_kernel k w))).
  { apply set_pipe_owns; [done|]. cbn [set_kernel kernel]. destruct E as [E ?]. split; [|done]. rewrite Ek, E, slot_fd by done. multiset_solver. }
  intros Hc. apply obind_Ret in Hc as (authorised & _ & Hc). destruct authorised; cbn [negb] in Hc.
  - inv_outcome. eapply process_outgoing_owns; [|eassumption]. apply owns_channel; [done..|].
    match goal with H : AcceptConnection _ _ _ _ _ _ = Ret _ |- _ => eapply AcceptConnection_owns in H; [exact H|done] end.
  - pose proof (reset_owns base _ _ E1) as Hr. cbn [set_kernel kernel] in Hr. destruct (reset _ k) as [c1 k1]. injection Hc as <- <- <- <- <-. by destruct Hr.
Qed.

(** The calls that make, use and end connections, and the descriptors they are handed with a
    message, to be closed once it is sent or deleted.  The message has not been read from.
    Reading messages takes descriptors of other kinds, and an accept that fails is left
    out. *)
Inductive call : gmultiset Z -> Connection.t * world -> Connection.t * world -> Prop :=
  | call_connect c w h script ok c' w' h' out :
      Connect is_directory global_pid c w h script = Ret (ok, c', w', h', out) -> call ∅ (c, w) (c', w')
  | call_accept c w h script c' w' h' notices out :
      fst (ServerAcceptConnection (server_listen_pipe_ c) (kernel w)) <> None ->
      on_listen_readable is_directory global_pid c w h script = Ret (c', w', h', notices, out) -> call ∅ (c, w) (c', w')
  | call_send m c w script ok c' w' out :
      unread m -> send_message is_directory m c w script = Ret (ok, c', w', out) ->
      call (list_to_set_disj (fst (FileDescriptorSet.CommitAll (Message.file_descriptor_set m)))) (c, w) (c', w')
  | call_writable script c w c' w' notices out :
      on_pipe_writable is_directory script c w = Ret (c', w', notices, out) -> call ∅ (c, w) (c', w')
  | call_error c w c' w' notices : ClosePipeOnError c w = (c', w', notices) -> call ∅ (c, w) (c', w')
  | call_close c w : call ∅ (c, w) (Close c w).

Inductive calls : gmultiset Z -> Connection.t * world -> Connection.t * world -> Prop :=
  | calls_none x : calls ∅ x x
  | calls_more l l' x y z : call l x y -> calls l' y z -> calls (l ⊎ l') x z.

Lemma send_owns base m c w script ok c' w' out :
  unread m -> owns (list_to_set_disj (fst (FileDescriptorSet.CommitAll (Message.file_descriptor_set m))) ⊎ base) c (kernel w) ->
  send_message is_directory m c w script = Ret (ok, c', w', out) -> owns base c' (kernel w').
Proof.
  intros Hm [E Hu] Hc. unfold send_message in Hc. set (c1 := set_channel _ c) in Hc.
  assert (Ho : owns base c1 (kernel w)).
  { unfold c1, owns, queued, held in *. cbn [set_channel channel set_output output_queue_ pipe_ fd_pipe_ input_overflow_fds_ remote_fd_pipe_ server_listen_pipe_ client_pipe_].
    unfold delete_all. rewrite flat_map_app. cbn [flat_map]. rewrite (commit_closes m Hm), app_nil_r, list_to_set_disj_app.
    split; [|apply Forall_app; by split; [|apply Forall_singleton]]. rewrite E. unfold delete_all. multiset_solver. }
  destruct (_ && _); [by eapply process_outgoing_owns|by inv_outcome].
Qed.

Lemma call_owns base l x y : call l x y -> owns (l ⊎ base) (fst x) (kernel (snd x)) -> owns base (fst y) (kernel (snd y)).
Proof.
  assert (Hn : forall c (k : K), owns (∅ ⊎ base) c k -> owns base c k) by (intros c k; by rewrite (left_id_L ∅ (⊎))).
  intros Hc E. destruct Hc as [c w h script ok c' w' h' out Hc|c w h script c' w' h' notices out Ha Hc|m c w script ok c' w' out Hm Hc|script c w c' w' notices out Hc|c w c' w' notices Hc|c w];
    cbn [fst snd] in *; try apply Hn in E.
  - unfold Connect in Hc. destruct (_ && _); [by inv_outcome|]. destruct (negb _); [by inv_outcome|]. eapply AcceptConnection_owns; [exact E|exact Hc].
  - by eapply on_listen_owns.
  - by eapply send_owns.
  - unfold on_pipe_writable in Hc. inv_outcome. match goal with H : process_outgoing _ _ _ _ = Ret (?b, _, _, _) |- _ => eapply (process_outgoing_owns base) in H; [destruct b|] end.
    + by inv_outcome.
    + destruct (ClosePipeOnError _ _) as [[c1 w1] n1] eqn:Ecl. inv_outcome.
      eapply ClosePipeOnError_owns; [|exact Ecl]. assumption.
    + by apply owns_channel.
  - by eapply ClosePipeOnError_owns.
  - pose proof (Close_owns base c w E) as Hr. destruct (Close c w) as [c1 w1]. by destruct Hr.
Qed.

Lemma calls_own base l x y : calls l x y -> owns (l ⊎ base) (fst x) (kernel (snd x)) -> owns base (fst y) (kernel (snd y)).
Proof.
  induction 1 as [x|l l' x y z Hxy _ IH]; [by rewrite (left_id_L ∅ (⊎))|]. intros E. apply IH. eapply call_owns; [exact Hxy|].
  by rewrite (assoc_L (⊎)).
Qed.

(** C28: after making a channel and any sequence of connecting, accepting where the accept
    gives a connection, sending, writing, failing and closing, [Close] leaves the process
    with the descriptors it had, less the one the channel was given and those handed over to
    be closed with the messages, sent or not: the channel loses none.  Only when the pipe
    could not be made may one descriptor stay open, though the header says that the channel
    takes over the one it is given. *)
Theorem descriptors_closed : forall handle mode name w c w1 c2 w2 handed base,
  has_flag mode MODE_CLIENT_FLAG && has_flag mode MODE_SERVER_FLAG = false ->
  let c0 := mk (Channel.mk (has_flag mode MODE_SERVER_FLAG) false true 0 (-1) (-1) [] [] []) mode (-1) (-1) (-1) false name in
  fds (kernel w) = given handle c0 w ⊎ handed ⊎ base -> new_ChannelImpl handle mode name w = Ret (c, w1) -> calls handed (c, w1) (c2, w2) ->
  exists lost, fds (kernel (snd (Close c2 w2))) = lost ⊎ base /\ (lost = ∅ \/ failed c /\ exists n, lost = {[+ n +]}).
Proof.
  intros handle mode name w c w1 c2 w2 handed base Hm c0 E Hc Hr. unfold new_ChannelImpl in Hc. inv_outcome.
  rewrite <- (assoc_L (⊎)) in E.
  destruct (CreatePipe_owns handle (handed ⊎ base) c0 w _ _ _ ltac:(by split_and!) eq_refl Hm E H0) as (lost & Ho & Hl). exists lost. split; [|done].
  apply (calls_own (lost ⊎ base)) in Hr; [|cbn [fst snd]; by rewrite (assoc_L (⊎)), (comm_L (⊎) handed lost), <- (assoc_L (⊎))].
  pose proof (Close_owns _ _ _ Hr) as Hcl. cbn [fst snd] in Hcl. destruct (Close c2 w2). by destruct Hcl.
Qed.

End Calls.

End Owned.

(** ** Examples

    An operating system that gives descriptors in order, with a number of socket pairs left
    to give and a socket, 9, that blocks. *)
Record demo_os := mkOs { next : nat; opened : gmultiset Z; pairs : nat }.

Definition take_one (k : demo_os) : option Z * demo_os :=
  (Some (Z.of_nat (next k)), mkOs (S (next k)) ({[+ Z.of_nat (next k) +]} ⊎ opened k) (pairs k)).

#[global] Instance demo_sockets : Sockets demo_os := {|
  socketpair k :=
    match pairs k with
    | O => (None, k)
    | S n => (Some (Z.of_nat (next k), Z.of_nat (S (next k))),
              mkOs (S (S (next k))) ({[+ Z.of_nat (next k); Z.of_nat (S (next k)) +]} ⊎ opened k) n)
    end;
  socket := take_one;
  dup _ := take_one;
  accept _ k := match pairs k with O => (None, k) | S _ => take_one k end;
  set_nonblocking _ k := (true, k);
  is_nonblocking d _ := Some (negb (d =? 9));
  create_directory_of _ k := (true, k);
  bind _ _ k := (true, k);
  listen _ k := (true, k);
  connect _ _ k := (true, k);
  unlink _ k := k;
  close d k := mkOs (next k) (opened k ∖ {[+ d +]}) (pairs k);
  peer_euid _ _ := Some 1000;
  geteuid _ := 1000;
  getpid _ := 7;
  primary_channel _ := 3
|}.

#[global] Instance demo_laws : SocketsLaws demo_os.
Proof.
  refine {| fds := opened |}; cbn; try done; try (intros; split; [lia|done]); intros; destruct (pairs k); cbn; try done; split_and!; lia || done.
Defined.

Definition demo_world (n : nat) (l : list Z) : world := mkWorld (mkOs 10 (list_to_set_disj l) n) ∅ false.

(** A server, connected: the socket pair, and the client's end in the map. *)
Definition demo_made : Connection.t * world :=
  match new_ChannelImpl (-1) MODE_SERVER_FLAG [112] (demo_world 1 [0; 1; 2]) with
  | Ret x => x
  | _ => (mk (Channel.mk true false true 0 (-1) (-1) [] [] []) 0 0 0 0 false [], demo_world 0 [])
  end.
Definition demo_connect := Connect (fun _ => false) 0 (fst demo_made) (snd demo_made) PickleTypes.demo_heap [].
Definition demo_up : Connection.t * world := match demo_connect with Ret (_, c, w, _, _) => (c, w) | _ => demo_made end.

(** A socket that is refused because it blocks stays open. *)
Example refused_handle_leaks :
  (let! '(c, w) := new_ChannelImpl 9 MODE_CLIENT_FLAG [112] (demo_world 1 [0; 9]) in
   Ret (bool_decide (fds (kernel (snd (Close c w))) = list_to_set_disj [0; 9])))
  = Ret true.
Proof. vm_compute. reflexivity. Qed.

(** So does the pipe of a client when there is no socket pair for descriptors. *)
Example failed_pair_leaks :
  (let! '(c, w) := new_ChannelImpl (-1) (Z.lor MODE_CLIENT_FLAG MODE_NAMED_FLAG) [112] (demo_world 0 [0]) in
   Ret (bool_decide (fds (kernel (snd (Close c w))) = list_to_set_disj [0; 10])))
  = Ret true.
Proof. vm_compute. reflexivity. Qed.

(** After an accept that fails a server open to all takes descriptor 0 for its connection,
    and closes it in the end. *)
Example failed_accept_takes_zero :
  (let! '(c, w) := new_ChannelImpl (-1) 13 [112] (demo_world 0 [0; 1; 2]) in
   let! '(o, out) := on_listen_readable (fun _ => false) 0 c w PickleTypes.demo_heap [] in
   let '(o, notices) := o in
   let '(c, w, _) := o in
   Ret (notices, pipe_ (channel c), bool_decide (fds (kernel (snd (Close c w))) = list_to_set_disj [1; 2])))
  = Ret ([ChannelListenError], 0, true).
Proof. vm_compute. reflexivity. Qed.

(** A message with descriptor 2, to be closed, sent before the client has connected. *)
Definition demo_message : Message.t :=
  match Message.new_Message 1 2 PRIORITY_NORMAL PickleTypes.demo_heap with
  | Ret (m, _) => Message.set_descriptors (FileDescriptorSet.mk [FileDescriptorSet.mkFD 2 true] 0) m
  | _ => Message.mk (Pickle.mk 0 0 0 0 []) None
  end.
Definition demo_sent : Connection.t * world :=
  match send_message (fun _ => false) demo_message (fst demo_up) (snd demo_up) [] with Ret (_, c, w, _) => (c, w) | _ => demo_up end.

Lemma demo_calls : calls (fun _ => false) 0 {[+ 2 +]} demo_made demo_sent.
Proof.
  assert (E1 : exists h, demo_connect = Ret (true, fst demo_up, snd demo_up, h, [])) by (eexists; vm_compute; reflexivity). destruct E1 as [h E1].
  assert (E2 : send_message (fun _ => false) demo_message (fst demo_up) (snd demo_up) [] = Ret (true, fst demo_sent, snd demo_sent, [])) by (vm_compute; reflexivity).
  apply call_connect in E1. apply (call_send _ 0) in E2; [|by vm_compute]. rewrite <- !surjective_pairing in E1, E2.
  replace ({[+ 2 +]} : gmultiset Z) with (∅ ⊎ (list_to_set_disj (fst (FileDescriptorSet.CommitAll (Message.file_descriptor_set demo_message))) ⊎ ∅) : gmultiset Z)
    by (vm_compute; reflexivity).
  eapply calls_more; [exact E1|]. eapply calls_more; [exact E2|]. apply calls_none.
Qed.

Lemma demo_made_ok : new_ChannelImpl (-1) MODE_SERVER_FLAG [112] (demo_world 1 [0; 1; 2]) = Ret (fst demo_made, snd demo_made).
Proof. vm_compute. reflexivity. Qed.

Lemma descriptors_closed_witness :
  exists lost, fds (kernel (snd (Close (fst demo_sent) (snd demo_sent)))) = lost ⊎ list_to_set_disj [0; 1] /\
    (lost = ∅ \/ failed (fst demo_made) /\ exists n, lost = {[+ n +]}).
Proof.
  apply (descriptors_closed (fun _ => false) 0 (-1) MODE_SERVER_FLAG [112] (demo_world 1 [0; 1; 2]) (fst demo_made) (snd demo_made) (fst demo_sent) (snd demo_sent)
    {[+ 2 +]} (list_to_set_disj [0; 1]) eq_refl).
  - cbn [given]. unfold given. change (negb (-1 =? -1)) with false. change (fds (kernel (demo_world 1 [0; 1; 2]))) with (list_to_set_disj [0; 1; 2] : gmultiset Z).
    cbn. multiset_solver.
  - exact demo_made_ok.
  - pose proof demo_calls as Hc. destruct demo_made, demo_sent. exact Hc.
Defined.

End Descriptors.
