(* ===== verification/IpcHandshake.v ===== *)
(** The hello messages that start a connection, over [ipc/ipc_channel_posix.cc]: a client
    and a server on two ends of a socket come to be the two channels of [IpcPipe]. *)
From S2P Require Import Prelude.
From S2P Require Import GpuMappedMemory.
From S2P Require Import BasePickle.
From S2P Require Import BasePickleTypes.
From S2P Require Import IpcMessage.
From S2P Require Import IpcChannel.
From S2P Require Import IpcFrames.
From S2P Require Import IpcPipe.
From S2P Require Import IpcValues.
From S2P Require Import IpcConnection.
From S2P Require Import IpcDescriptors.

Module Handshake.
Import Pickle.
Import PickleTypes.
Import Channel.
Import Frames.
Import Pipe.
Import Values.
Import Connection.

(** ** The hello message *)

(** Its data, with the number of descriptors and the values in it. *)
Definition hello_data (n : Z) (values : list (list Z)) : list Z :=
  data_of (header_words Message.MSG_ROUTING_NONE Message.HELLO_MESSAGE_TYPE PRIORITY_NORMAL n) (layout [] values).

Section Building.
Context {H : Type} `{HL : HeapLaws H}.

(** A block is never smaller than the unit of allocation. *)
Lemma write_int_fits v p h extra B :
  writable p extra B -> (4 + length extra + length (append B (le_encode 4 v)) <= 64)%nat ->
  exists p' h', WriteInt v p h = Ret (true, p', h') /\ writable p' extra (append B (le_encode 4 v)).
Proof.
  intros Hw Hl. unfold WriteInt, write_pod.
  destruct (WriteBytes_spec (le_encode 4 v) p h extra B Hw (le_encode_u8 4 v)) as (ok & p' & h' & E & Hf & Ht); [unfold kPayloadUnit; lia|].
  rewrite le_encode_length in E. destruct ok; [exists p', h'; split; [done|by apply Ht]|]. destruct (Hf eq_refl) as [_ Hlt].
  pose proof (wr_capacity _ _ _ Hw) as [Hc Hm]. pose proof (wr_mem _ _ _ Hw) as [rest Hmem]. apply (f_equal length) in Hmem.
  rewrite !length_app, le_encode_length in Hmem. unfold kPayloadUnit in Hm. pose proof (Z.div_mod (capacity_ p) 64). lia.
Qed.

Section Queue.
Context {K : Type} `{!Sockets K} (global_pid : Z).

(** The values of the hello of a client, with the index of a descriptor, and of a server. *)
Definition hello_values (c : Connection.t) (k : K) : list (list Z) :=
  le_encode 4 (GetHelloMessageProcId global_pid k) :: if remote_fd_pipe_ c =? -1 then [] else [le_encode 4 0].

Definition hello_set (c : Connection.t) : option FileDescriptorSet.t :=
  if remote_fd_pipe_ c =? -1 then None else Some (FileDescriptorSet.mk [FileDescriptorSet.mkFD (remote_fd_pipe_ c) false] 0).

Definition queue_message (m : Message.t) (ch : Channel.t) : Channel.t :=
  set_output (is_blocked_on_write_ ch) (message_send_bytes_written_ ch) (output_queue_ ch ++ [m]) ch.

Lemma write_first_descriptor n p h :
  Message.WriteFileDescriptor (FileDescriptorSet.mkFD n false) (Message.mk p None) h =
  let! '(o, h) := WriteInt 0 p h in let '(_, p) := o in Ret (true, Message.mk p (Some (FileDescriptorSet.mk [FileDescriptorSet.mkFD n false] 0)), h).
Proof. reflexivity. Qed.

Lemma QueueHello_spec c k h r h0 :
  realloc NULL kPayloadUnit h = (Some r, h0) ->
  exists p h', QueueHelloMessage global_pid c k h = Ret (set_channel (queue_message (Message.mk p (hello_set c)) (channel c)) c, h') /\
    writable p (header_words Message.MSG_ROUTING_NONE Message.HELLO_MESSAGE_TYPE PRIORITY_NORMAL 0) (layout [] (hello_values c k)).
Proof.
  intros Hr. unfold QueueHelloMessage.
  pose proof (new_Message_spec (H := H) Message.MSG_ROUTING_NONE Message.HELLO_MESSAGE_TYPE PRIORITY_NORMAL h) as Hnew. rewrite Hr in Hnew.
  destruct Hnew as (p & -> & Hw). cbn [obind Message.pickle]. set (pid := GetHelloMessageProcId global_pid k).
  destruct (write_int_fits pid p h0 _ [] Hw) as (p1 & h1 & -> & Hw1); [rewrite header_words_length, append_length, le_encode_length; cbn; lia|].
  cbn [obind dcheck]. unfold hello_values, hello_set. destruct (remote_fd_pipe_ c =? -1); cbn [negb].
  { cbn [obind]. exists p1, h1. by split. }
  change (Message.set_pickle p1 (Message.mk p None)) with (Message.mk p1 None). rewrite write_first_descriptor.
  destruct (write_int_fits 0 p1 h1 _ (append [] (le_encode 4 pid)) Hw1) as (p2 & h2 & -> & Hw2);
    [rewrite header_words_length, !append_length, !le_encode_length; cbn; lia|].
  cbn [obind dcheck]. exists p2, h2. by split.
Qed.

End Queue.

End Building.

(** The hello as a message, with [n] descriptors. *)
Lemma hello_parts n values :
  0 <= n < 2 ^ 16 -> (length (layout [] values) <= 8)%nat -> Forall is_u8 (layout [] values) ->
  let D := hello_data n values in
  length D = (20 + length (layout [] values))%nat /\ is_message D /\ is_hello_of D = true /\ num_fds_of D = n /\ Forall is_u8 D.
Proof.
  intros Hn Hl Hu. cbv zeta. unfold hello_data.
  destruct (words_fields Message.MSG_ROUTING_NONE Message.HELLO_MESSAGE_TYPE PRIORITY_NORMAL n (layout [] values)) as (E0 & E4 & E8 & E16).
  set (D := data_of _ _) in *. assert (HD : length D = (20 + length (layout [] values))%nat) by (unfold D; rewrite data_of_length, header_words_length; lia).
  split; [done|]. split; [unfold is_message; rewrite HD, E0, Z.mod_small by lia; lia|]. split.
  { unfold is_hello_of. by rewrite E4, E8. }
  split; [by rewrite E16, Z.mod_small|]. by apply data_u8.
Qed.

(** The values of a hello. *)
Lemma hello_field (i : nat) n values v :
  values !! i = Some (le_encode 4 v) -> (forall x, x ∈ take i values -> length x = 4%nat) ->
  field (20 + 4 * i) 4 (hello_data n values) = v mod 2 ^ 32.
Proof.
  intros Hi Hx. unfold hello_data, data_of. set (w := header_words _ _ _ _). pose proof (header_words_length Message.MSG_ROUTING_NONE Message.HELLO_MESSAGE_TYPE PRIORITY_NORMAL n) as Hw. fold w in Hw.
  apply take_drop_middle in Hi as Hs. rewrite <- Hs at 2. set (a := take i values) in *.
  assert (Ha : forall X, (length X mod 4 = 0)%nat -> layout X a = X ++ concat a /\ length (concat a) = (4 * length a)%nat).
  { clearbody a. clear -Hx. induction a as [|x a IH]; intros X HX; [by rewrite app_nil_r|]. cbn [layout foldl concat length].
    assert (Hp : padding (length X) = 0%nat) by (unfold padding; by rewrite HX).
    assert (EA : append X x = X ++ x) by (unfold append; by rewrite Hp). rewrite EA.
    pose proof (Hx x (list_elem_of_here _ _)) as Hx4. destruct (IH (fun y Hy => Hx y (list_elem_of_further _ _ _ Hy)) (X ++ x)) as [IH1 IH2].
    { rewrite length_app, Hx4. rewrite <- Nat.Div0.add_mod_idemp_l, HX. done. }
    unfold layout in IH1. rewrite IH1, length_app, IH2, Hx4, app_assoc. split; [done|lia]. }
  assert (Hla : length a = i) by (unfold a; rewrite length_take; apply lookup_lt_Some in Hi; lia).
  destruct (Ha [] eq_refl) as [E1 E2]. rewrite layout_app, E1. cbn [app].
  destruct (layout_prefix (append (concat a) (le_encode 4 v)) (drop (S i) values)) as [s E3].
  cbn [layout foldl] in *. unfold layout in E3. rewrite E3. unfold append. rewrite E2, Hla.
  assert (Hp : padding (4 * i) = 0%nat) by (unfold padding; rewrite Nat.mul_comm, Nat.Div0.mod_mul; done). rewrite Hp. cbn [repeat app].
  rewrite <- !app_assoc. set (c := le_encode 4 (Z.of_nat _)).
  rewrite (app_assoc c), (app_assoc (c ++ w)), (field_at ((c ++ w) ++ concat a) (le_encode 4 v) s).
  - apply (le_value_encode 4).
  - unfold c. rewrite !length_app, le_encode_length, Hw, E2, Hla. lia.
  - by rewrite le_encode_length.
Qed.

(** ** The client

    Its hello goes out with the other end of its socket for descriptors. *)
Section Client.
Context (is_directory : Z -> bool).

Lemma hello_out s p r n values :
  writable p (header_words Message.MSG_ROUTING_NONE Message.HELLO_MESSAGE_TYPE PRIORITY_NORMAL 0) (layout [] values) ->
  (length (layout [] values) <= 8)%nat -> is_directory r = false -> 28 <= n -> message_send_bytes_written_ s = 0 ->
  out_loop is_directory [Message.mk p (Some (FileDescriptorSet.mk [FileDescriptorSet.mkFD r false] 0))] s [Wrote n] =
  Ret (Some true, set_output (is_blocked_on_write_ s) 0 [] s, [WriteBytes (hello_data 1 values) [r]; CloseSent []]).
Proof.
  intros Hw Hl Hd Hn Hs0. pose proof (payload_u8 _ _ _ Hw) as Hu. pose proof (writable_readable _ _ _ Hw) as HR.
  assert (Hh : header_size_ p = 20) by (destruct (wr_header _ _ _ Hw) as [E _]; by rewrite E, header_words_length).
  destruct (hello_parts 1 values ltac:(lia) Hl Hu) as (HD & Hm & Hhello & _ & _).
  destruct (hello_parts 0 values ltac:(lia) Hl Hu) as (HD0 & _).
  cbn [out_loop Message.pickle]. rewrite (readable_size _ _ HR Hh). fold (hello_data 0 values). rewrite HD0. cbn [obind]. rewrite Hs0.
  rewrite u32_small by lia. rewrite (proj2 (Z.eqb_neq _ _)) by lia. cbn [negb dcheck obind].
  destruct (set_num_fds_spec 1 p _ HR Hh) as (p' & Ep & HR' & Hh'). rewrite with_num_fds_words in HR'. fold (hello_data 1 values) in HR'.
  assert (Esend : send_fds is_directory s (Message.mk p (Some (FileDescriptorSet.mk [FileDescriptorSet.mkFD r false] 0))) [Wrote n] =
    Ret (Message.mk p' (Some (FileDescriptorSet.mk [FileDescriptorSet.mkFD r false] 0)), Wrote 1, true, [Wrote n], [])).
  { unfold send_fds. rewrite Hs0. change (Message.file_descriptor_set _) with (FileDescriptorSet.mk [FileDescriptorSet.mkFD r false] 0).
    change ((0 =? 0) && negb (FileDescriptorSet.empty (FileDescriptorSet.mk [FileDescriptorSet.mkFD r false] 0))) with true.
    change (FileDescriptorSet.size (FileDescriptorSet.mk [FileDescriptorSet.mkFD r false] 0)) with 1.
    change (1 <=? FileDescriptorSet.kMaxDescriptorsPerMessage) with true. cbn [dcheck obind].
    unfold FileDescriptorSet.ContainsDirectoryDescriptor. cbn [FileDescriptorSet.descriptors_ existsb FileDescriptorSet.fd]. rewrite Hd. cbn [orb negb dcheck obind].
    change (u16 1) with 1. cbn [Message.pickle]. rewrite Ep. cbn [obind]. rewrite (received_hello _ _ _ (readable_as _ _ HR' Hh') Hm), Hhello. done. }
  rewrite Esend. cbn [obind Message.pickle]. pose proof (readable_from p' _ 0 HR' ltac:(lia)) as Eload. rewrite drop_0, Nat.sub_0_r, HD in Eload.
  replace (Z.to_nat (Z.of_nat (20 + length (layout [] values)) - 0)) with (20 + length (layout [] values))%nat by lia. change (Z.of_nat 0) with 0 in Eload. rewrite Eload. cbn [obind].
  unfold write_message. cbn [Message.pickle]. rewrite (received_hello _ _ _ (readable_as _ _ HR' Hh') Hm), Hhello. cbn [obind].
  change (Message.file_descriptor_set _) with (FileDescriptorSet.mk [FileDescriptorSet.mkFD r false] 0).
  change (FileDescriptorSet.size (FileDescriptorSet.mk [FileDescriptorSet.mkFD r false] 0) =? 1) with true. rewrite orb_true_r. cbn [dcheck obind].
  assert (En : Z.max 1 (Z.min n (Z.of_nat (length (hello_data 1 values)))) = Z.of_nat (20 + length (layout [] values))) by (rewrite HD; lia). rewrite En.
  unfold FileDescriptorSet.CommitAll, FileDescriptorSet.GetDescriptors. cbn [FileDescriptorSet.descriptors_ map FileDescriptorSet.fd].
  rewrite filter_cons_False, filter_nil by done. cbn [map obind]. rewrite Z.sub_0_r, Z.eqb_refl. cbn [negb]. rewrite Nat2Z.id, take_ge by (rewrite HD; lia).
  cbn [out_loop obind app]. done.
Qed.

End Client.

Lemma take_one_fd n :
  take_fds 1 (mkDescriptors (-1) [] [n] []) = Ret (inl (FileDescriptorSet.mk [FileDescriptorSet.mkFD n true] 0, mkDescriptors (-1) [] [] [])).
Proof. reflexivity. Qed.

(** ** The server

    It takes the process and the socket for descriptors out of the hello. *)
Lemma server_hello address pid n s :
  addresses_ok address -> is_i32 pid -> 0 <= n -> server s = true -> fd_pipe_ s = -1 -> pipe_ s <> -1 ->
  input_overflow_buf_ s = [] -> input_overflow_fds_ s = [] ->
  let D := hello_data 1 [le_encode 4 pid; le_encode 4 0] in
  ProcessIncomingMessages address [Bytes D [n] false] s [] = Ret (true, set_fd_pipe n s, [], [OnChannelConnected pid D [n]]).
Proof.
  intros Ha Hpid Hn Hs Hfp Hp Hb Hf. cbv zeta. set (vals := [le_encode 4 pid; le_encode 4 0]).
  assert (Hl : length (layout [] vals) = 8%nat) by (cbn; by rewrite ?length_app, ?le_encode_length).
  assert (Hu : Forall is_u8 (layout [] vals)).
  { unfold vals, layout. cbn [foldl]. unfold append. rewrite !Forall_app. split_and!; auto using le_encode_u8, zeros_u8. }
  destruct (hello_parts 1 vals ltac:(lia) ltac:(lia) Hu) as (HD & Hm & Hhello & Hfds & HDu).
  assert (F0 : field 20 4 (hello_data 1 vals) = pid mod 2 ^ 32) by (apply (hello_field 0 1 vals pid); [done|intros x Hx; by apply not_elem_of_nil in Hx]).
  assert (F1 : field 24 4 (hello_data 1 vals) = 0 mod 2 ^ 32).
  { apply (hello_field 1 1 vals 0); [done|]. intros x Hx. apply list_elem_of_singleton in Hx as ->. apply le_encode_length. }
  set (D := hello_data 1 vals) in *. rewrite Hl in HD.
  cbn [ProcessIncomingMessages]. rewrite (proj2 (Z.eqb_neq _ _) Hp).
  assert (Hne : D <> []) by (intros E; rewrite E in HD; done).
  assert (Hpl : placed (address D) D) by (apply Ha; [rewrite HD; unfold kMaximumMessageSize; lia|done]).
  assert (Eread : process_read address D [n] false s [] = Ret (None, set_fd_pipe n s, [], [OnChannelConnected pid D [n]])).
  { unfold process_read. rewrite bool_decide_eq_false_2 by done. cbn [negb dcheck obind]. rewrite Hfp, Hb, Hf. change (0 <=? -1) with false. cbv zeta iota.
    rewrite andb_false_r, (bool_decide_eq_true_2 ([] = [])) by done. cbn [negb andb app].
    assert (Hpl0 : placed (address D) (D ++ [])) by (by rewrite app_nil_r). rewrite Hs, HD. change (20 + 8)%nat with 28%nat.
    destruct (loop_message 27 true (address D) D [] (mkDescriptors (-1) [] [n] [])) as (q & Hq & Eloop); [rewrite app_nil_r, HD; lia|done|done|].
    rewrite app_nil_r in Eloop. rewrite Eloop, Hfds. rewrite take_one_fd. cbn [obind].
    unfold handle. rewrite Hhello, Hfds. change (1 =? 0) with false. unfold on_hello. cbn [Message.pickle].
    assert (Hst : start_iter NULL q = address D + 20 + 4 * Z.of_nat 0).
    { unfold start_iter. rewrite Z.eqb_refl, (readable_payload _ _ (ra_readable _ _ _ Hq)), (ra_header _ _ _ Hq), (ra_size _ _ _ Hq). lia. }
    rewrite (hello_int q (address D) D 0 NULL Hq Hpl) by (rewrite ?HD; done || lia). cbn [obind must].
    change (FileDescriptorSet.size (Message.file_descriptor_set (Message.mk q (Some (FileDescriptorSet.mk [FileDescriptorSet.mkFD n true] 0)))) =? 1) with true.
    cbn [dcheck obind]. unfold Message.ReadFileDescriptor. cbn [Message.pickle]. destruct Hpl as (P1 & P2 & P3 & P4). unfold kPayloadUnit in P2.
    rewrite (hello_int q (address D) D 1 (address D + 20 + 4 * Z.of_nat 1) Hq) by
      (rewrite ?HD; try lia; try (by apply Ha; [rewrite HD; unfold kMaximumMessageSize; lia|]);
       try (unfold start_iter; rewrite (proj2 (Z.eqb_neq _ _)) by (unfold NULL; lia); done); unfold is_u32; lia).
    change (20 + 4 * 0)%nat with 20%nat. change (20 + 4 * 1)%nat with 24%nat. rewrite F0, F1, (i32_mod pid Hpid). change (i32 (0 mod 2 ^ 32)) with 0.
    cbn [obind Message.file_descriptor_set_]. change (u32 0) with 0. rewrite (FileDescriptorSet.GetDescriptorAt_first (FileDescriptorSet.mkFD n true)) by done.
    cbn [FileDescriptorSet.fd]. rewrite (proj2 (Z.leb_le _ _) Hn). cbn [obind fst must d_saved d_fds d_socket]. unfold FileDescriptorSet.GetDescriptors.
    cbn [FileDescriptorSet.descriptors_ map FileDescriptorSet.fd message_loop obind d_fds d_fd_pipe d_socket].
    rewrite (bool_decide_eq_true_2 ([] = [])) by done. cbn [negb andb]. destruct s; cbn in *; by subst. }
  rewrite Eread. cbn [obind app]. change (pipe_ (set_fd_pipe n s)) with (pipe_ s). by rewrite (proj2 (Z.eqb_neq _ _) Hp).
Qed.

(** ** The two together *)

(** A channel as it is made: waiting, with nothing to send and nothing received. *)
Definition fresh (is_server : bool) (pipe fd_pipe : Z) : Channel.t := Channel.mk is_server false true 0 pipe fd_pipe [] [] [].

(** An end of a pair of sockets, or of an accepted connection, before [Connect]. *)
Record made (is_server : bool) (c : Connection.t) : Prop := {
  md_mode : Connection.is_server c = is_server /\ Connection.is_client c = negb is_server;
  md_channel : channel c = fresh is_server (pipe_ (channel c)) (fd_pipe_ (channel c));
  md_pipe : pipe_ (channel c) <> -1 /\ server_listen_pipe_ c = -1;
  md_fds : if is_server then fd_pipe_ (channel c) = -1 /\ remote_fd_pipe_ c = -1 else 0 <= fd_pipe_ (channel c) /\ 0 <= remote_fd_pipe_ c
}.

Section Both.
Context {H : Type} `{HL : HeapLaws H} {K : Type} `{!Sockets K}.
Context (is_directory : Z -> bool) (address : list Z -> Z).

Lemma client_connects global_pid c w h r h0 n :
  made false c -> realloc NULL kPayloadUnit h = (Some r, h0) -> is_directory (remote_fd_pipe_ c) = false -> 28 <= n ->
  exists h', Connect is_directory global_pid c w h [Wrote n] =
    Ret (true, set_channel (set_connection false (pipe_ (channel c)) (channel c)) c, w, h',
         [WriteBytes (hello_data 1 [le_encode 4 (GetHelloMessageProcId global_pid (kernel w)); le_encode 4 0]) [remote_fd_pipe_ c]; CloseSent []]).
Proof.
  intros [[M1 M2] Mc [Mp Ml] [F1 F2]] Hr Hd Hn. unfold Connect. rewrite Ml, (proj2 (Z.eqb_neq _ _) Mp). change (-1 =? -1) with true. cbn [andb negb].
  unfold AcceptConnection. destruct (QueueHello_spec global_pid c (kernel w) h r h0 Hr) as (p & h' & -> & Hw). cbn [obind].
  change (Connection.is_client (set_channel ?a c)) with (Connection.is_client c).
  unfold hello_values, hello_set in *. rewrite (proj2 (Z.eqb_neq (remote_fd_pipe_ c) (-1))) in * by lia.
  set (vals := [le_encode 4 (GetHelloMessageProcId global_pid (kernel w)); le_encode 4 0]) in *.
  replace (Connection.is_client _) with true by (symmetry; exact M2). unfold process_outgoing, write_queue.
  set (m := Message.mk p _). rewrite Mc. cbn [set_waiting set_channel channel queue_message set_output fresh set_connection waiting_connect_ output_queue_ pipe_ app negb dcheck obind].
  rewrite bool_decide_eq_false_2 by done. rewrite (proj2 (Z.eqb_neq _ _) Mp).
  rewrite (hello_out is_directory _ p (remote_fd_pipe_ c) n vals); [|done|cbn; by rewrite ?length_app, ?le_encode_length|done|done|done].
  cbn [obind]. exists h'. by destruct w.
Qed.

Lemma server_connects global_pid c w h r h0 :
  made true c -> realloc NULL kPayloadUnit h = (Some r, h0) ->
  exists p h', Connect is_directory global_pid c w h [] =
      Ret (true, set_channel (set_connection true (pipe_ (channel c)) (queue_message (Message.mk p None) (channel c))) c, w, h', []) /\
    writable p (header_words Message.MSG_ROUTING_NONE Message.HELLO_MESSAGE_TYPE PRIORITY_NORMAL 0)
      (layout [] [le_encode 4 (GetHelloMessageProcId global_pid (kernel w))]).
Proof.
  intros [[M1 M2] Mc [Mp Ml] [F1 F2]] Hr. unfold Connect. rewrite Ml, (proj2 (Z.eqb_neq _ _) Mp). change (-1 =? -1) with true. cbn [andb negb].
  unfold AcceptConnection. destruct (QueueHello_spec global_pid c (kernel w) h r h0 Hr) as (p & h' & -> & Hw). cbn [obind].
  unfold hello_values, hello_set in *. rewrite F2 in *. change (-1 =? -1) with true in *. cbv iota in *.
  replace (Connection.is_client _) with false by (symmetry; exact M2). replace (Connection.is_server _) with true by (symmetry; exact M1).
  exists p, h'. split; [|done]. unfold set_waiting. cbn [set_channel channel queue_message set_output set_connection pipe_]. done.
Qed.

(** The hello of a server, as it is sent. *)
Definition hello_parcel (pid : Z) : parcel := (hello_data 0 [le_encode 4 pid], []).

Lemma hello_unsent p pid :
  writable p (header_words Message.MSG_ROUTING_NONE Message.HELLO_MESSAGE_TYPE PRIORITY_NORMAL 0) (layout [] [le_encode 4 pid]) ->
  unsent is_directory true (Message.mk p None) (hello_parcel pid).
Proof.
  intros Hw. assert (Hl : length (layout [] [le_encode 4 pid]) = 4%nat) by (cbn; by rewrite ?length_app, ?le_encode_length).
  destruct (hello_parts 0 [le_encode 4 pid] ltac:(lia) ltac:(lia) (payload_u8 _ _ _ Hw)) as (HD & Hm & Hhello & Hfds & HDu). rewrite Hl in HD.
  split.
  - split; cbn [hello_parcel fst snd]; done.
  - split; [destruct (wr_header _ _ _ Hw) as [E _]; cbn [Message.pickle]; by rewrite E, header_words_length|]. split; [done|].
    exists (hello_data 0 [le_encode 4 pid]). split; [by apply writable_readable|done].
Qed.

(** The server reads the hello of the client and sends its own. *)
Lemma server_reads s (w : world) pid_s pid_c n p cch script :
  addresses_ok address -> made true s -> is_i32 pid_c -> 0 <= n -> open_script script ->
  writable p (header_words Message.MSG_ROUTING_NONE Message.HELLO_MESSAGE_TYPE PRIORITY_NORMAL 0) (layout [] [le_encode 4 pid_s]) ->
  connected cch -> cch = Channel.mk false false false 0 (pipe_ cch) (fd_pipe_ cch) [] [] [] -> 0 <= fd_pipe_ cch ->
  let s1 := set_channel (set_connection true (pipe_ (channel s)) (queue_message (Message.mk p None) (channel s))) s in
  let D := hello_data 1 [le_encode 4 pid_c; le_encode 4 0] in
  exists s2 w2 out, on_pipe_readable is_directory address [Bytes D [n] false] script s1 w [] = Ret (s2, w2, [], [OnChannelConnected pid_c D [n]], [], out) /\
    client_pipe_ s2 = -1 /\ fd_pipe_ (channel s2) = n /\
    ends_ok is_directory (mkEnds (channel s2) cch (carry out (post (hello_parcel pid_s) (mkLink [] [] [] []))) (mkLink [] [] [] [])).
Proof.
  intros Ha [[M1 M2] Mc [Mp Ml] [F1 F2]] Hpid Hn Hs Hw Hcon Hcch Hfd. cbv zeta. set (m := Message.mk p None).
  set (s1 := set_channel _ s). set (D := hello_data 1 _). unfold on_pipe_readable.
  change (waiting_connect_ (channel s1)) with true. replace (Connection.is_server s1) with true by (symmetry; exact M1). cbn [andb negb].
  set (sw := set_waiting false s1). assert (Ep : pipe_ (channel sw) = pipe_ (channel s)) by done. rewrite Ep, (proj2 (Z.eqb_neq _ _) Mp).
  assert (Hclose : exists c2 w2, CloseClientFileDescriptor sw w = (c2, w2) /\ client_pipe_ c2 = -1 /\ channel c2 = channel sw).
  { unfold CloseClientFileDescriptor. destruct (Z.eqb_spec (client_pipe_ sw) (-1)); by eexists _, _. }
  destruct Hclose as (c2 & w2 & -> & Ec2 & Ech). rewrite Ech.
  assert (Esw : channel sw = Channel.mk true false false 0 (pipe_ (channel s)) (-1) [m] [] []) by (cbn; rewrite Mc; cbn; by rewrite F1).
  assert (Hin : ProcessIncomingMessages address [Bytes D [n] false] (channel sw) [] = Ret (true, set_fd_pipe n (channel sw), [], [OnChannelConnected pid_c D [n]])).
  { apply server_hello; try done; rewrite Esw; done. }
  rewrite Hin. cbn [obind negb]. set (tx := set_fd_pipe n (channel sw)).
  assert (Etx : tx = Channel.mk true false false 0 (pipe_ (channel s)) n [m] [] []) by (unfold tx; by rewrite Esw).
  set (l := post (hello_parcel pid_s) (mkLink [] [] [] [])).
  assert (Hu : unsent is_directory true m (hello_parcel pid_s)) by by apply hello_unsent.
  assert (He : ends_ok is_directory (mkEnds tx cch l (mkLink [] [] [] []))).
  { split; cbn [near far forth back]; [by rewrite Etx|]. split; [done|]. split; rewrite Etx, Hcch.
    - split; cbn [server fd_pipe_ input_overflow_buf_ input_overflow_fds_ bytes]; [|done|split; [apply incomplete_nil|done]|done].
      exists [], [hello_parcel pid_s], false. split; cbn [output_queue_]; done.
    - split; cbn [server fd_pipe_ input_overflow_buf_ input_overflow_fds_ bytes]; [|done|split; [apply incomplete_nil|done]|done].
      exists [], [], false. by split. }
  destruct (write_queue_ok is_directory _ tx l script He) as (tx' & out & Eout & Hok & _); [done|by destruct He as (_ & _ & He & _)|done|].
  unfold process_outgoing. cbn [set_channel channel]. rewrite Eout. cbn [obind].
  assert (Efd : fd_pipe_ tx' = n).
  { unfold write_queue in Eout. rewrite Etx in Eout. cbn [waiting_connect_ output_queue_ pipe_ negb dcheck obind] in Eout.
    rewrite bool_decide_eq_false_2, (proj2 (Z.eqb_neq _ _) Mp) in Eout by done.
    apply (Descriptors.out_loop_keeps is_directory) in Eout as (_ & Ek & _). by rewrite Ek. }
  eexists (set_channel tx' (set_channel tx c2)), _, out. by split_and!.
Qed.

(** C3: two ends of a pair of sockets connect: the client's hello goes out with the other
    end of its socket for descriptors; when the server reads it, its listener is told the
    client's process, and the server keeps that socket and sends its own hello.  From then
    on, whatever the two are asked to send and however they write and read, the messages
    arrive in order and whole, the server's hello first. *)
Theorem handshake : forall s c (ws wc : world) (hs hc : H) rs rc hs0 hc0 gs gc n written script,
  let pid_s := GetHelloMessageProcId gs (kernel ws) in
  let pid_c := GetHelloMessageProcId gc (kernel wc) in
  addresses_ok address -> made true s -> made false c ->
  realloc NULL kPayloadUnit hs = (Some rs, hs0) -> realloc NULL kPayloadUnit hc = (Some rc, hc0) ->
  is_directory (remote_fd_pipe_ c) = false -> is_i32 pid_c -> 28 <= written -> 0 <= n -> open_script script ->
  let D := hello_data 1 [le_encode 4 pid_c; le_encode 4 0] in
  exists s1 hs1 c1 hc1 s2 ws2 out,
    Connect is_directory gs s ws hs [] = Ret (true, s1, ws, hs1, []) /\
    Connect is_directory gc c wc hc [Wrote written] = Ret (true, c1, wc, hc1, [WriteBytes D [remote_fd_pipe_ c]; CloseSent []]) /\
    on_pipe_readable is_directory address [Bytes D [n] false] script s1 ws [] = Ret (s2, ws2, [], [OnChannelConnected pid_c D [n]], [], out) /\
    client_pipe_ s2 = -1 /\ fd_pipe_ (channel s2) = n /\
    forall acts, let e := mkEnds (channel s2) (channel c1) (carry out (post (hello_parcel pid_s) (mkLink [] [] [] []))) (mkLink [] [] [] []) in
      all_allowed is_directory e acts ->
      exists e', run is_directory address acts e = Ret e' /\ connected (near e') /\ connected (far e') /\
        (exists late, hello_parcel pid_s :: posts true acts = got (forth e') ++ late) /\
        (exists late, posts false acts = got (back e') ++ late) /\
        (output_queue_ (near e') = [] -> bytes (forth e') = [] -> hello_parcel pid_s :: posts true acts = got (forth e')) /\
        (output_queue_ (far e') = [] -> bytes (back e') = [] -> posts false acts = got (back e')).
Proof.
  intros s c ws wc hs hc rs rc hs0 hc0 gs gc n written script pid_s pid_c Ha Hs Hc Hrs Hrc Hd Hpid Hw Hn Hscript D.
  destruct (server_connects gs s ws hs rs hs0 Hs Hrs) as (p & hs1 & Es & Hp).
  destruct (client_connects gc c wc hc rc hc0 written Hc Hrc Hd Hw) as (hc1 & Ec). set (c1 := set_channel _ c) in Ec.
  pose proof Hc as [_ Mc [Mp _] [F1 F2]].
  assert (Hcch : channel c1 = Channel.mk false false false 0 (pipe_ (channel c1)) (fd_pipe_ (channel c1)) [] [] []) by (cbn; by rewrite Mc).
  assert (Hcon : connected (channel c1)) by done.
  destruct (server_reads s ws pid_s pid_c n p (channel c1) script Ha Hs Hpid Hn Hscript Hp Hcon Hcch F1) as (s2 & ws2 & out & Er & Q1 & Q2 & He).
  eexists _, hs1, c1, hc1, s2, ws2, out. split; [exact Es|]. split; [exact Ec|]. split; [exact Er|]. split; [done|]. split; [done|].
  intros acts e Hal. destruct (run_ok is_directory address acts e Ha He Hal) as (e' & E & (C1 & C2 & Hf & Hb) & _ & P1 & P2). cbn in P1, P2.
  destruct (in_order is_directory _ _ _ Hf) as [I1 I2]. destruct (in_order is_directory _ _ _ Hb) as [J1 J2]. rewrite P1 in I1, I2. rewrite P2 in J1, J2.
  exists e'. by split_and!.
Qed.

End Both.

(** ** Example *)

Definition demo_server : Connection.t := mk (fresh true 10 (-1)) MODE_SERVER_FLAG (-1) 11 (-1) false [112].
Definition demo_client : Connection.t := mk (fresh false 12 13) MODE_CLIENT_FLAG (-1) (-1) 14 false [112].
Definition demo_process : world (K := Descriptors.demo_os) := Descriptors.demo_world 0 [0; 1; 2].

Lemma handshake_witness :
  exists s1 hs1 c1 hc1 s2 ws2 out,
    Connect (fun _ => false) 0 demo_server demo_process demo_heap [] = Ret (true, s1, demo_process, hs1, []) /\
    Connect (fun _ => false) 42 demo_client demo_process demo_heap [Wrote 100] =
      Ret (true, c1, demo_process, hc1, [WriteBytes (hello_data 1 [le_encode 4 42; le_encode 4 0]) [14]; CloseSent []]) /\
    on_pipe_readable (fun _ => false) (fun _ => 4096) [Bytes (hello_data 1 [le_encode 4 42; le_encode 4 0]) [15] false] [] s1 demo_process [] =
      Ret (s2, ws2, [], [OnChannelConnected 42 (hello_data 1 [le_encode 4 42; le_encode 4 0]) [15]], [], out) /\
    client_pipe_ s2 = -1 /\ fd_pipe_ (channel s2) = 15.
Proof.
  destruct (handshake (fun _ => false) (fun _ => 4096) demo_server demo_client demo_process demo_process demo_heap demo_heap
    (4096, repeat 205 64) (4096, repeat 205 64) 4160 4160 0 42 15 100 []) as (s1 & hs1 & c1 & hc1 & s2 & ws2 & out & E1 & E2 & E3 & E4 & E5 & _).
  - apply demo_addresses.
  - by split.
  - split; cbn; [done|done|done|lia].
  - reflexivity.
  - reflexivity.
  - reflexivity.
  - unfold is_i32. cbn. lia.
  - lia.
  - lia.
  - constructor.
  - exists s1, hs1, c1, hc1, s2, ws2, out. split; [exact E1|]. split; [exact E2|]. split; [exact E3|]. split; [exact E4|exact E5].
Defined.

End Handshake.
