(* ===== verification/GpuCommands.v ===== *)
(** The command format, [gpu/command_buffer/common/cmd_buffer_common.h] and
    [constants.h]: 32-bit entries, the packed header and the common commands as
    the client writes them. *)
From S2P Require Import Prelude.

(** * Errors ([constants.h]) *)

Inductive Error :=
| kNoError
| kInvalidSize
| kOutOfBounds
| kUnknownCommand
| kInvalidArguments
| kLostContext
| kGenericError
| kDeferCommandUntilSwapBuffersAck.

#[global] Instance Error_eq_dec : EqDecision Error.
Proof. solve_decision. Defined.

Definition IsError (e : Error) : bool :=
  negb (bool_decide (e = kNoError)) &&
  negb (bool_decide (e = kDeferCommandUntilSwapBuffersAck)).

Inductive ContextLostReason := kGuilty | kInnocent | kUnknown.

#[global] Instance ContextLostReason_eq_dec : EqDecision ContextLostReason.
Proof. solve_decision. Defined.

(** * Entries and bytes

    Shared memory is a list of bytes; an entry is 4 bytes, least significant
    first. *)

Definition kCommandBufferEntrySize : Z := 4.

Definition bytes_of_u32 (w : Z) : list Z :=
  [w mod 256; w / 256 mod 256; w / 65536 mod 256; w / 16777216 mod 256].

Definition u32_of_bytes (bs : list Z) : option Z :=
  match bs with
  | [b0; b1; b2; b3] => Some (b0 + 256 * b1 + 65536 * b2 + 16777216 * b3)
  | _ => None
  end.

Definition bytes_of_entries (ws : list Z) : list Z := mjoin (map bytes_of_u32 ws).

(** [ComputeNumEntries] takes a [size_t] and returns a [uint32]. *)
Definition ComputeNumEntries (size_in_bytes : Z) : Z := u32 (u64 (size_in_bytes + 3) / 4).

Definition RoundSizeToMultipleOfEntries (size_in_bytes : Z) : Z :=
  u64 (ComputeNumEntries size_in_bytes * 4).

(** * The header *)

Module CommandHeader.

(** 21 bits of size and 11 bits of command, packed from the low end. *)
Record t := mk { size : Z; command : Z }.

Definition kMaxSize : Z := 2 ^ 21 - 1.

(** Storing into the bit fields truncates; the assertion is a signed one. *)
Definition Init (command size : Z) : outcome t :=
  check! size <=? kMaxSize;
  Ret (mk (size mod 2 ^ 21) (command mod 2 ^ 11)).

Definition pack (h : t) : Z := Z.lor (size h) (Z.shiftl (command h) 21).

Definition unpack (w : Z) : t := mk (Z.land w (Z.ones 21)) (Z.land (Z.shiftr w 21) (Z.ones 11)).

End CommandHeader.

(** * Command ids and shapes *)

Inductive ArgFlags := kFixed | kAtLeastN.

#[global] Instance ArgFlags_eq_dec : EqDecision ArgFlags.
Proof. solve_decision. Defined.

Inductive CommandId :=
| kNoop | kSetToken | kJump | kJumpRelative | kCall | kCallRelative | kReturn
| kSetBucketSize | kSetBucketData | kSetBucketDataImmediate | kGetBucketSize | kGetBucketData.

Definition command_ids : list CommandId :=
  [kNoop; kSetToken; kJump; kJumpRelative; kCall; kCallRelative; kReturn;
   kSetBucketSize; kSetBucketData; kSetBucketDataImmediate; kGetBucketSize; kGetBucketData].

Definition kNumCommands : Z := 12.
Definition kLastCommonId : Z := 255.

Definition id_number (c : CommandId) : Z :=
  match c with
  | kNoop => 0 | kSetToken => 1 | kJump => 2 | kJumpRelative => 3 | kCall => 4
  | kCallRelative => 5 | kReturn => 6 | kSetBucketSize => 7 | kSetBucketData => 8
  | kSetBucketDataImmediate => 9 | kGetBucketSize => 10 | kGetBucketData => 11
  end.

Definition kArgFlags (c : CommandId) : ArgFlags :=
  match c with
  | kNoop | kSetBucketDataImmediate => kAtLeastN
  | _ => kFixed
  end.

(** [sizeof] of each command structure, header included. *)
Definition sizeof (c : CommandId) : Z :=
  match c with
  | kNoop => 4 | kSetToken => 8 | kJump => 8 | kJumpRelative => 8 | kCall => 8
  | kCallRelative => 8 | kReturn => 4 | kSetBucketSize => 12 | kSetBucketData => 24
  | kSetBucketDataImmediate => 16 | kGetBucketSize => 16 | kGetBucketData => 24
  end.

(** [SetCmd] and [SetCmdBySize] of the header. *)
Definition SetCmd (c : CommandId) : outcome CommandHeader.t :=
  CommandHeader.Init (id_number c) (ComputeNumEntries (sizeof c)).

Definition SetCmdBySize (c : CommandId) (size_of_data_in_bytes : Z) : outcome CommandHeader.t :=
  CommandHeader.Init (id_number c)
    (ComputeNumEntries (u64 (sizeof c + size_of_data_in_bytes))).

(** A structure of 32-bit fields after a header, as it lies in the buffer. *)
Definition layout (h : outcome CommandHeader.t) (fields : list Z) : outcome (list Z) :=
  let! h := h in Ret (CommandHeader.pack h :: map u32 fields).

(** * The structures' [Init] *)

(** [Noop]: [skip_count] counts the header. *)
Definition Noop_Init (skip_count : Z) : outcome (list Z) :=
  check! 0 <? skip_count;
  layout (CommandHeader.Init (id_number kNoop) (i32 skip_count)) [].

Definition SetToken_Init (token : Z) : outcome (list Z) := layout (SetCmd kSetToken) [token].

Definition Jump_Init (offset : Z) : outcome (list Z) := layout (SetCmd kJump) [offset].

Definition JumpRelative_Init (offset : Z) : outcome (list Z) :=
  layout (SetCmd kJumpRelative) [offset].

Definition Call_Init (offset : Z) : outcome (list Z) := layout (SetCmd kCall) [offset].

Definition CallRelative_Init (offset : Z) : outcome (list Z) :=
  layout (SetCmd kCallRelative) [offset].

Definition Return_Init : outcome (list Z) := layout (SetCmd kReturn) [].

Definition SetBucketSize_Init (bucket_id size : Z) : outcome (list Z) :=
  layout (SetCmd kSetBucketSize) [bucket_id; size].

Definition SetBucketData_Init (bucket_id offset size shared_memory_id shared_memory_offset : Z)
    : outcome (list Z) :=
  layout (SetCmd kSetBucketData) [bucket_id; offset; size; shared_memory_id; shared_memory_offset].

Definition SetBucketDataImmediate_Init (bucket_id offset size : Z) : outcome (list Z) :=
  layout (SetCmdBySize kSetBucketDataImmediate size) [bucket_id; offset; size].

Definition GetBucketSize_Init (bucket_id shared_memory_id shared_memory_offset : Z)
    : outcome (list Z) :=
  layout (SetCmd kGetBucketSize) [bucket_id; shared_memory_id; shared_memory_offset].

Definition GetBucketData_Init (bucket_id offset size shared_memory_id shared_memory_offset : Z)
    : outcome (list Z) :=
  layout (SetCmd kGetBucketData) [bucket_id; offset; size; shared_memory_id; shared_memory_offset].

(** * The commands, as values

    What a client asks for; the payload of the immediate command follows the
    structure. *)
Inductive common_command :=
| Noop (skip_count : Z)
| SetToken (token : Z)
| Jump (offset : Z)
| JumpRelative (offset : Z)
| Call (offset : Z)
| CallRelative (offset : Z)
| Return
| SetBucketSize (bucket_id size : Z)
| SetBucketData (bucket_id offset size shared_memory_id shared_memory_offset : Z)
| SetBucketDataImmediate (bucket_id offset : Z) (data : list Z)
| GetBucketSize (bucket_id shared_memory_id shared_memory_offset : Z)
| GetBucketData (bucket_id offset size shared_memory_id shared_memory_offset : Z).

Definition id_of (c : common_command) : CommandId :=
  match c with
  | Noop _ => kNoop | SetToken _ => kSetToken | Jump _ => kJump
  | JumpRelative _ => kJumpRelative | Call _ => kCall | CallRelative _ => kCallRelative
  | Return => kReturn | SetBucketSize _ _ => kSetBucketSize
  | SetBucketData _ _ _ _ _ => kSetBucketData
  | SetBucketDataImmediate _ _ _ => kSetBucketDataImmediate
  | GetBucketSize _ _ _ => kGetBucketSize | GetBucketData _ _ _ _ _ => kGetBucketData
  end.

Definition Init (c : common_command) : outcome (list Z) :=
  match c with
  | Noop n => Noop_Init n
  | SetToken t => SetToken_Init t
  | Jump o => Jump_Init o
  | JumpRelative o => JumpRelative_Init o
  | Call o => Call_Init o
  | CallRelative o => CallRelative_Init o
  | Return => Return_Init
  | SetBucketSize b s => SetBucketSize_Init b s
  | SetBucketData b o s i so => SetBucketData_Init b o s i so
  | SetBucketDataImmediate b o d => SetBucketDataImmediate_Init b o (Z.of_nat (length d))
  | GetBucketSize b i so => GetBucketSize_Init b i so
  | GetBucketData b o s i so => GetBucketData_Init b o s i so
  end.

Definition payload (c : common_command) : list Z :=
  match c with SetBucketDataImmediate _ _ d => d | _ => [] end.

(** Arguments fit their fields; [JumpRelative] and [CallRelative] take an [int32]. *)
Definition fits (c : common_command) : Prop :=
  match c with
  | Noop n => 0 < n < 2 ^ 21
  | SetToken x | Jump x | Call x => is_u32 x
  | JumpRelative x | CallRelative x => is_i32 x
  | Return => True
  | SetBucketSize b s => is_u32 b /\ is_u32 s
  | SetBucketData b o s i so | GetBucketData b o s i so =>
      is_u32 b /\ is_u32 o /\ is_u32 s /\ is_u32 i /\ is_u32 so
  | SetBucketDataImmediate b o d =>
      is_u32 b /\ is_u32 o /\ Z.of_nat (length d) < 2 ^ 22 /\ Forall (fun x => 0 <= x < 256) d
  | GetBucketSize b i so => is_u32 b /\ is_u32 i /\ is_u32 so
  end.

(** * Facts *)

Lemma u32_of_bytes_of w : is_u32 w -> u32_of_bytes (bytes_of_u32 w) = Some w.
Proof. intros Hw. cbn. f_equal. word_lia. Qed.

Lemma bytes_of_u32_range w b : b ∈ bytes_of_u32 w -> 0 <= b < 256.
Proof. unfold bytes_of_u32. rewrite !elem_of_cons, elem_of_nil. intros; word_lia. Qed.

Lemma bytes_of_entries_cons w ws :
  bytes_of_entries (w :: ws) = bytes_of_u32 w ++ bytes_of_entries ws.
Proof. done. Qed.

Lemma bytes_of_entries_app ws vs :
  bytes_of_entries (ws ++ vs) = bytes_of_entries ws ++ bytes_of_entries vs.
Proof.
  induction ws as [|w ws IH]; [done|]. cbn [app].
  by rewrite !bytes_of_entries_cons, IH, app_assoc.
Qed.

Lemma length_bytes_of_entries ws : length (bytes_of_entries ws) = (4 * length ws)%nat.
Proof.
  induction ws as [|w ws IH]; [done|].
  rewrite bytes_of_entries_cons, length_app, IH. cbn. lia.
Qed.

(** The header survives packing when its fields fit. *)
Lemma unpack_pack h :
  0 <= CommandHeader.size h < 2 ^ 21 -> 0 <= CommandHeader.command h < 2 ^ 11 ->
  CommandHeader.unpack (CommandHeader.pack h) = h.
Proof.
  intros Hs Hc. destruct h as [s c]. unfold CommandHeader.unpack, CommandHeader.pack.
  cbn [CommandHeader.size CommandHeader.command] in *. f_equal.
  - rewrite Z.land_lor_distr_l, !Z.land_ones, Z.shiftl_mul_pow2, Z.mod_mul by lia.
    by rewrite Z.lor_0_r, Z.mod_small by lia.
  - rewrite Z.shiftr_lor, (Z.shiftr_div_pow2 s), (Z.div_small s), Z.lor_0_l by lia.
    rewrite Z.shiftr_shiftl_l, Z.sub_diag, Z.shiftl_0_r, Z.land_ones by lia.
    by apply Z.mod_small.
Qed.

Lemma pack_u32 h :
  0 <= CommandHeader.size h < 2 ^ 21 -> 0 <= CommandHeader.command h < 2 ^ 11 ->
  is_u32 (CommandHeader.pack h).
Proof.
  intros Hs Hc. unfold CommandHeader.pack, is_u32.
  assert (Hn : 0 <= Z.lor (CommandHeader.size h) (Z.shiftl (CommandHeader.command h) 21)).
  { apply Z.lor_nonneg. split; [lia|]. apply Z.shiftl_nonneg. lia. }
  split; [done|]. destruct (Z.eq_dec (Z.lor (CommandHeader.size h)
    (Z.shiftl (CommandHeader.command h) 21)) 0) as [->|Hz]; [lia|].
  apply Z.log2_lt_pow2; [lia|]. rewrite Z.log2_lor by (lia || (apply Z.shiftl_nonneg; lia)).
  assert (H21 : Z.log2 (CommandHeader.size h) < 32).
  { destruct (Z.eq_dec (CommandHeader.size h) 0) as [->|]; [done|]. apply Z.log2_lt_pow2; lia. }
  assert (H11 : Z.log2 (Z.shiftl (CommandHeader.command h) 21) < 32).
  { rewrite Z.shiftl_mul_pow2 by lia.
    destruct (Z.eq_dec (CommandHeader.command h) 0) as [->|]; [done|]. apply Z.log2_lt_pow2; lia. }
  lia.
Qed.

Lemma id_number_range c : 0 <= id_number c < kNumCommands.
Proof. by destruct c. Qed.

Lemma ComputeNumEntries_small n :
  0 <= n < 2 ^ 32 -> ComputeNumEntries n = (n + 3) / 4.
Proof. intros Hn. unfold ComputeNumEntries. word_lia. Qed.

(** Rounding up reaches the next multiple of the entry size. *)
Lemma RoundSize_spec n :
  0 <= n < 2 ^ 32 ->
  n <= RoundSizeToMultipleOfEntries n < n + 4 /\ RoundSizeToMultipleOfEntries n mod 4 = 0.
Proof.
  intros Hn. unfold RoundSizeToMultipleOfEntries. rewrite ComputeNumEntries_small by done.
  word_lia.
Qed.

(** The fixed-size commands carry exactly their structure. *)
Lemma SetCmd_ok c : exists h, SetCmd c = Ret h /\
  CommandHeader.command h = id_number c /\ CommandHeader.size h = sizeof c / 4.
Proof. destruct c; by eexists. Qed.

Lemma SetCmdBySize_ok c n :
  0 <= n < 2 ^ 22 -> exists h, SetCmdBySize c n = Ret h /\
    CommandHeader.command h = id_number c /\
    CommandHeader.size h = (sizeof c + n + 3) / 4.
Proof.
  intros Hn. assert (Hs : 0 <= sizeof c <= 24) by (by destruct c).
  assert (Hi : 0 <= id_number c < 12) by (by destruct c).
  unfold SetCmdBySize. rewrite u64_small, ComputeNumEntries_small by lia.
  unfold CommandHeader.Init, CommandHeader.kMaxSize.
  destruct ((_ + 3) / 4 <=? _) eqn:E; [|zb2p; div_lia].
  cbn [dcheck obind]. eexists. split; [done|]. cbn. split; rewrite Z.mod_small; div_lia.
Qed.

(** ** The structures as headers and fields *)

Definition fields (c : common_command) : list Z :=
  match c with
  | Noop _ | Return => []
  | SetToken x | Jump x | JumpRelative x | Call x | CallRelative x => [x]
  | SetBucketSize b s => [b; s]
  | SetBucketData b o s i so | GetBucketData b o s i so => [b; o; s; i; so]
  | SetBucketDataImmediate b o d => [b; o; Z.of_nat (length d)]
  | GetBucketSize b i so => [b; i; so]
  end.

(** Entries counted by the header, the header included. *)
Definition entries_of (c : common_command) : Z :=
  match c with
  | Noop n => n
  | SetBucketDataImmediate _ _ d => (16 + Z.of_nat (length d) + 3) / 4
  | _ => sizeof (id_of c) / 4
  end.

Lemma Init_spec c ws :
  fits c -> Init c = Ret ws ->
  exists h, ws = CommandHeader.pack h :: map u32 (fields c) /\
    CommandHeader.unpack (CommandHeader.pack h) = h /\ is_u32 (CommandHeader.pack h) /\
    CommandHeader.command h = id_number (id_of c) /\ CommandHeader.size h = entries_of c.
Proof.
  intros Hf Hi.
  assert (Hh : exists h, ws = CommandHeader.pack h :: map u32 (fields c) /\
    CommandHeader.command h = id_number (id_of c) /\ CommandHeader.size h = entries_of c /\
    0 <= entries_of c < 2 ^ 21).
  { destruct c; cbn in Hi; try (injection Hi as <-; by eexists).
    - unfold Noop_Init in Hi. cbn in Hf. destruct (0 <? skip_count) eqn:E0; [|done].
      cbn [dcheck obind] in Hi. unfold CommandHeader.Init, CommandHeader.kMaxSize in Hi.
      rewrite i32_small in Hi by lia. destruct (skip_count <=? _) eqn:E1; [|done].
      cbn in Hi. injection Hi as <-. eexists. split; [done|]. cbn.
      split; [done|]. split; [|lia]. rewrite Z.mod_small; lia.
    - unfold SetBucketDataImmediate_Init in Hi. destruct Hf as (_ & _ & Hd & _).
      destruct (SetCmdBySize_ok kSetBucketDataImmediate (Z.of_nat (length data)))
        as (h & E & Hc & Hs); [lia|].
      rewrite E in Hi. cbn in Hi. injection Hi as <-. exists h. split; [done|].
      split; [done|]. split; [done|]. cbn. div_lia. }
  destruct Hh as (h & -> & Hc & Hs & Hr). exists h.
  assert (H11 : 0 <= CommandHeader.command h < 2 ^ 11).
  { rewrite Hc. pose proof (id_number_range (id_of c)). unfold kNumCommands in *. lia. }
  split; [done|]. split; [apply unpack_pack; [by rewrite Hs|done]|].
  split; [apply pack_u32; [by rewrite Hs|done]|done].
Qed.
