(* ===== verification/GpuCommandBufferService.v ===== *)
(** The service's end of a command buffer,
    [gpu/command_buffer/service/command_buffer_service.cc]: the ring buffer's
    offsets, the error and token state, and the table of transfer buffers. *)
From S2P Require Import Prelude.
From S2P Require Import OrderedSet.
From S2P Require Import GpuCommands.

(** * Shared memory

    The segments mapped into the service's process, each a list of bytes.  A
    pointer is a segment and an offset, so pointers into different segments are
    never confused and an access outside a mapped segment is an error. *)
Module Memory.

Abbreviation t := (gmap Z (list Z)).

Definition load (seg off n : Z) (m : t) : outcome (list Z) :=
  let! bytes := must (m !! seg) in
  check! (0 <=? off) && (0 <=? n) && (off + n <=? Z.of_nat (length bytes));
  Ret (take (Z.to_nat n) (drop (Z.to_nat off) bytes)).

Definition store (seg off : Z) (data : list Z) (m : t) : outcome t :=
  let! bytes := must (m !! seg) in
  check! (0 <=? off) && (off + Z.of_nat (length data) <=? Z.of_nat (length bytes));
  Ret (<[seg := take (Z.to_nat off) bytes ++ data ++
                drop (Z.to_nat off + length data) bytes]> m).

Definition load32 (seg off : Z) (m : t) : outcome Z :=
  let! bs := load seg off 4 m in must (u32_of_bytes bs).

(** ** Accesses inside a segment *)

Definition is_byte (b : Z) : Prop := 0 <= b < 256.

(** Every segment holds bytes. *)
Definition bytes_ok (m : t) : Prop := map_Forall (fun _ bs => Forall is_byte bs) m.

(** The same segments, of the same lengths. *)
Definition same_shape (m m' : t) : Prop := forall seg, length <$> m !! seg = length <$> m' !! seg.

#[global] Instance same_shape_equiv : Equivalence same_shape.
Proof.
  split; unfold same_shape; [done|intros x y Hs seg; symmetry; apply Hs|].
  intros x y z H1 H2 seg. etransitivity; [apply H1|apply H2].
Qed.

Lemma same_shape_Some m m' seg bs :
  same_shape m m' -> m !! seg = Some bs -> exists bs', m' !! seg = Some bs' /\ length bs' = length bs.
Proof.
  intros Hs Hm. specialize (Hs seg). rewrite Hm in Hs. cbn in Hs.
  destruct (m' !! seg) as [bs'|]; [|done]. cbn in Hs. exists bs'. split; [done|]. congruence.
Qed.

Lemma load_spec m seg bytes off n :
  m !! seg = Some bytes -> 0 <= off -> 0 <= n -> off + n <= Z.of_nat (length bytes) ->
  load seg off n m = Ret (take (Z.to_nat n) (drop (Z.to_nat off) bytes)).
Proof.
  intros Hm H1 H2 H3. unfold load. rewrite Hm. cbn [must obind].
  by replace (_ && _) with true by lia.
Qed.

Lemma load_Ret m seg off n bs :
  load seg off n m = Ret bs ->
  exists bytes, m !! seg = Some bytes /\ 0 <= off /\ 0 <= n /\
    off + n <= Z.of_nat (length bytes) /\ bs = take (Z.to_nat n) (drop (Z.to_nat off) bytes).
Proof.
  unfold load. destruct (m !! seg) as [bytes|]; [|done]. cbn [must obind]. intros Hl.
  inv_outcome. zb2p. exists bytes. split_and!; done || lia.
Qed.

(** Part of what was loaded. *)
Lemma load_sub m seg off n bs o k :
  load seg off n m = Ret bs -> 0 <= o -> 0 <= k -> o + k <= n ->
  load seg (off + o) k m = Ret (take (Z.to_nat k) (drop (Z.to_nat o) bs)).
Proof.
  intros (bytes & Hm & H1 & H2 & H3 & ->)%load_Ret Ho Hk Hn.
  rewrite (load_spec m seg bytes) by (done || lia). f_equal.
  rewrite skipn_firstn_comm, take_take, Nat.min_l, drop_drop by lia.
  f_equal. f_equal. lia.
Qed.

Lemma load_length m seg off n bs :
  load seg off n m = Ret bs -> Z.of_nat (length bs) = n.
Proof.
  intros (bytes & Hm & H1 & H2 & H3 & ->)%load_Ret. rewrite length_take, length_drop. lia.
Qed.

Lemma load_bytes m seg off n bs :
  bytes_ok m -> load seg off n m = Ret bs -> Forall is_byte bs.
Proof.
  intros Hok (bytes & Hm & _ & _ & _ & ->)%load_Ret. apply Forall_take, Forall_drop.
  by apply (map_Forall_lookup_1 _ _ _ _ Hok Hm).
Qed.

Lemma u32_of_bytes_range bs w : Forall is_byte bs -> u32_of_bytes bs = Some w -> is_u32 w.
Proof.
  intros Hb. destruct bs as [|b0 [|b1 [|b2 [|b3 [|? ?]]]]]; try done. cbn. intros [= <-].
  repeat (apply Forall_cons in Hb as [? Hb]). unfold is_byte, is_u32 in *. lia.
Qed.

Lemma load32_spec m seg bytes off :
  bytes_ok m -> m !! seg = Some bytes -> 0 <= off -> off + 4 <= Z.of_nat (length bytes) ->
  exists w, load32 seg off m = Ret w /\ is_u32 w.
Proof.
  intros Hok Hm H1 H2. unfold load32.
  pose proof (load_spec m seg bytes off 4 Hm H1 ltac:(lia) H2) as Hl. rewrite Hl. cbn [obind].
  pose proof (load_bytes _ _ _ _ _ Hok Hl) as Hb. pose proof (load_length _ _ _ _ _ Hl) as Hn.
  destruct (take _ _) as [|b0 [|b1 [|b2 [|b3 [|? ?]]]]]; cbn in Hn; try lia.
  eexists. split; [done|]. by apply (u32_of_bytes_range [b0; b1; b2; b3]).
Qed.

Lemma store_spec m seg bytes off data :
  bytes_ok m -> Forall is_byte data -> m !! seg = Some bytes -> 0 <= off ->
  off + Z.of_nat (length data) <= Z.of_nat (length bytes) ->
  exists m', store seg off data m = Ret m' /\ bytes_ok m' /\ same_shape m m' /\
    load seg off (Z.of_nat (length data)) m' = Ret data.
Proof.
  intros Hok Hd Hm H1 H2. unfold store. rewrite Hm. cbn [must obind].
  replace (_ && _) with true by lia. cbn [dcheck obind].
  assert (Hlen : length (take (Z.to_nat off) bytes ++ data ++ drop (Z.to_nat off + length data) bytes)
    = length bytes).
  { rewrite !length_app, length_take, length_drop. lia. }
  eexists. split; [done|].
  pose proof (map_Forall_lookup_1 _ _ _ _ Hok Hm) as Hb.
  split; [|split].
  - apply map_Forall_insert_2; [|done].
    apply Forall_app. split; [by apply Forall_take|]. apply Forall_app.
    split; [done|by apply Forall_drop].
  - intros seg'. destruct (decide (seg = seg')) as [->|].
    + rewrite lookup_insert_eq, Hm. cbn. by rewrite Hlen.
    + by rewrite lookup_insert_ne.
  - erewrite load_spec; [|apply lookup_insert_eq|lia|lia|rewrite Hlen; lia]. f_equal.
    rewrite Nat2Z.id, drop_app_ge by (rewrite length_take; lia).
    replace (Z.to_nat off - length (take (Z.to_nat off) bytes))%nat with O by (rewrite length_take; lia).
    rewrite drop_0. apply take_app_length.
Qed.

(** Reading the entry [i] of a structure that lies at [off]. *)
Lemma load32_entry m seg off ws rest n i w :
  load seg off n m = Ret (bytes_of_entries ws ++ rest) -> ws !! i = Some w -> is_u32 w ->
  load32 seg (off + 4 * Z.of_nat i) m = Ret w.
Proof.
  intros Hl Hi Hw. unfold load32. pose proof (load_length _ _ _ _ _ Hl) as Hn.
  pose proof (lookup_lt_Some _ _ _ Hi) as Hlt.
  rewrite length_app, length_bytes_of_entries in Hn.
  rewrite (load_sub _ _ _ _ _ (4 * Z.of_nat i) 4 Hl) by lia. cbn [obind].
  rewrite <- (take_drop_middle ws i w Hi) at 1.
  rewrite bytes_of_entries_app, bytes_of_entries_cons, <- app_assoc.
  rewrite drop_app_ge by (rewrite length_bytes_of_entries, length_take; lia).
  rewrite length_bytes_of_entries, length_take.
  replace (Z.to_nat (4 * Z.of_nat i) - 4 * (i `min` length ws))%nat with O by lia.
  rewrite drop_0, <- app_assoc, take_app_le by (cbn; lia). rewrite take_ge by (cbn; lia).
  by rewrite u32_of_bytes_of.
Qed.

End Memory.

(** What the operating system answers to the calls of one registration:
    [SharedMemory::CreateAnonymous], [ShareToProcess] and [Map], the last with the
    new segment and what it holds. *)
Record os := mkOs {
  create_ok : bool;
  share_ok : bool;
  map_at : option (Z * list Z)
}.

Module CommandBufferService.

(** ** Data *)

(** [Buffer]: [ptr] is a segment; [shared_memory] says whether the handle that
    keeps it mapped is set. *)
Record Buffer := mkBuffer { ptr : option Z; bsize : Z; shared_memory : bool }.

Definition null_buffer : Buffer := mkBuffer None 0 false.

#[global] Instance Buffer_eq_dec : EqDecision Buffer.
Proof. solve_decision. Defined.

(** [CommandBuffer::State]. *)
Record State := mkState {
  num_entries : Z; get_offset : Z; put_offset : Z; token : Z;
  error : Error; context_lost_reason : ContextLostReason; generation : Z
}.

Record t := mk {
  ring_buffer_id_ : Z;
  ring_buffer_ : Buffer;
  num_entries_ : Z;
  get_offset_ : Z;
  put_offset_ : Z;
  registered_objects_ : list Buffer;
  unused_registered_object_elements_ : list Z;
  token_ : Z;
  generation_ : Z;
  error_ : Error;
  context_lost_reason_ : ContextLostReason;
  shared_memory_bytes_allocated_ : Z;
  mappings : Memory.t
}.

Definition init : t :=
  mk (-1) null_buffer 0 0 0 [null_buffer] [] 0 0 kNoError kUnknown 0 ∅.

(** Field updates. *)
Definition with_offsets (get put : Z) (s : t) : t :=
  mk (ring_buffer_id_ s) (ring_buffer_ s) (num_entries_ s) get put (registered_objects_ s)
     (unused_registered_object_elements_ s) (token_ s) (generation_ s) (error_ s)
     (context_lost_reason_ s) (shared_memory_bytes_allocated_ s) (mappings s).

Definition with_ring (id : Z) (buffer : Buffer) (entries : Z) (s : t) : t :=
  mk id buffer entries (get_offset_ s) (put_offset_ s) (registered_objects_ s)
     (unused_registered_object_elements_ s) (token_ s) (generation_ s) (error_ s)
     (context_lost_reason_ s) (shared_memory_bytes_allocated_ s) (mappings s).

Definition with_objects (objects : list Buffer) (unused : list Z) (s : t) : t :=
  mk (ring_buffer_id_ s) (ring_buffer_ s) (num_entries_ s) (get_offset_ s) (put_offset_ s)
     objects unused (token_ s) (generation_ s) (error_ s)
     (context_lost_reason_ s) (shared_memory_bytes_allocated_ s) (mappings s).

Definition with_memory (bytes : Z) (m : Memory.t) (s : t) : t :=
  mk (ring_buffer_id_ s) (ring_buffer_ s) (num_entries_ s) (get_offset_ s) (put_offset_ s)
     (registered_objects_ s) (unused_registered_object_elements_ s) (token_ s)
     (generation_ s) (error_ s) (context_lost_reason_ s) bytes m.

Definition with_status (tok gen : Z) (e : Error) (r : ContextLostReason) (s : t) : t :=
  mk (ring_buffer_id_ s) (ring_buffer_ s) (num_entries_ s) (get_offset_ s) (put_offset_ s)
     (registered_objects_ s) (unused_registered_object_elements_ s) tok gen e r
     (shared_memory_bytes_allocated_ s) (mappings s).

(** ** State of the ring *)

Definition GetState (s : t) : State * t :=
  let g := u32 (generation_ s + 1) in
  (mkState (num_entries_ s) (get_offset_ s) (put_offset_ s) (token_ s) (error_ s)
     (context_lost_reason_ s) g,
   with_status (token_ s) g (error_ s) (context_lost_reason_ s) s).

Definition GetLastState (s : t) : State * t := GetState s.

Definition set_error (e : Error) (s : t) : t :=
  with_status (token_ s) (generation_ s) e (context_lost_reason_ s) s.

(** [Flush] up to its callback; the flag says that the put-offset callback runs. *)
Definition Flush (put_offset : Z) (s : t) : bool * t :=
  if (put_offset <? 0) || (num_entries_ s <? put_offset) then (false, set_error kOutOfBounds s)
  else (true, with_offsets (get_offset_ s) put_offset s).

Definition SetGetOffset (get_offset : Z) (s : t) : outcome t :=
  check! (0 <=? get_offset) && (get_offset <? num_entries_ s);
  Ret (with_offsets get_offset (put_offset_ s) s).

Definition GetTransferBuffer (handle : Z) (s : t) : Buffer :=
  if handle <? 0 then null_buffer
  else if Z.of_nat (length (registered_objects_ s)) <=? handle then null_buffer
  else default null_buffer (registered_objects_ s !! Z.to_nat handle).

(** [SetGetBuffer] up to its callback, which is given the id. *)
Definition SetGetBuffer (transfer_buffer_id : Z) (s : t) : outcome t :=
  check! ring_buffer_id_ s =? -1;
  check! put_offset_ s =? get_offset_ s;
  let buffer := GetTransferBuffer transfer_buffer_id s in
  check! bool_decide (ptr buffer <> None);
  let s := with_ring transfer_buffer_id buffer (i32 (bsize buffer / 4)) s in
  SetGetOffset 0 (with_offsets (get_offset_ s) 0 s).

Definition SetToken (token : Z) (s : t) : t :=
  with_status token (generation_ s) (error_ s) (context_lost_reason_ s) s.

(** The first error sticks. *)
Definition SetParseError (e : Error) (s : t) : t :=
  if bool_decide (error_ s = kNoError) then set_error e s else s.

Definition SetContextLostReason (r : ContextLostReason) (s : t) : t :=
  with_status (token_ s) (generation_ s) (error_ s) r s.

(** ** Transfer buffers *)

(** Padding the table up to [id_request]: the ids skipped become unused. *)
Definition pad_ids (lo hi : Z) (unused : list Z) : list Z :=
  foldl (fun u i => StdSet.insert (Z.of_nat i) u) unused (seq (Z.to_nat lo) (Z.to_nat (hi - lo))).

(** The table part of [RegisterTransferBuffer], once [buffer] is mapped. *)
Definition register_object (buffer : Buffer) (id_request : Z) (s : t) : outcome (Z * t) :=
  let objects := registered_objects_ s in
  let unused := unused_registered_object_elements_ s in
  let cur_size := i32 (Z.of_nat (length objects)) in
  let anywhere :=
    match StdSet.begin unused with
    | None => Ret (cur_size, with_objects (objects ++ [buffer]) unused s)
    | Some handle =>
        let! old := must (objects !! Z.to_nat handle) in
        check! negb (shared_memory old);
        Ret (handle, with_objects (<[Z.to_nat handle := buffer]> objects)
                       (StdSet.erase handle unused) s)
    end in
  if id_request =? -1 then anywhere
  else if cur_size <=? id_request then
    Ret (id_request,
         with_objects (objects ++ replicate (Z.to_nat (id_request - cur_size)) null_buffer ++ [buffer])
           (pad_ids cur_size id_request unused) s)
  else
    let! old := must (objects !! Z.to_nat id_request) in
    if negb (shared_memory old) then
      Ret (id_request, with_objects (<[Z.to_nat id_request := buffer]> objects)
                         (StdSet.erase id_request unused) s)
    else anywhere.

Definition RegisterTransferBuffer (o : os) (size id_request : Z) (s : t) : outcome (Z * t) :=
  if bool_decide (unused_registered_object_elements_ s = []) &&
     (2 ^ 32 - 1 <? Z.of_nat (length (registered_objects_ s))) then Ret (-1, s)
  else if negb (id_request =? -1) && ((100 <? id_request) || (id_request <? -1)) then Ret (-1, s)
  else if negb (share_ok o) then Ret (-1, s)
  else
    match map_at o with
    | None => Ret (-1, s)
    | Some (seg, bytes) =>
        let s := with_memory (shared_memory_bytes_allocated_ s) (<[seg := bytes]> (mappings s)) s in
        register_object (mkBuffer (Some seg) size true) id_request s
    end.

Definition CreateTransferBuffer (o : os) (size id_request : Z) (s : t) : outcome (Z * t) :=
  if negb (create_ok o) then Ret (-1, s)
  else
    RegisterTransferBuffer o size id_request
      (with_memory (u64 (shared_memory_bytes_allocated_ s + size)) (mappings s) s).

(** The loop that drops null objects from the end of the table. *)
Fixpoint trim (fuel : nat) (objects : list Buffer) (unused : list Z)
    : outcome (list Buffer * list Z) :=
  match fuel with
  | O => Timeout
  | S fuel =>
      let! back := must (last objects) in
      if (1 <? length objects)%nat && negb (shared_memory back) then
        trim fuel (removelast objects)
          (StdSet.erase (Z.of_nat (length (removelast objects))) unused)
      else Ret (objects, unused)
  end.

(** [delete] of the shared memory handle unmaps the segment. *)
Definition unmap (b : Buffer) (m : Memory.t) : Memory.t :=
  match ptr b with
  | Some seg => if shared_memory b then delete seg m else m
  | None => m
  end.

(** Destroying the ring buffer resets the offsets. *)
Definition detach (handle : Z) (s : t) : t :=
  if handle =? ring_buffer_id_ s
  then with_offsets 0 0 (with_ring (-1) null_buffer 0 s) else s.

Definition DestroyTransferBuffer (handle : Z) (s : t) : outcome t :=
  if handle <=? 0 then Ret s
  else if Z.of_nat (length (registered_objects_ s)) <=? handle then Ret s
  else
    let! b := must (registered_objects_ s !! Z.to_nat handle) in
    let s := with_memory (u64 (shared_memory_bytes_allocated_ s - bsize b))
               (unmap b (mappings s)) s in
    let objects := <[Z.to_nat handle := null_buffer]> (registered_objects_ s) in
    let unused := StdSet.insert handle (unused_registered_object_elements_ s) in
    let s := detach handle s in
    let! '(objects, unused) := trim (length objects) objects unused in
    Ret (with_objects objects unused s).

(** [~CommandBufferService] unmaps every object. *)
Definition destroy (s : t) : t :=
  foldl (fun s b =>
           if shared_memory b
           then with_memory (u64 (shared_memory_bytes_allocated_ s - bsize b))
                  (unmap b (mappings s)) s
           else s) s (registered_objects_ s).

(** ** The handle table *)

(** What a handle refers to. *)
Definition slot (objects : list Buffer) (i : nat) : Buffer := default null_buffer (objects !! i).

(** The unused ids are the null entries, 0 excepted. *)
Record pretable (objects : list Buffer) (unused : list Z) : Prop := {
  tb_len : (0 < length objects)%nat;
  tb_sorted : StdSet.sorted unused;
  tb_unused i : i ∈ unused <-> 0 < i /\ objects !! Z.to_nat i = Some null_buffer;
  tb_null i b : objects !! i = Some b -> shared_memory b = false -> b = null_buffer
}.

(** ... and no null entry is left at the end. *)
Definition table (objects : list Buffer) (unused : list Z) : Prop :=
  pretable objects unused /\
  forall b, last objects = Some b -> shared_memory b = false -> length objects = 1%nat.

Lemma table_init : table [null_buffer] [].
Proof.
  split; [split|].
  - cbn. lia.
  - constructor.
  - intros i. split; [by intros ?%elem_of_nil|]. intros [Hi Hl]. apply lookup_lt_Some in Hl.
    cbn in Hl. lia.
  - intros [|i] b; cbn; [|done]. by intros [= <-].
  - done.
Qed.

Lemma foldl_insert_spec n : forall a unused,
  StdSet.sorted unused ->
  let r := foldl (fun u i => StdSet.insert (Z.of_nat i) u) unused (seq a n) in
  StdSet.sorted r /\
  forall i, i ∈ r <-> i ∈ unused \/ Z.of_nat a <= i < Z.of_nat a + Z.of_nat n.
Proof.
  induction n as [|n IH]; intros a u Hs; cbn [seq foldl].
  { split; [done|]. intros i. split; [by left|]. intros [?|?]; [done|lia]. }
  destruct (IH (S a) (StdSet.insert (Z.of_nat a) u)) as [H1 H2];
    [by apply StdSet.sorted_insert|].
  split; [done|]. intros i. rewrite H2, StdSet.elem_of_insert. clear.
  split; [intros [[->|?]|?]; [right; lia|by left|right; lia]|].
  intros [?|?]; [by left; right|].
  destruct (decide (i = Z.of_nat a)); [by left; left|right; lia].
Qed.

Lemma pad_ids_spec lo hi unused :
  0 <= lo -> StdSet.sorted unused ->
  StdSet.sorted (pad_ids lo hi unused) /\
  forall i, i ∈ pad_ids lo hi unused <-> i ∈ unused \/ lo <= i < hi.
Proof.
  intros Hlo Hs. unfold pad_ids.
  destruct (foldl_insert_spec (Z.to_nat (hi - lo)) (Z.to_nat lo) unused Hs) as [H1 H2].
  split; [done|]. intros i. rewrite H2. split; (intros [?|?]; [by left|right; lia]).
Qed.

Lemma last_shared (objects : list Buffer) b :
  last objects = Some b -> objects !! (length objects - 1)%nat = Some b.
Proof. rewrite last_lookup. by replace (Nat.pred (length objects)) with (length objects - 1)%nat by lia. Qed.

(** Filling a null entry. *)
Lemma table_fill objects unused i b :
  table objects unused -> 0 <= i -> objects !! Z.to_nat i = Some null_buffer ->
  shared_memory b = true ->
  table (<[Z.to_nat i := b]> objects) (StdSet.erase i unused).
Proof.
  intros [[T1 T2 T3 T4] T5] Hi Hl Hb. pose proof (lookup_lt_Some _ _ _ Hl) as Hlt.
  split; [split|].
  - by rewrite length_insert.
  - by apply StdSet.sorted_erase.
  - intros j. rewrite StdSet.elem_of_erase, T3 by done.
    destruct (decide (Z.to_nat j = Z.to_nat i)) as [E|E].
    + rewrite E, list_lookup_insert_eq by done. split; [|intros [? [= ->]]; done].
      intros (Hne & Hj & _). lia.
    + rewrite list_lookup_insert_ne by done. split; [tauto|]. intros [? ?]. split; [|done].
      congruence.
  - intros j c. destruct (decide (j = Z.to_nat i)) as [->|E].
    + rewrite list_lookup_insert_eq by done. intros [= <-]. congruence.
    + rewrite list_lookup_insert_ne by done. apply T4.
  - intros c Hc%last_shared Hs. rewrite length_insert in *.
    destruct (decide (Z.to_nat i = (length objects - 1)%nat)) as [E|E].
    + rewrite E, list_lookup_insert_eq in Hc by lia. congruence.
    + rewrite list_lookup_insert_ne in Hc by done. apply (T5 c); [|done].
      rewrite last_lookup. by replace (Nat.pred (length objects)) with (length objects - 1)%nat by lia.
Qed.

(** Appending, with [k] null entries before the new one. *)
Lemma table_append objects unused k b :
  table objects unused -> shared_memory b = true ->
  table (objects ++ replicate k null_buffer ++ [b])
    (pad_ids (Z.of_nat (length objects)) (Z.of_nat (length objects + k)) unused).
Proof.
  intros [[T1 T2 T3 T4] T5] Hb.
  destruct (pad_ids_spec (Z.of_nat (length objects)) (Z.of_nat (length objects + k)) unused)
    as [P1 P2]; [lia|done|].
  split; [split|].
  - rewrite length_app. lia.
  - done.
  - intros i. rewrite P2, T3. split.
    + intros [[Hi Hl]|Hi].
      * split; [done|]. by apply lookup_app_l_Some.
      * split; [lia|]. rewrite lookup_app_r, lookup_app_l by (rewrite ?length_replicate; lia).
        apply lookup_replicate. split; [done|lia].
    + intros [Hi Hl]. destruct (decide (Z.to_nat i < length objects)%nat).
      * rewrite lookup_app_l in Hl by lia. by left.
      * right. rewrite lookup_app_r in Hl by lia.
        destruct (decide (Z.to_nat i - length objects < k)%nat); [lia|].
        rewrite lookup_app_r in Hl by (rewrite length_replicate; lia).
        rewrite length_replicate in Hl.
        destruct (Z.to_nat i - length objects - k)%nat eqn:E; cbn in Hl; [|done].
        injection Hl as ->. done.
  - intros i c. rewrite !lookup_app_Some, lookup_replicate.
    intros [Hc|[_ [[-> _]|[_ Hc]]]] Hs; [by apply (T4 i)|done|].
    apply list_lookup_singleton_Some in Hc as [_ <-]. congruence.
  - intros c. rewrite app_assoc, last_snoc. intros [= <-]. congruence.
Qed.

Lemma removelast_snoc {A} (l : list A) x : removelast (l ++ [x]) = l.
Proof. rewrite removelast_app by done. cbn. by rewrite app_nil_r. Qed.

(** Trimming terminates, restores the table and moves no handle. *)
Lemma trim_spec fuel : forall objects unused,
  pretable objects unused -> (length objects <= fuel)%nat ->
  exists objects' unused', trim fuel objects unused = Ret (objects', unused') /\
    table objects' unused' /\ (forall i, slot objects' i = slot objects i) /\
    (length objects' <= length objects)%nat.
Proof.
  induction fuel as [|fuel IH]; intros objects unused [T1 T2 T3 T4] Hf; [lia|].
  destruct objects as [|b objects _] using rev_ind; [cbn in T1; lia|].
  cbn [trim]. rewrite last_snoc, removelast_snoc. cbn [must obind].
  rewrite length_app in *. cbn [length] in *.
  destruct (1 <? length objects + 1)%nat eqn:E1; cbn [andb].
  2: { exists (objects ++ [b]), unused. split; [done|]. split; [|split; [done|rewrite length_app; cbn; lia]].
    split; [split; try done; rewrite length_app; cbn; lia|].
    intros c _ _. rewrite length_app. cbn. apply Nat.ltb_ge in E1. lia. }
  apply Nat.ltb_lt in E1. destruct (shared_memory b) eqn:Eb; cbn [negb].
  { exists (objects ++ [b]), unused. split; [done|]. split; [|split; [done|rewrite length_app; cbn; lia]].
    split; [split; try done; rewrite length_app; cbn; lia|].
    intros c. rewrite last_snoc. intros [= <-]. congruence. }
  assert (b = null_buffer) as ->.
  { apply (T4 (length objects) b); [|done]. by rewrite lookup_app_r, Nat.sub_diag by lia. }
  destruct (IH objects (StdSet.erase (Z.of_nat (length objects)) unused))
    as (o' & u' & Ht & Htab & Hs & Hlen).
  - split; [lia|by apply StdSet.sorted_erase| |].
    + intros i. rewrite StdSet.elem_of_erase, T3 by done. split.
      * intros (Hne & Hi & Hl). split; [done|].
        apply lookup_app_Some in Hl as [?|[Hge Hl]]; [done|].
        apply list_lookup_singleton_Some in Hl as [Hl _]. lia.
      * intros [Hi Hl]. pose proof (lookup_lt_Some _ _ _ Hl). split; [lia|]. split; [done|].
        by apply lookup_app_l_Some.
    + intros i c Hl. apply (T4 i). by apply lookup_app_l_Some.
  - lia.
  - exists o', u'. split; [done|]. split; [done|]. split; [|lia].
    intros i. rewrite Hs. unfold slot. destruct (decide (i < length objects)%nat).
    + by rewrite lookup_app_l by done.
    + rewrite (lookup_ge_None_2 objects) by lia.
      destruct (decide (i = length objects)) as [->|].
      * by rewrite lookup_app_r, Nat.sub_diag by lia.
      * rewrite lookup_ge_None_2; [done|]. rewrite length_app. cbn. lia.
Qed.

Lemma slot_insert objects i j b :
  (i < length objects)%nat ->
  slot (<[i := b]> objects) j = if decide (j = i) then b else slot objects j.
Proof.
  intros Hi. unfold slot. case_decide; subst; [by rewrite list_lookup_insert_eq|].
  by rewrite list_lookup_insert_ne.
Qed.

Lemma slot_append objects k b j :
  slot (objects ++ replicate k null_buffer ++ [b]) j =
  if decide (j = length objects + k)%nat then b else slot objects j.
Proof.
  unfold slot. destruct (decide (j < length objects)%nat).
  { rewrite lookup_app_l by done. by rewrite decide_False by lia. }
  rewrite lookup_app_r, (lookup_ge_None_2 objects) by lia.
  destruct (decide (j - length objects < k)%nat).
  { rewrite lookup_app_l by (rewrite length_replicate; lia).
    rewrite (proj2 (lookup_replicate _ _ _ _)) by (split; [done|lia]).
    by rewrite decide_False by lia. }
  rewrite lookup_app_r, length_replicate by (rewrite length_replicate; lia).
  case_decide.
  - by replace (j - length objects - k)%nat with O by lia.
  - destruct (j - length objects - k)%nat eqn:E; [lia|]. done.
Qed.

(** The entry [id] of the table was null and now holds [b]; nothing else moved. *)
Record registered (objects objects' : list Buffer) (id : Z) (b : Buffer) : Prop := {
  rg_id : 0 <= id;
  rg_free : slot objects (Z.to_nat id) = null_buffer;
  rg_slot j : slot objects' j = if decide (j = Z.to_nat id) then b else slot objects j
}.

Lemma slot_null_lookup objects unused i :
  pretable objects unused -> (i < length objects)%nat -> shared_memory (slot objects i) = false ->
  objects !! i = Some null_buffer.
Proof.
  intros [_ _ _ T4] Hi Hs. unfold slot in Hs.
  destruct (objects !! i) as [b|] eqn:E; cbn in Hs.
  - f_equal. by apply (T4 i).
  - apply lookup_ge_None_1 in E. lia.
Qed.

Lemma registered_fill objects i b :
  0 <= i -> objects !! Z.to_nat i = Some null_buffer ->
  registered objects (<[Z.to_nat i := b]> objects) i b.
Proof.
  intros Hi Hl. split; [done|by unfold slot; rewrite Hl|].
  intros j. apply slot_insert. by eapply lookup_lt_Some.
Qed.

(** Without a request: the least unused id, or a new one. *)
Lemma register_anywhere_spec s b :
  let objects := registered_objects_ s in
  let unused := unused_registered_object_elements_ s in
  table objects unused -> Z.of_nat (length objects) < 2 ^ 31 - 101 -> shared_memory b = true ->
  exists id objects' unused',
    register_object b (-1) s = Ret (id, with_objects objects' unused' s) /\
    table objects' unused' /\ registered objects objects' id b.
Proof.
  intros objects unused Ht Hlen Hb. unfold register_object. fold objects unused.
  cbn [Z.eqb Pos.eqb].
  destruct (StdSet.begin unused) as [i|] eqn:Eb.
  - apply StdSet.begin_Some in Eb. destruct Ht as [Ht Ht'].
    pose proof (proj1 (tb_unused _ _ Ht i) Eb) as [Hi Hl]. rewrite Hl. cbn [must obind].
    cbn [shared_memory null_buffer negb dcheck obind].
    eexists i, _, _. split; [done|]. split; [apply table_fill; [done|lia|done|done]|].
    apply registered_fill; [lia|done].
  - assert (unused = []) as E by (unfold StdSet.begin in Eb; by destruct unused).
    rewrite i32_small by lia.
    eexists _, (objects ++ [b]), unused. split; [done|].
    pose proof (table_append objects unused 0 b Ht Hb) as Ha. cbn [replicate app] in Ha.
    rewrite Nat.add_0_r in Ha. unfold pad_ids in Ha. rewrite Z.sub_diag in Ha. cbn in Ha.
    split; [done|]. split; [lia| |].
    + unfold slot. by rewrite lookup_ge_None_2 by lia.
    + intros j. rewrite Nat2Z.id. pose proof (slot_append objects 0 b j) as Hs.
      cbn [replicate app] in Hs. by rewrite Nat.add_0_r in Hs.
Qed.

Lemma register_object_spec s b req :
  let objects := registered_objects_ s in
  let unused := unused_registered_object_elements_ s in
  table objects unused -> Z.of_nat (length objects) < 2 ^ 31 - 101 -> shared_memory b = true ->
  req = -1 \/ 0 <= req <= 100 ->
  exists id objects' unused',
    register_object b req s = Ret (id, with_objects objects' unused' s) /\
    table objects' unused' /\ registered objects objects' id b /\
    (req <> -1 -> slot objects (Z.to_nat req) = null_buffer -> id = req).
Proof.
  intros objects unused Ht Hlen Hb Hreq.
  destruct (register_anywhere_spec s b Ht Hlen Hb) as (id & o' & u' & Ha & Ht' & Hr).
  destruct (Z.eq_dec req (-1)) as [->|Hne].
  { exists id, o', u'. split; [done|]. split; [done|]. split; [done|]. done. }
  unfold register_object in *. fold objects unused in Ha |- *. cbn [Z.eqb Pos.eqb] in Ha.
  destruct (req =? -1) eqn:E; [lia|].
  rewrite i32_small in * by lia. case_if.
  - pose proof (table_append objects unused (Z.to_nat (req - Z.of_nat (length objects))) b Ht Hb) as Hta.
    replace (Z.of_nat (length objects + Z.to_nat (req - Z.of_nat (length objects)))) with req in Hta by lia.
    eexists req, _, _. split; [done|]. split; [done|]. split; [|done].
    split; [lia| |].
    + unfold slot. by rewrite lookup_ge_None_2 by lia.
    + intros j. rewrite slot_append.
      by replace (length objects + Z.to_nat (req - Z.of_nat (length objects)))%nat
        with (Z.to_nat req) by lia.
  - assert (Hlt : (Z.to_nat req < length objects)%nat) by lia.
    destruct (lookup_lt_is_Some_2 objects (Z.to_nat req) Hlt) as [old Hold].
    rewrite Hold. cbn [must obind]. destruct (shared_memory old) eqn:Es; cbn [negb].
    + exists id, o', u'. split; [done|]. split; [done|]. split; [done|].
      intros _ Hs. unfold slot in Hs. rewrite Hold in Hs. cbn in Hs. by subst old.
    + assert (old = null_buffer) as -> by (apply (tb_null _ _ (proj1 Ht) (Z.to_nat req)); done).
      eexists req, _, _. split; [done|]. split; [apply table_fill; [done|lia|done|done]|].
      split; [apply registered_fill; [lia|done]|done].
Qed.

(** ** Invariant of the service *)

Record wf (s : t) : Prop := {
  wf_table : table (registered_objects_ s) (unused_registered_object_elements_ s);
  wf_mapped i : shared_memory (slot (registered_objects_ s) i) = true ->
    exists seg bytes, ptr (slot (registered_objects_ s) i) = Some seg /\
      mappings s !! seg = Some bytes /\
      bsize (slot (registered_objects_ s) i) = Z.of_nat (length bytes);
  wf_distinct i j : shared_memory (slot (registered_objects_ s) i) = true ->
    shared_memory (slot (registered_objects_ s) j) = true ->
    ptr (slot (registered_objects_ s) i) = ptr (slot (registered_objects_ s) j) -> i = j;
  wf_ring :
    (ring_buffer_id_ s = -1 /\ num_entries_ s = 0 /\ get_offset_ s = 0 /\ put_offset_ s = 0) \/
    (0 <= ring_buffer_id_ s /\
     slot (registered_objects_ s) (Z.to_nat (ring_buffer_id_ s)) = ring_buffer_ s /\
     shared_memory (ring_buffer_ s) = true /\
     num_entries_ s = i32 (bsize (ring_buffer_ s) / 4) /\
     0 <= get_offset_ s < num_entries_ s /\ 0 <= put_offset_ s <= num_entries_ s)
}.

Lemma service_wf_init : wf init.
Proof.
  assert (Hn : forall i, slot [null_buffer] i = null_buffer) by (by intros [|i]).
  split; cbn.
  - apply table_init.
  - intros i. by rewrite Hn.
  - intros i j. by rewrite Hn.
  - by left.
Qed.

Lemma GetTransferBuffer_slot h s :
  GetTransferBuffer h s =
    if h <? 0 then null_buffer else slot (registered_objects_ s) (Z.to_nat h).
Proof.
  unfold GetTransferBuffer, slot. case_if; [done|]. case_if; [|done].
  by rewrite lookup_ge_None_2 by lia.
Qed.

Lemma slot_null s i :
  wf s -> shared_memory (slot (registered_objects_ s) i) = false ->
  slot (registered_objects_ s) i = null_buffer.
Proof.
  intros W Hs. unfold slot in *. destruct (_ !! i) eqn:E; [|done]. cbn in *.
  by apply (tb_null _ _ (proj1 (wf_table _ W)) i).
Qed.

Lemma slot_ptr s i :
  wf s -> ptr (slot (registered_objects_ s) i) = None <-> slot (registered_objects_ s) i = null_buffer.
Proof.
  intros W. destruct (shared_memory (slot (registered_objects_ s) i)) eqn:E.
  - destruct (wf_mapped _ W i E) as (seg & bytes & Hp & _). rewrite Hp. split; [done|].
    intros Hn. by rewrite Hn in E.
  - apply slot_null in E; [|done]. by rewrite E.
Qed.

(** What the operating system promises when a mapping succeeds: a segment that
    is not in use, of the size asked for. *)
Definition os_ok (o : os) (size : Z) (m : Memory.t) : Prop :=
  forall seg bytes, map_at o = Some (seg, bytes) ->
    m !! seg = None /\ Z.of_nat (length bytes) = size.

(** [id] was a free handle and now names a buffer of [size] bytes. *)
Record created (o : os) (size req id : Z) (s s' : t) : Prop := {
  cr_id : 0 <= id;
  cr_free : GetTransferBuffer id s = null_buffer;
  cr_new : exists seg bytes, map_at o = Some (seg, bytes) /\
    GetTransferBuffer id s' = mkBuffer (Some seg) size true /\ mappings s' !! seg = Some bytes;
  cr_others j : j <> id -> GetTransferBuffer j s' = GetTransferBuffer j s;
  cr_request : 0 <= req -> GetTransferBuffer req s = null_buffer -> id = req
}.

Lemma RegisterTransferBuffer_spec o size req s :
  wf s -> os_ok o size (mappings s) ->
  Z.of_nat (length (registered_objects_ s)) < 2 ^ 31 - 101 ->
  exists id s', RegisterTransferBuffer o size req s = Ret (id, s') /\ wf s' /\
    ((id = -1 /\ s' = s) \/ created o size req id s s').
Proof.
  intros W Ho Hlen. unfold RegisterTransferBuffer.
  destruct (_ && (2 ^ 32 - 1 <? _)) eqn:E0; [zb2p; lia|].
  destruct (negb (req =? -1) && _) eqn:E1.
  { exists (-1), s. split; [done|]. split; [done|]. by left. }
  destruct (share_ok o); cbn [negb]; [|exists (-1), s; split; [done|]; split; [done|]; by left].
  destruct (map_at o) as [[seg bytes]|] eqn:Em; [|exists (-1), s; split; [done|]; split; [done|]; by left].
  destruct (Ho _ _ Em) as [Hseg Hsz].
  set (s0 := with_memory _ _ s). set (b := mkBuffer _ _ _).
  destruct (register_object_spec s0 b req) as (id & o' & u' & Hr & Ht & [R1 R2 R3] & Hq);
    [apply W|done|done| |].
  { destruct (req =? -1) eqn:E; [left; lia|right]. cbn in E1. zb2p. lia. }
  rewrite Hr. exists id, (with_objects o' u' s0). split; [done|].
  change (registered_objects_ s0) with (registered_objects_ s) in *.
  assert (Hslot : forall j, slot (registered_objects_ (with_objects o' u' s0)) j =
    if decide (j = Z.to_nat id) then b else slot (registered_objects_ s) j) by exact R3.
  assert (Hmap : mappings (with_objects o' u' s0) = <[seg := bytes]> (mappings s)) by done.
  assert (Hne : forall i seg', shared_memory (slot (registered_objects_ s) i) = true ->
    ptr (slot (registered_objects_ s) i) = Some seg' -> seg' <> seg).
  { intros i seg' Hi Hp ->. destruct (wf_mapped _ W i Hi) as (x & y & Hx & Hy & _). congruence. }
  split; [split|].
  - done.
  - intros i. rewrite Hslot, Hmap. case_decide.
    + intros _. exists seg, bytes. by rewrite lookup_insert_eq.
    + intros Hi. destruct (wf_mapped _ W i Hi) as (x & y & Hx & Hy & Hz).
      exists x, y. split; [done|]. split; [|done].
      rewrite lookup_insert_ne; [done|]. intros <-. by apply (Hne i seg).
  - intros i j. rewrite !Hslot. repeat case_decide; intros Hi Hj Hp; subst; try done.
    + exfalso. cbn in Hp. symmetry in Hp. by apply (Hne j seg).
    + exfalso. cbn in Hp. by apply (Hne i seg).
    + by apply (wf_distinct _ W).
  - destruct (wf_ring _ W) as [Hw|(H1 & H2 & H3 & H4)]; [by left|right].
    split; [done|]. split; [|done]. rewrite Hslot. case_decide as E; [|done].
    exfalso. change (ring_buffer_id_ (with_objects o' u' s0)) with (ring_buffer_id_ s) in E.
    rewrite <- H2, E, R2 in H3. done.
  - right. split.
    + done.
    + rewrite GetTransferBuffer_slot. destruct (Z.ltb_spec id 0); [lia|done].
    + exists seg, bytes. split; [done|]. rewrite Hmap, lookup_insert_eq. split; [|done].
      rewrite GetTransferBuffer_slot. destruct (Z.ltb_spec id 0); [lia|].
      rewrite Hslot. by rewrite decide_True.
    + intros j Hj. rewrite !GetTransferBuffer_slot. case_if; [done|].
      rewrite Hslot, decide_False; [done|]. lia.
    + intros Hq0. rewrite GetTransferBuffer_slot. destruct (Z.ltb_spec req 0); [lia|].
      intros. apply Hq; [lia|done].
Qed.

Lemma DestroyTransferBuffer_spec h s :
  wf s -> exists s', DestroyTransferBuffer h s = Ret s' /\ wf s' /\
    (forall j, GetTransferBuffer j s' =
       if (0 <? h) && (j =? h) then null_buffer else GetTransferBuffer j s) /\
    (0 < h < Z.of_nat (length (registered_objects_ s)) ->
     let b := slot (registered_objects_ s) (Z.to_nat h) in
     exists objects unused, s' = with_objects objects unused
       (detach h (with_memory (u64 (shared_memory_bytes_allocated_ s - bsize b))
                    (unmap b (mappings s)) s))).
Proof.
  intros W. unfold DestroyTransferBuffer.
  destruct (Z.leb_spec h 0).
  { exists s. split; [done|]. split; [done|]. split; [intros j|].
    - by replace (0 <? h) with false by lia.
    - lia. }
  destruct (Z.leb_spec (Z.of_nat (length (registered_objects_ s))) h) as [Hge|Hlt].
  { exists s. split; [done|]. split; [done|]. split; [|lia]. intros j. case_if; [|done].
    rewrite GetTransferBuffer_slot. case_if; [done|]. unfold slot.
    by rewrite lookup_ge_None_2 by lia. }
  assert (Hl : (Z.to_nat h < length (registered_objects_ s))%nat) by lia.
  destruct (lookup_lt_is_Some_2 _ _ Hl) as [b Hb]. rewrite Hb. cbn [must obind].
  assert (Hslotb : slot (registered_objects_ s) (Z.to_nat h) = b) by (unfold slot; by rewrite Hb).
  set (s1 := with_memory _ _ s).
  set (s2 := detach h s1).
  destruct (wf_table _ W) as [[T1 T2 T3 T4] T5].
  destruct (trim_spec (length (<[Z.to_nat h := null_buffer]> (registered_objects_ s)))
    (<[Z.to_nat h := null_buffer]> (registered_objects_ s))
    (StdSet.insert h (unused_registered_object_elements_ s))) as (o' & u' & Ht & Htab & Hs & _).
  { split.
    - by rewrite length_insert.
    - by apply StdSet.sorted_insert.
    - intros i. rewrite StdSet.elem_of_insert, T3.
      destruct (decide (Z.to_nat i = Z.to_nat h)) as [E|E].
      + rewrite E, list_lookup_insert_eq by done. split; [|intros [? _]; left; lia].
        intros [->|[? _]]; done.
      + rewrite list_lookup_insert_ne by done. split; [|tauto]. intros [->|?]; [done|tauto].
    - intros i c. destruct (decide (i = Z.to_nat h)) as [->|E].
      + rewrite list_lookup_insert_eq by done. by intros [= <-].
      + rewrite list_lookup_insert_ne by done. apply T4. }
  { done. }
  change (registered_objects_ s1) with (registered_objects_ s).
  change (unused_registered_object_elements_ s1) with (unused_registered_object_elements_ s).
  rewrite Ht. cbn [obind]. exists (with_objects o' u' s2). split; [done|].
  assert (Hslot : forall j, slot (registered_objects_ (with_objects o' u' s2)) j =
    if decide (j = Z.to_nat h) then null_buffer else slot (registered_objects_ s) j).
  { intros j. cbn [with_objects registered_objects_]. rewrite Hs. by apply slot_insert. }
  assert (Hmap : mappings (with_objects o' u' s2) = unmap b (mappings s)).
  { cbn. unfold s2, detach. by case_if. }
  split; [split|split].
  - done.
  - intros i. rewrite Hslot, Hmap. case_decide; [done|]. intros Hi.
    destruct (wf_mapped _ W i Hi) as (x & y & Hx & Hy & Hz). exists x, y.
    split; [done|]. split; [|done]. unfold unmap.
    destruct (ptr b) as [seg|] eqn:Ep; [|done]. destruct (shared_memory b) eqn:Eb; [|done].
    rewrite lookup_delete_ne; [done|]. intros ->.
    assert (i = Z.to_nat h); [|done]. apply (wf_distinct _ W); [done|by rewrite Hslotb|].
    by rewrite Hslotb, Ep.
  - intros i j. rewrite !Hslot. repeat case_decide; try done. apply (wf_distinct _ W).
  - cbn. unfold s2, detach. case_if; [by left|].
    destruct (wf_ring _ W) as [Hw|(H1 & H2 & H3 & H4)]; [by left|right].
    split; [done|]. split; [|done].
    change (slot (registered_objects_ (with_objects o' u' s2)) (Z.to_nat (ring_buffer_id_ s))
      = ring_buffer_ s). change (ring_buffer_id_ s1) with (ring_buffer_id_ s) in E.
    by rewrite Hslot, decide_False by lia.
  - intros j. rewrite !GetTransferBuffer_slot, Hslot. replace (0 <? h) with true by lia.
    cbn [andb]. destruct (j <? 0) eqn:Ej; [by destruct (j =? h)|].
    case_decide; [by replace (j =? h) with true by lia|by replace (j =? h) with false by lia].
  - intros _. exists o', u'. by rewrite Hslotb.
Qed.

(** Destroying the ring buffer unmaps it. *)
Lemma DestroyTransferBuffer_ring s seg :
  wf s -> 0 < ring_buffer_id_ s -> ptr (ring_buffer_ s) = Some seg ->
  exists s', DestroyTransferBuffer (ring_buffer_id_ s) s = Ret s' /\
    mappings s' = delete seg (mappings s) /\ num_entries_ s' = 0 /\
    get_offset_ s' = 0 /\ put_offset_ s' = 0 /\ error_ s' = error_ s.
Proof.
  intros W Hid Hp. destruct (DestroyTransferBuffer_spec (ring_buffer_id_ s) s W)
    as (s' & Hd & _ & _ & Hf).
  destruct (wf_ring _ W) as [(? & _)|(_ & Hr & Hsh & _)]; [lia|].
  destruct Hf as (o & u & ->).
  { split; [done|]. destruct (decide (Z.of_nat (length (registered_objects_ s)) <= ring_buffer_id_ s)); [|lia].
    unfold slot in Hr. rewrite lookup_ge_None_2 in Hr by lia. cbn in Hr. by rewrite <- Hr in Hp. }
  eexists. split; [exact Hd|]. unfold detach. cbn [ring_buffer_id_ with_memory].
  rewrite Z.eqb_refl. cbn. rewrite Hr. unfold unmap. by rewrite Hp, Hsh.
Qed.

(** ** Reachable services *)

(** Every call the service answers, with the operating system's answers and the
    arguments left open; handles are [int32], so fewer than 2^31 buffers. *)
Inductive step : t -> t -> Prop :=
| step_get_state s : step s (snd (GetState s))
| step_flush put s : step s (snd (Flush put s))
| step_set_get_offset get s s' : SetGetOffset get s = Ret s' -> step s s'
| step_set_get_buffer id s s' : is_i32 id -> SetGetBuffer id s = Ret s' -> step s s'
| step_set_token tok s : step s (SetToken tok s)
| step_parse_error e s : step s (SetParseError e s)
| step_context_lost r s : step s (SetContextLostReason r s)
| step_create o size req id s s' :
    os_ok o size (mappings s) -> Z.of_nat (length (registered_objects_ s)) < 2 ^ 31 - 101 ->
    CreateTransferBuffer o size req s = Ret (id, s') -> step s s'
| step_register o size req id s s' :
    os_ok o size (mappings s) -> Z.of_nat (length (registered_objects_ s)) < 2 ^ 31 - 101 ->
    RegisterTransferBuffer o size req s = Ret (id, s') -> step s s'
| step_destroy h s s' : DestroyTransferBuffer h s = Ret s' -> step s s'.

Lemma wf_status tok g e r s : wf s -> wf (with_status tok g e r s).
Proof. by intros [? ? ? ?]. Qed.

Lemma wf_bytes n s : wf s -> wf (with_memory n (mappings s) s).
Proof. by intros [? ? ? ?]. Qed.

Lemma wf_set_error e s : wf s -> wf (set_error e s).
Proof. apply wf_status. Qed.

Lemma wf_Flush put s : wf s -> wf (snd (Flush put s)).
Proof.
  intros W. unfold Flush. destruct (_ || _) eqn:E; cbn [snd]; [by apply wf_set_error|].
  zb2p. destruct W as [W1 W2 W3 W4]. split; try done. cbn.
  destruct W4 as [(? & ? & ? & ?)|(? & ? & ? & ? & ? & ?)]; [left|right]; split_and!; try done; lia.
Qed.

Lemma wf_SetGetOffset get s s' : wf s -> SetGetOffset get s = Ret s' -> wf s'.
Proof.
  intros W Hs. unfold SetGetOffset in Hs. inv_outcome. zb2p.
  destruct W as [W1 W2 W3 W4]. split; try done. cbn.
  destruct W4 as [(? & ? & ? & ?)|(? & ? & ? & ? & ? & ?)]; [left; lia|right].
  split_and!; try done; lia.
Qed.

Lemma wf_SetGetBuffer id s s' : wf s -> SetGetBuffer id s = Ret s' -> wf s'.
Proof.
  intros W Hs. unfold SetGetBuffer in Hs. inv_outcome.
  apply bool_decide_eq_true in H1. unfold SetGetOffset in Hs. inv_outcome. zb2p.
  rewrite GetTransferBuffer_slot in *.
  destruct (id <? 0) eqn:Ei; [done|]. zb2p.
  assert (Hsh : shared_memory (slot (registered_objects_ s) (Z.to_nat id)) = true).
  { destruct (shared_memory _) eqn:E; [done|]. apply slot_null in E; [|done]. by rewrite E in H1. }
  destruct W as [W1 W2 W3 W4]. split; try done. cbn -[i32] in *. right.
  split_and!; try done; lia.
Qed.

Lemma service_step_wf s s' : step s s' -> wf s -> wf s'.
Proof.
  intros Hs W. destruct Hs as [s|put s|get s s' Hs|id s s' Hi Hs|tok s|e s|r s|o sz req id s s' Ho Hl Hs
    |o sz req id s s' Ho Hl Hs|h s s' Hs].
  - by apply wf_status.
  - by apply wf_Flush.
  - by eapply wf_SetGetOffset.
  - by eapply wf_SetGetBuffer.
  - by apply wf_status.
  - unfold SetParseError. case_if; [by apply wf_set_error|done].
  - by apply wf_status.
  - unfold CreateTransferBuffer in Hs. destruct (create_ok o); cbn [negb] in Hs;
      [|by injection Hs as <- <-].
    destruct (RegisterTransferBuffer_spec o sz req
      (with_memory (u64 (shared_memory_bytes_allocated_ s + sz)) (mappings s) s))
      as (id' & s'' & Hr & W' & _); [by apply wf_bytes|done|done|].
    rewrite Hs in Hr. by injection Hr as <- <-.
  - destruct (RegisterTransferBuffer_spec o sz req s W Ho Hl) as (id' & s'' & Hr & W' & _).
    rewrite Hs in Hr. by injection Hr as <- <-.
  - destruct (DestroyTransferBuffer_spec h s W) as (s'' & Hr & W' & _).
    rewrite Hs in Hr. by injection Hr as <-.
Qed.

Lemma service_steps_wf x y : rtc step x y -> wf x -> wf y.
Proof. induction 1; [done|]. intros. eauto using service_step_wf. Qed.

(** C37: in every state the service can reach, each live handle names a mapped
    segment of its buffer's size that no other handle names, the unused ids are
    exactly the null entries of the table, and while a ring buffer is set its get
    offset is inside it and its put offset at most at its end. *)
Theorem service_invariant (s : t) : rtc step init s -> wf s.
Proof. intros Hs. by apply (service_steps_wf init), service_wf_init. Qed.

(** registering a buffer fails and changes nothing, or returns a handle that
    referred to nothing, now refers to the new mapping, and is the requested one
    whenever that was free; no other handle is affected. *)
Theorem register_transfer_buffer (o : os) (size req : Z) (s : t) :
  wf s -> os_ok o size (mappings s) ->
  Z.of_nat (length (registered_objects_ s)) < 2 ^ 31 - 101 ->
  exists id s', RegisterTransferBuffer o size req s = Ret (id, s') /\ wf s' /\
    ((id = -1 /\ s' = s) \/ created o size req id s s').
Proof. apply RegisterTransferBuffer_spec. Qed.

(** destroying a handle terminates whatever its value, makes exactly that
    handle refer to nothing, and detaches the ring buffer when it was the one. *)
Theorem destroy_transfer_buffer (h : Z) (s : t) :
  wf s -> exists s', DestroyTransferBuffer h s = Ret s' /\ wf s' /\
    forall j, GetTransferBuffer j s' =
      if (0 <? h) && (j =? h) then null_buffer else GetTransferBuffer j s.
Proof.
  intros W. destruct (DestroyTransferBuffer_spec h s W) as (s' & ? & ? & ? & _). by exists s'.
Qed.

(** ** Handle 0 and the byte counter *)

(** The interface allows a requested id of 0, and the registration honours it;
    the buffer can then not be destroyed through its handle. *)
Lemma register_zero_stays (share : bool) (seg size : Z) (bytes : list Z) (s : t) :
  slot (registered_objects_ s) 0 = null_buffer ->
  (0 < length (registered_objects_ s))%nat ->
  Z.of_nat (length (registered_objects_ s)) < 2 ^ 31 - 101 ->
  exists s', RegisterTransferBuffer (mkOs true true (Some (seg, bytes))) size 0 s = Ret (0, s') /\
    GetTransferBuffer 0 s' = mkBuffer (Some seg) size true /\
    DestroyTransferBuffer 0 s' = Ret s'.
Proof.
  intros H0 Hlen Hmax. unfold RegisterTransferBuffer.
  destruct (_ && (2 ^ 32 - 1 <? _)) eqn:E0; [zb2p; lia|]. cbn [share_ok map_at negb andb].
  unfold register_object. cbn [Z.eqb registered_objects_ with_memory].
  rewrite i32_small by lia. cbn [orb Z.ltb]. destruct (Z.leb_spec (Z.of_nat (length (registered_objects_ s))) 0); [lia|].
  change (Z.to_nat 0) with O. unfold slot in H0.
  destruct (registered_objects_ s !! O) as [old|] eqn:E.
  2: { apply lookup_ge_None_1 in E. cbn in E. lia. }
  cbn in H0. subst old. cbn [must obind shared_memory null_buffer negb].
  eexists. split; [done|]. split; [|done].
  rewrite GetTransferBuffer_slot. cbn [Z.ltb Z.compare registered_objects_ with_objects].
  by rewrite slot_insert by (cbn; lia).
Qed.

(** Registering an existing shared memory object does not count its bytes, but
    destroying it discounts them: the [size_t] counter wraps. *)
Lemma register_destroy_miscounts (seg size : Z) (bytes : list Z) :
  0 < size < 2 ^ 64 ->
  exists s s', RegisterTransferBuffer (mkOs true true (Some (seg, bytes))) size (-1) init = Ret (1, s) /\
    shared_memory_bytes_allocated_ s = 0 /\
    DestroyTransferBuffer 1 s = Ret s' /\ shared_memory_bytes_allocated_ s' = 2 ^ 64 - size.
Proof.
  intros Hs. eexists _, _. split; [reflexivity|]. split; [done|]. split; [reflexivity|].
  cbn. word_lia.
Qed.

(** ** A concrete service: one 16-byte buffer, which is the ring buffer *)

Definition os7 : os := mkOs true true (Some (7, replicate 16 0)).

Definition sample : t :=
  match CreateTransferBuffer os7 16 (-1) init with
  | Ret (id, s) => match SetGetBuffer id s with Ret s => s | _ => init end
  | _ => init
  end.

Lemma sample_steps : rtc step init sample.
Proof.
  eapply rtc_l.
  - eapply (step_create os7 16 (-1) 1); [|done|reflexivity].
    intros seg bytes [= <- <-]. done.
  - eapply rtc_l; [|apply rtc_refl].
    apply (step_set_get_buffer 1); [done|reflexivity].
Qed.

Lemma service_invariant_witness : rtc step init sample /\ wf sample.
Proof. split; [apply sample_steps|]. apply (service_invariant sample sample_steps). Defined.

Lemma service_sample_wf : wf sample.
Proof.
  apply (service_steps_wf init); [apply sample_steps|apply service_wf_init].
Qed.

Definition os8 : os := mkOs true true (Some (8, [1; 2; 3])).

Lemma register_transfer_buffer_witness :
  exists id s', RegisterTransferBuffer os8 3 5 sample = Ret (id, s') /\ wf s' /\
    ((id = -1 /\ s' = sample) \/ created os8 3 5 id sample s').
Proof.
  apply (register_transfer_buffer os8 3 5 sample); [apply service_sample_wf| |done].
  intros seg bytes [= <- <-]. done.
Defined.

Lemma destroy_transfer_buffer_witness :
  exists s', DestroyTransferBuffer 1 sample = Ret s' /\ wf s' /\
    forall j, GetTransferBuffer j s' =
      if (0 <? 1) && (j =? 1) then null_buffer else GetTransferBuffer j sample.
Proof. apply (destroy_transfer_buffer 1 sample service_sample_wf). Defined.

End CommandBufferService.
