(* ===== verification/GpuDecoder.v ===== *)
(** The decoder of the common commands,
    [gpu/command_buffer/service/common_decoder.cc], written against the engine
    interface of [cmd_buffer_engine.h]. *)
From S2P Require Import Prelude.
From S2P Require Import GpuCommands.
From S2P Require Import GpuCommandBufferService.
Import CommandBufferService.

(** [CommandBufferEngine], with access to the shared memory it hands out.
    [SetGetOffset] answers whether the offset was accepted. *)
Class CommandBufferEngine (E : Type) := {
  GetSharedMemoryBuffer : Z -> E -> Buffer;
  set_token : Z -> E -> E;
  SetGetOffset : Z -> E -> outcome (bool * E);
  GetGetOffset : E -> Z;
  memory : E -> Memory.t;
  set_memory : Memory.t -> E -> E
}.

(** What the decoder relies on: the buffers handed out are mapped in full, and
    neither moving the get offset nor setting the token disturbs memory. *)
Class EngineLaws (E : Type) `{!CommandBufferEngine E} := {
  engine_ok : E -> Prop;
  engine_bytes : forall e, engine_ok e -> Memory.bytes_ok (memory e);
  buffer_mapped : forall e id seg, engine_ok e -> ptr (GetSharedMemoryBuffer id e) = Some seg ->
    exists bytes, memory e !! seg = Some bytes /\
      bsize (GetSharedMemoryBuffer id e) = Z.of_nat (length bytes);
  set_token_ok : forall e tok, engine_ok e ->
    engine_ok (set_token tok e) /\ memory (set_token tok e) = memory e;
  set_get_ok : forall e off, engine_ok e -> exists ok e', SetGetOffset off e = Ret (ok, e') /\
    engine_ok e' /\ memory e' = memory e;
  set_memory_ok : forall e m, engine_ok e -> Memory.same_shape (memory e) m -> Memory.bytes_ok m ->
    engine_ok (set_memory m e) /\ memory (set_memory m e) = m
}.

(** * Buckets *)

Module Bucket.

Record t := mk { size_ : Z; data_ : option (list Z) }.

Definition new : t := mk 0 None.

(** [size_t] arithmetic: a sum that wraps is below its operands. *)
Definition OffsetSizeValid (offset size : Z) (b : t) : bool :=
  let temp := u64 (offset + size) in (temp <=? size_ b) && (offset <=? temp).

(** The bytes at the pointer returned, [None] for [NULL]; without data the valid
    pointer to the start is [NULL] too. *)
Definition GetData (offset size : Z) (b : t) : option (list Z) :=
  if OffsetSizeValid offset size b then
    d ← data_ b; Some (take (Z.to_nat size) (drop (Z.to_nat offset) d))
  else None.

Definition SetSize (size : Z) (b : t) : t :=
  if size =? size_ b then b
  else mk size (if size =? 0 then None else Some (replicate (Z.to_nat size) 0)).

(** [memcpy] of [length src] bytes into the array. *)
Definition copy_in (src : list Z) (offset : Z) (d : list Z) : list Z :=
  take (Z.to_nat offset) d ++ src ++ drop (Z.to_nat offset + length src) d.

Definition SetData (src : list Z) (offset size : Z) (b : t) : option t :=
  if OffsetSizeValid offset size b
  then Some (mk (size_ b) (copy_in (take (Z.to_nat size) src) offset <$> data_ b))
  else None.

(** Strings are stored with their terminating zero; no string is size 0. *)
Definition SetFromString (str : option (list Z)) (b : t) : option t :=
  match str with
  | None => Some (SetSize 0 b)
  | Some s =>
      let size := Z.of_nat (length s) + 1 in
      SetData (s ++ [0]) 0 size (SetSize size b)
  end.

Definition GetAsString (b : t) : option (list Z) :=
  if size_ b =? 0 then None else GetData 0 (size_ b - 1) b.

(** The array has the bucket's size. *)
Definition wf (b : t) : Prop :=
  0 <= size_ b < 2 ^ 64 /\
  match data_ b with
  | None => size_ b = 0
  | Some d => size_ b = Z.of_nat (length d) /\ 0 < size_ b
  end.

Definition bytes_ok (b : t) : Prop := forall d, data_ b = Some d -> Forall Memory.is_byte d.

Lemma wf_new : wf new.
Proof. split; cbn; [lia|done]. Qed.

Lemma SetSize_wf size b : wf b -> bytes_ok b -> is_u32 size ->
  wf (SetSize size b) /\ bytes_ok (SetSize size b) /\ size_ (SetSize size b) = size.
Proof.
  intros Hw Hb Hs. unfold SetSize, is_u32 in *. case_if; [split_and!; [done|done|lia]|].
  split_and!; [|intros d; cbn|done].
  - split; cbn; [lia|]. case_if; [done|]. rewrite length_replicate. lia.
  - case_if; [done|]. intros [= <-]. apply Forall_replicate. unfold Memory.is_byte. lia.
Qed.

Lemma OffsetSizeValid_spec offset size b :
  wf b -> is_u32 offset -> is_u32 size ->
  OffsetSizeValid offset size b = true <-> offset + size <= size_ b.
Proof.
  intros [Hs _] Ho Hz. unfold OffsetSizeValid, is_u32 in *. rewrite u64_small by lia.
  rewrite andb_true_iff, !Z.leb_le. lia.
Qed.

Lemma length_copy_in src offset d :
  0 <= offset -> offset + Z.of_nat (length src) <= Z.of_nat (length d) ->
  length (copy_in src offset d) = length d.
Proof. intros H1 H2. unfold copy_in. rewrite !length_app, length_take, length_drop. lia. Qed.

Lemma SetData_wf src offset size b b' :
  wf b -> bytes_ok b -> Forall Memory.is_byte src -> is_u32 offset -> is_u32 size ->
  Z.of_nat (length src) = size ->
  SetData src offset size b = Some b' -> wf b' /\ bytes_ok b' /\ size_ b' = size_ b.
Proof.
  intros W Hb Hs Ho Hz Hl Hset. unfold SetData in Hset.
  destruct (OffsetSizeValid offset size b) eqn:E; [|done].
  apply OffsetSizeValid_spec in E; [|done..]. injection Hset as <-.
  unfold is_u32 in *. rewrite take_ge by lia.
  destruct W as [W1 W2]. split; [split; cbn; [done|]|split; [intros d; cbn|done]].
  - destruct (data_ b) as [d|]; cbn; [|done]. rewrite length_copy_in by lia. done.
  - destruct (data_ b) as [d0|] eqn:Ed; cbn; [|done]. intros [= <-].
    specialize (Hb d0 Ed). unfold copy_in.
    repeat (apply Forall_app; split); auto using Forall_take, Forall_drop.
Qed.

Lemma GetData_spec offset size b src :
  wf b -> bytes_ok b -> is_u32 offset -> is_u32 size ->
  GetData offset size b = Some src -> Z.of_nat (length src) = size /\ Forall Memory.is_byte src.
Proof.
  intros W Hb Ho Hz Hg. unfold GetData in Hg.
  destruct (OffsetSizeValid offset size b) eqn:E; [|done].
  apply OffsetSizeValid_spec in E; [|done..]. destruct W as [W1 W2]. unfold is_u32 in *.
  destruct (data_ b) as [d|] eqn:Ed; cbn in Hg; [|done]. injection Hg as <-.
  rewrite length_take, length_drop. split; [lia|].
  by apply Forall_take, Forall_drop, Hb.
Qed.

(** Reading back what was written. *)
Lemma GetData_SetData src offset size b b' :
  wf b -> is_u32 offset -> is_u32 size -> 0 < size ->
  Z.of_nat (length src) = size -> SetData src offset size b = Some b' ->
  GetData offset size b' = Some src.
Proof.
  intros W Ho Hz Hp Hl Hset. unfold SetData in Hset. pose proof W as [W1 W2].
  destruct (OffsetSizeValid offset size b) eqn:E; [|done]. injection Hset as <-.
  unfold GetData. replace (OffsetSizeValid offset size (mk _ _)) with true
    by (symmetry; exact E). apply OffsetSizeValid_spec in E; [|done..].
  unfold is_u32 in *. rewrite take_ge by lia. cbn.
  destruct (data_ b) as [d|]; cbn; [|lia]. f_equal. unfold copy_in.
  rewrite drop_app_ge by (rewrite length_take; lia).
  replace (Z.to_nat offset - length (take (Z.to_nat offset) d))%nat with O by (rewrite length_take; lia).
  rewrite drop_0, take_app_le, take_ge by lia. done.
Qed.

(** Strings survive a bucket, and no string is distinct from the empty one. *)
Lemma GetAsString_SetFromString str b b' :
  wf b -> (forall s, str = Some s -> Z.of_nat (length s) < 2 ^ 32 - 1) ->
  SetFromString str b = Some b' -> GetAsString b' = str.
Proof.
  intros W Hlen Hs. unfold SetFromString in Hs. destruct str as [s|].
  - specialize (Hlen s eq_refl). set (n := Z.of_nat (length s) + 1) in *.
    assert (Hn : is_u32 n) by (unfold is_u32; lia).
    assert (W' : wf (SetSize n b)).
    { unfold SetSize. case_if; [done|]. split; cbn; [lia|]. case_if; [lia|].
      rewrite length_replicate. lia. }
    assert (Hsz : size_ (SetSize n b) = n) by (unfold SetSize; case_if; [lia|done]).
    pose proof (GetData_SetData (s ++ [0]) 0 n (SetSize n b) b' W' ltac:(unfold is_u32; lia) Hn
      ltac:(lia) ltac:(rewrite length_app; cbn; lia) Hs) as Hg.
    assert (Hsz' : size_ b' = n).
    { unfold SetData in Hs. destruct (OffsetSizeValid 0 n _); [|done]. injection Hs as <-. done. }
    unfold GetAsString. rewrite Hsz'. destruct (Z.eqb_spec n 0); [lia|].
    unfold GetData in *. replace (OffsetSizeValid 0 (n - 1) b') with true.
    2: { unfold OffsetSizeValid. rewrite Hsz', u64_small by lia. lia. }
    destruct (OffsetSizeValid 0 n b'); [|done].
    destruct (data_ b') as [d|]; cbn in *; [|done]. rewrite drop_0 in *.
    injection Hg as Hd. f_equal. replace (Z.to_nat (n - 1)) with (length s) by lia.
    assert (E : take (length s) (take (Z.to_nat n) d) = s).
    { rewrite Hd, take_app_le, take_ge by lia. done. }
    rewrite take_take, Nat.min_l in E by lia. done.
  - injection Hs as <-. unfold GetAsString, SetSize. case_if; [|done].
    by rewrite <- E.
Qed.

End Bucket.

(** * The decoder *)

Module CommonDecoder.

Definition kMaxStackDepth : Z := 32.

Record t := mk { buckets_ : gmap Z Bucket.t; call_stack_ : list Z }.

Definition init : t := mk ∅ [].

Definition GetBucket (bucket_id : Z) (d : t) : option Bucket.t := buckets_ d !! bucket_id.

Definition set_bucket (bucket_id : Z) (b : Bucket.t) (d : t) : t :=
  mk (<[bucket_id := b]> (buckets_ d)) (call_stack_ d).

(** The bucket, created when it does not exist. *)
Definition CreateBucket (bucket_id : Z) (d : t) : Bucket.t * t :=
  match GetBucket bucket_id d with
  | Some b => (b, d)
  | None => (Bucket.new, set_bucket bucket_id Bucket.new d)
  end.

(** [g_command_info]: how arguments are counted for each command. *)
Definition arg_count_of (c : CommandId) : Z := sizeof c / 4 - 1.

Section Handlers.
Context {E : Type} `{!CommandBufferEngine E}.

(** The decoder and its engine. *)
Definition machine : Type := t * E.

Definition fail (s : machine) : outcome (Error * machine) := Ret (kInvalidArguments, s).
Definition done_ok (s : machine) : outcome (Error * machine) := Ret (kNoError, s).

(** [NULL], or the segment and offset of the data. *)
Definition GetAddressAndCheckSize (shm_id offset size : Z) (e : E) : option (Z * Z) :=
  let buffer := GetSharedMemoryBuffer (i32 shm_id) e in
  match ptr buffer with
  | None => None
  | Some seg =>
      let end_ := u32 (offset + size) in
      if (bsize buffer <? end_) || (end_ <? offset) then None else Some (seg, offset)
  end.

Definition PushAddress (offset : Z) (s : machine) : outcome (bool * machine) :=
  let '(d, e) := s in
  if Z.of_nat (length (call_stack_ d)) <? kMaxStackDepth then
    let return_address := u32 (GetGetOffset e) in
    let! '(ok, e) := SetGetOffset (i32 offset) e in
    if ok then Ret (true, (mk (buckets_ d) (return_address :: call_stack_ d), e))
    else Ret (false, (d, e))
  else Ret (false, s).

Definition HandleNoop (s : machine) : outcome (Error * machine) := done_ok s.

Definition HandleSetToken (token : Z) (s : machine) : outcome (Error * machine) :=
  let '(d, e) := s in done_ok (d, set_token (i32 token) e).

Definition set_get_or_fail (offset : Z) (s : machine) : outcome (Error * machine) :=
  let '(d, e) := s in
  let! '(ok, e) := SetGetOffset offset e in
  if ok then done_ok (d, e) else fail (d, e).

Definition HandleJump (offset : Z) (s : machine) : outcome (Error * machine) :=
  set_get_or_fail (i32 offset) s.

(** The sum is an [int32] addition of the get offset and the signed operand. *)
Definition HandleJumpRelative (offset : Z) (s : machine) : outcome (Error * machine) :=
  set_get_or_fail (i32 (GetGetOffset (snd s) + i32 offset)) s.

Definition push_or_fail (offset : Z) (s : machine) : outcome (Error * machine) :=
  let! '(ok, s) := PushAddress offset s in if ok then done_ok s else fail s.

Definition HandleCall (offset : Z) (s : machine) : outcome (Error * machine) :=
  push_or_fail offset s.

Definition HandleCallRelative (offset : Z) (s : machine) : outcome (Error * machine) :=
  push_or_fail (u32 (GetGetOffset (snd s) + i32 offset)) s.

(** The address is popped even when the jump is refused. *)
Definition HandleReturn (s : machine) : outcome (Error * machine) :=
  let '(d, e) := s in
  match call_stack_ d with
  | [] => fail s
  | return_address :: stack =>
      set_get_or_fail (i32 return_address) (mk (buckets_ d) stack, e)
  end.

Definition HandleSetBucketSize (bucket_id size : Z) (s : machine) : outcome (Error * machine) :=
  let '(d, e) := s in
  let '(bucket, d) := CreateBucket bucket_id d in
  done_ok (set_bucket bucket_id (Bucket.SetSize size bucket) d, e).

(** Copying [data], [size] bytes, into a bucket that must exist. *)
Definition set_bucket_data (bucket_id offset size : Z) (data : list Z) (s : machine)
    : outcome (Error * machine) :=
  let '(d, e) := s in
  match GetBucket bucket_id d with
  | None => fail s
  | Some bucket =>
      match Bucket.SetData data offset size bucket with
      | None => fail s
      | Some bucket => done_ok (set_bucket bucket_id bucket d, e)
      end
  end.

Definition HandleSetBucketData
    (bucket_id offset size shared_memory_id shared_memory_offset : Z) (s : machine)
    : outcome (Error * machine) :=
  match GetAddressAndCheckSize shared_memory_id shared_memory_offset size (snd s) with
  | None => fail s
  | Some (seg, off) =>
      let! data := Memory.load seg off size (memory (snd s)) in
      set_bucket_data bucket_id offset size data s
  end.

(** The data follows the structure at [seg], [off]. *)
Definition HandleSetBucketDataImmediate (immediate_data_size seg off : Z)
    (bucket_id offset size : Z) (s : machine) : outcome (Error * machine) :=
  if immediate_data_size <? size then fail s
  else
    let! data := Memory.load seg (off + sizeof kSetBucketDataImmediate) size (memory (snd s)) in
    set_bucket_data bucket_id offset size data s.

Definition HandleGetBucketSize (bucket_id shared_memory_id shared_memory_offset : Z)
    (s : machine) : outcome (Error * machine) :=
  let '(d, e) := s in
  match GetAddressAndCheckSize shared_memory_id shared_memory_offset 4 e with
  | None => fail s
  | Some (seg, off) =>
      let! result := Memory.load32 seg off (memory e) in
      if negb (result =? 0) then fail s
      else
        match GetBucket bucket_id d with
        | None => fail s
        | Some bucket =>
            let! m := Memory.store seg off (bytes_of_u32 (u32 (Bucket.size_ bucket))) (memory e) in
            done_ok (d, set_memory m e)
        end
  end.

Definition HandleGetBucketData
    (bucket_id offset size shared_memory_id shared_memory_offset : Z) (s : machine)
    : outcome (Error * machine) :=
  let '(d, e) := s in
  match GetAddressAndCheckSize shared_memory_id shared_memory_offset size e with
  | None => fail s
  | Some (seg, off) =>
      match GetBucket bucket_id d with
      | None => fail s
      | Some bucket =>
          match Bucket.GetData offset size bucket with
          | None => fail s
          | Some src =>
              let! m := Memory.store seg off src (memory e) in
              done_ok (d, set_memory m e)
          end
      end
  end.

(** Field [i] of the structure at [seg], [off], the header being field 0. *)
Definition arg (seg off i : Z) (s : machine) : outcome Z :=
  Memory.load32 seg (off + 4 * i) (memory (snd s)).

(** The [switch] of [DoCommonCommand]. *)
Definition dispatch (c : CommandId) (immediate_data_size seg off : Z) (s : machine)
    : outcome (Error * machine) :=
  match c with
  | kNoop => HandleNoop s
  | kSetToken => let! token := arg seg off 1 s in HandleSetToken token s
  | kJump => let! offset := arg seg off 1 s in HandleJump offset s
  | kJumpRelative => let! offset := arg seg off 1 s in HandleJumpRelative offset s
  | kCall => let! offset := arg seg off 1 s in HandleCall offset s
  | kCallRelative => let! offset := arg seg off 1 s in HandleCallRelative offset s
  | kReturn => HandleReturn s
  | kSetBucketSize =>
      let! bucket_id := arg seg off 1 s in let! size := arg seg off 2 s in
      HandleSetBucketSize bucket_id size s
  | kSetBucketData =>
      let! bucket_id := arg seg off 1 s in let! offset := arg seg off 2 s in
      let! size := arg seg off 3 s in let! shm_id := arg seg off 4 s in
      let! shm_offset := arg seg off 5 s in
      HandleSetBucketData bucket_id offset size shm_id shm_offset s
  | kSetBucketDataImmediate =>
      let! bucket_id := arg seg off 1 s in let! offset := arg seg off 2 s in
      let! size := arg seg off 3 s in
      HandleSetBucketDataImmediate immediate_data_size seg off bucket_id offset size s
  | kGetBucketSize =>
      let! bucket_id := arg seg off 1 s in let! shm_id := arg seg off 2 s in
      let! shm_offset := arg seg off 3 s in
      HandleGetBucketSize bucket_id shm_id shm_offset s
  | kGetBucketData =>
      let! bucket_id := arg seg off 1 s in let! offset := arg seg off 2 s in
      let! size := arg seg off 3 s in let! shm_id := arg seg off 4 s in
      let! shm_offset := arg seg off 5 s in
      HandleGetBucketData bucket_id offset size shm_id shm_offset s
  end.

(** A command outside the table makes the function call itself with the same
    arguments; [fuel] bounds that recursion. *)
Fixpoint DoCommonCommand (fuel : nat) (command arg_count seg off : Z) (s : machine)
    : outcome (Error * machine) :=
  match fuel with
  | O => Timeout
  | S fuel =>
      match (if command <? kNumCommands then command_ids !! Z.to_nat command else None) with
      | Some c =>
          let info_arg_count := arg_count_of c in
          if (bool_decide (kArgFlags c = kFixed) && (arg_count =? info_arg_count)) ||
             (bool_decide (kArgFlags c = kAtLeastN) && (info_arg_count <=? arg_count))
          then dispatch c (u32 ((arg_count - info_arg_count) * 4)) seg off s
          else fail s
      | None => DoCommonCommand fuel command arg_count seg off s
      end
  end.

End Handlers.

(** ** Safety *)

Definition decoder_ok (d : t) : Prop :=
  map_Forall (fun _ b => Bucket.wf b /\ Bucket.bytes_ok b) (buckets_ d) /\
  Z.of_nat (length (call_stack_ d)) <= kMaxStackDepth /\ Forall is_u32 (call_stack_ d).

Lemma decoder_ok_init : decoder_ok init.
Proof. split; [apply map_Forall_empty|]. split; [cbn; unfold kMaxStackDepth; lia|constructor]. Qed.

Section Safety.
Context {E : Type} `{EL : EngineLaws E}.

Abbreviation machine := (@machine E).

(** A handler ran: it returned, successfully or with [kInvalidArguments], and
    left the machine sound and every segment in place. *)
Definition ran (m : Memory.t) (r : outcome (Error * machine)) : Prop :=
  exists err s, r = Ret (err, s) /\ (err = kNoError \/ err = kInvalidArguments) /\
    decoder_ok (fst s) /\ engine_ok (snd s) /\ Memory.same_shape m (memory (snd s)).

Definition machine_ok (s : machine) : Prop := decoder_ok (fst s) /\ engine_ok (snd s).

Lemma ran_fail s : machine_ok s -> ran (memory (snd s)) (fail s).
Proof. intros [? ?]. exists kInvalidArguments, s. split; [done|]. split; [by right|done]. Qed.

Lemma ran_ok s : machine_ok s -> ran (memory (snd s)) (done_ok s).
Proof. intros [? ?]. exists kNoError, s. split; [done|]. split; [by left|done]. Qed.

Lemma ran_if (b : bool) s : machine_ok s ->
  ran (memory (snd s)) (if b then done_ok s else fail s).
Proof. destruct b; [apply ran_ok|apply ran_fail]. Qed.

Lemma set_bucket_ok id b d :
  decoder_ok d -> Bucket.wf b -> Bucket.bytes_ok b -> decoder_ok (set_bucket id b d).
Proof. intros [H1 H2] Hw Hb. split; [|done]. by apply map_Forall_insert_2. Qed.

Lemma GetBucket_ok id d b :
  decoder_ok d -> GetBucket id d = Some b -> Bucket.wf b /\ Bucket.bytes_ok b.
Proof. intros [H1 _] Hg. apply (map_Forall_lookup_1 _ _ _ _ H1 Hg). Qed.

Lemma set_get_or_fail_ran off s : machine_ok s -> ran (memory (snd s)) (set_get_or_fail off s).
Proof.
  intros [Hd He]. destruct s as [d e]. unfold set_get_or_fail. cbn [fst snd] in *.
  destruct (set_get_ok e off He) as (ok & e' & -> & He' & <-). cbn [obind].
  by apply (ran_if ok (d, e')).
Qed.

Lemma push_or_fail_ran off s : machine_ok s -> ran (memory (snd s)) (push_or_fail off s).
Proof.
  intros [Hd He]. destruct s as [d e]. unfold push_or_fail, PushAddress. cbn [fst snd] in *.
  case_if; [|cbn [obind]; by apply (ran_fail (d, e))].
  destruct (set_get_ok e (i32 off) He) as (ok & e' & -> & He' & <-). cbn [obind].
  destruct ok; cbn [obind]; [|by apply (ran_fail (d, e'))].
  apply (ran_ok (_, e')). split; [|done]. destruct Hd as (? & ? & ?). split; [done|]. cbn in *.
  unfold kMaxStackDepth in *. split; [lia|]. by constructor; [auto with words|].
Qed.

Lemma address_spec e id off size seg off' :
  engine_ok e -> is_u32 off -> is_u32 size ->
  GetAddressAndCheckSize id off size e = Some (seg, off') ->
  exists bytes, memory e !! seg = Some bytes /\ 0 <= off' /\ off' = off /\
    off + size <= Z.of_nat (length bytes).
Proof.
  intros He Ho Hs Hg. unfold GetAddressAndCheckSize in Hg.
  destruct (ptr _) as [seg'|] eqn:Ep; [|done].
  destruct (_ || _) eqn:Ec; [done|]. injection Hg as <- <-. zb2p.
  destruct (buffer_mapped e _ _ He Ep) as (bytes & Hm & Hb). exists bytes.
  unfold is_u32 in *. rewrite Hb in *. split_and!; [done|lia|done|word_lia].
Qed.

Lemma set_bucket_data_ran id off size data s :
  machine_ok s -> is_u32 off -> is_u32 size -> Forall Memory.is_byte data ->
  Z.of_nat (length data) = size -> ran (memory (snd s)) (set_bucket_data id off size data s).
Proof.
  intros [Hd He] Ho Hs Hb Hl. destruct s as [d e]. unfold set_bucket_data. cbn [fst snd] in *.
  destruct (GetBucket id d) as [b|] eqn:Eb; [|by apply (ran_fail (d, e))].
  destruct (GetBucket_ok _ _ _ Hd Eb) as [W B].
  destruct (Bucket.SetData _ _ _ _) as [b'|] eqn:Es; [|by apply (ran_fail (d, e))].
  destruct (Bucket.SetData_wf _ _ _ _ _ W B Hb Ho Hs Hl Es) as (W' & B' & _).
  apply (ran_ok (_, e)). split; [|done]. by apply set_bucket_ok.
Qed.

Lemma store_ran d e seg off data bytes :
  machine_ok (d, e) -> Forall Memory.is_byte data -> memory e !! seg = Some bytes -> 0 <= off ->
  off + Z.of_nat (length data) <= Z.of_nat (length bytes) ->
  ran (memory e) (let! m := Memory.store seg off data (memory e) in done_ok (d, set_memory m e)).
Proof.
  intros [Hd He] Hb Hm Ho Hl. cbn [fst snd] in *.
  destruct (Memory.store_spec (memory e) seg bytes off data) as (m' & -> & Hok & Hs & _);
    [by apply engine_bytes|done..|].
  cbn [obind]. destruct (set_memory_ok e m' He Hs Hok) as [He' Hm'].
  exists kNoError, (d, set_memory m' e). split; [done|]. split; [by left|]. cbn.
  split; [done|]. split; [done|]. by rewrite Hm'.
Qed.

(** The structure at [seg], [off] lies in mapped memory. *)
Definition readable (e : E) (seg off size : Z) : Prop :=
  exists bytes, memory e !! seg = Some bytes /\ 0 <= off /\ off + size <= Z.of_nat (length bytes).

Lemma arg_spec seg off i n s :
  machine_ok s -> readable (snd s) seg off n -> 0 <= i -> 4 * (i + 1) <= n ->
  exists w, arg seg off i s = Ret w /\ is_u32 w.
Proof.
  intros [_ He] (bytes & Hm & Ho & Hl) Hi Hn. unfold arg.
  apply (Memory.load32_spec _ _ bytes); [by apply engine_bytes|done|lia|lia].
Qed.

(** Read the next field of the structure. *)
Ltac next_arg Hs Hr :=
  match goal with
  | |- ran _ (obind (arg ?seg ?off ?i ?s) _) =>
      let w := fresh "w" in let Hw := fresh "Hw" in let E := fresh "E" in
      destruct (arg_spec seg off i _ s Hs Hr) as (w & E & Hw);
        [lia|lia|rewrite E; clear E; cbn [obind]]
  end.

Lemma dispatch_ran c imm seg off s :
  machine_ok s -> readable (snd s) seg off (sizeof c + imm) -> 0 <= imm ->
  ran (memory (snd s)) (dispatch c imm seg off s).
Proof.
  intros Hs Hr Hi. pose proof Hs as [Hd He].
  destruct c; cbn [dispatch sizeof] in *; repeat next_arg Hs Hr.
  - by apply ran_ok.
  - destruct s as [d e]. cbn [fst snd] in *.
    destruct (set_token_ok e (i32 w) He) as [He' <-].
    by apply (ran_ok (d, set_token (i32 w) e)).
  - by apply set_get_or_fail_ran.
  - by apply set_get_or_fail_ran.
  - by apply push_or_fail_ran.
  - by apply push_or_fail_ran.
  - destruct s as [d e]. cbn [HandleReturn fst snd] in *.
    destruct (call_stack_ d) as [|r stack] eqn:Ec; [by apply (ran_fail (d, e))|].
    apply (set_get_or_fail_ran _ (mk (buckets_ d) stack, e)). split; [|done].
    destruct Hd as (? & H2 & H3). rewrite Ec in *. cbn in H2.
    apply Forall_cons in H3 as [_ H3]. split; [done|]. split; [cbn; lia|done].
  - destruct s as [d e]. cbn [HandleSetBucketSize fst snd] in *.
    unfold CreateBucket. destruct (GetBucket w d) as [b|] eqn:Eb.
    + destruct (GetBucket_ok _ _ _ Hd Eb) as [W B].
      destruct (Bucket.SetSize_wf w0 b W B) as (W' & B' & _); [done|].
      apply (ran_ok (_, e)). split; [|done]. by apply set_bucket_ok.
    + destruct (Bucket.SetSize_wf w0 Bucket.new Bucket.wf_new ltac:(done)) as (W' & B' & _); [done|].
      apply (ran_ok (_, e)). split; [|done]. apply set_bucket_ok; [|done..].
      apply set_bucket_ok; [done|apply Bucket.wf_new|done].
  - unfold HandleSetBucketData.
    destruct (GetAddressAndCheckSize _ _ _ _) as [[sg o]|] eqn:Eg; [|by apply ran_fail].
    destruct (address_spec _ _ _ _ _ _ He Hw3 Hw1 Eg) as (bytes & Hm & Ho & -> & Hl).
    unfold is_u32 in *.
    pose proof (Memory.load_spec _ _ _ w3 w1 Hm ltac:(lia) ltac:(lia) Hl) as Hld.
    rewrite Hld. cbn [obind]. apply set_bucket_data_ran; [done|done|done| |].
    + eapply Memory.load_bytes; [by apply engine_bytes|exact Hld].
    + by eapply Memory.load_length.
  - unfold HandleSetBucketDataImmediate. case_if; [by apply ran_fail|].
    destruct Hr as (bytes & Hm & Ho & Hl). unfold is_u32 in *. cbn [sizeof].
    pose proof (Memory.load_spec _ _ _ (off + 16) w1 Hm ltac:(lia) ltac:(lia) ltac:(lia)) as Hld.
    rewrite Hld. cbn [obind]. apply set_bucket_data_ran; [done|done|done| |].
    + eapply Memory.load_bytes; [by apply engine_bytes|exact Hld].
    + by eapply Memory.load_length.
  - destruct s as [d e]. cbn [HandleGetBucketSize fst snd] in *.
    destruct (GetAddressAndCheckSize _ _ _ _) as [[sg o]|] eqn:Eg; [|by apply (ran_fail (d, e))].
    destruct (address_spec e w0 w1 4 sg o He Hw1 ltac:(unfold is_u32; lia) Eg) as (bytes & Hm & Ho & -> & Hl).
    destruct (Memory.load32_spec (memory e) sg bytes w1) as (r & -> & _);
      [by apply engine_bytes|done|done|done|].
    cbn [obind]. destruct (r =? 0); cbn [negb]; [|by apply (ran_fail (d, e))].
    destruct (GetBucket w d) as [b|] eqn:Eb; [|by apply (ran_fail (d, e))].
    apply (store_ran d e sg w1 _ bytes); [done| |done|done|done].
    apply Forall_forall. intros x. apply bytes_of_u32_range.
  - destruct s as [d e]. cbn [HandleGetBucketData fst snd] in *.
    destruct (GetAddressAndCheckSize _ _ _ _) as [[sg o]|] eqn:Eg; [|by apply (ran_fail (d, e))].
    destruct (address_spec _ _ _ _ _ _ He Hw3 Hw1 Eg) as (bytes & Hm & Ho & -> & Hl).
    destruct (GetBucket w d) as [b|] eqn:Eb; [|by apply (ran_fail (d, e))].
    destruct (GetBucket_ok _ _ _ Hd Eb) as [W B].
    destruct (Bucket.GetData _ _ _) as [src|] eqn:Esrc; [|by apply (ran_fail (d, e))].
    destruct (Bucket.GetData_spec _ _ _ _ W B Hw0 Hw1 Esrc) as [Hlen Hbytes].
    apply (store_ran d e sg w3 _ bytes); [done|done|done|done|lia].
Qed.

Lemma do_common_ran (fuel : nat) (command arg_count seg off : Z) (s : machine) :
  machine_ok s -> 0 <= command < kNumCommands -> 0 <= arg_count < 2 ^ 21 ->
  readable (snd s) seg off (4 * (1 + arg_count)) ->
  ran (memory (snd s)) (DoCommonCommand (S fuel) command arg_count seg off s).
Proof.
  intros Hs Hc Ha Hr. cbn [DoCommonCommand]. unfold kNumCommands in *.
  destruct (Z.ltb_spec command 12); [|lia].
  destruct (lookup_lt_is_Some_2 command_ids (Z.to_nat command)) as [c ->]; [cbn; lia|].
  destruct (_ || _) eqn:Eb; [|by apply ran_fail].
  assert (Hinfo : sizeof c = 4 * (1 + arg_count_of c) /\ arg_count_of c <= arg_count).
  { split; [by destruct c|]. apply orb_prop in Eb as [Eb|Eb]; zb2p; lia. }
  apply dispatch_ran; [done| |word_lia].
  destruct Hr as (bytes & Hm & Ho & Hl). exists bytes. split; [done|]. split; [done|].
  assert (0 <= arg_count_of c) by (by destruct c).
  unfold u32. rewrite Z.mod_small by lia. lia.
Qed.

(** whatever a client puts in the ring, a common command whose header fits
    in it returns an answer, [kNoError] or [kInvalidArguments]: no access leaves a
    mapped buffer, the buckets stay sound and the call stack stays bounded. *)
Theorem do_common_safe (fuel : nat) (command arg_count seg off : Z) (s : machine) :
  machine_ok s -> 0 <= command < kNumCommands -> 0 <= arg_count < 2 ^ 21 ->
  readable (snd s) seg off (4 * (1 + arg_count)) ->
  exists err s', DoCommonCommand (S fuel) command arg_count seg off s = Ret (err, s') /\
    (err = kNoError \/ err = kInvalidArguments) /\ machine_ok s' /\
    Memory.same_shape (memory (snd s)) (memory (snd s')).
Proof.
  intros Hs Hc Ha Hr.
  destruct (do_common_ran fuel command arg_count seg off s Hs Hc Ha Hr)
    as (err & s' & ? & ? & ? & ? & ?).
  exists err, s'. by split_and!.
Qed.

Lemma SetData_whole data n b :
  Bucket.wf b -> Bucket.size_ b = n -> 0 < n < 2 ^ 32 -> Z.of_nat (length data) = n ->
  exists b', Bucket.SetData data 0 n b = Some b'.
Proof.
  intros W Hs Hn Hl. unfold Bucket.SetData.
  rewrite (proj2 (Bucket.OffsetSizeValid_spec 0 n b W ltac:(unfold is_u32; lia) ltac:(unfold is_u32; lia)))
    by lia. by eexists.
Qed.

(** data moves through a bucket unchanged: after setting a bucket's size,
    filling it from one shared buffer and reading it into another, the second
    holds what the first held. *)
Theorem bucket_transfer (b n id1 off1 id2 off2 seg1 seg2 : Z) (data : list Z) (d : t) (e : E) :
  machine_ok (d, e) -> 0 < n < 2 ^ 32 -> is_u32 off1 -> is_u32 off2 ->
  GetAddressAndCheckSize id1 off1 n e = Some (seg1, off1) ->
  GetAddressAndCheckSize id2 off2 n e = Some (seg2, off2) ->
  Memory.load seg1 off1 n (memory e) = Ret data ->
  exists s1 s2 s3, HandleSetBucketSize b n (d, e) = Ret (kNoError, s1) /\
    HandleSetBucketData b 0 n id1 off1 s1 = Ret (kNoError, s2) /\
    HandleGetBucketData b 0 n id2 off2 s2 = Ret (kNoError, s3) /\
    Memory.load seg2 off2 n (memory (snd s3)) = Ret data.
Proof.
  intros [Hd He] Hn Ho1 Ho2 Ha1 Ha2 Hl. cbn [fst snd] in *.
  pose proof (Memory.load_length _ _ _ _ _ Hl) as Hlen.
  pose proof (Memory.load_bytes _ _ _ _ _ (engine_bytes e He) Hl) as Hbytes.
  assert (Hn32 : is_u32 n) by (unfold is_u32; lia).
  assert (H032 : is_u32 0) by (unfold is_u32; lia).
  (* the bucket after [SetBucketSize] *)
  assert (Hb : exists d1 b1, HandleSetBucketSize b n (d, e) = Ret (kNoError, (d1, e)) /\
    GetBucket b d1 = Some b1 /\ Bucket.wf b1 /\ Bucket.bytes_ok b1 /\ Bucket.size_ b1 = n).
  { cbn [HandleSetBucketSize]. unfold CreateBucket. destruct (GetBucket b d) as [b0|] eqn:Eb.
    - destruct (GetBucket_ok _ _ _ Hd Eb) as [W B].
      destruct (Bucket.SetSize_wf n b0 W B Hn32) as (W' & B' & S').
      eexists _, _. split; [done|]. split; [apply lookup_insert_eq|done].
    - destruct (Bucket.SetSize_wf n Bucket.new Bucket.wf_new ltac:(done) Hn32) as (W' & B' & S').
      eexists _, _. split; [done|]. split; [apply lookup_insert_eq|done]. }
  destruct Hb as (d1 & b1 & E1 & Eb1 & W1 & B1 & S1).
  destruct (SetData_whole data n b1 W1 S1 Hn Hlen) as [b2 E2].
  destruct (Bucket.SetData_wf _ _ _ _ _ W1 B1 Hbytes H032 Hn32 Hlen E2) as (W2 & B2 & S2).
  pose proof (Bucket.GetData_SetData _ _ _ _ _ W1 H032 Hn32 ltac:(lia) Hlen E2) as Eg.
  destruct (address_spec _ _ _ _ _ _ He Ho2 Hn32 Ha2) as (bytes2 & Hm2 & _ & _ & Hl2).
  destruct (Memory.store_spec (memory e) seg2 bytes2 off2 data (engine_bytes e He) Hbytes Hm2)
    as (m & Es & Hok & Hsh & Hld); [unfold is_u32 in *; lia|lia|].
  exists (d1, e), (set_bucket b b2 d1, e), (set_bucket b b2 d1, set_memory m e).
  split; [done|]. split.
  - unfold HandleSetBucketData. cbn [snd]. rewrite Ha1, Hl. cbn [obind set_bucket_data].
    by rewrite Eb1, E2.
  - split.
    + cbn [HandleGetBucketData]. rewrite Ha2.
      change (GetBucket b (set_bucket b b2 d1)) with (<[b := b2]> (buckets_ d1) !! b).
      by rewrite lookup_insert_eq, Eg, Es.
    + cbn [snd]. destruct (set_memory_ok e m He Hsh Hok) as [_ ->]. by rewrite Hlen in Hld.
Qed.

End Safety.

(** ** What the commands mean *)

Section Meaning.
Context {E : Type} `{!CommandBufferEngine E}.

Abbreviation machine := (@machine E).

(** The handler of a command, with its arguments. *)
Definition exec (c : common_command) (s : machine) : outcome (Error * machine) :=
  match c with
  | Noop _ => done_ok s
  | GpuCommands.SetToken token => HandleSetToken token s
  | Jump offset => set_get_or_fail (i32 offset) s
  | JumpRelative offset => set_get_or_fail (i32 (GetGetOffset (snd s) + offset)) s
  | Call offset => push_or_fail offset s
  | CallRelative offset => push_or_fail (u32 (GetGetOffset (snd s) + offset)) s
  | Return => HandleReturn s
  | SetBucketSize b n => HandleSetBucketSize b n s
  | SetBucketData b o n i so => HandleSetBucketData b o n i so s
  | SetBucketDataImmediate b o data => set_bucket_data b o (Z.of_nat (length data)) data s
  | GetBucketSize b i so => HandleGetBucketSize b i so s
  | GetBucketData b o n i so => HandleGetBucketData b o n i so s
  end.

Lemma command_ids_lookup c : command_ids !! Z.to_nat (id_number c) = Some c.
Proof. by destruct c. Qed.

Lemma arg_count_accepted c :
  fits c ->
  (bool_decide (kArgFlags (id_of c) = kFixed) && (entries_of c - 1 =? arg_count_of (id_of c))) ||
  (bool_decide (kArgFlags (id_of c) = kAtLeastN) && (arg_count_of (id_of c) <=? entries_of c - 1))
  = true.
Proof.
  intros Hf. destruct c; try done.
  - rewrite bool_decide_eq_false_2, bool_decide_eq_true_2 by done. cbn [andb orb].
    apply Z.leb_le. change (0 <= skip_count - 1). cbn in Hf. lia.
  - rewrite bool_decide_eq_false_2, bool_decide_eq_true_2 by done. cbn [andb orb].
    apply Z.leb_le. change (3 <= (16 + Z.of_nat (length data) + 3) / 4 - 1). div_lia.
Qed.

(** The decoder on an encoded command. *)
Lemma do_common_decodes (fuel : nat) (c : common_command) (ws : list Z) (seg off : Z) (s : machine) :
  fits c -> Init c = Ret ws ->
  Memory.load seg off (4 * Z.of_nat (length ws) + Z.of_nat (length (payload c))) (memory (snd s))
    = Ret (bytes_of_entries ws ++ payload c) ->
  let h := CommandHeader.unpack (hd 0 ws) in
  DoCommonCommand (S fuel) (CommandHeader.command h) (CommandHeader.size h - 1) seg off s = exec c s.
Proof.
  intros Hf Hi Hl. destruct (Init_spec c ws Hf Hi) as (hd & -> & Hup & Hpk & Hc & Hs).
  cbn [List.hd]. rewrite Hup, Hc, Hs. cbn [DoCommonCommand].
  pose proof (id_number_range (id_of c)).
  destruct (Z.ltb_spec (id_number (id_of c)) kNumCommands); [|lia].
  rewrite command_ids_lookup, arg_count_accepted by done.
  assert (Harg : forall i w, fields c !! i = Some w ->
    arg seg off (Z.of_nat (S i)) s = Ret (u32 w)).
  { intros i w Hw. unfold arg. eapply Memory.load32_entry; [exact Hl| |apply u32_range].
    change ((u32 <$> fields c) !! i = Some (u32 w)). by rewrite list_lookup_fmap, Hw. }
  pose proof (Harg O) as A1. pose proof (Harg 1%nat) as A2. pose proof (Harg 2%nat) as A3.
  pose proof (Harg 3%nat) as A4. pose proof (Harg 4%nat) as A5.
  change (Z.of_nat 1) with 1 in A1. change (Z.of_nat 2) with 2 in A2.
  change (Z.of_nat 3) with 3 in A3. change (Z.of_nat 4) with 4 in A4.
  change (Z.of_nat 5) with 5 in A5.
  destruct c; cbn in Hf; cbn [id_of dispatch fields lookup list_lookup exec] in *;
    rewrite ?(A1 _ eq_refl); cbn [obind];
    rewrite ?(A2 _ eq_refl); cbn [obind];
    rewrite ?(A3 _ eq_refl); cbn [obind];
    rewrite ?(A4 _ eq_refl); cbn [obind];
    rewrite ?(A5 _ eq_refl); cbn [obind];
    rewrite ?u32_small by (unfold is_u32 in *; lia);
    try done.
  - unfold HandleJumpRelative. do 2 f_equal. word_lia.
  - unfold HandleCallRelative. do 2 f_equal. word_lia.
  - destruct Hf as (? & ? & Hlen & Hb). unfold HandleSetBucketDataImmediate.
    rewrite (u32_small (Z.of_nat (length data))) by lia.
    change (entries_of _) with ((16 + Z.of_nat (length data) + 3) / 4).
    change (arg_count_of kSetBucketDataImmediate) with 3.
    destruct (Z.ltb_spec (u32 (((16 + Z.of_nat (length data) + 3) / 4 - 1 - 3) * 4))
      (Z.of_nat (length data))) as [Hlt|_]; [word_lia|].
    change (sizeof kSetBucketDataImmediate) with 16. cbn [payload length map] in Hl.
    change (4 * Z.of_nat 4) with 16 in Hl.
    rewrite (Memory.load_sub _ _ _ _ _ 16 (Z.of_nat (length data)) Hl) by lia. cbn [obind].
    rewrite drop_app_ge by (rewrite length_bytes_of_entries; cbn; lia).
    rewrite length_bytes_of_entries. change (Z.to_nat 16 - 4 * _)%nat with O.
    unfold is_u32 in *. by rewrite drop_0, take_ge, !u32_small by lia.
Qed.

(** a command number outside the table makes [DoCommonCommand] call itself
    with the same arguments for ever; the [return kUnknownCommand] after the call
    is never reached. *)
Theorem do_common_diverges (fuel : nat) (command arg_count seg off : Z) (s : machine) :
  kNumCommands <= command -> DoCommonCommand fuel command arg_count seg off s = Timeout.
Proof.
  intros Hc. induction fuel as [|fuel IH]; [done|]. cbn [DoCommonCommand].
  destruct (Z.ltb_spec command kNumCommands); [lia|done].
Qed.

End Meaning.

(** ** The specification of the commands

    What a command means, without handlers: buckets are lists of bytes, a range of a buffer
    or of shared memory is valid when it ends inside, and the sums are not machine words. *)

Section Specification.
Context {E : Type} `{EL : EngineLaws E}.

Abbreviation machine := (@machine E).

Record view := mkView { contents : gmap Z (list Z); stack : list Z; eng : E }.

Definition content (b : Bucket.t) : list Z := default [] (Bucket.data_ b).

Definition view_of (s : machine) : view := mkView (content <$> buckets_ (fst s)) (call_stack_ (fst s)) (snd s).

Definition accepted (v : view) : outcome (Error * view) := Ret (kNoError, v).
Definition refused (v : view) : outcome (Error * view) := Ret (kInvalidArguments, v).

Definition with_content (b : Z) (d : list Z) (v : view) : view := mkView (<[b := d]> (contents v)) (stack v) (eng v).
Definition with_engine (e : E) (v : view) : view := mkView (contents v) (stack v) e.

(** The parser goes on at [target], with the call stack [after], or stays. *)
Definition go (target : Z) (after : list Z) (v : view) : outcome (Error * view) :=
  let! '(ok, e) := SetGetOffset target (eng v) in
  if ok then accepted (mkView (contents v) after e) else refused (mkView (contents v) (stack v) e).

(** The segment of [n] bytes of shared memory from [off]. *)
Definition shared (id off n : Z) (e : E) : option Z :=
  let b := GetSharedMemoryBuffer (i32 id) e in
  if (off + n <=? bsize b) && (off + n <? 2 ^ 32) then ptr b else None.

Definition zlen (l : list Z) : Z := Z.of_nat (length l).

(** Bytes written into a bucket. *)
Definition fill (b o : Z) (data : list Z) (v : view) : outcome (Error * view) :=
  match contents v !! b with
  | Some d => if o + zlen data <=? zlen d then accepted (with_content b (list_inserts (Z.to_nat o) data d) v) else refused v
  | None => refused v
  end.

(** Bytes written to shared memory. *)
Definition put (seg off : Z) (data : list Z) (v : view) : outcome (Error * view) :=
  let! m := Memory.store seg off data (memory (eng v)) in accepted (with_engine (set_memory m (eng v)) v).

(** The offsets of the relative commands count from the start of the command, which is
    where the parser stands, and a call saves that start. *)
Definition effect (c : common_command) (v : view) : outcome (Error * view) :=
  let here := GetGetOffset (eng v) in
  let call target := if zlen (stack v) <? 32 then go (i32 target) (u32 here :: stack v) v else refused v in
  match c with
  | Noop _ => accepted v
  | GpuCommands.SetToken token => accepted (with_engine (set_token (i32 token) (eng v)) v)
  | Jump offset => go (i32 offset) (stack v) v
  | JumpRelative offset => go (i32 (here + offset)) (stack v) v
  | Call offset => call offset
  | CallRelative offset => call (here + offset)
  | Return => match stack v with [] => refused v | a :: rest => go (i32 a) rest (mkView (contents v) rest (eng v)) end
  | SetBucketSize b n =>
      let zeros := replicate (Z.to_nat n) 0 in
      accepted (with_content b (match contents v !! b with Some d => if zlen d =? n then d else zeros | None => zeros end) v)
  | SetBucketData b o n i so =>
      match shared i so n (eng v) with
      | Some seg => let! data := Memory.load seg so n (memory (eng v)) in fill b o data v
      | None => refused v
      end
  | SetBucketDataImmediate b o data => fill b o data v
  | GetBucketSize b i so =>
      match shared i so 4 (eng v), contents v !! b with
      | Some seg, Some d =>
          let! result := Memory.load32 seg so (memory (eng v)) in
          if result =? 0 then put seg so (bytes_of_u32 (u32 (zlen d))) v else refused v
      | _, _ => refused v
      end
  | GetBucketData b o n i so =>
      match shared i so n (eng v), contents v !! b with
      | Some seg, Some d =>
          if (0 <? zlen d) && (o + n <=? zlen d) then put seg so (take (Z.to_nat n) (drop (Z.to_nat o) d)) v else refused v
      | _, _ => refused v
      end
  end.

(** The handler's result is the command's meaning. *)
Definition means (r : outcome (Error * machine)) (m : outcome (Error * view)) : Prop :=
  exists err s, r = Ret (err, s) /\ m = Ret (err, view_of s).

Lemma list_inserts_copy_in src off d :
  0 <= off -> off + zlen src <= zlen d -> list_inserts (Z.to_nat off) src d = Bucket.copy_in src off d.
Proof.
  unfold Bucket.copy_in, zlen. intros Ho Hl. assert (Hn : (Z.to_nat off + length src <= length d)%nat) by lia. clear Hl Ho.
  revert Hn. generalize (Z.to_nat off). induction src as [|x src IH]; intros i Hn; cbn [list_inserts app length] in *.
  - by rewrite Nat.add_0_r, take_drop.
  - rewrite IH by lia. rewrite insert_take_drop by (rewrite !length_app, length_take, length_drop; lia).
    rewrite take_app_le, take_take, Nat.min_l by (try rewrite length_take; lia). do 2 f_equal.
    rewrite drop_app_ge by (rewrite length_take; lia). rewrite length_take, Nat.min_l, Nat.sub_diag, drop_0 by lia. do 2 f_equal. lia.
Qed.

Lemma content_size b : Bucket.wf b -> Bucket.size_ b = zlen (content b).
Proof. intros [_ H]. unfold zlen, content. destruct (Bucket.data_ b); cbn; [by destruct H|done]. Qed.

Lemma view_bucket id b d e : view_of (set_bucket id b d, e) = with_content id (content b) (view_of (d, e)).
Proof. unfold view_of, with_content. cbn. by rewrite fmap_insert. Qed.

Lemma contents_lookup id d e : contents (view_of (d, e)) !! id = content <$> GetBucket id d.
Proof. cbn. by rewrite lookup_fmap. Qed.

Lemma shared_spec id off n e : is_u32 off -> is_u32 n ->
  GetAddressAndCheckSize id off n e = (fun seg => (seg, off)) <$> shared id off n e.
Proof.
  unfold is_u32, GetAddressAndCheckSize, shared. intros Ho Hn. destruct (ptr _) as [seg|]; [|by destruct (_ && _)].
  destruct (_ || _) eqn:E1, (_ && _) eqn:E2; try done; exfalso; zb2p; word_lia.
Qed.

Lemma go_means off d e : engine_ok e -> means (set_get_or_fail off (d, e)) (go off (call_stack_ d) (view_of (d, e))).
Proof.
  intros He. unfold set_get_or_fail, go. cbn [eng view_of snd]. destruct (set_get_ok e off He) as (ok & e' & -> & _). cbn [obind].
  destruct ok; eexists _, _; by split.
Qed.

Lemma call_means off off' d e : engine_ok e -> i32 off = i32 off' ->
  means (push_or_fail off (d, e)) (if zlen (call_stack_ d) <? 32 then go (i32 off') (u32 (GetGetOffset e) :: call_stack_ d) (view_of (d, e)) else refused (view_of (d, e))).
Proof.
  intros He Hoff. unfold push_or_fail, PushAddress, go, zlen, kMaxStackDepth. rewrite Hoff. destruct (_ <? _); [|eexists _, _; by split].
  cbn [eng view_of snd]. destruct (set_get_ok e (i32 off') He) as (ok & e' & -> & _). cbn [obind]. destruct ok; eexists _, _; by split.
Qed.

Lemma fill_means b o n data d e : decoder_ok d -> is_u32 o -> is_u32 n -> zlen data = n ->
  means (set_bucket_data b o n data (d, e)) (fill b o data (view_of (d, e))).
Proof.
  intros Hd Ho Hn Hl. unfold set_bucket_data, fill. rewrite contents_lookup. destruct (GetBucket b d) as [bk|] eqn:Eb; cbn [fmap option_fmap option_map]; [|eexists _, _; by split].
  destruct (GetBucket_ok _ _ _ Hd Eb) as [W _]. unfold Bucket.SetData. rewrite Hl, <- (content_size bk W).
  destruct (Bucket.OffsetSizeValid o n bk) eqn:Ev.
  - apply Bucket.OffsetSizeValid_spec in Ev; [|done..]. rewrite (proj2 (Z.leb_le _ _)) by lia. eexists _, _. split; [done|].
    rewrite view_bucket. unfold accepted. do 3 f_equal. unfold content at 2. unfold zlen in Hl. rewrite take_ge by (unfold is_u32 in *; lia).
    rewrite list_inserts_copy_in by (unfold is_u32 in *; rewrite <- ?(content_size bk W); unfold zlen; lia). cbn [Bucket.data_]. unfold content.
    destruct W as [_ W]. destruct (Bucket.data_ bk) as [l|]; [done|]. unfold is_u32 in *. assert (data = []) as -> by (destruct data; cbn in *; [done|lia]).
    unfold Bucket.copy_in. cbn. by rewrite drop_nil, take_nil.
  - rewrite (proj2 (Z.leb_gt _ _)); [eexists _, _; by split|]. destruct (Z.le_gt_cases (o + n) (Bucket.size_ bk)) as [Hle|]; [|lia].
    apply (Bucket.OffsetSizeValid_spec o n bk W Ho Hn) in Hle. congruence.
Qed.

Lemma put_means seg off data d e bytes : machine_ok (d, e) -> Forall Memory.is_byte data -> memory e !! seg = Some bytes -> 0 <= off ->
  off + zlen data <= Z.of_nat (length bytes) ->
  means (let! m := Memory.store seg off data (memory e) in done_ok (d, set_memory m e)) (put seg off data (view_of (d, e))).
Proof.
  intros [_ He] Hb Hm Ho Hl. cbn [snd] in He. unfold put. cbn [eng view_of snd].
  destruct (Memory.store_spec (memory e) seg bytes off data) as (m' & -> & _); [by apply engine_bytes|done..|]. cbn [obind]. eexists _, _. by split.
Qed.

Lemma exec_means c d e : machine_ok (d, e) -> fits c -> means (exec c (d, e)) (effect c (view_of (d, e))).
Proof.
  intros Hs Hf. pose proof Hs as [Hd He]. cbn [fst snd] in Hd, He.
  destruct c; cbn [exec effect eng view_of snd stack fst contents]; cbn [fits] in Hf.
  - eexists _, _. by split.
  - eexists _, _. by split.
  - by apply go_means.
  - by apply go_means.
  - by apply call_means.
  - apply call_means; [done|]. word_lia.
  - unfold HandleReturn. destruct (call_stack_ d) as [|a rest] eqn:Ec; [eexists _, _; by split|].
    apply (go_means (i32 a) (mk (buckets_ d) rest) e He).
  - unfold HandleSetBucketSize, CreateBucket. rewrite lookup_fmap. fold (GetBucket bucket_id d). destruct Hf as [_ Hn].
    destruct (GetBucket bucket_id d) as [b|] eqn:Eb; cbn [fmap option_fmap option_map]; (eexists kNoError, _; split; [done|]).
    + rewrite view_bucket. unfold accepted. do 3 f_equal. destruct (GetBucket_ok _ _ _ Hd Eb) as [W _]. rewrite <- (content_size b W).
      unfold Bucket.SetSize. rewrite (Z.eqb_sym size). destruct (Bucket.size_ b =? size); [done|]. unfold content. cbn. case_if; zb2p; [by subst|done].
    + rewrite !view_bucket. unfold accepted, with_content. cbn. rewrite insert_insert_eq. do 4 f_equal.
      unfold Bucket.SetSize. cbn. destruct (size =? 0) eqn:E0; zb2p; unfold content; cbn; [by subst|done].
  - destruct Hf as (_ & Ho & Hn & _ & Hso). unfold HandleSetBucketData. cbn [snd]. rewrite shared_spec by done.
    destruct (shared _ _ _ e) as [seg|] eqn:Esh; cbn [fmap option_fmap option_map]; [|eexists _, _; by split].
    assert (Ha : GetAddressAndCheckSize shared_memory_id shared_memory_offset size e = Some (seg, shared_memory_offset)) by (by rewrite shared_spec, Esh by done).
    destruct (address_spec _ _ _ _ _ _ He Hso Hn Ha) as (bytes & Hm & Hp & _ & Hl). unfold is_u32 in *.
    pose proof (Memory.load_spec _ _ _ shared_memory_offset size Hm ltac:(lia) ltac:(lia) Hl) as Hld.
    rewrite Hld. cbn [obind]. apply fill_means; [done|done|done|]. unfold zlen. by eapply Memory.load_length.
  - destruct Hf as (_ & Ho & Hlen & Hb). apply fill_means; [done|done|unfold is_u32; lia|done].
  - destruct Hf as (_ & _ & Hso). unfold HandleGetBucketSize. rewrite shared_spec by (done || (unfold is_u32; lia)).
    destruct (shared _ _ 4 e) as [seg|] eqn:Esh; cbn [fmap option_fmap option_map]; [|eexists _, _; by split].
    assert (Ha : GetAddressAndCheckSize shared_memory_id shared_memory_offset 4 e = Some (seg, shared_memory_offset)) by (by rewrite shared_spec, Esh by (done || (unfold is_u32; lia))).
    destruct (address_spec e _ _ 4 _ _ He Hso ltac:(unfold is_u32; lia) Ha) as (bytes & Hm & Hp & _ & Hl).
    destruct (Memory.load32_spec (memory e) seg bytes shared_memory_offset) as (res & Hres & _); [by apply engine_bytes|done|done|done|].
    rewrite Hres. cbn [obind]. rewrite lookup_fmap. fold (GetBucket bucket_id d).
    destruct (GetBucket bucket_id d) as [b|] eqn:Eb; cbn [fmap option_fmap option_map]; [|destruct (res =? 0); eexists _, _; by split].
    destruct (res =? 0); cbn [negb]; [|eexists _, _; by split]. destruct (GetBucket_ok _ _ _ Hd Eb) as [W _]. rewrite (content_size b W).
    apply (put_means seg shared_memory_offset _ d e bytes); [done| |done|done|done]. apply Forall_forall. intros x. apply bytes_of_u32_range.
  - destruct Hf as (_ & Ho & Hn & _ & Hso). unfold HandleGetBucketData. rewrite shared_spec by done.
    destruct (shared _ _ _ e) as [seg|] eqn:Esh; cbn [fmap option_fmap option_map]; [|eexists _, _; by split].
    assert (Ha : GetAddressAndCheckSize shared_memory_id shared_memory_offset size e = Some (seg, shared_memory_offset)) by (by rewrite shared_spec, Esh by done).
    destruct (address_spec _ _ _ _ _ _ He Hso Hn Ha) as (bytes & Hm & Hp & _ & Hl). rewrite lookup_fmap. fold (GetBucket bucket_id d).
    destruct (GetBucket bucket_id d) as [b|] eqn:Eb; cbn [fmap option_fmap option_map]; [|eexists _, _; by split].
    destruct (GetBucket_ok _ _ _ Hd Eb) as [W B]. pose proof (content_size b W) as Hsz.
    destruct (Bucket.GetData offset size b) as [src|] eqn:Eg.
    + destruct (Bucket.GetData_spec _ _ _ _ W B Ho Hn Eg) as [Hlen Hbytes]. unfold Bucket.GetData in Eg.
      destruct (Bucket.OffsetSizeValid offset size b) eqn:Ev; [|done]. apply Bucket.OffsetSizeValid_spec in Ev; [|done..].
      destruct W as [_ W]. unfold content in *. destruct (Bucket.data_ b) as [l|]; [|done]. cbn in Eg. injection Eg as <-.
      rewrite (proj2 (Z.ltb_lt _ _)), (proj2 (Z.leb_le _ _)) by (cbn in *; lia). cbn [andb].
      apply (put_means seg shared_memory_offset _ d e bytes); [done|done|done|done|unfold zlen; lia].
    + assert (Hno : (0 <? zlen (content b)) && (offset + size <=? zlen (content b)) = false).
      { unfold Bucket.GetData in Eg. destruct (Bucket.OffsetSizeValid offset size b) eqn:Ev.
        - unfold content. destruct (Bucket.data_ b); [done|]. done.
        - rewrite <- Hsz. destruct (Z.leb_spec (offset + size) (Bucket.size_ b)) as [Hle|]; [|by rewrite andb_false_r].
          apply (Bucket.OffsetSizeValid_spec offset size b W Ho Hn) in Hle. congruence. }
      rewrite Hno. eexists _, _. by split.
Qed.

(** C32: a command as the client writes it, wherever it lies in shared memory, is decoded and
    has on a sound machine the effect that its specification says, on the buckets as lists
    of bytes, the call stack and the engine, with the same error.  In the specification as
    in the code relative offsets count from the start of the command and a call saves
    its own start, where the comments on the commands say the end. *)
Theorem do_common_refines (fuel : nat) (c : common_command) (ws : list Z) (seg off : Z) (s : machine) :
  machine_ok s -> fits c -> Init c = Ret ws ->
  Memory.load seg off (4 * Z.of_nat (length ws) + Z.of_nat (length (payload c))) (memory (snd s))
    = Ret (bytes_of_entries ws ++ payload c) ->
  let h := CommandHeader.unpack (hd 0 ws) in
  exists err s', DoCommonCommand (S fuel) (CommandHeader.command h) (CommandHeader.size h - 1) seg off s = Ret (err, s') /\
    effect c (view_of s) = Ret (err, view_of s').
Proof.
  intros Hs Hf Hi Hl h. unfold h. rewrite (do_common_decodes fuel c ws seg off s Hf Hi Hl). destruct s as [d e]. by apply exec_means.
Qed.

(** A relative jump of no distance, a no-operation to the comments, is to itself. *)
Lemma jump_relative_here v ok e : 0 <= GetGetOffset (eng v) < 2 ^ 31 -> SetGetOffset (GetGetOffset (eng v)) (eng v) = Ret (ok, e) ->
  effect (JumpRelative 0) v = Ret (if ok then kNoError else kInvalidArguments, with_engine e v).
Proof. intros Hh Hs. cbn [effect]. unfold go. rewrite Z.add_0_r, i32_small, Hs by lia. by destruct ok. Qed.

End Specification.

End CommonDecoder.
