(* ===== verification/GpuScheduler.v ===== *)
(** The command parser and the scheduler that drives it,
    [gpu/command_buffer/service/cmd_parser.cc] and [gpu_scheduler.cc]: commands
    are read out of the ring buffer between the get and put offsets and handed
    to the decoder. *)
From S2P Require Import Prelude.
From S2P Require Import GpuCommands.
From S2P Require Import GpuCommandBufferService.
From S2P Require Import GpuDecoder.

(** * The parser *)

Module CommandParser.

(** [buffer_] is a segment and a byte offset. *)
Record t := mk {
  get_ : Z;
  put_ : Z;
  buffer_ : option (Z * Z);
  entry_count_ : Z
}.

Definition init : t := mk 0 0 None 0.

Definition set_get (get : Z) (p : t) : bool * t :=
  if (0 <=? get) && (get <? entry_count_ p)
  then (true, mk get (put_ p) (buffer_ p) (entry_count_ p))
  else (false, p).

Definition set_put (put : Z) (p : t) : t := mk (get_ p) put (buffer_ p) (entry_count_ p).

Definition IsEmpty (p : t) : bool := put_ p =? get_ p.

(** Mapped segments are page aligned, so only the offset and size are checked. *)
Definition SetBuffer (seg shm_size offset size : Z) (p : t) : outcome t :=
  check! offset mod 4 =? 0;
  check! size mod 4 =? 0;
  check! offset + size <=? shm_size;
  Ret (mk 0 0 (Some (seg, offset)) (i32 (size / 4))).

Lemma SetBuffer_Ret seg shm_size offset size p q :
  SetBuffer seg shm_size offset size p = Ret q ->
  q = mk 0 0 (Some (seg, offset)) (i32 (size / 4)).
Proof. unfold SetBuffer. intros Hs. by inv_outcome. Qed.

(** [get_ = (get + header.size) % entry_count_]. *)
Definition advance (get size : Z) (p : t) : t :=
  mk ((get + size) mod entry_count_ p) (put_ p) (buffer_ p) (entry_count_ p).

End CommandParser.

(** * The scheduler's state *)

Module GpuScheduler.

(** A task waiting for a fence; [None] is a fence the driver could not create. *)
Record UnscheduleFence := mkFence { fence : option Z; task : Z }.

(** The scheduler with the command buffer and the parser it owns.  The two
    counters record how often its callbacks ran; [app] is the state of the API the
    decoder implements. *)
Record engine (A : Type) := mkEngine {
  command_buffer_ : CommandBufferService.t;
  parser_ : option CommandParser.t;
  unscheduled_count_ : Z;
  rescheduled_count_ : Z;
  unschedule_fences_ : list UnscheduleFence;
  scheduled_callbacks : Z;
  command_processed_callbacks : Z;
  app : A
}.
Arguments mkEngine {A}.
Arguments command_buffer_ {A}.
Arguments parser_ {A}.
Arguments unscheduled_count_ {A}.
Arguments rescheduled_count_ {A}.
Arguments unschedule_fences_ {A}.
Arguments scheduled_callbacks {A}.
Arguments command_processed_callbacks {A}.
Arguments app {A}.

Section Engine.
Context {A : Type}.

Definition init (s : CommandBufferService.t) (a : A) : engine A := mkEngine s None 0 0 [] 0 0 a.

Definition with_command_buffer (s : CommandBufferService.t) (e : engine A) : engine A :=
  mkEngine s (parser_ e) (unscheduled_count_ e) (rescheduled_count_ e) (unschedule_fences_ e)
    (scheduled_callbacks e) (command_processed_callbacks e) (app e).

Definition with_parser (p : option CommandParser.t) (e : engine A) : engine A :=
  mkEngine (command_buffer_ e) p (unscheduled_count_ e) (rescheduled_count_ e)
    (unschedule_fences_ e) (scheduled_callbacks e) (command_processed_callbacks e) (app e).

Definition with_counts (unscheduled rescheduled callbacks : Z) (e : engine A) : engine A :=
  mkEngine (command_buffer_ e) (parser_ e) unscheduled rescheduled
    (unschedule_fences_ e) callbacks (command_processed_callbacks e) (app e).

Definition with_fences (fences : list UnscheduleFence) (e : engine A) : engine A :=
  mkEngine (command_buffer_ e) (parser_ e) (unscheduled_count_ e) (rescheduled_count_ e)
    fences (scheduled_callbacks e) (command_processed_callbacks e) (app e).

Definition command_processed (e : engine A) : engine A :=
  mkEngine (command_buffer_ e) (parser_ e) (unscheduled_count_ e) (rescheduled_count_ e)
    (unschedule_fences_ e) (scheduled_callbacks e) (command_processed_callbacks e + 1) (app e).

Definition with_app (a : A) (e : engine A) : engine A :=
  mkEngine (command_buffer_ e) (parser_ e) (unscheduled_count_ e) (rescheduled_count_ e)
    (unschedule_fences_ e) (scheduled_callbacks e) (command_processed_callbacks e) a.

(** ** The engine interface *)

Definition GetSharedMemoryBuffer (shm_id : Z) (e : engine A) : CommandBufferService.Buffer :=
  CommandBufferService.GetTransferBuffer shm_id (command_buffer_ e).

Definition set_token (token : Z) (e : engine A) : engine A :=
  with_command_buffer (CommandBufferService.SetToken token (command_buffer_ e)) e.

Definition GetGetOffset (e : engine A) : Z := default 0 (CommandParser.get_ <$> parser_ e).

(** The parser's offset and, when it was accepted, the command buffer's. *)
Definition SetGetOffset (offset : Z) (e : engine A) : outcome (bool * engine A) :=
  let! p := must (parser_ e) in
  let '(ok, p) := CommandParser.set_get offset p in
  let e := with_parser (Some p) e in
  if ok then
    let! s := CommandBufferService.SetGetOffset (CommandParser.get_ p) (command_buffer_ e) in
    Ret (true, with_command_buffer s e)
  else Ret (false, e).

Definition SetGetBuffer (transfer_buffer_id : Z) (e : engine A) : outcome (bool * engine A) :=
  let ring_buffer := CommandBufferService.GetTransferBuffer transfer_buffer_id (command_buffer_ e) in
  match CommandBufferService.ptr ring_buffer with
  | None => Ret (false, e)
  | Some seg =>
      let p := default CommandParser.init (parser_ e) in
      let size := CommandBufferService.bsize ring_buffer in
      let! p := CommandParser.SetBuffer seg size 0 size p in
      let! '(_, e) := SetGetOffset 0 (with_parser (Some p) e) in
      Ret (true, e)
  end.

#[global] Instance engine_interface : CommandBufferEngine (engine A) := {|
  GpuDecoder.GetSharedMemoryBuffer := GetSharedMemoryBuffer;
  GpuDecoder.set_token := set_token;
  GpuDecoder.SetGetOffset := SetGetOffset;
  GpuDecoder.GetGetOffset := GetGetOffset;
  GpuDecoder.memory := fun e => CommandBufferService.mappings (command_buffer_ e);
  GpuDecoder.set_memory := fun m e =>
    with_command_buffer
      (CommandBufferService.with_memory
         (CommandBufferService.shared_memory_bytes_allocated_ (command_buffer_ e)) m
         (command_buffer_ e)) e
|}.

(** ** Scheduling *)

Definition IsScheduled (e : engine A) : bool := unscheduled_count_ e =? 0.

Definition HasMoreWork (e : engine A) : bool := bool_decide (unschedule_fences_ e <> []).

(** The delayed [RescheduleTimeOut] task that the other branch posts is the
    environment's: it may call [RescheduleTimeOut] at any time. *)
Definition SetScheduled (scheduled : bool) (e : engine A) : outcome (engine A) :=
  if scheduled then
    if 0 <? rescheduled_count_ e then
      Ret (with_counts (unscheduled_count_ e) (rescheduled_count_ e - 1) (scheduled_callbacks e) e)
    else
      let unscheduled := unscheduled_count_ e - 1 in
      check! 0 <=? unscheduled;
      Ret (with_counts unscheduled (rescheduled_count_ e)
             (if unscheduled =? 0 then scheduled_callbacks e + 1 else scheduled_callbacks e) e)
  else
    Ret (with_counts (unscheduled_count_ e + 1) (rescheduled_count_ e) (scheduled_callbacks e) e).

(** The loop of [RescheduleTimeOut]. *)
Fixpoint reschedule_all (fuel : nat) (e : engine A) : outcome (engine A) :=
  if unscheduled_count_ e =? 0 then Ret e
  else
    match fuel with
    | O => Timeout
    | S fuel => let! e := SetScheduled true e in reschedule_all fuel e
    end.

Definition RescheduleTimeOut (e : engine A) : outcome (engine A) :=
  let new_count := unscheduled_count_ e + rescheduled_count_ e in
  let! e := reschedule_all (Z.to_nat (unscheduled_count_ e))
              (with_counts (unscheduled_count_ e) 0 (scheduled_callbacks e) e) in
  Ret (with_counts (unscheduled_count_ e) new_count (scheduled_callbacks e) e).

(** [gfx::GLFence::Create] answers a fence or null. *)
Definition DeferToFence (created : option Z) (task : Z) (e : engine A) : engine A :=
  with_fences (unschedule_fences_ e ++ [mkFence created task]) e.

End Engine.

(** ** Processing *)

Section Process.
Context {A : Type}.

(** The decoder's state and the engine it works on. *)
Abbreviation machine := (CommonDecoder.machine (E := engine A)).

(** What the scheduler is given: the decoder's [DoCommand], the tasks behind the
    fences and the GL driver's answers. *)
Class Host := {
  DoCommand : Z -> Z -> Z * Z -> machine -> outcome (Error * machine);
  run_task : Z -> machine -> outcome machine;
  HasCompleted : Z -> machine -> bool;
  GetContextLostReason : machine -> ContextLostReason
}.

Context `{!Host}.

Definition on_engine (f : engine A -> engine A) (s : machine) : machine := (fst s, f (snd s)).

Definition on_command_buffer (f : CommandBufferService.t -> CommandBufferService.t) : machine -> machine :=
  on_engine (fun e => with_command_buffer (f (command_buffer_ e)) e).

(** [CommandParser::ProcessCommand]. *)
Definition ProcessCommand (s : machine) : outcome (Error * machine) :=
  let! p := must (parser_ (snd s)) in
  let get := CommandParser.get_ p in
  if get =? CommandParser.put_ p then Ret (kNoError, s)
  else
    let! '(seg, base) := must (CommandParser.buffer_ p) in
    let! w := Memory.load32 seg (base + 4 * get) (memory (snd s)) in
    let header := CommandHeader.unpack w in
    if CommandHeader.size header =? 0 then Ret (kInvalidSize, s)
    else if CommandParser.entry_count_ p <? CommandHeader.size header + get then Ret (kOutOfBounds, s)
    else
      let! '(result, s) := DoCommand (CommandHeader.command header) (CommandHeader.size header - 1)
                             (seg, base + 4 * get) s in
      let! p := must (parser_ (snd s)) in
      if (get =? CommandParser.get_ p) &&
         negb (bool_decide (result = kDeferCommandUntilSwapBuffersAck))
      then Ret (result, on_engine (with_parser (Some (CommandParser.advance get (CommandHeader.size header) p))) s)
      else Ret (result, s).

(** [CommandParser::ProcessAllCommands]. *)
Fixpoint ProcessAllCommands (fuel : nat) (s : machine) : outcome (Error * machine) :=
  let! p := must (parser_ (snd s)) in
  if CommandParser.IsEmpty p then Ret (kNoError, s)
  else
    match fuel with
    | O => Timeout
    | S fuel =>
        let! '(e, s) := ProcessCommand s in
        if bool_decide (e = kNoError) then ProcessAllCommands fuel s else Ret (e, s)
    end.

(** The two loops of [PollUnscheduleFences]: with fences, stop at the first that
    is not complete; without them, run every task. *)
Fixpoint run_fences (fuel : nat) (finished : bool) (s : machine) : outcome (bool * machine) :=
  match unschedule_fences_ (snd s) with
  | [] => Ret (true, s)
  | f :: _ =>
      match fuel with
      | O => Timeout
      | S fuel =>
          let! completed :=
            if finished then Ret true
            else let! id := must (fence f) in Ret (HasCompleted id s) in
          if completed then
            let! s := run_task (task f) s in
            run_fences fuel finished
              (on_engine (fun e => with_fences (tail (unschedule_fences_ e)) e) s)
          else Ret (false, s)
      end
  end.

Definition PollUnscheduleFences (fuel : nat) (s : machine) : outcome (bool * machine) :=
  match unschedule_fences_ (snd s) with
  | [] => Ret (true, s)
  | f :: _ => run_fences fuel (bool_decide (fence f = None)) s
  end.

(** The loop of [PutChanged]. *)
Fixpoint process_loop (fuel : nat) (s : machine) : outcome machine :=
  let! p := must (parser_ (snd s)) in
  if CommandParser.IsEmpty p then Ret s
  else
    match fuel with
    | O => Timeout
    | S fuel =>
        check! IsScheduled (snd s);
        check! negb (HasMoreWork (snd s));
        let! '(error, s) := ProcessCommand s in
        if bool_decide (error = kDeferCommandUntilSwapBuffersAck) then
          check! 0 <? unscheduled_count_ (snd s);
          Ret s
        else
          let! p := must (parser_ (snd s)) in
          let! cb := CommandBufferService.SetGetOffset (CommandParser.get_ p) (command_buffer_ (snd s)) in
          let s := on_engine (with_command_buffer cb) s in
          if IsError error then
            Ret (on_command_buffer
                   (fun cb => CommandBufferService.SetParseError error
                                (CommandBufferService.SetContextLostReason
                                   (GetContextLostReason s) cb)) s)
          else
            let s := on_engine command_processed s in
            if 0 <? unscheduled_count_ (snd s) then Ret s else process_loop fuel s
    end.

Definition PutChanged (fuel : nat) (s : machine) : outcome machine :=
  let '(state, cb) := CommandBufferService.GetState (command_buffer_ (snd s)) in
  let s := on_engine (with_command_buffer cb) s in
  match parser_ (snd s) with
  | None =>
      check! CommandBufferService.get_offset state =? CommandBufferService.put_offset state;
      Ret s
  | Some p =>
      let s := on_engine (with_parser
                 (Some (CommandParser.set_put (CommandBufferService.put_offset state) p))) s in
      if negb (bool_decide (CommandBufferService.error state = kNoError)) then Ret s
      else
        let! '(passed, s) := PollUnscheduleFences fuel s in
        if negb passed then Ret s
        else if negb (IsScheduled (snd s)) then Ret s
        else process_loop fuel s
  end.

(** ** The command buffer's calls with the scheduler as its callbacks *)

Definition Flush (fuel : nat) (put_offset : Z) (s : machine) : outcome machine :=
  let '(run, cb) := CommandBufferService.Flush put_offset (command_buffer_ (snd s)) in
  let s := on_engine (with_command_buffer cb) s in
  if run then PutChanged fuel s else Ret s.

Definition FlushSync (fuel : nat) (put_offset : Z) (s : machine)
    : outcome (CommandBufferService.State * machine) :=
  let! s := Flush fuel put_offset s in
  let '(state, cb) := CommandBufferService.GetState (command_buffer_ (snd s)) in
  Ret (state, on_engine (with_command_buffer cb) s).

(** [CommandBufferService::SetGetBuffer]; the callback's answer is ignored. *)
Definition SetRingBuffer (transfer_buffer_id : Z) (s : machine) : outcome machine :=
  let! cb := CommandBufferService.SetGetBuffer transfer_buffer_id (command_buffer_ (snd s)) in
  let! '(_, e) := SetGetBuffer transfer_buffer_id (with_command_buffer cb (snd s)) in
  Ret (fst s, e).

Definition DestroyTransferBuffer (handle : Z) (s : machine) : outcome machine :=
  let! cb := CommandBufferService.DestroyTransferBuffer handle (command_buffer_ (snd s)) in
  Ret (on_engine (with_command_buffer cb) s).

End Process.

Arguments Host : clear implicits.

(** ** Soundness of the engine *)

Section Sound.
Context {A : Type}.

(** The parser reads the service's ring buffer. *)
Definition attached (e : engine A) : Prop :=
  exists p seg, parser_ e = Some p /\
    CommandBufferService.ring_buffer_id_ (command_buffer_ e) <> -1 /\
    CommandBufferService.ptr (CommandBufferService.ring_buffer_ (command_buffer_ e)) = Some seg /\
    CommandParser.buffer_ p = Some (seg, 0) /\
    CommandParser.entry_count_ p = CommandBufferService.num_entries_ (command_buffer_ e) /\
    0 <= CommandParser.get_ p < CommandParser.entry_count_ p.

Definition sound (e : engine A) : Prop :=
  CommandBufferService.wf (command_buffer_ e) /\
  Memory.bytes_ok (CommandBufferService.mappings (command_buffer_ e)) /\
  attached e.

Lemma slot_mapped s i seg :
  CommandBufferService.wf s ->
  CommandBufferService.ptr (CommandBufferService.slot (CommandBufferService.registered_objects_ s) i) = Some seg ->
  exists bytes, CommandBufferService.mappings s !! seg = Some bytes /\
    CommandBufferService.bsize (CommandBufferService.slot (CommandBufferService.registered_objects_ s) i)
      = Z.of_nat (length bytes).
Proof.
  intros W Hp. destruct (CommandBufferService.shared_memory
    (CommandBufferService.slot (CommandBufferService.registered_objects_ s) i)) eqn:Es.
  - destruct (CommandBufferService.wf_mapped _ W i Es) as (x & bytes & Hx & ? & ?). exists bytes.
    rewrite Hp in Hx. by injection Hx as ->.
  - apply CommandBufferService.slot_null in Es; [|done]. by rewrite Es in Hp.
Qed.

Lemma wf_set_memory m n s :
  CommandBufferService.wf s -> Memory.same_shape (CommandBufferService.mappings s) m ->
  CommandBufferService.wf (CommandBufferService.with_memory n m s).
Proof.
  intros [W1 W2 W3 W4] Hs. split; [done| |done|done]. intros i Hi.
  destruct (W2 i Hi) as (seg & bytes & Hp & Hm & Hl).
  destruct (Memory.same_shape_Some _ _ _ _ Hs Hm) as (bytes' & Hm' & Hl').
  exists seg, bytes'. split; [done|]. split; [done|]. by rewrite Hl'.
Qed.

Lemma SetGetOffset_sound off e :
  sound e -> exists ok e', SetGetOffset off e = Ret (ok, e') /\ sound e' /\
    CommandBufferService.mappings (command_buffer_ e') = CommandBufferService.mappings (command_buffer_ e).
Proof.
  intros (W & B & (p & seg & Hp & Hid & Hptr & Hbuf & Hcnt & Hget)).
  unfold SetGetOffset. rewrite Hp. cbn [must obind]. unfold CommandParser.set_get.
  destruct (_ && _) eqn:Eo.
  - zb2p. cbn [CommandParser.get_]. cbn [with_parser command_buffer_].
    unfold CommandBufferService.SetGetOffset at 1. rewrite <- Hcnt.
    replace (_ && _) with true by lia. cbn [dcheck obind].
    eexists true, _. split; [done|]. split; [|done]. split; [|split; [done|]].
    + apply (CommandBufferService.wf_SetGetOffset off (command_buffer_ e)); [done|].
      unfold CommandBufferService.SetGetOffset. rewrite <- Hcnt. by replace (_ && _) with true by lia.
    + by exists (CommandParser.mk off (CommandParser.put_ p) (CommandParser.buffer_ p) (CommandParser.entry_count_ p)), seg.
  - eexists false, _. split; [done|]. split; [|done]. split; [done|]. split; [done|].
    by exists p, seg.
Qed.

#[global] Program Instance engine_laws : EngineLaws (engine A) := {| engine_ok := sound |}.
Next Obligation. by intros e (_ & B & _). Qed.
Next Obligation.
  cbn. intros e id seg (W & _ & _) Hp. unfold GetSharedMemoryBuffer in *.
  rewrite CommandBufferService.GetTransferBuffer_slot in *.
  destruct (id <? 0); [done|]. by apply slot_mapped.
Qed.
Next Obligation.
  cbn. intros e tok (W & B & (p & seg & Ha)). split; [|done].
  split; [by apply CommandBufferService.wf_status|]. split; [done|]. by exists p, seg.
Qed.
Next Obligation. cbn. intros e off He. by apply SetGetOffset_sound. Qed.
Next Obligation.
  cbn. intros e m (W & B & (p & seg & Ha)) Hs Hb. split; [|done].
  split; [by apply wf_set_memory|]. split; [done|]. by exists p, seg.
Qed.

(** Setting the ring buffer attaches the parser to it. *)
Lemma SetRingBuffer_sound {HH : Host A} id (d : CommonDecoder.t) (e : engine A) s' :
  CommandBufferService.wf (command_buffer_ e) ->
  Memory.bytes_ok (CommandBufferService.mappings (command_buffer_ e)) ->
  id <> -1 -> SetRingBuffer id (d, e) = Ret s' -> fst s' = d /\ sound (snd s').
Proof.
  intros W B Hid Hs. unfold SetRingBuffer in Hs. cbn [fst snd] in Hs.
  destruct (CommandBufferService.SetGetBuffer id (command_buffer_ e)) as [cb| |] eqn:Ecb; [|done..].
  pose proof (CommandBufferService.wf_SetGetBuffer _ _ _ W Ecb) as Wcb.
  assert (Hcb : CommandBufferService.ring_buffer_id_ cb = id /\
    CommandBufferService.ring_buffer_ cb = CommandBufferService.GetTransferBuffer id cb /\
    CommandBufferService.num_entries_ cb = i32 (CommandBufferService.bsize (CommandBufferService.GetTransferBuffer id cb) / 4) /\
    CommandBufferService.mappings cb = CommandBufferService.mappings (command_buffer_ e) /\
    CommandBufferService.ptr (CommandBufferService.ring_buffer_ cb) <> None).
  { unfold CommandBufferService.SetGetBuffer, CommandBufferService.SetGetOffset in Ecb. inv_outcome.
    match goal with Hb : bool_decide _ = true |- _ => apply bool_decide_eq_true in Hb end.
    by split_and!. }
  destruct Hcb as (H1 & H2 & H3 & H4 & H5). cbn [obind] in Hs.
  unfold SetGetBuffer in Hs. cbn [command_buffer_ with_command_buffer] in Hs.
  rewrite <- H2 in Hs.
  destruct (CommandBufferService.ptr (CommandBufferService.ring_buffer_ cb)) as [seg|] eqn:Ep; [|done].
  set (sz := CommandBufferService.bsize (CommandBufferService.ring_buffer_ cb)) in *.
  destruct (CommandParser.SetBuffer _ _ _ _ _) as [p| |] eqn:Esb; [|done..].
  apply CommandParser.SetBuffer_Ret in Esb as ->. cbn [obind] in Hs.
  unfold SetGetOffset in Hs. cbn [parser_ with_parser must obind command_buffer_ with_command_buffer] in Hs.
  unfold CommandParser.set_get in Hs. cbn [CommandParser.entry_count_ CommandParser.put_
    CommandParser.buffer_] in Hs.
  assert (Hn : i32 (sz / 4) = CommandBufferService.num_entries_ cb) by (unfold sz; by rewrite H3, H2).
  destruct (CommandBufferService.wf_ring _ Wcb) as [(? & _)|(_ & _ & _ & _ & Hg & _)]; [congruence|].
  rewrite Hn in Hs. replace (_ && _) with true in Hs by lia.
  cbn [CommandParser.get_ must obind command_buffer_ with_parser with_command_buffer] in Hs.
  destruct (CommandBufferService.SetGetOffset 0 cb) as [cb'| |] eqn:Eo; [|done..].
  cbn [obind fst snd] in Hs. injection Hs as <-. split; [done|]. cbn [snd].
  pose proof (CommandBufferService.wf_SetGetOffset _ _ _ Wcb Eo) as W'.
  unfold CommandBufferService.SetGetOffset in Eo. inv_outcome.
  split; [done|]. split; [cbn; by rewrite H4|].
  eexists _, seg. split; [done|]. cbn. split; [congruence|]. split; [done|]. split; [done|].
  split; [done|]. lia.
Qed.

(** The bytes of the ring. *)
Lemma ring_mapped e p seg :
  sound e -> parser_ e = Some p -> CommandParser.buffer_ p = Some (seg, 0) ->
  exists bytes, CommandBufferService.mappings (command_buffer_ e) !! seg = Some bytes /\
    4 * CommandParser.entry_count_ p <= Z.of_nat (length bytes).
Proof.
  intros (W & B & (p' & seg' & Hp & Hid & Hptr & Hbuf & Hcnt & Hget)) Hp' Hb.
  rewrite Hp in Hp'. injection Hp' as ->. rewrite Hbuf in Hb. injection Hb as ->.
  destruct (CommandBufferService.wf_ring _ W) as [(? & _)|(Hi & Hr & Hs & Hn & _)]; [done|].
  destruct (CommandBufferService.wf_mapped _ W (Z.to_nat (CommandBufferService.ring_buffer_id_ (command_buffer_ e))))
    as (seg' & bytes & Hseg & Hm & Hl); [by rewrite Hr|].
  rewrite Hr in *. rewrite Hptr in Hseg. injection Hseg as <-. exists bytes. split; [done|].
  rewrite Hcnt, Hn, Hl. clear. word_lia.
Qed.

End Sound.

(** ** The parser and the scheduler never fail *)

Section Safe.
Context {A : Type} `{!Host A}.

(** Decoder state and engine. *)
Abbreviation machine := (@CommonDecoder.machine (engine A)).

(** The scheduling state that a command may leave: it defers a command only after
    unscheduling, and leaves a fence pending only while unscheduled. *)
Definition sched_ok (s s' : machine) (err : Error) : Prop :=
  IsScheduled (snd s) = true -> HasMoreWork (snd s) = false ->
  0 <= unscheduled_count_ (snd s') /\
  (err = kDeferCommandUntilSwapBuffersAck -> 0 < unscheduled_count_ (snd s')) /\
  (unscheduled_count_ (snd s') = 0 -> HasMoreWork (snd s') = false).

(** What the parser asks of the decoder: it answers any command it knows whose entries are
    in the ring and leaves the machine sound.  It may not return from a command it does
    not know, as [DoCommonCommand] does not. *)
Class HostLaws := {
  known : Z -> Prop;
  DoCommand_ok : forall command arg_count seg off (s : machine),
    CommonDecoder.machine_ok s -> 0 <= command < 2 ^ 11 -> 0 <= arg_count < 2 ^ 21 ->
    CommonDecoder.readable (snd s) seg off (4 * (1 + arg_count)) ->
    (~ known command /\ DoCommand command arg_count (seg, off) s = Timeout) \/
    exists err s', DoCommand command arg_count (seg, off) s = Ret (err, s') /\
      CommonDecoder.machine_ok s' /\ sched_ok s s' err
}.

Context `{!HostLaws}.

Lemma parser_of (s : machine) :
  CommonDecoder.machine_ok s -> exists p seg, parser_ (snd s) = Some p /\
    CommandParser.buffer_ p = Some (seg, 0) /\
    0 <= CommandParser.get_ p < CommandParser.entry_count_ p.
Proof. intros [_ (_ & _ & (p & seg & Hp & _ & _ & Hb & _ & Hg))]. by exists p, seg. Qed.

Lemma with_parser_ok (s : machine) p q :
  CommonDecoder.machine_ok s -> parser_ (snd s) = Some p ->
  CommandParser.buffer_ q = CommandParser.buffer_ p ->
  CommandParser.entry_count_ q = CommandParser.entry_count_ p ->
  0 <= CommandParser.get_ q < CommandParser.entry_count_ q ->
  CommonDecoder.machine_ok (on_engine (with_parser (Some q)) s).
Proof.
  intros [Hd (W & B & (p' & seg' & Hp' & Hid & Hptr & Hbuf & Hcnt & Hget))] Hp Eb Ec Hg.
  rewrite Hp in Hp'. injection Hp' as <-. split; [done|]. split; [done|]. split; [done|].
  exists q, seg'. cbn. rewrite Ec in *. rewrite Eb. split_and!; done || lia.
Qed.

(** The header at the get offset, when the ring is not empty. *)
Definition next_header (s : machine) : outcome (option CommandHeader.t) :=
  let! p := must (parser_ (snd s)) in
  if CommandParser.get_ p =? CommandParser.put_ p then Ret None
  else
    let! '(seg, base) := must (CommandParser.buffer_ p) in
    let! w := Memory.load32 seg (base + 4 * CommandParser.get_ p) (memory (snd s)) in
    Ret (Some (CommandHeader.unpack w)).

(** The next command is not known to the decoder. *)
Definition next_unknown (s : machine) : Prop := exists h, next_header s = Ret (Some h) /\ ~ known (CommandHeader.command h).

(** [ProcessCommand] keeps the scheduling state the decoder leaves. *)
Lemma ProcessCommand_ok (s : machine) :
  CommonDecoder.machine_ok s ->
  (next_unknown s /\ ProcessCommand s = Timeout) \/
  exists err s', ProcessCommand s = Ret (err, s') /\ CommonDecoder.machine_ok s' /\ sched_ok s s' err.
Proof.
  intros Hs. destruct (parser_of s Hs) as (p & seg & Hp & Hb & Hg).
  assert (Hsame : forall err, err <> kDeferCommandUntilSwapBuffersAck -> sched_ok s s err).
  { intros err Hne H1 H2. unfold IsScheduled in H1. zb2p. split; [lia|]. done. }
  destruct (ring_mapped _ _ _ (proj2 Hs) Hp Hb) as (bytes & Hm & Hlen).
  unfold next_unknown, next_header, ProcessCommand. rewrite Hp. cbn [must obind]. case_if.
  { right. exists kNoError, s. split; [done|]. split; [done|]. by apply Hsame. }
  rewrite Hb. cbn [must obind].
  destruct (Memory.load32_spec _ seg bytes (0 + 4 * CommandParser.get_ p) (proj1 (proj2 (proj2 Hs))) Hm)
    as (w & Hw & Hw32); [lia|lia|].
  change (memory (snd s)) with (CommandBufferService.mappings (command_buffer_ (snd s))).
  rewrite Hw. cbn [obind]. set (h := CommandHeader.unpack w).
  assert (Hh : 0 <= CommandHeader.size h < 2 ^ 21 /\ 0 <= CommandHeader.command h < 2 ^ 11).
  { unfold h, CommandHeader.unpack. cbn [CommandHeader.size CommandHeader.command].
    rewrite !Z.land_ones by lia. split; apply Z.mod_pos_bound; lia. }
  case_if.
  { right. exists kInvalidSize, s. split; [done|]. split; [done|]. by apply Hsame. }
  case_if.
  { right. exists kOutOfBounds, s. split; [done|]. split; [done|]. by apply Hsame. }
  destruct (DoCommand_ok (CommandHeader.command h) (CommandHeader.size h - 1) seg
    (0 + 4 * CommandParser.get_ p) s Hs) as [[Hk Hdo]|(err & s1 & Hdo & Hs1 & Hsched)]; [lia|lia| | |].
  { exists bytes. split; [done|]. lia. }
  { left. rewrite Hdo. split; [|done]. by exists h. }
  right. rewrite Hdo. cbn [obind]. destruct (parser_of s1 Hs1) as (p1 & seg1 & Hp1 & Hb1 & Hg1).
  rewrite Hp1. cbn [must obind]. case_if; [|by exists err, s1].
  eexists err, _. split; [done|]. split; [|done].
  apply (with_parser_ok s1 p1); [done..|].
  unfold CommandParser.advance. cbn. apply Z.mod_pos_bound. lia.
Qed.

(** C30: on a sound machine, whatever the ring holds, processing one command answers (an
    error at worst) and leaves the machine sound: the header is read inside the ring, the
    arguments handed on are inside it, and the get offset stays in range.  It fails to
    answer only at a command that the decoder does not know and does not return from,
    which the decoder of the common commands does for every such command. *)
Theorem process_command_safe (s : machine) :
  CommonDecoder.machine_ok s ->
  (next_unknown s /\ ProcessCommand s = Timeout) \/
  exists err s', ProcessCommand s = Ret (err, s') /\ CommonDecoder.machine_ok s' /\
    exists p, parser_ (snd s') = Some p /\
      0 <= CommandParser.get_ p < CommandParser.entry_count_ p.
Proof.
  intros Hs. destruct (ProcessCommand_ok s Hs) as [|(err & s' & Hp & Hs' & _)]; [by left|right].
  exists err, s'. split; [done|]. split; [done|].
  destruct (parser_of s' Hs') as (p & seg & ? & ? & ?). by exists p.
Qed.

(** Ready to process: sound, scheduled, no fence pending. *)
Definition running (s : machine) : Prop :=
  CommonDecoder.machine_ok s /\ unscheduled_count_ (snd s) = 0 /\ HasMoreWork (snd s) = false.

Lemma set_get_offset_ok (s : machine) p :
  CommonDecoder.machine_ok s -> parser_ (snd s) = Some p ->
  exists cb, CommandBufferService.SetGetOffset (CommandParser.get_ p) (command_buffer_ (snd s)) = Ret cb /\
    CommonDecoder.machine_ok (on_engine (with_command_buffer cb) s).
Proof.
  intros [Hd (W & B & (p' & seg & Hp' & Hid & Hptr & Hbuf & Hcnt & Hget))] Hp.
  rewrite Hp in Hp'. injection Hp' as <-.
  unfold CommandBufferService.SetGetOffset. rewrite <- Hcnt. replace (_ && _) with true by lia.
  eexists. split; [done|]. split; [done|]. split; [|split; [done|by exists p, seg]].
  apply (CommandBufferService.wf_SetGetOffset (CommandParser.get_ p) (command_buffer_ (snd s))); [done|].
  unfold CommandBufferService.SetGetOffset. rewrite <- Hcnt. by replace (_ && _) with true by lia.
Qed.

Lemma machine_ok_command_buffer (s : machine) f :
  (forall cb, CommandBufferService.wf cb -> CommandBufferService.wf (f cb)) ->
  (forall cb, CommandBufferService.mappings (f cb) = CommandBufferService.mappings cb /\
     CommandBufferService.ring_buffer_id_ (f cb) = CommandBufferService.ring_buffer_id_ cb /\
     CommandBufferService.ring_buffer_ (f cb) = CommandBufferService.ring_buffer_ cb /\
     CommandBufferService.num_entries_ (f cb) = CommandBufferService.num_entries_ cb) ->
  CommonDecoder.machine_ok s -> CommonDecoder.machine_ok (on_command_buffer f s).
Proof.
  intros Hw Hf [Hd (W & B & (p & seg & Hp & Hid & Hptr & Hbuf & Hcnt & Hget))].
  split; [done|]. destruct (Hf (command_buffer_ (snd s))) as (E1 & E2 & E3 & E4).
  split; [by apply Hw|]. split; [cbn; by rewrite E1|].
  exists p, seg. cbn. rewrite E2, E3, E4. split_and!; done || lia.
Qed.

Lemma process_loop_safe fuel : forall s, running s ->
  process_loop fuel s = Timeout \/
  exists s', process_loop fuel s = Ret s' /\ CommonDecoder.machine_ok s'.
Proof.
  induction fuel as [|fuel IH]; intros s (Hs & Hun & Hw);
    destruct (parser_of s Hs) as (p & seg & Hp & Hb & Hg); cbn [process_loop];
    rewrite Hp; cbn [must obind]; destruct (CommandParser.IsEmpty p) eqn:Ee;
    [right; by exists s|by left|right; by exists s|].
  assert (Hsch : IsScheduled (snd s) = true) by (unfold IsScheduled; lia).
  rewrite Hsch, Hw. cbn [negb dcheck obind].
  destruct (ProcessCommand_ok s Hs) as [[_ ->]|(err & s1 & Hpc & Hs1 & Hsched)]; [by left|]. rewrite Hpc. cbn [obind].
  destruct (Hsched Hsch Hw) as (Hge & Hdefer & Hfence).
  case_bool_decide.
  { subst err. rewrite (proj2 (Z.ltb_lt _ _) (Hdefer eq_refl)). cbn. right. by exists s1. }
  destruct (parser_of s1 Hs1) as (p1 & seg1 & Hp1 & _). rewrite Hp1. cbn [must obind].
  destruct (set_get_offset_ok s1 p1 Hs1 Hp1) as (cb & Hcb & Hs2). rewrite Hcb. cbn [obind].
  set (s2 := on_engine (with_command_buffer cb) s1) in *.
  destruct (IsError err).
  { right. eexists. split; [done|]. apply machine_ok_command_buffer; [| |done].
    - intros c W. unfold CommandBufferService.SetParseError. case_if;
        [apply CommandBufferService.wf_set_error|]; by apply CommandBufferService.wf_status.
    - intros c. unfold CommandBufferService.SetParseError. by case_if. }
  change (unscheduled_count_ (snd (on_engine command_processed s2)))
    with (unscheduled_count_ (snd s1)).
  case_if; [right; by eexists|]. apply IH. split; [done|].
  split; [cbn; lia|]. apply Hfence. lia.
Qed.

(** A flush on a running machine enters the loop with the new put offset. *)
Lemma Flush_loop fuel put (s : machine) p :
  running s -> parser_ (snd s) = Some p ->
  CommandBufferService.error_ (command_buffer_ (snd s)) = kNoError ->
  0 <= put <= CommandBufferService.num_entries_ (command_buffer_ (snd s)) ->
  exists cb,
    let s1 := on_engine (fun e => with_parser (Some (CommandParser.set_put put p)) (with_command_buffer cb e)) s in
    Flush fuel put s = process_loop fuel s1 /\ running s1 /\
    CommandBufferService.mappings cb = CommandBufferService.mappings (command_buffer_ (snd s)) /\
    CommandBufferService.error_ cb = kNoError /\
    CommandBufferService.token_ cb = CommandBufferService.token_ (command_buffer_ (snd s)) /\
    CommandBufferService.num_entries_ cb = CommandBufferService.num_entries_ (command_buffer_ (snd s)) /\
    CommandBufferService.put_offset_ cb = put /\
    CommandBufferService.get_offset_ cb = CommandBufferService.get_offset_ (command_buffer_ (snd s)).
Proof.
  intros (Hs & Hun & Hw) Hp Herr Hput.
  exists (snd (CommandBufferService.GetState (snd (CommandBufferService.Flush put (command_buffer_ (snd s)))))).
  assert (Ef : unschedule_fences_ (snd s) = []).
  { unfold HasMoreWork in Hw. apply bool_decide_eq_false in Hw.
    by destruct (unschedule_fences_ _); [|destruct Hw]. }
  assert (Efl : CommandBufferService.Flush put (command_buffer_ (snd s)) =
    (true, CommandBufferService.with_offsets (CommandBufferService.get_offset_ (command_buffer_ (snd s))) put
       (command_buffer_ (snd s)))).
  { unfold CommandBufferService.Flush. by replace (_ || _) with false by lia. }
  cbv zeta. split; [|split].
  - unfold Flush. rewrite Efl. cbn [snd]. unfold PutChanged.
    cbn [CommandBufferService.GetState snd on_engine command_buffer_ with_command_buffer parser_].
    rewrite Hp. cbn [CommandBufferService.put_offset CommandBufferService.error
      CommandBufferService.error_ CommandBufferService.with_offsets CommandBufferService.put_offset_].
    rewrite Herr, bool_decide_eq_true_2 by done. cbn [negb].
    unfold PollUnscheduleFences.
    cbn [snd on_engine unschedule_fences_ with_parser with_command_buffer]. rewrite Ef. cbn [obind negb].
    unfold IsScheduled. cbn [snd on_engine unscheduled_count_ with_parser with_command_buffer].
    rewrite Hun. cbn [Z.eqb negb]. unfold on_engine, CommandBufferService.GetState. cbn. done.
  - split; [|split; [done|exact Hw]].
    apply (with_parser_ok (on_command_buffer (fun c => snd (CommandBufferService.GetState
      (snd (CommandBufferService.Flush put c)))) s) p); [|done..|].
    + apply machine_ok_command_buffer; [| |done].
      * intros c Wc. by apply CommandBufferService.wf_status, CommandBufferService.wf_Flush.
      * intros c. unfold CommandBufferService.Flush. by case_if.
    + pose proof Hs as [_ (_ & _ & (p' & seg0 & Hp' & _ & _ & _ & _ & Hg))].
      rewrite Hp in Hp'. by injection Hp' as <-.
  - by rewrite Efl.
Qed.

(** with no fence pending, telling the scheduler that the put offset changed
    never fails an assertion or leaves mapped memory, whatever the put offset and
    whatever the ring holds: it stops on an error, when unscheduled or when the
    ring is drained, or it is still processing when the fuel ends, or for ever at an
    unknown command. *)
Theorem put_changed_safe (fuel : nat) (s : machine) :
  CommonDecoder.machine_ok s -> 0 <= unscheduled_count_ (snd s) -> HasMoreWork (snd s) = false ->
  PutChanged fuel s = Timeout \/
  exists s', PutChanged fuel s = Ret s' /\ CommonDecoder.machine_ok s'.
Proof.
  intros Hs Hun Hw. unfold PutChanged.
  destruct (CommandBufferService.GetState (command_buffer_ (snd s))) as [state cb] eqn:Eg.
  assert (Ecb : cb = snd (CommandBufferService.GetState (command_buffer_ (snd s)))) by (by rewrite Eg).
  assert (Hs1 : CommonDecoder.machine_ok (on_engine (with_command_buffer cb) s)).
  { subst cb. apply (machine_ok_command_buffer s (fun c => snd (CommandBufferService.GetState c)));
      [|done|done]. intros c W. by apply CommandBufferService.wf_status. }
  destruct (parser_of _ Hs1) as (p & seg & Hp & Hb & Hg). rewrite Hp.
  set (s1 := on_engine (with_command_buffer cb) s) in *.
  set (q := CommandParser.set_put _ p).
  assert (Hs2 : CommonDecoder.machine_ok (on_engine (with_parser (Some q)) s1))
    by (by apply (with_parser_ok s1 p)).
  case_if; [right; by eexists|].
  unfold PollUnscheduleFences.
  assert (Ef : unschedule_fences_ (snd (on_engine (with_parser (Some q)) s1)) = []).
  { unfold HasMoreWork in Hw. apply bool_decide_eq_false in Hw. cbn. by destruct (unschedule_fences_ _); [|destruct Hw]. }
  rewrite Ef. cbn [obind negb].
  destruct (negb (IsScheduled _)) eqn:Es; [right; by eexists|].
  apply negb_false_iff in Es. unfold IsScheduled in Es. zb2p.
  apply process_loop_safe. split; [done|]. split; [done|].
  unfold HasMoreWork. by rewrite Ef.
Qed.

End Safe.

(** ** Common commands in the ring *)

Section Common.
Context {A : Type} `{!Host A}.

Abbreviation machine := (@CommonDecoder.machine (engine A)).

(** The decoder hands the commands it does not know to [DoCommonCommand]. *)
Class CommonHost := DoCommand_common : forall command arg_count seg off (s : machine),
  0 <= command < kNumCommands ->
  DoCommand command arg_count (seg, off) s
    = CommonDecoder.DoCommonCommand 1 command arg_count seg off s.

Context `{!CommonHost}.

(** Command [c] lies in the ring at entry [g]. *)
Definition in_ring (c : common_command) (seg g : Z) (s : machine) : Prop :=
  fits c /\ exists ws, Init c = Ret ws /\
    Memory.load seg (0 + 4 * g) (4 * Z.of_nat (length ws) + Z.of_nat (length (payload c)))
      (memory (snd s)) = Ret (bytes_of_entries ws ++ payload c).

(** What the parser does after the handler. *)
Definition finish (get size : Z) (r : outcome (Error * machine)) : outcome (Error * machine) :=
  let! '(result, s) := r in
  let! p := must (parser_ (snd s)) in
  if (get =? CommandParser.get_ p) &&
     negb (bool_decide (result = kDeferCommandUntilSwapBuffersAck))
  then Ret (result, on_engine (with_parser (Some (CommandParser.advance get size p))) s)
  else Ret (result, s).

Lemma entries_of_pos c : fits c -> 0 < entries_of c < 2 ^ 21.
Proof.
  intros Hf. destruct c; cbn in Hf; try (split; [done|done]).
  - cbn. lia.
  - change (0 < (16 + Z.of_nat (length data) + 3) / 4 < 2 ^ 21). div_lia.
Qed.

Lemma ProcessCommand_common (s : machine) p seg c :
  parser_ (snd s) = Some p -> CommandParser.buffer_ p = Some (seg, 0) ->
  CommandParser.get_ p <> CommandParser.put_ p -> in_ring c seg (CommandParser.get_ p) s ->
  CommandParser.get_ p + entries_of c <= CommandParser.entry_count_ p ->
  ProcessCommand s = finish (CommandParser.get_ p) (entries_of c) (CommonDecoder.exec c s).
Proof.
  intros Hp Hb Hne (Hf & ws & Hi & Hl) Hcnt.
  destruct (Init_spec c ws Hf Hi) as (h & -> & Hup & Hpk & Hc & Hs).
  pose proof (entries_of_pos c Hf).
  unfold ProcessCommand. rewrite Hp. cbn [must obind].
  destruct (Z.eqb_spec (CommandParser.get_ p) (CommandParser.put_ p)); [done|].
  rewrite Hb. cbn [must obind].
  pose proof (Memory.load32_entry _ _ _ _ _ _ O (CommandHeader.pack h) Hl eq_refl Hpk) as Hw.
  rewrite Z.add_0_r in Hw. rewrite Hw. cbn [obind]. rewrite Hup, Hs.
  destruct (Z.eqb_spec (entries_of c) 0); [lia|].
  destruct (Z.ltb_spec (CommandParser.entry_count_ p) (entries_of c + CommandParser.get_ p)); [lia|].
  rewrite DoCommand_common by (rewrite Hc; apply id_number_range).
  pose proof (CommonDecoder.do_common_decodes 0 c _ _ _ s Hf Hi Hl) as Hd.
  cbn [List.hd] in Hd. rewrite Hup, Hs in Hd. by rewrite Hd.
Qed.

(** The entries of the ring decode the same after the get offset moved. *)
Lemma in_ring_same c seg g (s s' : machine) :
  memory (snd s') = memory (snd s) -> in_ring c seg g s -> in_ring c seg g s'.
Proof. intros Hm (? & ws & ? & Hl). split; [done|]. exists ws. by rewrite Hm. Qed.

(** [SetGetOffset] on a sound machine. *)
Lemma SetGetOffset_ok (s : machine) p g :
  CommonDecoder.machine_ok s -> parser_ (snd s) = Some p -> 0 <= g < CommandParser.entry_count_ p ->
  exists cb, SetGetOffset g (snd s)
    = Ret (true, with_command_buffer cb
        (with_parser (Some (CommandParser.mk g (CommandParser.put_ p) (CommandParser.buffer_ p)
           (CommandParser.entry_count_ p))) (snd s))) /\
    CommandBufferService.mappings cb = CommandBufferService.mappings (command_buffer_ (snd s)).
Proof.
  intros [_ (W & B & (p' & seg & Hp' & Hid & Hptr & Hbuf & Hcnt & Hget))] Hp Hg.
  rewrite Hp in Hp'. injection Hp' as <-. unfold SetGetOffset, CommandParser.set_get.
  rewrite Hp. cbn [must obind]. replace (_ && _) with true by lia.
  cbn [CommandParser.get_ with_parser command_buffer_].
  unfold CommandBufferService.SetGetOffset. rewrite <- Hcnt. replace (_ && _) with true by lia.
  cbn [dcheck obind]. eexists. by split.
Qed.

(** a subroutine call does not return past the call.  [PushAddress] saves the
    get offset of the [Call] itself, so the [Return] takes the parser back to it: two
    commands later the machine is where it was, with the same call stack. *)
Theorem call_return_loops (s : machine) (p : CommandParser.t) (seg q : Z) :
  CommonDecoder.machine_ok s -> parser_ (snd s) = Some p -> CommandParser.buffer_ p = Some (seg, 0) ->
  CommandParser.entry_count_ p < 2 ^ 31 ->
  CommandParser.get_ p <> CommandParser.put_ p -> q <> CommandParser.put_ p -> q <> CommandParser.get_ p ->
  CommandParser.get_ p + 2 <= CommandParser.entry_count_ p ->
  0 <= q < CommandParser.entry_count_ p ->
  in_ring (Call q) seg (CommandParser.get_ p) s -> in_ring Return seg q s ->
  Z.of_nat (length (CommonDecoder.call_stack_ (fst s))) < CommonDecoder.kMaxStackDepth ->
  exists s1 s2 p2, ProcessCommand s = Ret (kNoError, s1) /\ ProcessCommand s1 = Ret (kNoError, s2) /\
    parser_ (snd s2) = Some p2 /\ CommandParser.get_ p2 = CommandParser.get_ p /\
    CommandParser.put_ p2 = CommandParser.put_ p /\
    CommonDecoder.call_stack_ (fst s2) = CommonDecoder.call_stack_ (fst s) /\
    memory (snd s2) = memory (snd s).
Proof.
  intros Hs Hp Hb He Hgp Hqp Hqg Hg2 Hq Hcall Hret Hdepth.
  destruct (parser_of s Hs) as (p' & seg' & Hp' & _ & Hg). rewrite Hp in Hp'. injection Hp' as <-.
  rewrite (ProcessCommand_common s p seg (Call q) Hp Hb Hgp Hcall) by (change (entries_of (Call q)) with 2; lia).
  (* the call *)
  destruct s as [d e]. cbn [fst snd] in *.
  destruct (SetGetOffset_ok (d, e) p q Hs Hp Hq) as (cb & Hset & Hmem). cbn [snd] in Hset.
  set (p1 := CommandParser.mk q _ _ _) in Hset.
  set (e1 := with_command_buffer cb (with_parser (Some p1) e)) in *.
  set (d1 := CommonDecoder.mk (CommonDecoder.buckets_ d)
               (u32 (GetGetOffset e) :: CommonDecoder.call_stack_ d)).
  assert (Hexec : CommonDecoder.exec (Call q) (d, e) = Ret (kNoError, (d1, e1))).
  { cbn [CommonDecoder.exec]. unfold CommonDecoder.push_or_fail. cbn [CommonDecoder.PushAddress].
    rewrite (proj2 (Z.ltb_lt _ _) Hdepth). rewrite i32_small by lia.
    change (GpuDecoder.SetGetOffset q e) with (SetGetOffset q e). by rewrite Hset. }
  rewrite Hexec. unfold finish at 1. cbn [obind snd].
  change (parser_ e1) with (Some p1). cbn [must obind].
  change (CommandParser.get_ p1) with q.
  destruct (Z.eqb_spec (CommandParser.get_ p) q) as [|_]; [lia|]. cbn [andb].
  assert (Hs1 : CommonDecoder.machine_ok (d1, e1)).
  { destruct (CommonDecoder.push_or_fail_ran q (d, e) Hs) as (err & s1 & Hr & _ & H1 & H2 & _).
    change (CommonDecoder.push_or_fail q (d, e)) with (CommonDecoder.exec (Call q) (d, e)) in Hr.
    rewrite Hexec in Hr. injection Hr as <- <-. by split. }
  eexists (d1, e1). 
  assert (Hpr : ProcessCommand (d1, e1) = finish q 1 (CommonDecoder.exec Return (d1, e1))).
  { apply (ProcessCommand_common (d1, e1) p1 seg Return); [done|done|done| |change (entries_of Return) with 1; cbn; lia].
    apply (in_ring_same Return seg q (d, e)); [exact Hmem|done]. }
  rewrite Hpr. destruct (SetGetOffset_ok (d1, e1) p1 (CommandParser.get_ p) Hs1 eq_refl Hg)
    as (cb2 & Hset2 & Hmem2). cbn [snd] in Hset2.
  assert (Hexec2 : CommonDecoder.exec Return (d1, e1) = Ret (kNoError, (d, with_command_buffer cb2
    (with_parser (Some (CommandParser.mk (CommandParser.get_ p) (CommandParser.put_ p1)
       (CommandParser.buffer_ p1) (CommandParser.entry_count_ p1))) e1)))).
  { cbn [CommonDecoder.exec CommonDecoder.HandleReturn].
    change (CommonDecoder.call_stack_ d1) with (u32 (GetGetOffset e) :: CommonDecoder.call_stack_ d).
    unfold CommonDecoder.set_get_or_fail.
    assert (Eg : i32 (u32 (GetGetOffset e)) = CommandParser.get_ p).
    { unfold GetGetOffset. rewrite Hp. cbn. rewrite u32_small, i32_small by lia. done. }
    rewrite Eg. change (GpuDecoder.SetGetOffset (CommandParser.get_ p) e1)
      with (SetGetOffset (CommandParser.get_ p) e1).
    rewrite Hset2. cbn [obind]. by destruct d. }
  rewrite Hexec2. unfold finish. cbn [obind snd with_command_buffer with_parser parser_ must CommandParser.get_].
  destruct (Z.eqb_spec q (CommandParser.get_ p)); [done|]. cbn [andb].
  eexists _, _. split; [done|]. split; [done|]. split; [done|]. split; [done|].
  split; [done|]. split; [done|]. cbn. by rewrite Hmem2.
Qed.

(** One more common command: the machine after it, when its handler does not move
    the get offset. *)
Lemma ProcessCommand_noop (s : machine) p seg n :
  CommonDecoder.machine_ok s -> parser_ (snd s) = Some p -> CommandParser.buffer_ p = Some (seg, 0) ->
  CommandParser.get_ p <> CommandParser.put_ p -> in_ring (Noop n) seg (CommandParser.get_ p) s ->
  CommandParser.get_ p + n <= CommandParser.entry_count_ p ->
  let q := CommandParser.advance (CommandParser.get_ p) n p in
  ProcessCommand s = Ret (kNoError, on_engine (with_parser (Some q)) s) /\
  CommonDecoder.machine_ok (on_engine (with_parser (Some q)) s).
Proof.
  intros Hs Hp Hb Hne Hr Hn q. split.
  - rewrite (ProcessCommand_common s p seg (Noop n)) by done.
    unfold finish. cbn [CommonDecoder.exec CommonDecoder.done_ok obind]. rewrite Hp. cbn [must obind].
    by rewrite Z.eqb_refl.
  - destruct (parser_of s Hs) as (p' & seg' & Hp' & _ & Hg). rewrite Hp in Hp'. injection Hp' as <-.
    apply (with_parser_ok s p); [done..|]. unfold q, CommandParser.advance. cbn.
    apply Z.mod_pos_bound. lia.
Qed.

(** The parser reads a ring of one-entry [Noop]s with its put offset past the last
    entry. *)
Record overrun (seg : Z) (s : machine) : Prop := {
  ov_running : running s;
  ov_parser : exists p, parser_ (snd s) = Some p /\ CommandParser.buffer_ p = Some (seg, 0) /\
    CommandParser.put_ p = CommandParser.entry_count_ p /\
    forall g, 0 <= g < CommandParser.entry_count_ p -> in_ring (Noop 1) seg g s
}.

Lemma overrun_loops seg fuel : forall s, overrun seg s -> process_loop fuel s = Timeout.
Proof.
  induction fuel as [|fuel IH]; intros s [(Hs & Hun & Hw) (p & Hp & Hb & Hput & Hring)];
    destruct (parser_of s Hs) as (p' & seg' & Hp' & _ & Hg); rewrite Hp in Hp'; injection Hp' as <-;
    cbn [process_loop]; rewrite Hp; cbn [must obind]; unfold CommandParser.IsEmpty;
    (destruct (Z.eqb_spec (CommandParser.put_ p) (CommandParser.get_ p)); [lia|]); [done|].
  assert (Hsch : IsScheduled (snd s) = true) by (unfold IsScheduled; lia).
  rewrite Hsch, Hw. cbn [negb dcheck obind].
  destruct (ProcessCommand_noop s p seg 1 Hs Hp Hb ltac:(lia) (Hring _ Hg) ltac:(lia)) as [-> Hs1].
  cbn [obind]. set (q := CommandParser.advance _ 1 p) in *.
  set (s1 := on_engine (with_parser (Some q)) s) in *.
  rewrite bool_decide_eq_false_2 by done. change (parser_ (snd s1)) with (Some q). cbn [must obind].
  destruct (set_get_offset_ok s1 q Hs1 eq_refl) as (cb & Hcb & Hs2). rewrite Hcb. cbn [obind].
  cbn [IsError]. change (IsError kNoError) with false. cbn iota.
  set (s3 := on_engine command_processed (on_engine (with_command_buffer cb) s1)).
  change (unscheduled_count_ (snd s3)) with (unscheduled_count_ (snd s)). rewrite Hun. cbn [Z.ltb Z.compare].
  apply IH. split; [split; [done|by split]|]. exists q. split; [done|]. split; [done|]. split; [done|].
  intros g Hgq. apply (in_ring_same _ _ _ s); [|by apply Hring].
  unfold CommandBufferService.SetGetOffset in Hcb. inv_outcome. done.
Qed.

(** [Flush] accepts a put offset equal to the number of entries, which the get
    offset never reaches: in a ring of [Noop]s the scheduler then processes commands
    for ever. *)
Theorem flush_at_end_livelock (fuel : nat) (seg : Z) (s : machine) (p : CommandParser.t) :
  running s -> parser_ (snd s) = Some p -> CommandParser.buffer_ p = Some (seg, 0) ->
  CommandBufferService.error_ (command_buffer_ (snd s)) = kNoError ->
  (forall g, 0 <= g < CommandParser.entry_count_ p -> in_ring (Noop 1) seg g s) ->
  Flush fuel (CommandBufferService.num_entries_ (command_buffer_ (snd s))) s = Timeout.
Proof.
  intros Hrun Hp Hb Herr Hring. pose proof Hrun as (Hs & _ & _).
  pose proof Hs as [_ (W & _ & (p' & seg0 & Hp' & _ & _ & _ & Hcnt & Hg))].
  rewrite Hp in Hp'. injection Hp' as <-.
  destruct (Flush_loop fuel (CommandBufferService.num_entries_ (command_buffer_ (snd s))) s p Hrun Hp Herr)
    as (cb & -> & Hrun1 & Hmem & _); [lia|].
  apply (overrun_loops seg). split; [done|].
  eexists. split; [done|]. split; [done|]. split; [done|].
  intros g Hgr. apply (in_ring_same _ _ _ s); [exact Hmem|]. by apply Hring.
Qed.

End Common.

(** ** Destroying the ring buffer under the parser *)

Section Destroyed.
Context {A : Type} `{!Host A}.

Abbreviation machine := (@CommonDecoder.machine (engine A)).

(** destroying the transfer buffer that is the ring resets the service's
    offsets but not the parser's: unless the parser happens to be at 0, the next
    flush, even of an empty ring, reads commands from unmapped memory. *)
Theorem flush_after_destroy_crashes (fuel : nat) (seg : Z) (s : machine) (p : CommandParser.t) :
  CommandBufferService.wf (command_buffer_ (snd s)) ->
  0 < CommandBufferService.ring_buffer_id_ (command_buffer_ (snd s)) ->
  CommandBufferService.ptr (CommandBufferService.ring_buffer_ (command_buffer_ (snd s))) = Some seg ->
  parser_ (snd s) = Some p -> CommandParser.buffer_ p = Some (seg, 0) -> CommandParser.get_ p <> 0 ->
  CommandBufferService.error_ (command_buffer_ (snd s)) = kNoError ->
  unscheduled_count_ (snd s) = 0 -> unschedule_fences_ (snd s) = [] ->
  exists s', DestroyTransferBuffer (CommandBufferService.ring_buffer_id_ (command_buffer_ (snd s))) s = Ret s' /\
    Flush (S fuel) 0 s' = Crash.
Proof.
  intros W Hid Hptr Hp Hb Hg Herr Hun Hf.
  destruct (CommandBufferService.DestroyTransferBuffer_ring _ seg W Hid Hptr)
    as (cb & Hd & Hmap & Hn & Hget & Hput & He).
  unfold DestroyTransferBuffer. rewrite Hd. cbn [obind]. eexists. split; [done|].
  unfold Flush, CommandBufferService.Flush. cbn [snd on_engine command_buffer_ with_command_buffer].
  rewrite Hn. cbn [Z.ltb Z.compare orb].
  unfold PutChanged. cbn -[process_loop bool_decide].
  rewrite Hp, He, Herr. cbn -[process_loop bool_decide].
  rewrite bool_decide_eq_true_2 by done. cbn [negb].
  unfold PollUnscheduleFences. cbn -[process_loop]. rewrite Hf. cbn -[process_loop].
  unfold IsScheduled. cbn -[process_loop]. rewrite Hun. cbn -[ProcessCommand Z.eqb bool_decide].
  unfold CommandParser.IsEmpty. cbn -[ProcessCommand Z.eqb bool_decide].
  destruct (Z.eqb_spec 0 (CommandParser.get_ p)); [lia|].
  unfold IsScheduled, HasMoreWork. cbn -[ProcessCommand Z.eqb bool_decide]. rewrite Hun, Hf.
  rewrite bool_decide_eq_false_2 by (intros []; done). cbn -[ProcessCommand].
  unfold ProcessCommand. cbn -[Z.eqb Memory.load32].
  destruct (Z.eqb_spec (CommandParser.get_ p) 0); [done|]. rewrite Hb. cbn -[Memory.load32].
  unfold Memory.load32, Memory.load. by rewrite Hmap, lookup_delete_eq.
Qed.

End Destroyed.

(** ** Pausing and resuming *)

Section Scheduling.
Context {A : Type}.

(** A call of [SetScheduled], or the timeout that reschedules. *)
Inductive sched_event := Pause | Resume | TimeOut.

Definition sched_step (ev : sched_event) (e : engine A) : outcome (engine A) :=
  match ev with
  | Pause => SetScheduled false e
  | Resume => SetScheduled true e
  | TimeOut => RescheduleTimeOut e
  end.

Fixpoint sched_run (evs : list sched_event) (e : engine A) : outcome (engine A) :=
  match evs with
  | [] => Ret e
  | ev :: evs => let! e := sched_step ev e in sched_run evs e
  end.

(** Pauses not yet paired with a resume. *)
Fixpoint outstanding (n : Z) (evs : list sched_event) : option Z :=
  match evs with
  | [] => Some n
  | Pause :: evs => outstanding (n + 1) evs
  | Resume :: evs => if n =? 0 then None else outstanding (n - 1) evs
  | TimeOut :: evs => outstanding n evs
  end.

Lemma reschedule_all_spec n : forall e : engine A,
  unscheduled_count_ e = Z.of_nat n -> rescheduled_count_ e = 0 ->
  exists e', reschedule_all n e = Ret e' /\ unscheduled_count_ e' = 0.
Proof.
  induction n as [|n IH]; intros e Hu Hr; cbn [reschedule_all]; rewrite Hu.
  { by exists e. }
  destruct (Z.eqb_spec (Z.of_nat (S n)) 0); [lia|].
  unfold SetScheduled. rewrite Hr, Hu. cbn [Z.ltb Z.compare].
  rewrite (proj2 (Z.leb_le 0 (Z.of_nat (S n) - 1))) by lia.
  cbn [dcheck obind]. apply IH; [cbn; lia|done].
Qed.

Lemma sched_run_spec evs : forall (e : engine A) n,
  0 <= unscheduled_count_ e -> 0 <= rescheduled_count_ e ->
  outstanding (unscheduled_count_ e + rescheduled_count_ e) evs = Some n ->
  exists e', sched_run evs e = Ret e' /\ 0 <= unscheduled_count_ e' /\ 0 <= rescheduled_count_ e' /\
    unscheduled_count_ e' + rescheduled_count_ e' = n.
Proof.
  induction evs as [|ev evs IH]; intros e n Hu Hr Ho; cbn in Ho.
  { injection Ho as <-. by exists e. }
  destruct ev; cbn [sched_run sched_step].
  - unfold SetScheduled. cbn [obind]. apply IH; cbn; [lia|done|].
    replace (unscheduled_count_ e + 1 + rescheduled_count_ e)
      with (unscheduled_count_ e + rescheduled_count_ e + 1) by lia. done.
  - destruct (Z.eqb_spec (unscheduled_count_ e + rescheduled_count_ e) 0); [done|].
    unfold SetScheduled. case_if; cbn [obind].
    + apply IH; cbn; [done|lia|]. by rewrite Z.add_sub_assoc.
    + replace (0 <=? unscheduled_count_ e - 1) with true by lia.
      cbn [dcheck obind]. apply IH; cbn; [lia|done|].
      replace (unscheduled_count_ e - 1 + rescheduled_count_ e)
        with (unscheduled_count_ e + rescheduled_count_ e - 1) by lia. done.
  - unfold RescheduleTimeOut.
    destruct (reschedule_all_spec (Z.to_nat (unscheduled_count_ e))
      (with_counts (unscheduled_count_ e) 0 (scheduled_callbacks e) e)) as (e' & -> & Hu');
      [cbn; lia|done|].
    cbn [obind]. apply IH; cbn; [lia|lia|]. by rewrite Hu'.
Qed.

(** however pauses, resumes and timeouts interleave, as long as no resume comes
    without a pause before it, no assertion fails and the loop of the timeout
    terminates; once every pause has been paired the scheduler runs again, with no
    resume left to ignore. *)
Theorem scheduling_balanced (evs : list sched_event) (s : CommandBufferService.t) (a : A) :
  outstanding 0 evs = Some 0 ->
  exists e, sched_run evs (init s a) = Ret e /\ IsScheduled e = true /\ rescheduled_count_ e = 0.
Proof.
  intros Ho. destruct (sched_run_spec evs (init s a) 0) as (e & He & H1 & H2 & H3); [done..|].
  exists e. split; [done|]. unfold IsScheduled. split; lia.
Qed.

End Scheduling.

Lemma scheduling_balanced_witness :
  exists e, sched_run [Pause; TimeOut; Pause; Resume; Resume] (init CommandBufferService.init tt) = Ret e /\
    IsScheduled e = true /\ rescheduled_count_ e = 0.
Proof.
  apply (scheduling_balanced [Pause; TimeOut; Pause; Resume; Resume] CommandBufferService.init tt). reflexivity.
Defined.

(** ** A concrete scheduler

    The decoder of the common commands, with a 64-byte ring buffer in segment 7. *)
Module Sample.

#[global] Instance host : Host unit := {|
  DoCommand := fun command arg_count data s => CommonDecoder.DoCommonCommand 1 command arg_count (fst data) (snd data) s;
  run_task := fun _ s => Ret s;
  HasCompleted := fun _ _ => true;
  GetContextLostReason := fun _ => kUnknown
|}.

#[global] Instance host_common : @CommonHost unit host.
Proof.
  by intros command arg_count seg off s Hc.
Qed.

(** The decoder's commands leave the scheduling state alone. *)
Definition same_sched (e e' : engine unit) : Prop :=
  unscheduled_count_ e' = unscheduled_count_ e /\ unschedule_fences_ e' = unschedule_fences_ e.

Lemma SetGetOffset_sched off (e : engine unit) ok e' :
  SetGetOffset off e = Ret (ok, e') -> same_sched e e'.
Proof.
  unfold SetGetOffset. destruct (parser_ e) as [p|]; [|done]. cbn [must obind].
  destruct (CommandParser.set_get off p) as [[] q]; intros Hs; inv_outcome; done.
Qed.

Lemma dispatch_sched c imm seg off (s : CommonDecoder.machine (E := engine unit)) err s' :
  CommonDecoder.dispatch c imm seg off s = Ret (err, s') -> same_sched (snd s) (snd s').
Proof.
  intros Hd. destruct s as [d e]. cbn [snd].
  destruct c; cbn [CommonDecoder.dispatch] in Hd; inv_outcome;
    unfold CommonDecoder.HandleNoop, CommonDecoder.HandleSetToken, CommonDecoder.HandleJump, CommonDecoder.HandleJumpRelative,
      CommonDecoder.HandleCall, CommonDecoder.HandleCallRelative, CommonDecoder.HandleReturn,
      CommonDecoder.push_or_fail, CommonDecoder.PushAddress, CommonDecoder.HandleSetBucketSize,
      CommonDecoder.HandleSetBucketData, CommonDecoder.HandleSetBucketDataImmediate,
      CommonDecoder.HandleGetBucketSize, CommonDecoder.HandleGetBucketData,
      CommonDecoder.set_bucket_data, CommonDecoder.set_get_or_fail, CommonDecoder.fail,
      CommonDecoder.done_ok, CommonDecoder.CreateBucket in *;
    cbn [GpuDecoder.SetGetOffset engine_interface] in *;
    repeat (inv_outcome; try done; match goal with
      | H : (if ?b then _ else _) = Ret _ |- _ => destruct b eqn:?
      | H : match ?x with _ => _ end = Ret _ |- _ => destruct x eqn:?
      | H : SetGetOffset _ _ = Ret _ |- _ => apply SetGetOffset_sched in H
      end); done.
Qed.

Lemma host_answers command arg_count seg off (s : CommonDecoder.machine (E := engine unit)) :
  CommonDecoder.machine_ok s -> 0 <= command < 2 ^ 11 -> 0 <= arg_count < 2 ^ 21 ->
  CommonDecoder.readable (snd s) seg off (4 * (1 + arg_count)) ->
  (~ command < kNumCommands /\ DoCommand command arg_count (seg, off) s = Timeout) \/
  exists err s', DoCommand command arg_count (seg, off) s = Ret (err, s') /\
    CommonDecoder.machine_ok s' /\ sched_ok s s' err.
Proof.
  intros Hs Hc Ha Hr. cbn [DoCommand host fst snd].
  destruct (Z.lt_ge_cases command kNumCommands) as [Hk|Hk]; [right|left; split; [lia|by apply CommonDecoder.do_common_diverges]].
  destruct (CommonDecoder.do_common_ran 0 command arg_count seg off s Hs ltac:(lia) Ha Hr)
    as (err & s' & Hd & Herr & Hd' & He' & _).
  exists err, s'. split; [done|]. split; [by split|].
  assert (Hsame : same_sched (snd s) (snd s')).
  { cbn [CommonDecoder.DoCommonCommand] in Hd. rewrite (proj2 (Z.ltb_lt _ _) Hk) in Hd.
    destruct (command_ids !! Z.to_nat command) as [c|]; [|done].
    destruct (_ || _); [by apply dispatch_sched in Hd|]. by injection Hd as <- <-. }
  destruct Hsame as [E1 E2]. intros Hsch Hw. unfold IsScheduled, HasMoreWork in *. rewrite E1, E2.
  zb2p. split; [lia|]. split; [by destruct Herr as [->| ->]|done].
Qed.

(** It knows the twelve common commands. *)
#[global] Instance host_laws : @HostLaws unit host := {| known := fun command => command < kNumCommands; DoCommand_ok := host_answers |}.

(** Entries of a 64-byte ring: the commands given, then one-entry [Noop]s. *)
Definition ring_bytes (ws : list Z) : list Z :=
  bytes_of_entries (ws ++ replicate (16 - length ws) 1).

Definition machine_of (ws : list Z) (get put : Z) : CommonDecoder.machine (E := engine unit) :=
  let os := mkOs true true (Some (7, ring_bytes ws)) in
  match CommandBufferService.RegisterTransferBuffer os 64 (-1) CommandBufferService.init with
  | Ret (id, cb) =>
      match SetRingBuffer id (CommonDecoder.init, init cb tt) with
      | Ret s =>
          match SetGetOffset get (snd s) with
          | Ret (_, e) => (fst s, match parser_ e with
                                  | Some p => with_parser (Some (CommandParser.set_put put p)) e
                                  | None => e
                                  end)
          | _ => s
          end
      | _ => (CommonDecoder.init, init cb tt)
      end
  | _ => (CommonDecoder.init, init CommandBufferService.init tt)
  end.

Lemma machine_of_ok ws get put :
  Forall is_u32 ws -> (length ws <= 16)%nat -> 0 <= get < 16 ->
  CommonDecoder.machine_ok (machine_of ws get put).
Proof.
  intros Hws Hlen Hget.
  assert (Hl : length (ring_bytes ws) = 64%nat).
  { unfold ring_bytes. rewrite length_bytes_of_entries, length_app, length_replicate. lia. }
  set (os := mkOs true true (Some (7, ring_bytes ws))).
  destruct (CommandBufferService.RegisterTransferBuffer_spec os 64 (-1) CommandBufferService.init)
    as (id & cb & Hr & W & _); [apply CommandBufferService.service_wf_init| |done|].
  { intros seg bytes [= <- <-]. by rewrite Hl. }
  unfold machine_of. fold os. rewrite Hr.
  assert (Ecb : id = 1 /\ cb = CommandBufferService.with_objects
    [CommandBufferService.null_buffer; CommandBufferService.mkBuffer (Some 7) 64 true] []
    (CommandBufferService.with_memory 0 (<[7 := ring_bytes ws]> ∅) CommandBufferService.init)).
  { unfold CommandBufferService.RegisterTransferBuffer in Hr. cbn in Hr. by injection Hr as <- <-. }
  destruct Ecb as [-> ->].
  assert (B : Memory.bytes_ok (<[7 := ring_bytes ws]> ∅)).
  { apply map_Forall_insert_2; [|apply map_Forall_empty]. apply Forall_forall. intros b Hb.
    unfold ring_bytes, bytes_of_entries in Hb.
    apply list_elem_of_join in Hb as (bs & Hb & (w & -> & Hw)%list_elem_of_fmap).
    by apply bytes_of_u32_range in Hb. }
  set (cb := CommandBufferService.with_objects _ _ _) in *.
  destruct (SetRingBuffer 1 (CommonDecoder.init, init cb tt)) as [s| |] eqn:Es; [|done..].
  destruct (SetRingBuffer_sound 1 CommonDecoder.init (init cb tt) s W B ltac:(done) Es) as [Ed Hs].
  destruct (SetGetOffset_sound get (snd s) Hs) as (ok & e' & Hset & (W' & B' & (p & seg & Hp & Ha)) & _).
  rewrite Hset, Hp, Ed. split; [apply CommonDecoder.decoder_ok_init|].
  split; [done|]. split; [done|]. exists (CommandParser.set_put put p), seg. by cbn.
Qed.

#[local] Opaque machine_of.

(** A command that is known and one that is not. *)
Lemma process_command_safe_witness :
  (exists err s', ProcessCommand (machine_of [1 + 2 * 2 ^ 21] 0 5) = Ret (err, s') /\ CommonDecoder.machine_ok s' /\
    exists p, parser_ (snd s') = Some p /\ 0 <= CommandParser.get_ p < CommandParser.entry_count_ p) /\
  ProcessCommand (machine_of [1 + 12 * 2 ^ 21] 0 5) = Timeout.
Proof.
  assert (Hok : forall w, is_u32 w -> CommonDecoder.machine_ok (machine_of [w] 0 5)).
  { intros w Hw. apply machine_of_ok; [constructor; [done|constructor]|cbn; lia|lia]. }
  split.
  - destruct (process_command_safe (machine_of [1 + 2 * 2 ^ 21] 0 5)) as [[(h & Hh & Hk) _]|H]; [apply Hok; unfold is_u32; lia| |exact H].
    exfalso. apply Hk. vm_compute in Hh. injection Hh as <-. by vm_compute.
  - by vm_compute.
Defined.

Lemma put_changed_safe_witness :
  PutChanged 20 (machine_of [0xffffffff] 0 5) = Timeout \/
  exists s', PutChanged 20 (machine_of [0xffffffff] 0 5) = Ret s' /\ CommonDecoder.machine_ok s'.
Proof.
  apply (put_changed_safe 20 (machine_of [0xffffffff] 0 5)).
  - apply machine_of_ok; [by repeat constructor|cbn; lia|lia].
  - by vm_compute.
  - by vm_compute.
Defined.

(** [Call 8] at entry 0, [Return] at entry 8. *)
Definition call_ring : list Z := [2 + 4 * 2 ^ 21; 8; 1; 1; 1; 1; 1; 1; 1 + 6 * 2 ^ 21].

Definition parser_at (get put : Z) : CommandParser.t := CommandParser.mk get put (Some (7, 0)) 16.

Lemma call_return_loops_witness :
  exists s1 s2 p2, ProcessCommand (machine_of call_ring 0 12) = Ret (kNoError, s1) /\
    ProcessCommand s1 = Ret (kNoError, s2) /\
    parser_ (snd s2) = Some p2 /\ CommandParser.get_ p2 = 0 /\ CommandParser.put_ p2 = 12 /\
    CommonDecoder.call_stack_ (fst s2) = CommonDecoder.call_stack_ (fst (machine_of call_ring 0 12)) /\
    memory (snd s2) = memory (snd (machine_of call_ring 0 12)).
Proof.
  apply (call_return_loops (machine_of call_ring 0 12) (parser_at 0 12) 7 8);
    [|by vm_compute|done|cbn; lia|cbn; lia|cbn; lia|cbn; lia|cbn; lia|cbn; lia| | |by vm_compute].
  - apply machine_of_ok; [by repeat constructor|cbn; lia|lia].
  - split; [done|]. eexists. split; [reflexivity|]. by vm_compute.
  - split; [done|]. eexists. split; [reflexivity|]. by vm_compute.
Defined.

Lemma noop_ring g : 0 <= g < 16 -> in_ring (Noop 1) 7 g (machine_of [] 0 0).
Proof.
  intros Hg. split; [done|]. eexists. split; [reflexivity|].
  assert (Hc : g = Z.of_nat (Z.to_nat g)) by lia.
  assert (Hn : (Z.to_nat g < 16)%nat) by lia. rewrite Hc. generalize dependent (Z.to_nat g). clear.
  intros n _ Hn. do 16 (destruct n as [|n]; [by vm_compute|]). lia.
Qed.

Lemma flush_at_end_livelock_witness :
  Flush 100 16 (machine_of [] 0 0) = Timeout.
Proof.
  apply (flush_at_end_livelock 100 7 (machine_of [] 0 0) (parser_at 0 0));
    [|by vm_compute|done|by vm_compute|].
  - split; [|split; by vm_compute]. apply machine_of_ok; [by repeat constructor|cbn; lia|lia].
  - intros g Hg. by apply noop_ring.
Defined.

Lemma flush_after_destroy_crashes_witness :
  exists s', DestroyTransferBuffer 1 (machine_of [] 5 5) = Ret s' /\ Flush 100 0 s' = Crash.
Proof.
  apply (flush_after_destroy_crashes 99 7 (machine_of [] 5 5) (parser_at 5 5));
    [|by vm_compute|by vm_compute|by vm_compute|done|cbn; lia|by vm_compute..].
  apply (machine_of_ok [] 5 5); [by repeat constructor|cbn; lia|lia].
Defined.

(** The decoder's properties on the same machine. *)
Lemma do_common_safe_witness :
  exists err s', CommonDecoder.DoCommonCommand 1 8 5 7 0 (machine_of [0xffffffff] 0 5) = Ret (err, s') /\
    (err = kNoError \/ err = kInvalidArguments) /\ CommonDecoder.machine_ok s' /\
    Memory.same_shape (memory (snd (machine_of [0xffffffff] 0 5))) (memory (snd s')).
Proof.
  apply (CommonDecoder.do_common_safe 0 8 5 7 0 (machine_of [0xffffffff] 0 5)).
  - apply machine_of_ok; [by repeat constructor|cbn; lia|lia].
  - unfold kNumCommands. lia.
  - lia.
  - exists (ring_bytes [0xffffffff]). by vm_compute.
Defined.

Lemma do_common_refines_witness :
  exists err s', CommonDecoder.DoCommonCommand 1 4 1 7 0 (machine_of call_ring 0 12) = Ret (err, s') /\
    CommonDecoder.effect (Call 8) (CommonDecoder.view_of (machine_of call_ring 0 12)) = Ret (err, CommonDecoder.view_of s').
Proof.
  apply (CommonDecoder.do_common_refines 0 (Call 8) [2 + 4 * 2 ^ 21; 8] 7 0 (machine_of call_ring 0 12));
    [|done|reflexivity|by vm_compute].
  apply machine_of_ok; [by repeat constructor|cbn; lia|lia].
Defined.

Lemma do_common_diverges_witness :
  CommonDecoder.DoCommonCommand 1000 12 0 7 0 (machine_of [] 0 0) = Timeout.
Proof. apply (CommonDecoder.do_common_diverges 1000 12 0 7 0 (machine_of [] 0 0)). unfold kNumCommands. lia. Defined.

(** The ring is also a transfer buffer: 8 bytes go from its start to its end. *)
Lemma pair_ok (s : CommonDecoder.machine (E := engine unit)) :
  CommonDecoder.machine_ok s -> CommonDecoder.machine_ok (fst s, snd s).
Proof. by destruct s. Qed.

Lemma bucket_transfer_witness :
  let d := fst (machine_of call_ring 0 12) in let e := snd (machine_of call_ring 0 12) in
  exists s1 s2 s3, CommonDecoder.HandleSetBucketSize 3 8 (d, e) = Ret (kNoError, s1) /\
    CommonDecoder.HandleSetBucketData 3 0 8 1 0 s1 = Ret (kNoError, s2) /\
    CommonDecoder.HandleGetBucketData 3 0 8 1 56 s2 = Ret (kNoError, s3) /\
    Memory.load 7 56 8 (memory (snd s3)) = Ret [2; 0; 128; 0; 8; 0; 0; 0].
Proof.
  cbv zeta.
  apply (CommonDecoder.bucket_transfer 3 8 1 0 1 56 7 7 [2; 0; 128; 0; 8; 0; 0; 0]
    (fst (machine_of call_ring 0 12)) (snd (machine_of call_ring 0 12))).
  - assert (Hm : CommonDecoder.machine_ok (machine_of call_ring 0 12)).
    { apply machine_of_ok; [by repeat constructor|cbn; lia|lia]. }
    apply (pair_ok _ Hm).
  - lia.
  - unfold is_u32; lia.
  - unfold is_u32; lia.
  - by vm_compute.
  - by vm_compute.
  - by vm_compute.
Defined.

End Sample.

End GpuScheduler.
