(* ===== verification/GpuHelper.v ===== *)
(** The client's end of a command buffer,
    [gpu/command_buffer/client/cmd_buffer_helper.cc]: commands are laid out in a
    ring shared with the service, with jumps where the ring wraps and tokens to
    wait for. *)
From S2P Require Import Prelude.
From S2P Require Import GpuCommands.
From S2P Require Import GpuCommandBufferService.

(** The [CommandBuffer] the helper is given.  [cb_GetLastState] only reads, as the
    client's cached state does; [cb_store] is the client's mapping of the shared
    memory; [cb_clock] is [clock()] at the time of the call. *)
Class CommandBuffer (C : Type) := {
  cb_CreateTransferBuffer : Z -> Z -> C -> outcome (Z * C);
  cb_GetTransferBuffer : Z -> C -> CommandBufferService.Buffer;
  cb_DestroyTransferBuffer : Z -> C -> outcome C;
  cb_SetGetBuffer : Z -> C -> outcome C;
  cb_GetState : C -> CommandBufferService.State * C;
  cb_GetLastState : C -> CommandBufferService.State;
  cb_Flush : Z -> C -> outcome C;
  cb_FlushSync : Z -> Z -> C -> outcome (CommandBufferService.State * C);
  cb_store : Z -> Z -> list Z -> C -> outcome C;
  cb_clock : C -> Z
}.

Module CommandBufferHelper.

Definition kCommandsPerFlushCheck : Z := 100.

(** [kFlushDelay * CLOCKS_PER_SEC] is 10^6 / 300 ticks, so an integer number of
    ticks exceeds it from 3334 on. *)
Definition flush_delay_passed (elapsed : Z) : bool := 1000000 <? elapsed * 300.

Record t := mk {
  ring_buffer_id_ : Z;
  ring_buffer_size_ : Z;
  ring_buffer_ : CommandBufferService.Buffer;
  entries_ : option Z;
  total_entry_count_ : Z;
  usable_entry_count_ : Z;
  token_ : Z;
  put_ : Z;
  last_put_sent_ : Z;
  commands_issued_ : Z;
  usable_ : bool;
  last_flush_time_ : Z
}.

Definition init : t :=
  mk (-1) 0 CommandBufferService.null_buffer None 0 0 0 0 0 0 true 0.

Definition with_ring (id : Z) (buffer : CommandBufferService.Buffer) (h : t) : t :=
  mk id (ring_buffer_size_ h) buffer (entries_ h) (total_entry_count_ h) (usable_entry_count_ h)
     (token_ h) (put_ h) (last_put_sent_ h) (commands_issued_ h) (usable_ h) (last_flush_time_ h).

Definition with_size (size : Z) (h : t) : t :=
  mk (ring_buffer_id_ h) size (ring_buffer_ h) (entries_ h) (total_entry_count_ h)
     (usable_entry_count_ h) (token_ h) (put_ h) (last_put_sent_ h) (commands_issued_ h)
     (usable_ h) (last_flush_time_ h).

Definition with_entries (entries : option Z) (total usable put : Z) (h : t) : t :=
  mk (ring_buffer_id_ h) (ring_buffer_size_ h) (ring_buffer_ h) entries total usable
     (token_ h) put (last_put_sent_ h) (commands_issued_ h) (usable_ h) (last_flush_time_ h).

Definition with_put (put : Z) (h : t) : t :=
  mk (ring_buffer_id_ h) (ring_buffer_size_ h) (ring_buffer_ h) (entries_ h) (total_entry_count_ h)
     (usable_entry_count_ h) (token_ h) put (last_put_sent_ h) (commands_issued_ h) (usable_ h)
     (last_flush_time_ h).

Definition with_token (token : Z) (h : t) : t :=
  mk (ring_buffer_id_ h) (ring_buffer_size_ h) (ring_buffer_ h) (entries_ h) (total_entry_count_ h)
     (usable_entry_count_ h) token (put_ h) (last_put_sent_ h) (commands_issued_ h) (usable_ h)
     (last_flush_time_ h).

Definition with_flush (put_sent time : Z) (h : t) : t :=
  mk (ring_buffer_id_ h) (ring_buffer_size_ h) (ring_buffer_ h) (entries_ h) (total_entry_count_ h)
     (usable_entry_count_ h) (token_ h) (put_ h) put_sent (commands_issued_ h) (usable_ h) time.

Definition with_issued (n : Z) (h : t) : t :=
  mk (ring_buffer_id_ h) (ring_buffer_size_ h) (ring_buffer_ h) (entries_ h) (total_entry_count_ h)
     (usable_entry_count_ h) (token_ h) (put_ h) (last_put_sent_ h) n (usable_ h)
     (last_flush_time_ h).

Definition ClearUsable (h : t) : t :=
  mk (ring_buffer_id_ h) (ring_buffer_size_ h) (ring_buffer_ h) (entries_ h) (total_entry_count_ h)
     (usable_entry_count_ h) (token_ h) (put_ h) (last_put_sent_ h) (commands_issued_ h) false
     (last_flush_time_ h).

Definition HaveRingBuffer (h : t) : bool := negb (ring_buffer_id_ h =? -1).

Section Ops.
Context {C : Type} `{!CommandBuffer C}.

Definition last_token_read (c : C) : Z := CommandBufferService.token (cb_GetLastState c).
Definition get_offset (c : C) : Z := CommandBufferService.get_offset (cb_GetLastState c).

(** [&entries_[index] = words]: a store through the client's mapping. *)
Definition write_entries (index : Z) (words : list Z) (h : t) (c : C) : outcome C :=
  let! seg := must (entries_ h) in cb_store seg (4 * index) (bytes_of_entries words) c.

Definition AllocateRingBuffer (h : t) (c : C) : outcome (bool * t * C) :=
  if negb (usable_ h) then Ret (false, h, c)
  else if HaveRingBuffer h then Ret (true, h, c)
  else
    let! '(id, c) := cb_CreateTransferBuffer (ring_buffer_size_ h) (-1) c in
    if id <? 0 then Ret (false, ClearUsable h, c)
    else
      let buffer := cb_GetTransferBuffer id c in
      match CommandBufferService.ptr buffer with
      | None => Ret (false, ClearUsable (with_ring (ring_buffer_id_ h) buffer h), c)
      | Some seg =>
          let! c := cb_SetGetBuffer id c in
          let '(state, c) := cb_GetState c in
          let num_ring_buffer_entries := ring_buffer_size_ h / 4 in
          let h := with_ring id buffer h in
          if CommandBufferService.num_entries state <? num_ring_buffer_entries then
            Ret (false, ClearUsable
                          (with_entries (Some seg) (total_entry_count_ h) (usable_entry_count_ h)
                             (put_ h) h), c)
          else
            let kJumpEntries := sizeof kJump / 4 in
            Ret (true,
                 with_entries (Some seg) num_ring_buffer_entries
                   (num_ring_buffer_entries - kJumpEntries)
                   (CommandBufferService.put_offset state) h, c)
      end.

Definition FreeRingBuffer (h : t) (c : C) : outcome (t * C) :=
  check! put_ h =? get_offset c;
  if HaveRingBuffer h then
    let! c := cb_DestroyTransferBuffer (ring_buffer_id_ h) c in
    Ret (with_ring (-1) (ring_buffer_ h) h, c)
  else Ret (h, c).

Definition Initialize (ring_buffer_size : Z) (h : t) (c : C) : outcome (bool * t * C) :=
  AllocateRingBuffer (with_size ring_buffer_size h) c.

Definition FlushSync (h : t) (c : C) : outcome (bool * t * C) :=
  if negb (usable_ h) then Ret (false, h, c)
  else
    let h := with_flush (put_ h) (cb_clock c) h in
    let! '(state, c) := cb_FlushSync (put_ h) (get_offset c) c in
    Ret (bool_decide (CommandBufferService.error state = kNoError), h, c).

Definition Flush (h : t) (c : C) : outcome (t * C) :=
  if usable_ h then
    let h := with_flush (put_ h) (cb_clock c) h in
    let! c := cb_Flush (put_ h) c in Ret (h, c)
  else Ret (h, c).

(** [while (cond) if (!FlushSync()) return;] as the helper's waits do it; the
    answer says whether the condition was cleared. *)
Fixpoint flush_while (fuel : nat) (cond : t -> C -> bool) (h : t) (c : C)
    : outcome (bool * t * C) :=
  if cond h c then
    match fuel with
    | O => Timeout
    | S fuel =>
        let! '(r, c) := FlushSync h c in
        let '(ok, h) := r in
        if ok then flush_while fuel cond h c else Ret (false, h, c)
    end
  else Ret (true, h, c).

(** [do FlushSync while put_ != get_offset]. *)
Definition Finish (fuel : nat) (h : t) (c : C) : outcome (bool * t * C) :=
  if negb (usable_ h) then Ret (false, h, c)
  else if put_ h =? get_offset c then Ret (true, h, c)
  else
    check! HaveRingBuffer h;
    let! '(r, c) := FlushSync h c in
    let '(ok, h) := r in
    if ok then flush_while fuel (fun h c => negb (put_ h =? get_offset c)) h c
    else Ret (false, h, c).

(** The number of free entries, not necessarily contiguous. *)
Definition AvailableEntries (h : t) (c : C) : Z :=
  Z.rem (get_offset c - put_ h - 1 + usable_entry_count_ h) (usable_entry_count_ h).

(** The flush at the end of [WaitForAvailableEntries]. *)
Definition periodic_flush (h : t) (c : C) : outcome (t * C) :=
  let pending := Z.rem (put_ h + usable_entry_count_ h - last_put_sent_ h) (usable_entry_count_ h) in
  let limit := Z.quot (usable_entry_count_ h)
                 (if get_offset c =? last_put_sent_ h then 16 else 2) in
  if limit <? pending then Flush h c
  else if Z.rem (commands_issued_ h) kCommandsPerFlushCheck =? 0 then
    if flush_delay_passed (cb_clock c - last_flush_time_ h) then Flush h c else Ret (h, c)
  else Ret (h, c).

Definition jump_to_start (index : Z) (h : t) (c : C) : outcome C :=
  let! words := Jump_Init 0 in write_entries index words h c.

Definition WaitForAvailableEntries (fuel : nat) (count : Z) (h : t) (c : C) : outcome (t * C) :=
  let! '(r, c) := AllocateRingBuffer h c in
  let '(_, h) := r in
  if negb (usable_ h) then Ret (h, c)
  else
    check! HaveRingBuffer h;
    check! count <? usable_entry_count_ h;
    let! '(r, c) :=
      if usable_entry_count_ h <? put_ h + count then
        check! 1 <=? put_ h;
        let! '(r, c) := flush_while fuel
                          (fun h c => (put_ h <? get_offset c) || (get_offset c =? 0)) h c in
        let '(ok, h) := r in
        if ok then let! c := jump_to_start (put_ h) h c in Ret (true, with_put 0 h, c)
        else Ret (false, h, c)
      else Ret (true, h, c) in
    let '(ok, h) := r in
    if negb ok then Ret (h, c)
    else
      let! '(r, c) := flush_while fuel (fun h c => AvailableEntries h c <? count) h c in
      let '(ok, h) := r in
      if negb ok then Ret (h, c) else periodic_flush h c.

(** The index of the entries reserved, [None] for [NULL]. *)
Definition GetSpace (fuel : nat) (entries : Z) (h : t) (c : C) : outcome (option Z * t * C) :=
  let! '(r, c) := AllocateRingBuffer h c in
  let '(_, h) := r in
  if negb (usable_ h) then Ret (None, h, c)
  else
    check! HaveRingBuffer h;
    let! '(h, c) := WaitForAvailableEntries fuel entries (with_issued (commands_issued_ h + 1) h) c in
    let space := put_ h in
    let h := with_put (put_ h + entries) h in
    check! put_ h <=? usable_entry_count_ h;
    if put_ h =? usable_entry_count_ h then
      let! c := jump_to_start (put_ h) h c in Ret (Some space, with_put 0 h, c)
    else Ret (Some space, h, c).

(** [GetCmdSpace] followed by the structure's [Init]. *)
Definition issue (fuel : nat) (entries : Z) (words : outcome (list Z)) (data : list Z)
    (h : t) (c : C) : outcome (t * C) :=
  let! '(r, c) := GetSpace fuel entries h c in
  let '(space, h) := r in
  match space with
  | None => Ret (h, c)
  | Some index =>
      let! words := words in
      let! c := write_entries index words h c in
      let! seg := must (entries_ h) in
      let! c := match data with
                | [] => Ret c
                | _ => cb_store seg (4 * index + 4 * Z.of_nat (length words)) data c
                end in
      Ret (h, c)
  end.

(** Space asked for by the typed methods: [GetCmdSpace] for the fixed commands,
    [GetImmediateCmdSpace] for the others. *)
Definition space_of (c : common_command) : Z :=
  match c with
  | Noop skip_count => ComputeNumEntries (u64 (sizeof kNoop + u64 (skip_count * 4)))
  | SetBucketDataImmediate _ _ data =>
      ComputeNumEntries (u64 (sizeof kSetBucketDataImmediate + Z.of_nat (length data)))
  | _ => ComputeNumEntries (sizeof (id_of c))
  end.

(** The typed methods [Noop], [SetToken], [Jump], ..., [GetBucketData]. *)
Definition issue_common (fuel : nat) (cmd : common_command) (h : t) (c : C) : outcome (t * C) :=
  issue fuel (space_of cmd) (Init cmd) (payload cmd) h c.

Definition InsertToken (fuel : nat) (h : t) (c : C) : outcome (Z * t * C) :=
  let! '(r, c) := AllocateRingBuffer h c in
  let '(_, h) := r in
  if negb (usable_ h) then Ret (token_ h, h, c)
  else
    check! HaveRingBuffer h;
    let h := with_token (Z.land (token_ h + 1) 0x7fffffff) h in
    let! '(r, c) := GetSpace fuel (ComputeNumEntries (sizeof kSetToken)) h c in
    let '(space, h) := r in
    match space with
    | None => Ret (token_ h, h, c)
    | Some index =>
        let! words := SetToken_Init (token_ h) in
        let! c := write_entries index words h c in
        if token_ h =? 0 then
          let! '(r, c) := Finish fuel h c in
          let '(_, h) := r in
          check! token_ h =? last_token_read c;
          Ret (token_ h, h, c)
        else Ret (token_ h, h, c)
    end.

(** The loop of [WaitForToken]; waiting on an empty buffer is fatal. *)
Fixpoint wait_loop (fuel : nat) (token : Z) (h : t) (c : C) : outcome (t * C) :=
  if last_token_read c <? token then
    match fuel with
    | O => Timeout
    | S fuel =>
        check! negb (get_offset c =? put_ h);
        let! '(r, c) := FlushSync h c in
        let '(ok, h) := r in
        if ok then wait_loop fuel token h c else Ret (h, c)
    end
  else Ret (h, c).

Definition WaitForToken (fuel : nat) (token : Z) (h : t) (c : C) : outcome (t * C) :=
  if negb (usable_ h) then Ret (h, c)
  else
    check! HaveRingBuffer h;
    if token <? 0 then Ret (h, c)
    else if token_ h <? token then Ret (h, c)
    else wait_loop fuel token h c.

Definition GetError (c : C) : Error * C :=
  let '(state, c) := cb_GetState c in (CommandBufferService.error state, c).

(** ** The space asked for *)

(** the typed methods ask for exactly the entries their command's header counts,
    except [Noop], which asks for one entry more: [skip_count] counts the header
    already, so the entry after the command is left as it was and the service parses
    it as a header. *)
Theorem typed_space (cmd : common_command) :
  fits cmd ->
  space_of cmd = entries_of cmd + match cmd with Noop _ => 1 | _ => 0 end.
Proof.
  intros Hf. destruct cmd; try done; unfold space_of, entries_of.
  - cbn in Hf. change (sizeof kNoop) with 4.
    rewrite (u64_small (_ * 4)), (u64_small (4 + _)), ComputeNumEntries_small by lia. div_lia.
  - destruct Hf as (_ & _ & Hd & _). change (sizeof kSetBucketDataImmediate) with 16.
    rewrite u64_small, ComputeNumEntries_small by lia. lia.
Qed.

(** when the service reports an error while [GetSpace] waits for the ring to wrap,
    the wait gives up silently and [GetSpace] goes on to advance the put offset past
    the entries it may use: its assertion fails, and without assertions it hands
    out space beyond the end of the ring. *)
Theorem get_space_after_error (fuel : nat) (n : Z) (h : t) (c c' : C) (state : CommandBufferService.State) :
  usable_ h = true -> HaveRingBuffer h = true ->
  n < usable_entry_count_ h -> 1 <= put_ h -> usable_entry_count_ h < put_ h + n ->
  (put_ h <? get_offset c) || (get_offset c =? 0) = true ->
  cb_FlushSync (put_ h) (get_offset c) c = Ret (state, c') ->
  CommandBufferService.error state <> kNoError ->
  GetSpace (S fuel) n h c = Crash.
Proof.
  intros Hu Hr Hn Hp Hw Hwait Hf He. unfold GetSpace, AllocateRingBuffer.
  rewrite Hu, Hr. cbn [negb obind dcheck]. rewrite Hu, Hr. cbn [negb obind dcheck].
  unfold WaitForAvailableEntries, AllocateRingBuffer.
  set (h1 := with_issued _ h).
  change (usable_ h1) with (usable_ h). change (HaveRingBuffer h1) with (HaveRingBuffer h).
  rewrite Hu, Hr. cbn [negb obind].
  change (usable_ h1) with (usable_ h). change (HaveRingBuffer h1) with (HaveRingBuffer h).
  rewrite Hu, Hr. cbn [negb obind dcheck].
  change (usable_entry_count_ h1) with (usable_entry_count_ h). change (put_ h1) with (put_ h).
  rewrite (proj2 (Z.ltb_lt n _) Hn), (proj2 (Z.ltb_lt _ (put_ h + n)) Hw), (proj2 (Z.leb_le 1 (put_ h)) Hp).
  cbn [dcheck obind flush_while]. change (put_ h1) with (put_ h). rewrite Hwait.
  unfold FlushSync. change (usable_ h1) with (usable_ h). rewrite Hu. cbn [negb].
  change (put_ (with_flush _ _ h1)) with (put_ h). rewrite Hf. cbn [obind].
  rewrite bool_decide_eq_false_2 by done. cbn [obind negb put_ with_flush].
  change (put_ h1) with (put_ h).
  match goal with |- context [?a <=? ?b] => replace (a <=? b) with false end; [done|].
  symmetry. apply Z.leb_gt. exact Hw.
Qed.

End Ops.

Lemma typed_space_witness : fits (Noop 3) /\ space_of (Noop 3) = 3 + 1.
Proof. split; [cbn; lia|]. apply (typed_space (Noop 3)). cbn. lia. Defined.

(** A service that has lost its context. *)
Module Lost.

Definition state : CommandBufferService.State :=
  CommandBufferService.mkState 16 0 0 0 kLostContext kUnknown 0.

#[global] Instance lost : CommandBuffer unit := {|
  cb_CreateTransferBuffer := fun _ _ c => Ret (-1, c);
  cb_GetTransferBuffer := fun _ _ => CommandBufferService.null_buffer;
  cb_DestroyTransferBuffer := fun _ c => Ret c;
  cb_SetGetBuffer := fun _ c => Ret c;
  cb_GetState := fun c => (state, c);
  cb_GetLastState := fun _ => state;
  cb_Flush := fun _ c => Ret c;
  cb_FlushSync := fun _ _ c => Ret (state, c);
  cb_store := fun _ _ _ c => Ret c;
  cb_clock := fun _ => 0
|}.

Definition helper : t :=
  mk 1 64 (CommandBufferService.mkBuffer (Some 7) 64 true) (Some 7) 16 14 0 10 0 0 true 0.

Lemma get_space_after_error_witness : GetSpace 8 6 helper tt = Crash.
Proof.
  apply (get_space_after_error 7 6 helper tt tt state); try reflexivity; [cbn; lia|done].
Defined.

End Lost.

End CommandBufferHelper.
