(* ===== verification/GpuHelperQueue.v ===== *)
(** The helper against any service that executes the ring in order.

    [RingQueue] is the shape of the ring between the get and put offsets, with
    the jump back to its start; [RingService] is what the helper relies on the
    command buffer for, as a class whose laws an implementation discharges; the
    theorems of [HelperQueue] say that the helper's waits terminate, that it never
    writes over entries still to be read and that the commands are executed in
    the order in which they were issued. *)
From Stdlib Require Import Sorting.Sorted.
From stdpp Require Import relations.
From S2P Require Import Prelude.
From S2P Require Import GpuCommands.
From S2P Require Import GpuCommandBufferService.
From S2P Require Import GpuHelper.

(** * Commands in a ring *)

Module RingQueue.

(** The two entries the helper writes to jump to the start of the ring. *)
Definition jump_header : Z :=
  CommandHeader.pack (CommandHeader.mk (sizeof kJump / 4) (id_number kJump)).

(** A command's words start with a header that counts them and is no jump. *)
Record command (ws : list Z) : Prop := {
  command_header : exists w, ws !! 0%nat = Some w /\ w <> jump_header /\
    CommandHeader.size (CommandHeader.unpack w) = Z.of_nat (length ws);
  command_u32 : Forall is_u32 ws
}.

Section Ring.
Variable ent : Z -> Z.

(** The words [ws] lie at entry [g]. *)
Definition holds (g : Z) (ws : list Z) : Prop :=
  forall i w, ws !! i = Some w -> ent (g + Z.of_nat i) = w.

Definition jump_at (j : Z) : Prop := ent j = jump_header /\ ent (j + 1) = 0.

(** The commands [cmds] fill the entries from [g] up to [p]. *)
Inductive lin : Z -> Z -> list (list Z) -> Prop :=
| lin_nil g : lin g g []
| lin_cons g p ws cmds : command ws -> holds g ws ->
    lin (g + Z.of_nat (length ws)) p cmds -> lin g p (ws :: cmds).

(** The commands waiting between [get] and [put], in one piece or wrapped once
    through a jump at [j]. *)
Inductive queue (U get put : Z) : list (list Z) -> Prop :=
| queue_straight cmds : 0 <= get <= put -> put < U -> lin get put cmds -> queue U get put cmds
| queue_wrapped j c1 c2 : 0 <= put < get -> get <= j <= U -> lin get j c1 -> jump_at j ->
    lin 0 put c2 -> queue U get put (c1 ++ c2).

(** One step of a service at get offset [g] that folds commands with [apply]. *)
Inductive serve {St : Type} (apply : St -> list Z -> St) (put : Z) :
    Z * list (list Z) * St -> Z * list (list Z) * St -> Prop :=
| serve_jump g cmds o : g <> put -> jump_at g -> serve apply put (g, cmds, o) (0, cmds, o)
| serve_command g ws cmds o : g <> put -> holds g ws ->
    serve apply put (g, ws :: cmds, o) (g + Z.of_nat (length ws), cmds, apply o ws).

(** Entries still to be read, weighing a wrapped queue by the whole ring. *)
Definition backlog (U get put : Z) : Z :=
  if get <=? put then put - get else put - get + 2 * (U + 2).

(** There is room for [n] entries at [put] that the service does not read. *)
Definition room (U get put n : Z) : Prop :=
  put + n <= U /\ (put < get -> put + n < get) /\ (put + n = U -> 0 < get).

(** The entries the service may still read. *)
Definition live (U get put i : Z) : Prop :=
  if get <=? put then get <= i < put else 0 <= i < put \/ get <= i <= U + 1.

Lemma command_pos ws : command ws -> 0 < Z.of_nat (length ws).
Proof. intros [(w & Hw & _) _]. apply lookup_lt_Some in Hw. lia. Qed.

Lemma command_head ws : command ws -> exists w, ws !! 0%nat = Some w /\ w <> jump_header.
Proof. intros [(w & ? & ? & _) _]. by exists w. Qed.

Lemma jump_not_command g ws : command ws -> holds g ws -> ~ jump_at g.
Proof.
  intros Hc Hh [Hj _]. destruct (command_head ws Hc) as (w & Hw & Hne).
  apply Hne. rewrite <- Hj. rewrite <- (Hh _ _ Hw). f_equal. lia.
Qed.

Lemma lin_le g p cmds : lin g p cmds -> g <= p.
Proof. induction 1; lia. Qed.

Lemma lin_refl g cmds : lin g g cmds -> cmds = [].
Proof.
  inversion 1 as [|? ? ws cmds' Hc Hh Hl]; [done|]. subst.
  apply lin_le in Hl. pose proof (command_pos ws Hc). lia.
Qed.

Lemma lin_app g p q c1 c2 : lin g p c1 -> lin p q c2 -> lin g q (c1 ++ c2).
Proof. induction 1; [done|]. intros. cbn. constructor; eauto. Qed.

Lemma lin_one g ws : command ws -> holds g ws -> lin g (g + Z.of_nat (length ws)) [ws].
Proof. intros. constructor; [done..|]. constructor. Qed.

Lemma queue_put_range U get put cmds : queue U get put cmds -> 0 <= put < U /\ 0 <= get <= U.
Proof. destruct 1; lia. Qed.

Lemma queue_empty U get cmds : queue U get get cmds -> cmds = [].
Proof. inversion 1; subst; [by eapply lin_refl|lia]. Qed.

Lemma backlog_range U get put :
  0 <= put < U -> 0 <= get <= U -> 0 <= backlog U get put <= 2 * U + 4.
Proof. unfold backlog. intros. case_if; lia. Qed.

Lemma backlog_le U get put : backlog U get put <= 0 -> 0 <= put < U -> 0 <= get <= U -> get = put.
Proof. unfold backlog. intros H0 H1 H2. destruct (get <=? put) eqn:?; zb2p; lia. Qed.

(** A service step keeps the shape of the queue and shortens it. *)
Lemma serve_queue {St} (apply : St -> list Z -> St) U get put cmds o get' cmds' o' :
  queue U get put cmds -> serve apply put (get, cmds, o) (get', cmds', o') ->
  queue U get' put cmds' /\ backlog U get' put < backlog U get put /\
  (forall n, 0 < n -> room U get put n -> room U get' put n) /\
  exists ran, cmds = ran ++ cmds' /\ o' = foldl apply o ran.
Proof.
  intros Hq Hs. inversion Hs as [g ? ? Hne Hj|g ws ? ? Hne Hh]; subst.
  - (* the jump *)
    inversion Hq as [? H1 H2 Hl|j c1 c2 H1 H2 Hl1 Hj' Hl2]; subst.
    + exfalso. inversion Hl as [|? ? ws cmds'' Hc Hh Hl']; subst; [done|].
      by eapply jump_not_command.
    + destruct Hl1 as [g|g j ws c1 Hc Hh Hl1]; [|by destruct (jump_not_command g ws Hc Hh)].
      split; [|split; [|split; [|by exists []]]].
      * constructor; [lia..|done].
      * unfold backlog. replace (g <=? put) with false by lia. replace (0 <=? put) with true by lia. lia.
      * unfold room. intros. lia.
  - assert (Hran : exists ran, ws :: cmds' = ran ++ cmds' /\ apply o ws = foldl apply o ran)
      by (by exists [ws]).
    inversion Hq as [? H1 H2 Hl|j c1 c2 H1 H2 Hl1 Hj Hl2 E]; subst.
    + inversion Hl as [|? ? ? ? Hc Hh' Hl']; subst. pose proof (command_pos ws Hc).
      pose proof (lin_le _ _ _ Hl'). split; [constructor; lia || done|]. split; [|split; [unfold room; lia|done]].
      unfold backlog. replace (get <=? put) with true by lia.
      replace (_ <=? put) with true by lia. lia.
    + destruct Hl1 as [g|g j ws' c1 Hc Hh' Hl1].
      * exfalso. cbn in E. subst c2. inversion Hl2 as [|? ? ? ? Hc' _ _]; subst.
        by apply (jump_not_command g ws).
      * cbn in E. injection E as -> <-. pose proof (command_pos ws Hc).
        pose proof (lin_le _ _ _ Hl1). split; [apply (queue_wrapped _ _ _ j); lia || done|].
        split; [|split; [unfold room; lia|done]]. unfold backlog. replace (g <=? put) with false by lia.
        replace (_ <=? put) with false by lia. lia.
Qed.

Lemma serve_steps {St} (apply : St -> list Z -> St) U put x y :
  rtc (serve apply put) x y -> queue U (fst (fst x)) put (snd (fst x)) ->
  queue U (fst (fst y)) put (snd (fst y)) /\
  backlog U (fst (fst y)) put <= backlog U (fst (fst x)) put /\
  (forall n, 0 < n -> room U (fst (fst x)) put n -> room U (fst (fst y)) put n) /\
  exists ran, snd (fst x) = ran ++ snd (fst y) /\ snd y = foldl apply (snd x) ran.
Proof.
  induction 1 as [[[g cmds] o]|[[g1 c1] o1] [[g2 c2] o2] [[g3 c3] o3] Hs _ IH]; intros Hq; cbn in *.
  { split; [done|]. split; [done|]. split; [done|]. by exists []. }
  destruct (serve_queue apply U _ _ _ _ _ _ _ Hq Hs) as (Hq2 & Hb & Hr1 & r1 & -> & ->).
  destruct (IH Hq2) as (? & ? & Hr2 & r2 & -> & ->). split; [done|]. split; [lia|].
  split; [by auto|].
  exists (r1 ++ r2). by rewrite app_assoc, foldl_app.
Qed.

Lemma serve_progress {St} (apply : St -> list Z -> St) U put x y :
  tc (serve apply put) x y -> queue U (fst (fst x)) put (snd (fst x)) ->
  backlog U (fst (fst y)) put < backlog U (fst (fst x)) put.
Proof.
  intros Ht Hq. assert (Hy : exists m, serve apply put x m /\ rtc (serve apply put) m y).
  { destruct Ht as [x y Hs|x m y Hs Ht]; [by exists y|].
    exists m. split; [done|]. by apply tc_rtc. }
  destruct Hy as ([[g1 c1] o1] & Hs & Hr). destruct x as [[g c] o]. cbn in *.
  destruct (serve_queue apply U _ _ _ _ _ _ _ Hq Hs) as (Hq1 & Hb & _).
  destruct (serve_steps apply U put _ _ Hr Hq1) as (_ & Hb' & _). cbn in Hb'. lia.
Qed.

End Ring.

(** ** Writing into the ring *)

Lemma holds_agree ent ent' g ws :
  (forall i, g <= i < g + Z.of_nat (length ws) -> ent' i = ent i) -> holds ent g ws -> holds ent' g ws.
Proof. intros Ha Hh i w Hw. rewrite Ha; [by apply Hh|]. apply lookup_lt_Some in Hw. lia. Qed.

Lemma lin_agree ent ent' g p cmds :
  lin ent g p cmds -> (forall i, g <= i < p -> ent' i = ent i) -> lin ent' g p cmds.
Proof.
  induction 1 as [g|g p ws cmds Hc Hh Hl IH]; intros Ha; [constructor|].
  pose proof (lin_le _ _ _ _ Hl). constructor; [done| |].
  - eapply holds_agree; [|done]. intros. apply Ha. lia.
  - apply IH. intros. apply Ha. lia.
Qed.

Lemma queue_agree ent ent' U get put cmds :
  queue ent U get put cmds -> (forall i, live U get put i -> ent' i = ent i) ->
  queue ent' U get put cmds.
Proof.
  intros Hq Ha. unfold live in Ha. destruct Hq as [cmds H1 H2 Hl|j c1 c2 H1 H2 Hl1 Hj Hl2].
  - replace (get <=? put) with true in Ha by lia. constructor; [done..|]. by eapply lin_agree.
  - replace (get <=? put) with false in Ha by lia. apply (queue_wrapped _ _ _ _ j); [done..| | |].
    + eapply lin_agree; [done|]. intros. apply Ha. lia.
    + destruct Hj. split; rewrite Ha by lia; done.
    + eapply lin_agree; [done|]. intros. apply Ha. lia.
Qed.

(** Jumping from [put]. *)
Lemma queue_jump ent ent' U get put cmds :
  queue ent U get put cmds -> 0 < get <= put -> (forall i, i < put -> ent' i = ent i) ->
  jump_at ent' put -> queue ent' U get 0 cmds.
Proof.
  intros Hq Hg Ha Hj. inversion Hq as [? H1 H2 Hl|]; subst; [|lia].
  rewrite <- (app_nil_r cmds). apply (queue_wrapped _ _ _ _ put); [lia..| |done|constructor].
  eapply lin_agree; [done|]. intros. apply Ha. lia.
Qed.

(** Putting a command at [put], with the jump that follows when it ends the ring. *)
Lemma queue_push ent ent' U get put put' cmds ws :
  queue ent U get put cmds -> command ws -> room U get put (Z.of_nat (length ws)) ->
  (forall i, live U get put i -> ent' i = ent i) -> holds ent' put ws ->
  (put + Z.of_nat (length ws) < U /\ put' = put + Z.of_nat (length ws) \/
   put + Z.of_nat (length ws) = U /\ put' = 0 /\ jump_at ent' U) ->
  queue ent' U get put' (cmds ++ [ws]).
Proof.
  intros Hq Hc (R1 & R2 & R3) Ha Hh Hput. pose proof (command_pos ws Hc). unfold live in Ha.
  assert (Hl1 : lin ent' put (put + Z.of_nat (length ws)) [ws]) by (by apply lin_one).
  destruct Hq as [cmds H1 H2 Hl|j c1 c2 H1 H2 Hl Hj Hl2].
  - replace (get <=? put) with true in Ha by lia.
    assert (Hl' : lin ent' get (put + Z.of_nat (length ws)) (cmds ++ [ws])).
    { eapply lin_app; [|done]. eapply lin_agree; [done|]. intros. apply Ha. lia. }
    destruct Hput as [[Hlt ->]|(Heq & -> & Hj)]; [constructor; lia || done|].
    rewrite <- (app_nil_r (cmds ++ [ws])).
    apply (queue_wrapped _ _ _ _ U); [lia..|by rewrite <- Heq|done|constructor].
  - replace (get <=? put) with false in Ha by lia.
    destruct Hput as [[Hlt ->]|(Heq & _)]; [|lia]. rewrite <- app_assoc.
    apply (queue_wrapped _ _ _ _ j); [lia|done| | |].
    + eapply lin_agree; [done|]. intros. apply Ha. lia.
    + destruct Hj. split; rewrite Ha by lia; done.
    + eapply lin_app; [|done]. eapply lin_agree; [done|]. intros. apply Ha. lia.
Qed.

End RingQueue.

(** * The service, as the helper relies on it *)

Class RingService (C St : Type) `{!CommandBuffer C} := {
  (** The client's mapping [seg] is the ring the service reads, with [U] entries
      before the two kept for the last jump. *)
  link : Z -> Z -> C -> Prop;
  entry : C -> Z -> Z;
  observe : C -> St;
  apply : St -> list Z -> St;
  accepted : list Z -> Prop;
  token_of : St -> Z
}.

(** The token a [SetToken] command carries. *)
Definition token_in (ws : list Z) : option Z :=
  match ws with
  | [w; t] => if CommandHeader.command (CommandHeader.unpack w) =? id_number kSetToken
              then Some t else None
  | _ => None
  end.

Class RingServiceLaws (C St : Type) `{!CommandBuffer C, !RingService C St} := {
  accepted_command ws : accepted ws -> RingQueue.command ws;
  accepted_token t ws : 0 <= t < 2 ^ 31 -> SetToken_Init t = Ret ws -> accepted ws;
  token_apply (s : St) ws : accepted ws -> token_of (apply s ws) = default (token_of s) (token_in ws);
  token_read seg U (c : C) : link seg U c ->
    CommandBufferHelper.last_token_read c = token_of (observe c);
  (** Writing in the mapping moves neither offset. *)
  link_store seg U i ws (c : C) :
    link seg U c -> 0 <= i -> i + Z.of_nat (length ws) <= U + 2 -> Forall is_u32 ws ->
    exists c', cb_store seg (4 * i) (bytes_of_entries ws) c = Ret c' /\ link seg U c' /\
      cb_GetLastState c' = cb_GetLastState c /\ observe c' = observe c /\
      RingQueue.holds (entry c') i ws /\
      forall j, j < i \/ i + Z.of_nat (length ws) <= j -> entry c' j = entry c j;
  (** A flush lets the service run; a synchronous one returns after it has moved. *)
  link_Flush seg U put cmds (c : C) :
    link seg U c -> RingQueue.queue (entry c) U (CommandBufferHelper.get_offset c) put cmds ->
    Forall accepted cmds ->
    exists c' rest, cb_Flush put c = Ret c' /\ link seg U c' /\ (forall i, entry c' i = entry c i) /\
      rtc (RingQueue.serve (entry c) apply put) (CommandBufferHelper.get_offset c, cmds, observe c)
        (CommandBufferHelper.get_offset c', rest, observe c');
  link_FlushSync seg U put cmds (c : C) :
    link seg U c -> RingQueue.queue (entry c) U (CommandBufferHelper.get_offset c) put cmds ->
    Forall accepted cmds ->
    exists state c' rest,
      cb_FlushSync put (CommandBufferHelper.get_offset c) c = Ret (state, c') /\
      CommandBufferService.error state = kNoError /\
      link seg U c' /\ (forall i, entry c' i = entry c i) /\
      rtc (RingQueue.serve (entry c) apply put) (CommandBufferHelper.get_offset c, cmds, observe c)
        (CommandBufferHelper.get_offset c', rest, observe c') /\
      (CommandBufferHelper.get_offset c <> put ->
       tc (RingQueue.serve (entry c) apply put) (CommandBufferHelper.get_offset c, cmds, observe c)
        (CommandBufferHelper.get_offset c', rest, observe c'))
}.

(** * The helper *)

Module HelperQueue.
Import CommandBufferHelper.
Import RingQueue.

Section Helper.
Context {C St : Type} `{!CommandBuffer C} `{!RingService C St} `{!RingServiceLaws C St}.
Variables (seg U : Z) (start : St).

(** The helper has its ring: [AllocateRingBuffer] succeeded and no call failed. *)
Record ready (h : t) : Prop := {
  ready_usable : usable_ h = true;
  ready_ring : HaveRingBuffer h = true;
  ready_entries : entries_ h = Some seg;
  ready_count : usable_entry_count_ h = U
}.

(** Of the commands [issued] since the service was in state [start], a prefix has
    been executed and the rest is in the ring. *)
Record inv (h : t) (c : C) (issued executed pending : list (list Z)) : Prop := {
  inv_ready : ready h;
  inv_link : link seg U c;
  inv_issued : issued = executed ++ pending;
  inv_observe : observe c = foldl apply start executed;
  inv_queue : queue (entry c) U (get_offset c) (put_ h) pending;
  inv_accepted : Forall accepted issued
}.

(** Flushing changes nothing else of the helper. *)
Definition flushed (h h' : t) : Prop :=
  exists sent time, h' = CommandBufferHelper.with_flush sent time h.

Lemma flushed_trans h1 h2 h3 : flushed h1 h2 -> flushed h2 h3 -> flushed h1 h3.
Proof. intros (s & t & ->) (s' & t' & ->). by exists s', t'. Qed.

Lemma flushed_refl h : flushed h h.
Proof. exists (last_put_sent_ h), (last_flush_time_ h). by destruct h. Qed.

Lemma flushed_ready h h' : flushed h h' -> ready h -> ready h'.
Proof. intros (s & t & ->) [? ? ? ?]. by split. Qed.

Lemma inv_range h c issued ex pe : inv h c issued ex pe -> 0 <= put_ h < U /\ 0 <= get_offset c <= U.
Proof. intros [_ _ _ _ Hq _]. by eapply queue_put_range. Qed.

(** What the service did between two states of the helper's command buffer. *)
Lemma inv_served h h' c c' issued ex pe rest :
  inv h c issued ex pe -> ready h' -> put_ h' = put_ h -> link seg U c' ->
  (forall i, entry c' i = entry c i) ->
  rtc (serve (entry c) apply (put_ h)) (get_offset c, pe, observe c) (get_offset c', rest, observe c') ->
  (exists ex', inv h' c' issued ex' rest /\ prefix ex ex') /\
  backlog U (get_offset c') (put_ h) <= backlog U (get_offset c) (put_ h) /\
  forall n, 0 < n -> room U (get_offset c) (put_ h) n -> room U (get_offset c') (put_ h) n.
Proof.
  intros [Hr Hl -> Ho Hq Ha] Hr' Hput Hl' He Hs.
  destruct (serve_steps (entry c) apply U (put_ h) _ _ Hs Hq) as (Hq' & Hb & Hroom & ran & E & Hobs).
  cbn in *. subst pe. split; [|done]. exists (ex ++ ran). split; [|by apply prefix_app_r].
  split; [done..|by rewrite app_assoc| | |done].
  - by rewrite Hobs, Ho, foldl_app.
  - rewrite Hput. eapply queue_agree; [done|]. intros. by apply He.
Qed.

Lemma inv_pending h c issued ex pe : inv h c issued ex pe -> Forall accepted pe.
Proof. intros [_ _ -> _ _ Ha]. by apply Forall_app in Ha as [_ ?]. Qed.

Lemma FlushSync_ok h c issued ex pe :
  inv h c issued ex pe ->
  exists h' c' ex' pe', FlushSync h c = Ret (true, h', c') /\ flushed h h' /\
    inv h' c' issued ex' pe' /\ prefix ex ex' /\
    (get_offset c <> put_ h ->
     backlog U (get_offset c') (put_ h) < backlog U (get_offset c) (put_ h)).
Proof.
  intros Hi. pose proof Hi as [Hr Hl _ _ Hq _]. pose proof (inv_pending _ _ _ _ _ Hi) as Ha.
  destruct (link_FlushSync seg U (put_ h) pe c Hl Hq Ha)
    as (state & c' & rest & Hf & Herr & Hl' & He & Hs & Hprog).
  unfold FlushSync. rewrite (ready_usable h Hr). cbn [negb put_ CommandBufferHelper.with_flush].
  rewrite Hf. cbn [obind]. rewrite bool_decide_eq_true_2 by done.
  assert (Hfl : flushed h (CommandBufferHelper.with_flush (put_ h) (cb_clock c) h)) by (by eexists _, _).
  destruct (inv_served h (CommandBufferHelper.with_flush (put_ h) (cb_clock c) h) c c' issued ex pe rest)
    as ((ex' & Hi' & Hpre) & _); [done|by eapply flushed_ready|done..|].
  eexists _, c', ex', rest. split; [done|]. split; [done|]. split; [done|]. split; [done|].
  intros Hne. by apply (serve_progress (entry c) apply U (put_ h) _ _ (Hprog Hne) Hq).
Qed.

Lemma Flush_ok h c issued ex pe :
  inv h c issued ex pe ->
  exists h' c' ex' pe', Flush h c = Ret (h', c') /\ flushed h h' /\
    inv h' c' issued ex' pe' /\ prefix ex ex' /\
    forall n, 0 < n -> room U (get_offset c) (put_ h) n -> room U (get_offset c') (put_ h) n.
Proof.
  intros Hi. pose proof Hi as [Hr Hl _ _ Hq _]. pose proof (inv_pending _ _ _ _ _ Hi) as Ha.
  destruct (link_Flush seg U (put_ h) pe c Hl Hq Ha) as (c' & rest & Hf & Hl' & He & Hs).
  unfold Flush. rewrite (ready_usable h Hr). cbn [put_ CommandBufferHelper.with_flush].
  rewrite Hf. cbn [obind].
  assert (Hfl : flushed h (CommandBufferHelper.with_flush (put_ h) (cb_clock c) h)) by (by eexists _, _).
  destruct (inv_served h (CommandBufferHelper.with_flush (put_ h) (cb_clock c) h) c c' issued ex pe rest)
    as ((ex' & Hi' & Hpre) & _ & Hroom); [done|by eapply flushed_ready|done..|].
  by eexists _, c', ex', rest.
Qed.

Definition enough (fuel : nat) : Prop := 2 * U + 4 <= Z.of_nat fuel.

(** A wait whose condition fails on an empty ring ends, with its condition false. *)
Lemma flush_while_ok cond ex : forall fuel h c issued pe,
  inv h c issued ex pe ->
  (forall h' c' ex' pe', flushed h h' -> inv h' c' issued ex' pe' -> cond h' c' = true ->
     get_offset c' <> put_ h') ->
  backlog U (get_offset c) (put_ h) <= Z.of_nat fuel ->
  exists h' c' ex' pe', flush_while fuel cond h c = Ret (true, h', c') /\ flushed h h' /\
    inv h' c' issued ex' pe' /\ prefix ex ex' /\ cond h' c' = false.
Proof.
  intros fuel. revert ex. induction fuel as [|fuel IH]; intros ex h c issued pe Hi Hc Hb;
    pose proof (inv_range _ _ _ _ _ Hi) as [Hp Hg]; cbn [flush_while].
  - destruct (cond h c) eqn:Ec.
    + exfalso. apply (Hc h c ex pe (flushed_refl h) Hi Ec). apply (backlog_le U); lia.
    + exists h, c, ex, pe. split; [done|]. split; [apply flushed_refl|]. done.
  - destruct (cond h c) eqn:Ec.
    2: { exists h, c, ex, pe. split; [done|]. split; [apply flushed_refl|]. done. }
    destruct (FlushSync_ok h c issued ex pe Hi) as (h1 & c1 & ex1 & pe1 & -> & Hf & Hi1 & Hpre & Hprog).
    cbn [obind]. specialize (Hprog (Hc h c ex pe (flushed_refl h) Hi Ec)).
    assert (Hput : put_ h1 = put_ h) by (by destruct Hf as (? & ? & ->)).
    destruct (IH ex1 h1 c1 issued pe1 Hi1) as (h2 & c2 & ex2 & pe2 & -> & Hf2 & Hi2 & Hpre2 & Hc2).
    + intros h' c' ex' pe' Hf'. apply Hc. by eapply flushed_trans.
    + rewrite Hput. lia.
    + exists h2, c2, ex2, pe2. split; [done|]. split; [by eapply flushed_trans|].
      split; [done|]. split; [by etrans|done].
Qed.

Lemma AllocateRingBuffer_ready h c : ready h -> AllocateRingBuffer h c = Ret (true, h, c).
Proof. intros [Hu Hr _ _]. unfold AllocateRingBuffer. by rewrite Hu, Hr. Qed.

Lemma rem_once x : 0 < U -> 0 <= x < 2 * U -> Z.rem x U = if x <? U then x else x - U.
Proof.
  intros HU Hx. rewrite Z.rem_mod_nonneg by lia. case_if; [by apply Z.mod_small; lia|].
  symmetry. apply (Z.mod_unique_pos _ _ 1); lia.
Qed.

Lemma AvailableEntries_spec h c :
  ready h -> 0 <= put_ h < U -> 0 <= get_offset c <= U ->
  AvailableEntries h c =
    if put_ h <? get_offset c then get_offset c - put_ h - 1 else get_offset c - put_ h - 1 + U.
Proof.
  intros Hr Hp Hg. unfold AvailableEntries. rewrite (ready_count h Hr), rem_once by lia.
  do 2 case_if; lia.
Qed.

Lemma available_room h c n :
  ready h -> 0 <= put_ h < U -> 0 <= get_offset c <= U ->
  n <= AvailableEntries h c -> put_ h + n <= U -> room U (get_offset c) (put_ h) n.
Proof.
  intros Hr Hp Hg. rewrite AvailableEntries_spec by done. unfold room. case_if; lia.
Qed.

Lemma inv_backlog fuel h c issued ex pe :
  enough fuel -> inv h c issued ex pe -> backlog U (get_offset c) (put_ h) <= Z.of_nat fuel.
Proof.
  intros Hf Hi. pose proof (inv_range _ _ _ _ _ Hi) as [Hp Hg]. unfold enough in Hf.
  pose proof (backlog_range U _ _ Hp Hg). lia.
Qed.

Lemma Finish_ok fuel h c issued ex pe :
  enough fuel -> inv h c issued ex pe ->
  exists h' c', Finish fuel h c = Ret (true, h', c') /\ flushed h h' /\
    inv h' c' issued issued [] /\ get_offset c' = put_ h'.
Proof.
  intros Hfuel Hi. pose proof (inv_ready _ _ _ _ _ Hi) as Hr.
  unfold Finish. rewrite (ready_usable h Hr). cbn [negb].
  assert (Hend : forall h' c' ex' pe', inv h' c' issued ex' pe' -> put_ h' = get_offset c' ->
    inv h' c' issued issued []).
  { intros h' c' ex' pe' [Hr' Hl' E Ho Hq Ha] Heq. rewrite <- Heq in Hq.
    apply queue_empty in Hq as Hpe. subst pe'. rewrite app_nil_r in E. subst ex'.
    split; [done..|by rewrite app_nil_r|done|by rewrite <- Heq|done]. }
  destruct (Z.eqb_spec (put_ h) (get_offset c)) as [Heq|Hne].
  { exists h, c. split; [done|]. split; [apply flushed_refl|]. split; [by eapply Hend|done]. }
  rewrite (ready_ring h Hr). cbn [dcheck obind].
  destruct (FlushSync_ok h c issued ex pe Hi) as (h1 & c1 & ex1 & pe1 & -> & Hf & Hi1 & _).
  cbn [obind].
  destruct (flush_while_ok (fun h c => negb (put_ h =? get_offset c)) ex1 fuel h1 c1 issued pe1)
    as (h2 & c2 & ex2 & pe2 & -> & Hf2 & Hi2 & _ & Hc2); [done| |by eapply inv_backlog|].
  { intros h' c' ? ? _ _ Hc Heq. rewrite Heq, Z.eqb_refl in Hc. done. }
  exists h2, c2. split; [done|]. split; [by eapply flushed_trans|]. zb2p.
  split; [by eapply Hend|done].
Qed.

Lemma periodic_flush_ok h c issued ex pe n :
  inv h c issued ex pe -> 0 < n -> room U (get_offset c) (put_ h) n ->
  exists h' c' ex' pe', periodic_flush h c = Ret (h', c') /\ flushed h h' /\
    inv h' c' issued ex' pe' /\ prefix ex ex' /\ room U (get_offset c') (put_ h') n.
Proof.
  intros Hi Hn Hroom.
  assert (Hflush : exists h' c' ex' pe', Flush h c = Ret (h', c') /\ flushed h h' /\
    inv h' c' issued ex' pe' /\ prefix ex ex' /\ room U (get_offset c') (put_ h') n).
  { destruct (Flush_ok h c issued ex pe Hi) as (h' & c' & ex' & pe' & E & Hf & Hi' & Hpre & Hr).
    exists h', c', ex', pe'. split_and!; try done. destruct Hf as (? & ? & ->). by apply Hr. }
  assert (Hstay : exists h' c' ex' pe', Ret (h, c) = Ret (h', c') /\ flushed h h' /\
    inv h' c' issued ex' pe' /\ prefix ex ex' /\ room U (get_offset c') (put_ h') n).
  { exists h, c, ex, pe. split_and!; try done. apply flushed_refl. }
  unfold periodic_flush. by repeat case_if.
Qed.

(** The jump written at [index]. *)
Lemma jump_to_start_ok index h c :
  ready h -> link seg U c -> 0 <= index <= U ->
  exists c', jump_to_start index h c = Ret c' /\ link seg U c' /\
    cb_GetLastState c' = cb_GetLastState c /\ observe c' = observe c /\
    jump_at (entry c') index /\
    forall j, j < index \/ index + 2 <= j -> entry c' j = entry c j.
Proof.
  intros Hr Hl Hi. unfold jump_to_start.
  change (Jump_Init 0) with (Ret [jump_header; 0]). cbn [obind].
  unfold write_entries. rewrite (ready_entries h Hr). cbn [must obind].
  destruct (link_store seg U index [jump_header; 0] c Hl)
    as (c' & -> & Hl' & Hg & Ho & Hh & Ha); [lia|cbn; lia|by repeat constructor|].
  exists c'. split; [done|]. split; [done|]. split; [done|]. split; [done|]. split; [|done].
  split; [rewrite <- (Hh 0%nat jump_header eq_refl); f_equal; lia|exact (Hh 1%nat 0 eq_refl)].
Qed.

Lemma get_offset_eq (c c' : C) : cb_GetLastState c' = cb_GetLastState c -> get_offset c' = get_offset c.
Proof. unfold get_offset. by intros ->. Qed.

(** The wrap: wait until the service has left both the tail and entry 0, then jump. *)
Lemma wrap_ok fuel h c issued ex pe :
  enough fuel -> inv h c issued ex pe -> 1 <= put_ h ->
  exists h1 c1 c' ex' pe',
    flush_while fuel (fun h c => (put_ h <? get_offset c) || (get_offset c =? 0)) h c = Ret (true, h1, c1) /\
    jump_to_start (put_ h1) h1 c1 = Ret c' /\ flushed h h1 /\
    inv (with_put 0 h1) c' issued ex' pe' /\ prefix ex ex'.
Proof.
  intros Hfuel Hi Hp.
  destruct (flush_while_ok (fun h c => (put_ h <? get_offset c) || (get_offset c =? 0)) ex fuel h c issued pe)
    as (h1 & c1 & ex1 & pe1 & E & Hf1 & Hi1 & Hpre1 & Hc1); [done| |by eapply inv_backlog|].
  { intros h' c' ex' pe' (s & tm & ->) _ Hc Heq. rewrite Heq in Hc. cbn in Hc.
    rewrite Z.ltb_irrefl in Hc. cbn in Hc. lia. }
  assert (Hput : put_ h1 = put_ h) by (by destruct Hf1 as (? & ? & ->)).
  zb2p. pose proof (inv_range _ _ _ _ _ Hi1) as [Hp1 Hg1].
  pose proof Hi1 as [Hr1 Hl1 Eis Ho1 Hq1 Ha1].
  destruct (jump_to_start_ok (put_ h1) h1 c1 Hr1 Hl1) as (c' & Ej & Hl' & Hg' & Ho' & Hj & Ha');
    [lia|].
  exists h1, c1, c', ex1, pe1. split; [done|]. split; [done|]. split; [done|]. split; [|done].
  split; [by destruct Hr1; split|done|done|by rewrite Ho'| |done].
  rewrite (get_offset_eq c1 c' Hg'). cbn.
  apply (queue_jump (entry c1) (entry c') U (get_offset c1) (put_ h1)); [done|lia| |done].
  intros i Hlt. apply Ha'. lia.
Qed.

Lemma WaitForAvailableEntries_ok fuel n h c issued ex pe :
  enough fuel -> 1 <= n < U -> inv h c issued ex pe ->
  exists h' c' ex' pe', WaitForAvailableEntries fuel n h c = Ret (h', c') /\
    token_ h' = token_ h /\ inv h' c' issued ex' pe' /\ prefix ex ex' /\
    room U (get_offset c') (put_ h') n.
Proof.
  intros Hfuel Hn Hi. pose proof (inv_ready _ _ _ _ _ Hi) as Hr.
  pose proof (inv_range _ _ _ _ _ Hi) as [Hp Hg].
  unfold WaitForAvailableEntries. rewrite AllocateRingBuffer_ready by done. cbn [obind].
  rewrite (ready_usable h Hr), (ready_ring h Hr), (ready_count h Hr).
  rewrite (proj2 (Z.ltb_lt n U)) by lia. cbn [negb dcheck obind].
  (* the first wait leaves room before the end of the ring *)
  assert (Hfirst : exists h1 c1 ex1 pe1,
    (if U <? put_ h + n then
       check! 1 <=? put_ h;
       let! '(r, c) := flush_while fuel
                         (fun h c => (put_ h <? get_offset c) || (get_offset c =? 0)) h c in
       let '(ok, h) := r in
       if ok then let! c := jump_to_start (put_ h) h c in Ret (true, with_put 0 h, c)
       else Ret (false, h, c)
     else Ret (true, h, c)) = Ret (true, h1, c1) /\
    token_ h1 = token_ h /\ inv h1 c1 issued ex1 pe1 /\ prefix ex ex1 /\ put_ h1 + n <= U).
  { destruct (Z.ltb_spec U (put_ h + n)) as [Hw|Hw]; [|by exists h, c, ex, pe].
    replace (1 <=? put_ h) with true by lia. cbn [dcheck obind].
    destruct (wrap_ok fuel h c issued ex pe Hfuel Hi) as (h1 & c1 & c' & ex' & pe' & -> & E & Hf & Hi' & Hpre);
      [lia|].
    cbn [obind]. rewrite E. cbn [obind]. exists (with_put 0 h1), c', ex', pe'.
    split; [done|]. split; [by destruct Hf as (? & ? & ->)|]. split; [done|]. split; [done|].
    cbn. lia. }
  destruct Hfirst as (h1 & c1 & ex1 & pe1 & -> & Ht1 & Hi1 & Hpre1 & Hn1). cbn [obind negb].
  (* the second one leaves room before the get offset *)
  destruct (flush_while_ok (fun h c => AvailableEntries h c <? n) ex1 fuel h1 c1 issued pe1)
    as (h2 & c2 & ex2 & pe2 & -> & Hf2 & Hi2 & Hpre2 & Hc2); [done| |by eapply inv_backlog|].
  { intros h' c' ex' pe' _ Hi' Hc Heq. pose proof (inv_range _ _ _ _ _ Hi') as [Hp' Hg'].
    rewrite AvailableEntries_spec in Hc by (by eapply inv_ready || done).
    rewrite Heq, Z.ltb_irrefl in Hc. lia. }
  cbn [obind negb].
  assert (Hput2 : put_ h2 = put_ h1) by (by destruct Hf2 as (? & ? & ->)).
  pose proof (inv_range _ _ _ _ _ Hi2) as [Hp2 Hg2]. zb2p.
  destruct (periodic_flush_ok h2 c2 issued ex2 pe2 n Hi2) as (h3 & c3 & ex3 & pe3 & -> & Hf3 & Hi3 & Hpre3 & Hroom);
    [lia|apply available_room; [by eapply inv_ready|lia..]|].
  exists h3, c3, ex3, pe3. split; [done|].
  split; [by destruct Hf2 as (? & ? & ->), Hf3 as (? & ? & ->)|].
  split; [done|]. split; [by do 2 (etrans; [done|])|done].
Qed.

(** What [GetSpace] hands out: [n] entries at [index] outside the live part of the
    ring, the put offset past them. *)
Record reserved (index n : Z) (h : t) (c : C) (issued executed pending : list (list Z)) : Prop := {
  res_inv : inv (with_put index h) c issued executed pending;
  res_room : room U (get_offset c) index n;
  res_put : index + n < U /\ put_ h = index + n \/
            index + n = U /\ put_ h = 0 /\ jump_at (entry c) U
}.

Lemma GetSpace_ok fuel n h c issued ex pe :
  enough fuel -> 1 <= n < U -> inv h c issued ex pe ->
  exists index h' c' ex' pe', GetSpace fuel n h c = Ret (Some index, h', c') /\
    token_ h' = token_ h /\ reserved index n h' c' issued ex' pe' /\ prefix ex ex'.
Proof.
  intros Hfuel Hn Hi. pose proof (inv_ready _ _ _ _ _ Hi) as Hr. unfold GetSpace.
  rewrite AllocateRingBuffer_ready by done. cbn [obind].
  rewrite (ready_usable h Hr), (ready_ring h Hr). cbn [negb dcheck obind].
  destruct (WaitForAvailableEntries_ok fuel n (with_issued (commands_issued_ h + 1) h) c issued ex pe)
    as (h1 & c1 & ex1 & pe1 & -> & Ht & Hi1 & Hpre & Hroom); [done|done| |].
  { destruct Hi as [[? ? ? ?] ? ? ? ? ?]. split; [by split|done..]. }
  cbn [obind]. pose proof (inv_ready _ _ _ _ _ Hi1) as Hr1.
  pose proof (inv_range _ _ _ _ _ Hi1) as [Hp1 Hg1]. pose proof Hroom as (R1 & R2 & R3).
  cbn [put_ with_put]. change (usable_entry_count_ (with_put (put_ h1 + n) h1)) with (usable_entry_count_ h1).
  rewrite (ready_count h1 Hr1). rewrite (proj2 (Z.leb_le (put_ h1 + n) U)) by lia. cbn [dcheck obind].
  assert (Hr2 : ready (with_put (put_ h1 + n) h1)) by (by destruct Hr1; split).
  assert (Hsame : forall p h, with_put (put_ h1) (with_put p h) = with_put (put_ h1) h) by done.
  assert (Hself : with_put (put_ h1) h1 = h1) by (by destruct h1).
  destruct (Z.eqb_spec (put_ h1 + n) U) as [He|He].
  - destruct (jump_to_start_ok (put_ h1 + n) (with_put (put_ h1 + n) h1) c1 Hr2)
      as (c2 & -> & Hl2 & Hg2 & Ho2 & Hj & Ha2); [by eapply inv_link|lia|].
    cbn [obind]. exists (put_ h1), (with_put 0 (with_put (put_ h1 + n) h1)), c2, ex1, pe1.
    split; [done|]. split; [done|]. split; [|done]. split.
    + rewrite !Hsame, Hself. destruct Hi1 as [? ? ? Ho Hq ?].
      split; [done..|by rewrite Ho2| |done]. rewrite (get_offset_eq c1 c2 Hg2).
      eapply queue_agree; [done|]. intros j Hlive. apply Ha2. unfold live in Hlive.
      destruct (get_offset c1 <=? put_ h1) eqn:E; zb2p; lia.
    + by rewrite (get_offset_eq c1 c2 Hg2).
    + right. rewrite <- He at 2. done.
  - exists (put_ h1), (with_put (put_ h1 + n) h1), c1, ex1, pe1.
    split; [done|]. split; [done|]. split; [|done]. split.
    + by rewrite Hsame, Hself.
    + done.
    + left. cbn. lia.
Qed.

(** Writing a command in the space reserved for it. *)
Lemma write_ok index ws h c issued ex pe :
  accepted ws -> reserved index (Z.of_nat (length ws)) h c issued ex pe ->
  exists c', write_entries index ws h c = Ret c' /\ inv h c' (issued ++ [ws]) ex (pe ++ [ws]).
Proof.
  intros Ha [Hi Hroom Hput]. pose proof (accepted_command ws Ha) as Hc.
  pose proof (command_pos ws Hc) as Hpos. pose proof (inv_range _ _ _ _ _ Hi) as [Hp Hg].
  destruct Hi as [Hr Hl Eis Ho Hq Hacc]. cbn in Hp, Hq.
  assert (Hrh : ready h) by (by destruct Hr; split).
  destruct Hroom as (R1 & R2 & R3).
  unfold write_entries. rewrite (ready_entries h Hrh). cbn [must obind].
  destruct (link_store seg U index ws c Hl) as (c' & -> & Hl' & Hg' & Ho' & Hh & Hag);
    [lia|lia|by apply command_u32|].
  exists c'. split; [done|]. split; [done|done|by rewrite Eis, app_assoc|by rewrite Ho'| |].
  - rewrite (get_offset_eq c c' Hg').
    apply (queue_push (entry c) (entry c') U (get_offset c) index); [done|done|done| |done|].
    + intros i Hlive. apply Hag. unfold live in Hlive.
      destruct (get_offset c <=? index) eqn:E; zb2p; lia.
    + destruct Hput as [?|(? & ? & Hj)]; [by left|]. right. split; [done|]. split; [done|].
      destruct Hj. split; rewrite Hag by lia; done.
  - apply Forall_app. by repeat constructor.
Qed.

Lemma issue_ok fuel ws h c issued ex pe :
  enough fuel -> accepted ws -> Z.of_nat (length ws) < U -> inv h c issued ex pe ->
  exists h' c' ex' pe', issue fuel (Z.of_nat (length ws)) (Ret ws) [] h c = Ret (h', c') /\
    token_ h' = token_ h /\ inv h' c' (issued ++ [ws]) ex' pe' /\ prefix ex ex'.
Proof.
  intros Hfuel Ha Hlen Hi.
  pose proof (command_pos ws (accepted_command ws Ha)) as Hpos.
  destruct (GetSpace_ok fuel (Z.of_nat (length ws)) h c issued ex pe)
    as (index & h1 & c1 & ex1 & pe1 & E & Ht & Hres & Hpre); [done|lia|done|].
  unfold issue. rewrite E. cbn [obind].
  destruct (write_ok index ws h1 c1 issued ex1 pe1 Ha Hres) as (c2 & -> & Hi2). cbn [obind].
  rewrite (ready_entries h1 (inv_ready _ _ _ _ _ Hi2)). cbn [must obind].
  by exists h1, c2, ex1, (pe1 ++ [ws]).
Qed.

(** ** Sequences of commands *)

(** The client issues commands one after the other. *)
Fixpoint issue_all (fuel : nat) (cmds : list (list Z)) (h : t) (c : C) : outcome (t * C) :=
  match cmds with
  | [] => Ret (h, c)
  | ws :: cmds =>
      let! '(h, c) := issue fuel (Z.of_nat (length ws)) (Ret ws) [] h c in
      issue_all fuel cmds h c
  end.

(** The commands fit in the ring and the service takes them. *)
Definition issuable (ws : list Z) : Prop := accepted ws /\ Z.of_nat (length ws) < U.

Lemma issue_all_ok fuel cmds : forall h c issued ex pe,
  enough fuel -> Forall issuable cmds -> inv h c issued ex pe ->
  exists h' c' ex' pe', issue_all fuel cmds h c = Ret (h', c') /\ token_ h' = token_ h /\
    inv h' c' (issued ++ cmds) ex' pe' /\ prefix ex ex'.
Proof.
  induction cmds as [|ws cmds IH]; intros h c issued ex pe Hfuel Hall Hi; cbn [issue_all].
  { exists h, c, ex, pe. by rewrite app_nil_r. }
  inversion Hall as [|? ? [Hacc Hlen] Hall']; subst.
  destruct (issue_ok fuel ws h c issued ex pe Hfuel Hacc Hlen Hi)
    as (h1 & c1 & ex1 & pe1 & -> & Ht1 & Hi1 & Hpre1). cbn [obind].
  destruct (IH h1 c1 (issued ++ [ws]) ex1 pe1 Hfuel Hall' Hi1)
    as (h2 & c2 & ex2 & pe2 & E2 & Ht2 & Hi2 & Hpre2).
  exists h2, c2, ex2, pe2. split; [done|]. split; [by etrans|].
  split; [by rewrite <- app_assoc in Hi2|by etrans].
Qed.

(** ** Tokens *)

Definition latest (t0 : Z) (cmds : list (list Z)) : Z :=
  foldl (fun t ws => default t (token_in ws)) t0 cmds.

Definition tokens (cmds : list (list Z)) : list Z := omap token_in cmds.

(** Since [start] the tokens have been issued in increasing order, the helper's
    last. *)
Definition ordered (issued : list (list Z)) (h : t) : Prop :=
  StronglySorted Z.lt (token_of start :: tokens issued) /\
  token_ h = latest (token_of start) issued.

Lemma token_foldl cmds : forall s, Forall accepted cmds ->
  token_of (foldl apply s cmds) = latest (token_of s) cmds.
Proof.
  unfold latest. induction cmds as [|ws cmds IH]; intros s Ha; [done|].
  inversion Ha; subst. cbn [foldl]. rewrite IH by done. by rewrite token_apply.
Qed.

Lemma latest_elem cmds : forall t0, latest t0 cmds ∈ t0 :: tokens cmds.
Proof.
  unfold latest, tokens. induction cmds as [|ws cmds IH]; intros t0; cbn [foldl omap list_omap]; [set_solver|].
  destruct (token_in ws) as [tk|]; cbn [default]; [|by apply IH].
  specialize (IH tk). set_solver.
Qed.

Lemma latest_app t0 c1 c2 : latest t0 (c1 ++ c2) = latest (latest t0 c1) c2.
Proof. apply foldl_app. Qed.

Lemma sorted_latest t0 cmds : StronglySorted Z.lt (t0 :: tokens cmds) ->
  forall t, t ∈ t0 :: tokens cmds -> t <= latest t0 cmds.
Proof.
  revert t0. induction cmds as [|ws cmds IH]; intros t0 Hs t Ht.
  { cbn in *. set_solver by lia. }
  unfold latest, tokens in *. cbn [foldl omap list_omap] in *.
  destruct (token_in ws) as [tk|]; cbn [default]; [|by apply IH].
  inversion Hs as [|? ? Hs' Hlt]; subst. inversion Hlt; subst.
  apply elem_of_cons in Ht as [->|Ht]; [|by apply IH].
  transitivity tk; [lia|]. apply IH; [done|set_solver].
Qed.

(** The token the service shows is the last one executed. *)
Lemma inv_token_read h c issued ex pe :
  inv h c issued ex pe -> last_token_read c = latest (token_of start) ex.
Proof.
  intros [_ Hl -> Ho _ Ha]. apply Forall_app in Ha as [Ha _].
  by rewrite (token_read seg U c Hl), Ho, token_foldl.
Qed.

Lemma SetToken_words tk : 0 <= tk < 2 ^ 31 ->
  exists ws, SetToken_Init tk = Ret ws /\ token_in ws = Some tk /\ length ws = 2%nat.
Proof.
  intros Ht. eexists. split; [done|]. split; [|done]. cbn. by rewrite u32_small by lia.
Qed.

(** An executed prefix that shows token [tk] covers every command up to it. *)
Lemma token_covers h c issued ex pe tk :
  inv h c issued ex pe -> ordered issued h -> tk <= last_token_read c ->
  forall a ws b t, issued = a ++ ws :: b -> token_in ws = Some t -> t <= tk -> prefix (a ++ [ws]) ex.
Proof.
  intros Hi [Hs _] Htk a ws b t Eis Hws Hle. pose proof (inv_issued _ _ _ _ _ Hi) as E.
  rewrite (inv_token_read _ _ _ _ _ Hi) in Htk. rewrite Eis in E.
  destruct (decide (length (a ++ [ws]) <= length ex)%nat) as [Hlen|Hlen].
  - destruct (prefix_weak_total (a ++ [ws]) ex issued) as [Hpre|Hpre]; [|by exists pe; rewrite Eis| |].
    + exists b. by rewrite Eis, <- app_assoc.
    + done.
    + rewrite (prefix_length_eq _ _ Hpre); [done|lia].
  - exfalso. rewrite length_app in Hlen. cbn in Hlen.
    assert (Hin : ws ∈ pe).
    { apply list_elem_of_lookup. exists (length a - length ex)%nat.
      rewrite <- (lookup_app_r ex) by lia. rewrite <- E. by rewrite list_lookup_middle. }
    assert (Hlt : latest (token_of start) ex < t).
    { assert (Htp : t ∈ tokens pe) by (apply list_elem_of_omap; by exists ws).
      rewrite Eis, E in Hs. unfold tokens in Hs. rewrite omap_app, app_comm_cons in Hs.
      pose proof (latest_elem ex (token_of start)) as Hel.
      clear -Hs Htp Hel. fold (tokens ex) (tokens pe) in Hs.
      revert Hs Hel. generalize (token_of start :: tokens ex) (latest (token_of start) ex).
      intros l x Hs Hel. induction l as [|y l IH]; [by apply not_elem_of_nil in Hel|].
      inversion Hs as [|? ? Hs' Hall]; subst. apply elem_of_cons in Hel as [->|Hel]; [|by apply IH].
      rewrite Forall_forall in Hall. apply Hall. apply elem_of_app. by right. }
    lia.
Qed.

Lemma wait_loop_ok tk : forall fuel h c issued ex pe,
  inv h c issued ex pe -> ordered issued h -> tk <= token_ h ->
  backlog U (get_offset c) (put_ h) <= Z.of_nat fuel ->
  exists h' c' ex' pe', wait_loop fuel tk h c = Ret (h', c') /\ flushed h h' /\
    inv h' c' issued ex' pe' /\ tk <= last_token_read c'.
Proof.
  intros fuel. induction fuel as [|fuel IH]; intros h c issued ex pe Hi Ho Htk Hb;
    pose proof (inv_range _ _ _ _ _ Hi) as [Hp Hg]; cbn [wait_loop];
    (destruct (Z.ltb_spec (last_token_read c) tk) as [Hlt|];
      [|by exists h, c, ex, pe; split; [|split; [apply flushed_refl|]]]);
    assert (Hne : get_offset c <> put_ h).
  1, 3: intros Heq; pose proof (inv_queue _ _ _ _ _ Hi) as Hq; rewrite Heq in Hq;
    apply queue_empty in Hq; pose proof (inv_issued _ _ _ _ _ Hi) as E; subst pe;
    rewrite app_nil_r in E; subst ex; rewrite (inv_token_read _ _ _ _ _ Hi) in Hlt;
    destruct Ho as [_ Ho]; lia.
  - exfalso. apply Hne. apply (backlog_le U); lia.
  - destruct (Z.eqb_spec (get_offset c) (put_ h)); [done|]. cbn [negb dcheck obind].
    destruct (FlushSync_ok h c issued ex pe Hi) as (h1 & c1 & ex1 & pe1 & -> & Hf & Hi1 & _ & Hprog).
    cbn [obind]. specialize (Hprog Hne). assert (Hh : put_ h1 = put_ h /\ token_ h1 = token_ h)
      by (by destruct Hf as (? & ? & ->)). destruct Hh as [Hput Htok].
    destruct (IH h1 c1 issued ex1 pe1 Hi1) as (h2 & c2 & ex2 & pe2 & -> & Hf2 & Hi2 & Hle).
    + destruct Ho. split; [done|by rewrite Htok].
    + by rewrite Htok.
    + rewrite Hput. lia.
    + exists h2, c2, ex2, pe2. split; [done|]. split; [by eapply flushed_trans|done].
Qed.

(** C12: the space [GetSpace] hands out lies in the ring and holds no entry the
    service has still to read, whatever part of the issued commands it has executed,
    and the waits that find it terminate. *)
Theorem get_space_safe (fuel : nat) (n : Z) (h : t) (c : C) (issued ex pe : list (list Z)) :
  enough fuel -> 1 <= n < U -> inv h c issued ex pe ->
  exists index h' c', GetSpace fuel n h c = Ret (Some index, h', c') /\
    0 <= index /\ index + n <= U /\
    forall i, index <= i < index + n -> ~ live U (get_offset c') index i.
Proof.
  intros Hfuel Hn Hi. destruct (GetSpace_ok fuel n h c issued ex pe Hfuel Hn Hi)
    as (index & h' & c' & ex' & pe' & E & _ & [Hi' (R1 & R2 & R3) _] & _).
  pose proof (inv_range _ _ _ _ _ Hi') as [Hp Hg]. cbn in Hp.
  exists index, h', c'. split_and!; [done|lia|done|]. intros i Hr. unfold live. case_if; lia.
Qed.

(** C21: commands are executed in the order in which they are issued: after issuing
    any sequence and finishing, the service has executed the commands issued before
    and then exactly those, in order, and nothing is left in the ring. *)
Theorem commands_run_in_order (fuel : nat) (cmds : list (list Z)) (h : t) (c : C)
    (issued ex pe : list (list Z)) :
  enough fuel -> Forall issuable cmds -> inv h c issued ex pe ->
  exists h1 c1 h2 c2, issue_all fuel cmds h c = Ret (h1, c1) /\ Finish fuel h1 c1 = Ret (true, h2, c2) /\
    observe c2 = foldl apply (foldl apply start issued) cmds /\ get_offset c2 = put_ h2.
Proof.
  intros Hfuel Hall Hi. destruct (issue_all_ok fuel cmds h c issued ex pe Hfuel Hall Hi)
    as (h1 & c1 & ex1 & pe1 & E1 & _ & Hi1 & _).
  destruct (Finish_ok fuel h1 c1 _ _ _ Hfuel Hi1) as (h2 & c2 & E2 & _ & Hi2 & Hg).
  exists h1, c1, h2, c2. split; [done|]. split; [done|]. split; [|done].
  by rewrite (inv_observe _ _ _ _ _ Hi2), foldl_app.
Qed.

Lemma InsertToken_ok (fuel : nat) (h : t) (c : C) (issued ex pe : list (list Z)) :
  enough fuel -> 2 < U -> 0 <= token_ h < 2 ^ 31 -> inv h c issued ex pe -> ordered issued h ->
  let tk := Z.land (token_ h + 1) 0x7fffffff in
  exists ws h' c' ex' pe', InsertToken fuel h c = Ret (tk, h', c') /\ token_ h' = tk /\
    token_in ws = Some tk /\ inv h' c' (issued ++ [ws]) ex' pe' /\
    (tk = 0 /\ pe' = [] /\ last_token_read c' = 0 \/ tk = token_ h + 1 /\ ordered (issued ++ [ws]) h').
Proof.
  intros Hfuel HU Htok Hi [Hs Hlast] tk. pose proof (inv_ready _ _ _ _ _ Hi) as Hr.
  assert (Htk : tk = (token_ h + 1) mod 2 ^ 31)
    by (unfold tk; change 0x7fffffff with (Z.ones 31); by rewrite Z.land_ones).
  assert (Hrange : 0 <= tk < 2 ^ 31) by (rewrite Htk; apply Z.mod_pos_bound; lia).
  destruct (SetToken_words tk Hrange) as (ws & Ews & Hin & Hlen).
  unfold InsertToken. rewrite AllocateRingBuffer_ready by done. cbn [obind].
  rewrite (ready_usable h Hr), (ready_ring h Hr). cbn [negb dcheck obind].
  change (ComputeNumEntries (sizeof kSetToken)) with 2. fold tk.
  destruct (GetSpace_ok fuel 2 (CommandBufferHelper.with_token tk h) c issued ex pe)
    as (index & h1 & c1 & ex1 & pe1 & -> & Ht1 & Hres & _); [done|lia| |].
  { destruct Hi as [[? ? ? ?] ? ? ? ? ?]. split; [by split|done..]. }
  cbn [obind]. cbn in Ht1. rewrite Ht1, Ews. cbn [obind].
  destruct (write_ok index ws h1 c1 issued ex1 pe1) as (c2 & -> & Hi2);
    [by eapply accepted_token|by rewrite Hlen|].
  cbn [obind]. destruct (Z.eqb_spec tk 0) as [Hz|Hz].
  - destruct (Finish_ok fuel h1 c2 _ _ _ Hfuel Hi2) as (h2 & c3 & -> & (s & tm & ->) & Hi3 & _).
    cbn [obind token_ CommandBufferHelper.with_flush].
    assert (Hread : last_token_read c3 = tk).
    { rewrite (inv_token_read _ _ _ _ _ Hi3), latest_app. cbn. by rewrite Hin. }
    rewrite Ht1, Hread, Z.eqb_refl. cbn [dcheck obind].
    eexists ws, _, c3, _, []. split; [done|]. split; [done|]. split; [done|]. split; [done|].
    left. by rewrite Hread, Hz.
  - exists ws, h1, c2, ex1, (pe1 ++ [ws]). split; [done|]. split; [done|]. split; [done|].
    split; [done|]. right. assert (Hnext : tk = token_ h + 1) by (rewrite Htk in Hz |- *; div_lia).
    split; [done|]. split.
    + unfold tokens. rewrite omap_app. cbn [omap list_omap]. rewrite Hin. fold (tokens issued).
      change (StronglySorted Z.lt ((token_of start :: tokens issued) ++ [tk])).
      assert (Hall : forall x, x ∈ token_of start :: tokens issued -> x < tk).
      { intros x Hx. pose proof (sorted_latest _ _ Hs x Hx). lia. }
      clear -Hs Hall. induction Hs as [|y l Hs IH Hy]; cbn; [by repeat constructor|].
      constructor; [apply IH; intros; apply Hall; set_solver|].
      apply Forall_app. split; [done|]. constructor; [apply Hall; set_solver|constructor].
    + rewrite latest_app. cbn. by rewrite Hin, Ht1.
Qed.

(** inserting a token appends a [SetToken] command with the next token; when the
    31-bit count wraps to 0 everything issued has been executed on return, so that
    no older token can be waited for. *)
Theorem insert_token (fuel : nat) (h : t) (c : C) (issued ex pe : list (list Z)) :
  enough fuel -> 2 < U -> 0 <= token_ h < 2 ^ 31 -> inv h c issued ex pe -> ordered issued h ->
  let tk := Z.land (token_ h + 1) 0x7fffffff in
  exists ws h' c' ex' pe', InsertToken fuel h c = Ret (tk, h', c') /\ token_ h' = tk /\
    token_in ws = Some tk /\ inv h' c' (issued ++ [ws]) ex' pe' /\
    (tk = 0 /\ pe' = [] /\ last_token_read c' = 0 \/ tk = token_ h + 1 /\ ordered (issued ++ [ws]) h').
Proof. exact (InsertToken_ok fuel h c issued ex pe). Qed.

(** C19: waiting for a token that was inserted returns (it neither blocks for ever
    nor finds the ring empty), and then every command issued up to that token has
    been executed. *)
Theorem wait_for_token (fuel : nat) (tk : Z) (h : t) (c : C) (issued ex pe : list (list Z)) :
  enough fuel -> inv h c issued ex pe -> ordered issued h -> 0 <= tk <= token_ h ->
  exists h' c' ex' pe', WaitForToken fuel tk h c = Ret (h', c') /\ inv h' c' issued ex' pe' /\
    tk <= last_token_read c' /\
    forall before ws after, issued = before ++ ws :: after -> token_in ws = Some tk ->
      prefix (before ++ [ws]) ex'.
Proof.
  intros Hfuel Hi Ho Htk. pose proof (inv_ready _ _ _ _ _ Hi) as Hr.
  unfold WaitForToken. rewrite (ready_usable h Hr), (ready_ring h Hr). cbn [negb dcheck obind].
  replace (tk <? 0) with false by lia. replace (token_ h <? tk) with false by lia.
  destruct (wait_loop_ok tk fuel h c issued ex pe Hi Ho) as (h' & c' & ex' & pe' & -> & Hf & Hi' & Hle);
    [lia|by eapply inv_backlog|].
  exists h', c', ex', pe'. split; [done|]. split; [done|]. split; [done|].
  intros before ws after E Hws. eapply (token_covers h' c'); [done| |done|done|done|lia].
  destruct Ho, Hf as (? & ? & ->). by split.
Qed.

End Helper.

End HelperQueue.
