(* ===== verification/GpuPipeline.v ===== *)
(** The helper and the scheduler put together: the command buffer service, its
    scheduler and parser discharge what [GpuHelperQueue] asks of a service, so that
    the commands a client issues are executed by the decoder in that order. *)
From Stdlib Require Import Sorting.Sorted.
From stdpp Require Import relations.
From S2P Require Import Prelude.
From S2P Require Import GpuCommands.
From S2P Require Import GpuCommandBufferService.
From S2P Require Import GpuDecoder.
From S2P Require Import GpuScheduler.
From S2P Require Import GpuHelper.
From S2P Require Import GpuHelperQueue.

Module Pipeline.
Import GpuScheduler.

(** A decoder whose own commands only fold over the state of its API. *)
Class AppHost (A : Type) `{!Host A} := {
  app_accepts : list Z -> Prop;
  app_step : A -> list Z -> A
}.

Class AppHostLaws (A : Type) `{!Host A, !AppHost A} := {
  app_command ws : app_accepts ws -> RingQueue.command ws /\
    kLastCommonId < CommandHeader.command (CommandHeader.unpack (hd 0 ws));
  DoCommand_app ws seg off (s : @CommonDecoder.machine (engine A)) :
    app_accepts ws ->
    Memory.load seg off (4 * Z.of_nat (length ws)) (memory (snd s)) = Ret (bytes_of_entries ws) ->
    DoCommand (CommandHeader.command (CommandHeader.unpack (hd 0 ws)))
      (CommandHeader.size (CommandHeader.unpack (hd 0 ws)) - 1) (seg, off) s
      = Ret (kNoError, on_engine (fun e => with_app (app_step (app e) ws) e) s)
}.

Section Pipeline.
Context {A : Type} `{!Host A} `{!CommonHost} `{!AppHost A} `{!AppHostLaws A}.
Variables (system : os) (clock : @CommonDecoder.machine (engine A) -> Z).

Abbreviation machine := (@CommonDecoder.machine (engine A)).

(** Every command takes an entry at least, and a wrapped queue is shorter than two
    rings. *)
Definition flush_fuel (s : machine) : nat :=
  Z.to_nat (2 * CommandBufferService.num_entries_ (command_buffer_ (snd s))).

(** The service in the client's process.  Reading the state advances the service's
    generation count, which nothing here reads. *)
#[global] Instance service : CommandBuffer machine := {|
  cb_CreateTransferBuffer := fun size id_request s =>
    let! '(id, cb) := CommandBufferService.CreateTransferBuffer system size id_request
                        (command_buffer_ (snd s)) in
    Ret (id, on_engine (with_command_buffer cb) s);
  cb_GetTransferBuffer := fun id s => GetSharedMemoryBuffer id (snd s);
  cb_DestroyTransferBuffer := fun id s => DestroyTransferBuffer id s;
  cb_SetGetBuffer := fun id s => SetRingBuffer id s;
  cb_GetState := fun s =>
    let '(state, cb) := CommandBufferService.GetState (command_buffer_ (snd s)) in
    (state, on_engine (with_command_buffer cb) s);
  cb_GetLastState := fun s => fst (CommandBufferService.GetLastState (command_buffer_ (snd s)));
  cb_Flush := fun put s => Flush (flush_fuel s) put s;
  cb_FlushSync := fun put _ s => FlushSync (flush_fuel s) put s;
  cb_store := fun seg off data s =>
    let! m := Memory.store seg off data (memory (snd s)) in
    Ret (on_engine (set_memory m) s);
  cb_clock := clock
|}.

Definition entry_at (s : machine) (i : Z) : Z :=
  match CommandParser.buffer_ <$> parser_ (snd s) with
  | Some (Some (seg, base)) =>
      match Memory.load32 seg (base + 4 * i) (memory (snd s)) with Ret w => w | _ => 0 end
  | _ => 0
  end.

(** The service is idle between flushes and reads the helper's ring. *)
Record linked (seg U : Z) (s : machine) : Prop := {
  linked_running : running s;
  linked_error : CommandBufferService.error_ (command_buffer_ (snd s)) = kNoError;
  linked_parser : exists p, parser_ (snd s) = Some p /\ CommandParser.buffer_ p = Some (seg, 0) /\
    CommandParser.entry_count_ p = U + 2 /\
    CommandParser.get_ p = CommandBufferService.get_offset_ (command_buffer_ (snd s))
}.

(** What executing commands changes: the token and the API's state. *)
Definition observed (s : machine) : Z * A :=
  (CommandBufferService.token_ (command_buffer_ (snd s)), app (snd s)).

Definition execute (o : Z * A) (ws : list Z) : Z * A :=
  if kLastCommonId <? CommandHeader.command (CommandHeader.unpack (hd 0 ws))
  then (fst o, app_step (snd o) ws)
  else (default (fst o) (token_in ws), snd o).

(** Tokens, fillers of one entry and the API's commands. *)
Inductive accepts : list Z -> Prop :=
| accepts_noop ws : Init (Noop 1) = Ret ws -> accepts ws
| accepts_token tk ws : 0 <= tk < 2 ^ 31 -> Init (SetToken tk) = Ret ws -> accepts ws
| accepts_app ws : app_accepts ws -> accepts ws.

#[global] Instance service_ring : RingService machine (Z * A) := {|
  link := linked;
  entry := entry_at;
  observe := observed;
  apply := execute;
  accepted := accepts;
  token_of := fst
|}.

(** ** Entries and bytes *)

Lemma load_split m seg off a b x y :
  0 <= a -> Memory.load seg off a m = Ret x -> Memory.load seg (off + a) b m = Ret y ->
  Memory.load seg off (a + b) m = Ret (x ++ y).
Proof.
  intros Ha (bytes & Hm & H1 & H2 & H3 & ->)%Memory.load_Ret (bytes' & Hm' & H4 & H5 & H6 & ->)%Memory.load_Ret.
  rewrite Hm in Hm'. injection Hm' as <-. rewrite (Memory.load_spec m seg bytes) by (done || lia).
  f_equal. rewrite Z2Nat.inj_add, <- take_take_drop, drop_drop by lia.
  f_equal. by rewrite Z2Nat.inj_add by lia.
Qed.

Lemma load32_bytes m seg off w :
  Memory.bytes_ok m -> Memory.load32 seg off m = Ret w -> Memory.load seg off 4 m = Ret (bytes_of_u32 w).
Proof.
  unfold Memory.load32. intros Hok Hw. destruct (Memory.load seg off 4 m) as [bs| |] eqn:Hl; [|done..].
  pose proof (Memory.load_length _ _ _ _ _ Hl) as Hn. pose proof (Memory.load_bytes _ _ _ _ _ Hok Hl) as Hb.
  cbn [obind] in Hw. destruct bs as [|b0 [|b1 [|b2 [|b3 [|? ?]]]]]; cbn in Hn; try lia.
  cbn in Hw. injection Hw as <-. repeat (apply Forall_cons in Hb as [? Hb]). unfold Memory.is_byte in *.
  unfold bytes_of_u32. f_equal. f_equal; [div_lia|]. f_equal; [div_lia|]. f_equal; [div_lia|].
  f_equal. div_lia.
Qed.

Lemma load_words m seg bytes ws : forall off,
  Memory.bytes_ok m -> m !! seg = Some bytes -> 0 <= off ->
  off + 4 * Z.of_nat (length ws) <= Z.of_nat (length bytes) ->
  (forall i w, ws !! i = Some w -> Memory.load32 seg (off + 4 * Z.of_nat i) m = Ret w) ->
  Memory.load seg off (4 * Z.of_nat (length ws)) m = Ret (bytes_of_entries ws).
Proof.
  induction ws as [|w ws IH]; intros off Hok Hm Hoff Hlen Hw.
  { by rewrite (Memory.load_spec m seg bytes) by (cbn in *; done || lia). }
  cbn [length] in *. rewrite bytes_of_entries_cons.
  replace (4 * Z.of_nat (S (length ws))) with (4 + 4 * Z.of_nat (length ws)) by lia.
  apply load_split; [lia| |].
  - apply load32_bytes; [done|]. rewrite <- (Hw O w eq_refl). f_equal. lia.
  - apply IH; [done|done|lia|lia|]. intros i v Hv. rewrite <- (Hw (S i) v Hv). f_equal. lia.
Qed.

Lemma store_frame m seg off data m' off' n :
  Memory.store seg off data m = Ret m' ->
  off' + n <= off \/ off + Z.of_nat (length data) <= off' ->
  Memory.load seg off' n m' = Memory.load seg off' n m.
Proof.
  unfold Memory.store, Memory.load. intros Hs Hd.
  destruct (m !! seg) as [bytes|] eqn:Hm; [|done]. cbn [must obind] in *.
  destruct (_ && _) eqn:Hb in Hs; [|done]. cbn in Hs. injection Hs as <-. zb2p.
  rewrite lookup_insert_eq. cbn [must obind].
  set (new := take _ bytes ++ _).
  assert (Hlen : length new = length bytes).
  { unfold new. rewrite !length_app, length_take, length_drop. lia. }
  rewrite Hlen. destruct (_ && _) eqn:Hn; [|done]. cbn [dcheck obind]. zb2p. f_equal.
  apply list_eq. intros i. destruct (decide (i < Z.to_nat n)%nat) as [Hi|Hi].
  2: { rewrite !lookup_take_ge by lia. done. }
  rewrite !lookup_take_lt, !lookup_drop by lia. unfold new. destruct Hd as [Hd|Hd].
  - rewrite lookup_app_l, lookup_take_lt by (rewrite ?length_take; lia). done.
  - rewrite lookup_app_r by (rewrite length_take; lia).
    rewrite lookup_app_r by (rewrite length_take; lia).
    rewrite lookup_drop, length_take. f_equal. lia.
Qed.

(** ** One command *)

Lemma accepts_command ws : accepts ws -> RingQueue.command ws.
Proof.
  destruct 1 as [ws Hi|tk ws Ht Hi|ws Ha]; [| |by apply app_command].
  - injection Hi as <-. split; [|by repeat constructor]. by eexists.
  - injection Hi as <-. split; [by eexists|].
    constructor; [done|]. constructor; [apply u32_range|constructor].
Qed.

(** The ring's bytes, as the parser reads them. *)
Lemma ring_load s p seg g ws :
  CommonDecoder.machine_ok s -> parser_ (snd s) = Some p -> CommandParser.buffer_ p = Some (seg, 0) ->
  RingQueue.holds (entry_at s) g ws -> 0 <= g ->
  g + Z.of_nat (length ws) <= CommandParser.entry_count_ p ->
  Memory.load seg (0 + 4 * g) (4 * Z.of_nat (length ws)) (memory (snd s)) = Ret (bytes_of_entries ws).
Proof.
  intros [_ Hs] Hp Hb Hh Hg Hn. destruct (ring_mapped _ _ _ Hs Hp Hb) as (bytes & Hm & Hlen).
  pose proof (proj1 (proj2 Hs)) as Hok.
  apply (load_words _ seg bytes); [done|done|lia|lia|]. intros i w Hw.
  pose proof (lookup_lt_Some _ _ _ Hw). specialize (Hh i w Hw). unfold entry_at in Hh.
  rewrite Hp in Hh. cbn in Hh. rewrite Hb in Hh.
  destruct (Memory.load32_spec _ seg bytes (0 + 4 * (g + Z.of_nat i)) Hok Hm) as (w' & Hw' & _); [lia|lia|].
  replace (0 + 4 * g + 4 * Z.of_nat i) with (0 + 4 * (g + Z.of_nat i)) by lia.
  change (memory (snd s)) with (CommandBufferService.mappings (command_buffer_ (snd s))) in *.
  cbn [GpuDecoder.memory engine_interface] in Hh. rewrite Hw' in Hh. by rewrite Hw', Hh.
Qed.

(** The decoder on a command it accepts. *)
Lemma do_accepted ws seg off s :
  accepts ws -> CommonDecoder.machine_ok s ->
  Memory.load seg off (4 * Z.of_nat (length ws)) (memory (snd s)) = Ret (bytes_of_entries ws) ->
  exists s1,
    DoCommand (CommandHeader.command (CommandHeader.unpack (hd 0 ws)))
      (CommandHeader.size (CommandHeader.unpack (hd 0 ws)) - 1) (seg, off) s = Ret (kNoError, s1) /\
    CommonDecoder.machine_ok s1 /\ parser_ (snd s1) = parser_ (snd s) /\
    unscheduled_count_ (snd s1) = unscheduled_count_ (snd s) /\
    unschedule_fences_ (snd s1) = unschedule_fences_ (snd s) /\
    memory (snd s1) = memory (snd s) /\
    CommandBufferService.error_ (command_buffer_ (snd s1)) = CommandBufferService.error_ (command_buffer_ (snd s)) /\
    observed s1 = execute (observed s) ws.
Proof.
  intros Ha Hs Hl. destruct Ha as [ws Hi|tk ws Ht Hi|ws Ha].
  - pose proof (CommonDecoder.do_common_decodes 0 (Noop 1) ws seg off s ltac:(cbn; lia) Hi) as Hd.
    cbv zeta in Hd. injection Hi as <-. exists s. split; [|done].
    rewrite DoCommand_common by done. apply Hd. cbn [payload length]. rewrite app_nil_r. exact Hl.
  - pose proof (CommonDecoder.do_common_decodes 0 (SetToken tk) ws seg off s) as Hd.
    assert (Hf : fits (SetToken tk)) by (cbn; unfold is_u32; lia). specialize (Hd Hf Hi). cbv zeta in Hd.
    assert (Hx : CommandHeader.command (CommandHeader.unpack (hd 0 ws)) = 1) by (by injection Hi as <-).
    destruct s as [d e]. exists (d, set_token tk e).
    split; [|split; [|do 5 (split; [done|])]].
    + rewrite DoCommand_common by (rewrite Hx; done). rewrite Hd.
      * cbn [CommonDecoder.exec CommonDecoder.HandleSetToken]. by rewrite i32_small by lia.
      * injection Hi as <-. cbn [payload length]. rewrite app_nil_r.
        exact Hl.
    + destruct Hs as [Hd' (W & B & Hatt)]. split; [done|]. split; [by apply CommandBufferService.wf_status|].
      split; [done|exact Hatt].
    + unfold execute. rewrite Hx. injection Hi as <-. unfold observed. cbn. by rewrite u32_small by lia.
  - exists (on_engine (fun e => with_app (app_step (app e) ws) e) s).
    split; [by apply DoCommand_app|]. split; [exact Hs|]. do 5 (split; [done|]).
    unfold execute. destruct (app_command ws Ha) as [_ Hc]. by rewrite (proj2 (Z.ltb_lt _ _) Hc).
Qed.

(** What a step of the parser leaves as it was. *)
Record stepped (seg U put : Z) (s s1 : machine) (q : CommandParser.t) : Prop := {
  step_running : running s1;
  step_parser : parser_ (snd s1) = Some q;
  step_put : CommandParser.put_ q = put;
  step_buffer : CommandParser.buffer_ q = Some (seg, 0);
  step_count : CommandParser.entry_count_ q = U + 2;
  step_memory : memory (snd s1) = memory (snd s);
  step_error : CommandBufferService.error_ (command_buffer_ (snd s1))
    = CommandBufferService.error_ (command_buffer_ (snd s))
}.

Lemma command_step s p seg U ws :
  running s -> parser_ (snd s) = Some p -> CommandParser.buffer_ p = Some (seg, 0) ->
  CommandParser.entry_count_ p = U + 2 -> CommandParser.get_ p <> CommandParser.put_ p ->
  accepts ws -> RingQueue.holds (entry_at s) (CommandParser.get_ p) ws ->
  CommandParser.get_ p + Z.of_nat (length ws) <= U ->
  exists s1 q, ProcessCommand s = Ret (kNoError, s1) /\
    stepped seg U (CommandParser.put_ p) s s1 q /\
    CommandParser.get_ q = CommandParser.get_ p + Z.of_nat (length ws) /\
    observed s1 = execute (observed s) ws.
Proof.
  intros (Hs & Hun & Hw) Hp Hb Hc Hne Ha Hh Hlen.
  destruct (parser_of s Hs) as (p' & seg' & Hp' & _ & Hg). rewrite Hp in Hp'. injection Hp' as <-.
  pose proof (ring_load s p seg _ ws Hs Hp Hb Hh ltac:(lia) ltac:(lia)) as Hl.
  destruct (accepts_command ws Ha) as [(w & Hw0 & _ & Hsize) Hu32].
  assert (Hhd : hd 0 ws = w) by (destruct ws; [done|by injection Hw0]).
  pose proof (RingQueue.command_pos ws (accepts_command ws Ha)) as Hpos.
  destruct (do_accepted ws seg _ s Ha Hs Hl) as (s1 & Hdo & Hs1 & Epar & Eun & Efe & Emem & Eerr & Eobs).
  rewrite Hhd in Hdo. rewrite Hp in Epar.
  assert (Hl0 : Memory.load seg (0 + 4 * CommandParser.get_ p) (4 * Z.of_nat (length ws))
    (memory (snd s)) = Ret (bytes_of_entries ws ++ [])) by (by rewrite app_nil_r).
  pose proof (Memory.load32_entry _ _ _ _ _ _ O w Hl0 Hw0) as Hload.
  rewrite Z.add_0_r in Hload.
  set (q := CommandParser.advance (CommandParser.get_ p) (Z.of_nat (length ws)) p).
  exists (on_engine (with_parser (Some q)) s1), q. split; [|split].
  - unfold ProcessCommand. rewrite Hp. cbn [must obind].
    destruct (Z.eqb_spec (CommandParser.get_ p) (CommandParser.put_ p)); [done|].
    rewrite Hb. cbn [must obind].
    rewrite Hload by (rewrite Forall_lookup in Hu32; by eapply Hu32). cbn [obind]. rewrite Hsize.
    destruct (Z.eqb_spec (Z.of_nat (length ws)) 0); [lia|].
    destruct (Z.ltb_spec (CommandParser.entry_count_ p) (Z.of_nat (length ws) + CommandParser.get_ p)); [lia|].
    rewrite Hsize in Hdo. rewrite Hdo. cbn [obind]. rewrite Epar. cbn [must obind].
    rewrite Z.eqb_refl. cbn [andb]. by rewrite bool_decide_eq_false_2.
  - assert (Hq : 0 <= CommandParser.get_ q < CommandParser.entry_count_ q)
      by (unfold q, CommandParser.advance; cbn; apply Z.mod_pos_bound; lia).
    split; [|done..]. split; [by apply (with_parser_ok s1 p)|]. split; [cbn; by rewrite Eun|].
    unfold HasMoreWork. cbn. rewrite Efe. exact Hw.
  - split; [|exact Eobs]. cbn. apply Z.mod_small. lia.
Qed.

Lemma jump_step s p seg U :
  running s -> parser_ (snd s) = Some p -> CommandParser.buffer_ p = Some (seg, 0) ->
  CommandParser.entry_count_ p = U + 2 -> CommandParser.get_ p <> CommandParser.put_ p ->
  RingQueue.jump_at (entry_at s) (CommandParser.get_ p) -> 0 < CommandParser.get_ p <= U ->
  exists s1 q, ProcessCommand s = Ret (kNoError, s1) /\
    stepped seg U (CommandParser.put_ p) s s1 q /\ CommandParser.get_ q = 0 /\
    observed s1 = observed s.
Proof.
  intros (Hs & Hun & Hw) Hp Hb Hc Hne [Hj0 Hj1] Hg.
  assert (Hring : in_ring (Jump 0) seg (CommandParser.get_ p) s).
  { split; [by cbn|]. exists [RingQueue.jump_header; 0]. split; [done|].
    rewrite Z.add_0_r, app_nil_r. apply (ring_load s p seg (CommandParser.get_ p)); [done..| |lia|cbn; lia].
    intros [|[|i]] w Hi; cbn in Hi; [|injection Hi as <-; exact Hj1|done].
    injection Hi as <-. rewrite <- Hj0. f_equal. lia. }
  rewrite (ProcessCommand_common s p seg (Jump 0) Hp Hb Hne Hring)
    by (change (entries_of (Jump 0)) with 2; lia).
  destruct (SetGetOffset_ok s p 0 Hs Hp) as (cb & Hset & Hmem); [lia|].
  destruct (SetGetOffset_sound 0 (snd s) (proj2 Hs)) as (ok & e' & Hset' & Hsound & _).
  rewrite Hset in Hset'. injection Hset' as <- <-. destruct s as [d e]. cbn [fst snd] in *.
  cbn [CommonDecoder.exec CommonDecoder.set_get_or_fail]. change (i32 0) with 0.
  change (GpuDecoder.SetGetOffset 0 e) with (SetGetOffset 0 e). rewrite Hset.
  assert (Hcb : CommandBufferService.error_ cb = CommandBufferService.error_ (command_buffer_ e) /\
    CommandBufferService.token_ cb = CommandBufferService.token_ (command_buffer_ e)).
  { unfold SetGetOffset, CommandParser.set_get in Hset. rewrite Hp in Hset. cbn [must obind] in Hset.
    rewrite Hc in Hset. replace ((0 <=? 0) && (0 <? U + 2)) with true in Hset by lia.
    cbn [CommandParser.get_ with_parser command_buffer_] in Hset.
    unfold CommandBufferService.SetGetOffset in Hset.
    destruct (_ && _) in Hset; [|done]. cbn [dcheck obind] in Hset.
    by injection Hset as <-. }
  cbn [obind]. unfold CommonDecoder.done_ok, finish.
  cbn [obind snd with_command_buffer with_parser parser_ must CommandParser.get_].
  destruct (Z.eqb_spec (CommandParser.get_ p) 0); [lia|]. cbn [andb].
  eexists _, (CommandParser.mk 0 (CommandParser.put_ p) (CommandParser.buffer_ p)
    (CommandParser.entry_count_ p)). split; [done|]. split; [|split; [done|]].
  - split; [split; [split; [exact (proj1 Hs)|exact Hsound]|split; [exact Hun|exact Hw]]|done|done| | | |].
    + exact Hb.
    + exact Hc.
    + exact Hmem.
    + exact (proj1 Hcb).
  - unfold observed. cbn. by rewrite (proj2 Hcb).
Qed.

Lemma queue_step s p seg U cmds :
  running s -> parser_ (snd s) = Some p -> CommandParser.buffer_ p = Some (seg, 0) ->
  CommandParser.entry_count_ p = U + 2 -> CommandParser.get_ p <> CommandParser.put_ p ->
  RingQueue.queue (entry_at s) U (CommandParser.get_ p) (CommandParser.put_ p) cmds ->
  Forall accepts cmds ->
  exists s1 q cmds', ProcessCommand s = Ret (kNoError, s1) /\
    stepped seg U (CommandParser.put_ p) s s1 q /\
    RingQueue.serve (entry_at s) execute (CommandParser.put_ p)
      (CommandParser.get_ p, cmds, observed s) (CommandParser.get_ q, cmds', observed s1).
Proof.
  intros Hrun Hp Hb Hc Hne Hq Ha.
  assert (Hhead : forall ws rest j, cmds = ws :: rest -> RingQueue.holds (entry_at s) (CommandParser.get_ p) ws ->
    RingQueue.lin (entry_at s) (CommandParser.get_ p + Z.of_nat (length ws)) j (rest) \/
    CommandParser.get_ p + Z.of_nat (length ws) <= j -> j <= U ->
    exists s1 q cmds', ProcessCommand s = Ret (kNoError, s1) /\
      stepped seg U (CommandParser.put_ p) s s1 q /\
      RingQueue.serve (entry_at s) execute (CommandParser.put_ p)
        (CommandParser.get_ p, cmds, observed s) (CommandParser.get_ q, cmds', observed s1)).
  { intros ws rest j -> Hh Hl Hj. inversion Ha as [|? ? Hws _]; subst.
    destruct (command_step s p seg U ws Hrun Hp Hb Hc Hne Hws Hh) as (s1 & q & Hpc & Hst & Eg & Eo).
    { destruct Hl as [Hl|Hl]; [apply RingQueue.lin_le in Hl|]; lia. }
    exists s1, q, rest. split; [done|]. split; [done|]. rewrite Eg, Eo. by constructor. }
  inversion Hq as [? H1 H2 Hl E|j c1 c2 H1 H2 Hl1 Hj Hl2 E]; subst.
  - inversion Hl as [|? ? ws rest Hcm Hh Hl' E1 E2]; subst; [done|].
    apply (Hhead ws rest (CommandParser.put_ p)); [done|done|by left|lia].
  - inversion Hl1 as [? E1 E2|? ? ws rest Hcm Hh Hl' E1 E2]; subst.
    + destruct (jump_step s p seg U Hrun Hp Hb Hc Hne Hj) as (s1 & q & Hpc & Hst & Eg & Eo); [lia|].
      exists s1, q, c2. split; [done|]. split; [done|]. rewrite Eg, Eo. by constructor.
    + apply (Hhead ws (rest ++ c2) j); [done|done| |lia]. right. by apply RingQueue.lin_le in Hl'.
Qed.

Lemma entry_same s s1 p q seg :
  parser_ (snd s) = Some p -> parser_ (snd s1) = Some q ->
  CommandParser.buffer_ p = Some (seg, 0) -> CommandParser.buffer_ q = Some (seg, 0) ->
  memory (snd s1) = memory (snd s) -> forall i, entry_at s1 i = entry_at s i.
Proof. intros H1 H2 H3 H4 H5 i. unfold entry_at. rewrite H1, H2. cbn [fmap option_fmap option_map]. by rewrite H3, H4, H5. Qed.

(** One turn of the loop in [PutChanged]. *)
Lemma loop_step fuel s p seg U cmds :
  linked seg U s -> parser_ (snd s) = Some p -> CommandParser.get_ p <> CommandParser.put_ p ->
  RingQueue.queue (entry_at s) U (CommandParser.get_ p) (CommandParser.put_ p) cmds ->
  Forall accepts cmds ->
  exists s1 q cmds', process_loop (S fuel) s = process_loop fuel s1 /\ linked seg U s1 /\
    parser_ (snd s1) = Some q /\ CommandParser.put_ q = CommandParser.put_ p /\
    (forall i, entry_at s1 i = entry_at s i) /\
    RingQueue.serve (entry_at s) execute (CommandParser.put_ p)
      (CommandParser.get_ p, cmds, observed s) (CommandParser.get_ q, cmds', observed s1).
Proof.
  intros [Hrun Herr (p' & Hp' & Hb & Hc & Hgo)] Hp Hne Hq Ha. rewrite Hp in Hp'. injection Hp' as <-.
  destruct (queue_step s p seg U cmds Hrun Hp Hb Hc Hne Hq Ha) as (s1 & q & cmds' & Hpc & Hst & Hsv).
  destruct Hst as [(Hs1 & Hun1 & Hw1) Hpq Eput Ebuf Ecnt Emem Eerr].
  destruct (set_get_offset_ok s1 q Hs1 Hpq) as (cb & Hcb & Hs2).
  exists (on_engine command_processed (on_engine (with_command_buffer cb) s1)), q, cmds'.
  assert (Ecb : cb = CommandBufferService.with_offsets (CommandParser.get_ q)
    (CommandBufferService.put_offset_ (command_buffer_ (snd s1))) (command_buffer_ (snd s1))).
  { unfold CommandBufferService.SetGetOffset in Hcb. by inv_outcome. }
  split; [|split; [|split; [done|split; [done|split]]]].
  - cbn [process_loop]. rewrite Hp. cbn [must obind]. unfold CommandParser.IsEmpty.
    replace (CommandParser.put_ p =? CommandParser.get_ p) with false by lia.
    destruct Hrun as (Hs & Hun & Hw). unfold IsScheduled. rewrite Hun, Hw. cbn [Z.eqb negb dcheck obind].
    rewrite Hpc. cbn [obind]. rewrite bool_decide_eq_false_2 by done. rewrite Hpq. cbn [must obind].
    rewrite Hcb. cbn [obind]. change (IsError kNoError) with false. cbn iota.
    change (unscheduled_count_ (snd (on_engine command_processed (on_engine (with_command_buffer cb) s1))))
      with (unscheduled_count_ (snd s1)). by rewrite Hun1.
  - split.
    + by split.
    + cbn. rewrite Ecb. cbn. by rewrite Eerr.
    + exists q. split; [done|]. split; [done|]. split; [done|]. cbn. by rewrite Ecb.
  - apply (entry_same s _ p q seg); [done..|]. cbn. rewrite Ecb. exact Emem.
  - replace (observed (on_engine command_processed (on_engine (with_command_buffer cb) s1)))
      with (observed s1); [done|]. unfold observed. cbn. by rewrite Ecb.
Qed.

(** The loop drains the ring. *)
Lemma drain fuel : forall s p seg U cmds,
  linked seg U s -> parser_ (snd s) = Some p ->
  RingQueue.queue (entry_at s) U (CommandParser.get_ p) (CommandParser.put_ p) cmds ->
  Forall accepts cmds -> RingQueue.backlog U (CommandParser.get_ p) (CommandParser.put_ p) <= Z.of_nat fuel ->
  exists s', process_loop fuel s = Ret s' /\ linked seg U s' /\
    (forall i, entry_at s' i = entry_at s i) /\
    CommandBufferService.get_offset_ (command_buffer_ (snd s')) = CommandParser.put_ p /\
    rtc (RingQueue.serve (entry_at s) execute (CommandParser.put_ p))
      (CommandParser.get_ p, cmds, observed s) (CommandParser.put_ p, [], observed s').
Proof.
  induction fuel as [|fuel IH]; intros s p seg U cmds Hl Hp Hq Ha Hf;
    (destruct (Z.eq_dec (CommandParser.get_ p) (CommandParser.put_ p)) as [Heq|Hne];
      [exists s; rewrite <- Heq in *; apply RingQueue.queue_empty in Hq as ->;
       split; [cbn [process_loop]; rewrite Hp; cbn [must obind]; unfold CommandParser.IsEmpty;
               rewrite <- Heq, Z.eqb_refl; done|];
       split; [done|]; split; [done|]; split; [|done];
       destruct Hl as [_ _ (p' & Hp' & _ & _ & Hgo)]; rewrite Hp in Hp'; by injection Hp' as <-|]).
  - exfalso. apply Hne. pose proof (RingQueue.queue_put_range _ _ _ _ _ Hq) as [? ?].
    apply (RingQueue.backlog_le U); lia.
  - destruct (loop_step fuel s p seg U cmds Hl Hp Hne Hq Ha)
      as (s1 & q & cmds' & -> & Hl1 & Hpq & Eput & Hent & Hsv).
    destruct (RingQueue.serve_queue _ _ _ _ _ _ _ _ _ _ Hq Hsv) as (Hq1 & Hb & _ & ran & Ecm & _).
    rewrite <- Eput in Hq1, Hb.
    destruct (IH s1 q seg U cmds' Hl1 Hpq) as (s' & Hrun & Hl' & Hent' & Hget & Hrtc).
    + eapply RingQueue.queue_agree; [exact Hq1|]. intros. apply Hent.
    + rewrite Ecm in Ha. by apply Forall_app in Ha as [_ ?].
    + rewrite Eput in *. lia.
    + exists s'. split; [done|]. split; [done|]. split; [intros; by rewrite Hent'|].
      rewrite Eput in *. split; [done|]. eapply rtc_l; [done|].
      assert (Hmono : forall x y, RingQueue.serve (entry_at s1) execute (CommandParser.put_ p) x y ->
        RingQueue.serve (entry_at s) execute (CommandParser.put_ p) x y).
      { intros x y [g c o Hn [J1 J2]|g ws c o Hn Hh]; constructor; try done.
        - split; by rewrite <- Hent.
        - intros i w Hw. rewrite <- Hent. by apply Hh. }
      clear -Hrtc Hmono. induction Hrtc; [done|]. eapply rtc_l; [by apply Hmono|done].
Qed.

Lemma Flush_drains seg U put cmds s :
  linked seg U s ->
  RingQueue.queue (entry_at s) U (CommandBufferService.get_offset_ (command_buffer_ (snd s))) put cmds ->
  Forall accepts cmds ->
  exists s', Flush (flush_fuel s) put s = Ret s' /\ linked seg U s' /\
    (forall i, entry_at s' i = entry_at s i) /\
    CommandBufferService.get_offset_ (command_buffer_ (snd s')) = put /\
    rtc (RingQueue.serve (entry_at s) execute put)
      (CommandBufferService.get_offset_ (command_buffer_ (snd s)), cmds, observed s)
      (put, [], observed s').
Proof.
  intros Hl Hq Ha. pose proof Hl as [Hrun Herr (p & Hp & Hb & Hc & Hgo)].
  pose proof (RingQueue.queue_put_range _ _ _ _ _ Hq) as [Hput Hget].
  assert (Hn : CommandBufferService.num_entries_ (command_buffer_ (snd s)) = U + 2).
  { destruct Hrun as ([_ (_ & _ & (p' & ? & Hp' & _ & _ & _ & Hcnt & _))] & _).
    rewrite Hp in Hp'. injection Hp' as <-. congruence. }
  destruct (Flush_loop (flush_fuel s) put s p Hrun Hp Herr) as (cb & -> & Hrun1 & Hmem & He1 & Ht1 & _ & _ & Hg1);
    [lia|].
  set (s1 := on_engine _ s) in *.
  assert (Hent : forall i, entry_at s1 i = entry_at s i)
    by (apply (entry_same s s1 p (CommandParser.set_put put p) seg); done).
  assert (Hl1 : linked seg U s1).
  { split; [done|exact He1|]. exists (CommandParser.set_put put p). split; [done|]. split; [done|].
    split; [done|]. cbn. by rewrite Hg1. }
  assert (Hobs : observed s1 = observed s) by (unfold observed; cbn; by rewrite Ht1).
  destruct (drain (flush_fuel s) s1 (CommandParser.set_put put p) seg U cmds)
    as (s' & Hpl & Hl' & He' & Hg' & Hrtc); [done|done| |done| |].
  - cbn. rewrite Hgo. eapply RingQueue.queue_agree; [exact Hq|]. intros. apply Hent.
  - cbn. rewrite Hgo. unfold flush_fuel. rewrite Hn.
    pose proof (RingQueue.backlog_range U _ _ Hput Hget). lia.
  - exists s'. split; [done|]. split; [done|]. split; [intros; by rewrite He'|]. split; [done|].
    cbn in Hrtc. rewrite Hobs, Hgo in Hrtc. revert Hrtc. generalize (observed s').
    intros o Hrtc. eapply rtc_congruence with (f := fun x => x); [|exact Hrtc].
    intros x y [g c ob Hn' [J1 J2]|g ws c ob Hn' Hh]; constructor; try done.
    + split; by rewrite <- Hent.
    + intros i w Hw. rewrite <- Hent. by apply Hh.
Qed.

Lemma bytes_of_entries_bytes ws : Forall Memory.is_byte (bytes_of_entries ws).
Proof.
  induction ws as [|w ws IH]; [constructor|]. rewrite bytes_of_entries_cons. apply Forall_app.
  split; [|done]. apply Forall_forall. intros b Hb. by apply bytes_of_u32_range in Hb.
Qed.

Lemma sound_set_memory (e : engine A) m :
  sound e -> Memory.bytes_ok m -> Memory.same_shape (memory e) m -> sound (set_memory m e).
Proof.
  intros (W & B & Hatt) Hm Hs. split; [by apply wf_set_memory|]. split; [done|exact Hatt].
Qed.

Lemma store_links seg U i ws s :
  linked seg U s -> 0 <= i -> i + Z.of_nat (length ws) <= U + 2 -> Forall is_u32 ws ->
  exists s', cb_store seg (4 * i) (bytes_of_entries ws) s = Ret s' /\ linked seg U s' /\
    cb_GetLastState s' = cb_GetLastState s /\ observed s' = observed s /\
    RingQueue.holds (entry_at s') i ws /\
    forall j, j < i \/ i + Z.of_nat (length ws) <= j -> entry_at s' j = entry_at s j.
Proof.
  intros [((Hd & Hs) & Hun & Hw) Herr (p & Hp & Hb & Hc & Hgo)] Hi Hn Hu.
  destruct (ring_mapped _ _ _ Hs Hp Hb) as (bytes & Hm & Hlen). rewrite Hc in Hlen.
  destruct (Memory.store_spec (memory (snd s)) seg bytes (4 * i) (bytes_of_entries ws))
    as (m' & Hst & Hok & Hshape & Hld); [exact (proj1 (proj2 Hs))|apply bytes_of_entries_bytes|exact Hm|lia| |].
  { rewrite length_bytes_of_entries. lia. }
  cbn [cb_store service]. rewrite Hst. cbn [obind].
  exists (on_engine (set_memory m') s). split; [done|]. split; [|split; [done|split; [done|split]]].
  - split; [split; [split; [done|by apply sound_set_memory]|done]|done|by exists p].
  - intros k w Hk. rewrite <- (app_nil_r (bytes_of_entries ws)) in Hld at 2.
    pose proof (Memory.load32_entry _ _ _ _ _ _ k w Hld Hk) as Hload.
    unfold entry_at. cbn [snd on_engine]. change (parser_ (set_memory m' (snd s))) with (parser_ (snd s)).
    rewrite Hp. cbn [fmap option_fmap option_map]. rewrite Hb.
    change (memory (set_memory m' (snd s))) with m'.
    replace (0 + 4 * (i + Z.of_nat k)) with (4 * i + 4 * Z.of_nat k) by lia.
    rewrite Hload; [done|]. rewrite Forall_lookup in Hu. by eapply Hu.
  - intros j Hj. unfold entry_at. cbn [snd on_engine].
    change (parser_ (set_memory m' (snd s))) with (parser_ (snd s)).
    rewrite Hp. cbn [fmap option_fmap option_map]. rewrite Hb.
    change (memory (set_memory m' (snd s))) with m'. unfold Memory.load32.
    rewrite (store_frame _ _ _ _ _ (0 + 4 * j) 4 Hst); [done|].
    rewrite length_bytes_of_entries. lia.
Qed.

Lemma execute_token o ws : accepts ws -> fst (execute o ws) = default (fst o) (token_in ws).
Proof.
  unfold execute. destruct 1 as [ws Hi|tk ws Ht Hi|ws Ha].
  - by injection Hi as <-.
  - by injection Hi as <-.
  - destruct (app_command ws Ha) as [_ Hc]. rewrite (proj2 (Z.ltb_lt _ _) Hc). cbn [fst].
    unfold token_in. destruct ws as [|w [|t [|? ?]]]; try done. cbn [hd] in Hc.
    destruct (Z.eqb_spec (CommandHeader.command (CommandHeader.unpack w)) (id_number kSetToken)) as [E|]; [|done].
    rewrite E in Hc. done.
Qed.

(** The service keeps every promise the helper relies on. *)
#[global] Instance service_laws : RingServiceLaws machine (Z * A).
Proof.
  split.
  - exact accepts_command.
  - intros t ws Ht Hi. by eapply accepts_token.
  - intros o ws Ha. by apply execute_token.
  - done.
  - exact store_links.
  - intros seg U put cmds s Hl Hq Ha.
    destruct (Flush_drains seg U put cmds s Hl Hq Ha) as (s' & Hf & Hl' & He & Hg & Hr).
    exists s', []. split; [done|]. split; [done|]. split; [done|].
    change (CommandBufferHelper.get_offset s') with (CommandBufferService.get_offset_ (command_buffer_ (snd s'))).
    rewrite Hg. exact Hr.
  - intros seg U put cmds s Hl Hq Ha.
    destruct (Flush_drains seg U put cmds s Hl Hq Ha) as (s' & Hf & Hl' & He & Hg & Hr).
    set (s2 := on_engine (with_command_buffer (snd (CommandBufferService.GetState (command_buffer_ (snd s'))))) s').
    assert (Hl2 : linked seg U s2).
    { destruct Hl' as [(Hs & Hun & Hw) Herr Hp]. split; [split; [|split; [exact Hun|exact Hw]]|exact Herr|exact Hp].
      apply (machine_ok_command_buffer s' (fun c => snd (CommandBufferService.GetState c))); [|done|done].
      intros c W. by apply CommandBufferService.wf_status. }
    exists (fst (CommandBufferService.GetState (command_buffer_ (snd s')))), s2, [].
    change (CommandBufferHelper.get_offset s2) with (CommandBufferService.get_offset_ (command_buffer_ (snd s'))).
    change (observe s2) with (observed s').
    rewrite Hg. split; [|split; [exact (linked_error _ _ _ Hl')|split; [done|split; [exact He|split; [exact Hr|]]]]].
    + cbn [cb_FlushSync service]. unfold FlushSync. by rewrite Hf.
    + intros Hne. destruct (rtc_inv _ _ Hr) as [E|(y & H1 & H2)]; [by injection E|].
      by eapply tc_rtc_r; [apply tc_once|].
Qed.

(** ** From nothing to a ring *)

Definition fresh (a : A) : machine := (CommonDecoder.init, GpuScheduler.init CommandBufferService.init a).

(** The operating system maps [bytes] at segment [seg]. *)
Record grants (seg : Z) (bytes : list Z) : Prop := {
  grants_create : create_ok system = true;
  grants_share : share_ok system = true;
  grants_map : map_at system = Some (seg, bytes);
  grants_bytes : Forall Memory.is_byte bytes
}.

(** A service whose transfer buffer 1 can become the ring. *)
Record created (seg U : Z) (bytes : list Z) (cb : CommandBufferService.t) : Prop := {
  created_wf : CommandBufferService.wf cb;
  created_mappings : CommandBufferService.mappings cb = <[seg := bytes]> ∅;
  created_buffer : CommandBufferService.GetTransferBuffer 1 cb =
    CommandBufferService.mkBuffer (Some seg) (4 * (U + 2)) true;
  created_put : CommandBufferService.put_offset_ cb = 0;
  created_get : CommandBufferService.get_offset_ cb = 0;
  created_id : CommandBufferService.ring_buffer_id_ cb = -1;
  created_error : CommandBufferService.error_ cb = kNoError;
  created_token : CommandBufferService.token_ cb = 0
}.

Lemma create_ring seg bytes U :
  grants seg bytes -> Z.of_nat (length bytes) = 4 * (U + 2) -> 4 * (U + 2) < 2 ^ 31 ->
  exists cb, CommandBufferService.CreateTransferBuffer system (4 * (U + 2)) (-1)
      CommandBufferService.init = Ret (1, cb) /\ created seg U bytes cb.
Proof.
  intros [Hc Hs Hm Hb] Hlen Hmax.
  destruct (CommandBufferService.RegisterTransferBuffer_spec system (4 * (U + 2)) (-1)
    (CommandBufferService.with_memory (u64 (0 + 4 * (U + 2))) ∅ CommandBufferService.init))
    as (id & cb & Hr & W & _).
  { apply CommandBufferService.wf_bytes, CommandBufferService.service_wf_init. }
  { intros seg' bytes' E. rewrite Hm in E. by injection E as <- <-. }
  { done. }
  unfold CommandBufferService.CreateTransferBuffer. rewrite Hc. cbn [negb].
  change (CommandBufferService.shared_memory_bytes_allocated_ CommandBufferService.init) with 0.
  change (CommandBufferService.mappings CommandBufferService.init) with (∅ : Memory.t).
  pose proof Hr as Hr'.
  unfold CommandBufferService.RegisterTransferBuffer in Hr'. rewrite Hs, Hm in Hr'. cbn in Hr'.
  injection Hr' as <- Ecb. exists cb. split; [done|]. by subst cb.
Qed.

Lemma attach_ring seg bytes U cb a :
  created seg U bytes cb -> 0 < U -> 4 * (U + 2) < 2 ^ 31 ->
  let s0 := on_engine (with_command_buffer cb) (fresh a) in
  exists p cb1, SetRingBuffer 1 s0 = Ret (CommonDecoder.init, with_command_buffer cb1 (with_parser (Some p) (snd s0))) /\
    CommandParser.get_ p = 0 /\ CommandParser.buffer_ p = Some (seg, 0) /\ CommandParser.entry_count_ p = U + 2 /\
    CommandBufferService.num_entries_ cb1 = U + 2 /\ CommandBufferService.put_offset_ cb1 = 0 /\
    CommandBufferService.get_offset_ cb1 = 0 /\ CommandBufferService.error_ cb1 = kNoError /\
    CommandBufferService.token_ cb1 = 0.
Proof.
  intros [_ _ Ebuf Eput Eget Eid Eerr Etok] HU Hmax s0.
  assert (Hdiv : i32 (4 * (U + 2) / 4) = U + 2) by word_lia.
  unfold SetRingBuffer. change (command_buffer_ (snd s0)) with cb.
  unfold CommandBufferService.SetGetBuffer. rewrite Eid, Eput, Eget, Ebuf. cbn [Z.eqb Pos.eqb dcheck obind].
  rewrite bool_decide_eq_true_2 by done. cbn [dcheck obind CommandBufferService.bsize]. rewrite Hdiv.
  unfold CommandBufferService.SetGetOffset at 1.
  cbn [CommandBufferService.num_entries_ CommandBufferService.with_ring CommandBufferService.with_offsets].
  replace ((0 <=? 0) && (0 <? U + 2)) with true by lia. cbn [dcheck obind].
  unfold SetGetBuffer. cbn [command_buffer_ with_command_buffer].
  set (cb0 := CommandBufferService.with_offsets _ _ _).
  change (CommandBufferService.GetTransferBuffer 1 cb0) with (CommandBufferService.GetTransferBuffer 1 cb).
  rewrite Ebuf. cbn [CommandBufferService.ptr CommandBufferService.bsize].
  unfold CommandParser.SetBuffer. replace (4 * (U + 2) mod 4 =? 0) with true by (symmetry; apply Z.eqb_eq; div_lia).
  change (0 mod 4 =? 0) with true. rewrite Z.leb_refl. cbn [dcheck obind]. rewrite Hdiv.
  unfold SetGetOffset, CommandParser.set_get. cbn [with_parser parser_ must obind CommandParser.entry_count_].
  replace ((0 <=? 0) && (0 <? U + 2)) with true by lia.
  cbn [CommandParser.get_ command_buffer_ with_parser with_command_buffer].
  unfold CommandBufferService.SetGetOffset. change (CommandBufferService.num_entries_ cb0) with (U + 2).
  replace ((0 <=? 0) && (0 <? U + 2)) with true by lia. cbn [dcheck obind].
  eexists _, _. split; [done|]. by cbn.
Qed.

(** The ring and everything around it after [Initialize]. *)
Lemma initialize_ok seg bytes U a :
  grants seg bytes -> Z.of_nat (length bytes) = 4 * (U + 2) -> 0 < U -> 4 * (U + 2) < 2 ^ 31 ->
  exists h s, CommandBufferHelper.Initialize (4 * (U + 2)) CommandBufferHelper.init (fresh a) = Ret (true, h, s) /\
    HelperQueue.inv seg U (0, a) h s [] [] [] /\ CommandBufferHelper.token_ h = 0.
Proof.
  intros Hgr Hlen HU Hmax.
  destruct (create_ring seg bytes U Hgr Hlen Hmax) as (cb & Ecr & Hcr).
  destruct (attach_ring seg bytes U cb a Hcr HU Hmax)
    as (p & cb1 & Eset & Epg & Epb & Epc & En & Ep & Eg & Ee & Et).
  destruct Hcr as [W Emap Ebuf _ _ _ _ _].
  unfold CommandBufferHelper.Initialize, CommandBufferHelper.AllocateRingBuffer.
  cbn [CommandBufferHelper.usable_ CommandBufferHelper.with_size CommandBufferHelper.init negb
    CommandBufferHelper.HaveRingBuffer CommandBufferHelper.ring_buffer_id_ CommandBufferHelper.ring_buffer_size_
    Z.eqb Pos.eqb cb_CreateTransferBuffer service fresh snd GpuScheduler.init command_buffer_].
  rewrite Ecr. cbn [obind Z.ltb Z.compare].
  set (s0 := on_engine (with_command_buffer cb) (fresh a)) in *.
  change (cb_GetTransferBuffer 1 s0) with (CommandBufferService.GetTransferBuffer 1 cb).
  rewrite Ebuf. cbn [CommandBufferService.ptr]. cbn [cb_SetGetBuffer service].
  destruct (SetRingBuffer_sound 1 CommonDecoder.init (snd s0)
    (CommonDecoder.init, with_command_buffer cb1 (with_parser (Some p) (snd s0))) W) as [_ Hsound];
    [|done|exact Eset|].
  { cbn. rewrite Emap. apply map_Forall_insert_2; [by eapply grants_bytes|apply map_Forall_empty]. }
  cbn [snd] in Hsound. rewrite Eset. cbn [obind]. set (s1 := (_, _) : machine) in Eset |- *.
  set (s2 := on_engine (with_command_buffer (snd (CommandBufferService.GetState cb1))) s1).
  assert (Hs2 : CommonDecoder.machine_ok s2).
  { apply (machine_ok_command_buffer s1 (fun c => snd (CommandBufferService.GetState c))); [|done|].
    - intros c Wc. by apply CommandBufferService.wf_status.
    - split; [apply CommonDecoder.decoder_ok_init|exact Hsound]. }
  change (cb_GetState s1) with (fst (CommandBufferService.GetState cb1), s2). cbn [fst].
  change (CommandBufferService.num_entries (fst (CommandBufferService.GetState cb1)))
    with (CommandBufferService.num_entries_ cb1).
  change (CommandBufferService.put_offset (fst (CommandBufferService.GetState cb1)))
    with (CommandBufferService.put_offset_ cb1).
  replace (4 * (U + 2) / 4) with (U + 2) by div_lia. rewrite En, Ep, Z.ltb_irrefl. cbn [obind].
  change (sizeof kJump / 4) with 2.
  eexists _, s2. split; [done|]. split; [|done]. split.
  - split; [done..|]. cbn. lia.
  - split; [by split|exact Ee|]. exists p. split; [done|]. split; [done|]. split; [done|].
    change (CommandBufferService.get_offset_ _) with (CommandBufferService.get_offset_ cb1). congruence.
  - done.
  - unfold observe, service_ring, observed. cbn. by rewrite Et.
  - change (CommandBufferHelper.get_offset s2) with (CommandBufferService.get_offset_ cb1). rewrite Eg.
    apply RingQueue.queue_straight; [cbn; lia|cbn; lia|constructor].
  - constructor.
Qed.

(** C2: end to end.  A client that initialises its helper over a fresh service,
    issues any sequence of commands and finishes has every command executed by the
    decoder exactly once and in order, whatever the size of the ring they share; no
    assertion fails and no wait fails to end on the way. *)
Theorem pipeline_in_order (seg U : Z) (bytes : list Z) (a : A) (cmds : list (list Z)) (fuel : nat) :
  grants seg bytes -> Z.of_nat (length bytes) = 4 * (U + 2) -> 0 < U -> 4 * (U + 2) < 2 ^ 31 ->
  2 * U + 4 <= Z.of_nat fuel ->
  Forall (fun ws => accepts ws /\ Z.of_nat (length ws) < U) cmds ->
  exists h0 s0 h1 s1 h2 s2,
    CommandBufferHelper.Initialize (4 * (U + 2)) CommandBufferHelper.init (fresh a) = Ret (true, h0, s0) /\
    HelperQueue.issue_all fuel cmds h0 s0 = Ret (h1, s1) /\
    CommandBufferHelper.Finish fuel h1 s1 = Ret (true, h2, s2) /\
    observed s2 = foldl execute (0, a) cmds.
Proof.
  intros Hgr Hlen HU Hmax Hfuel Hall.
  destruct (initialize_ok seg bytes U a Hgr Hlen HU Hmax) as (h0 & s0 & E0 & Hi & _).
  assert (Hissue : Forall (HelperQueue.issuable (C := machine) (St := Z * A) U) cmds) by exact Hall.
  destruct (HelperQueue.issue_all_ok seg U (0, a) fuel cmds h0 s0 [] [] [] Hfuel Hissue Hi)
    as (h1 & s1 & ex & pe & E1 & _ & Hi1 & _).
  destruct (HelperQueue.Finish_ok seg U (0, a) fuel h1 s1 _ _ _ Hfuel Hi1) as (h2 & s2 & E2 & _ & Hi2 & _).
  exists h0, s0, h1, s1, h2, s2. split; [done|]. split; [done|]. split; [done|].
  exact (HelperQueue.inv_observe _ _ _ _ _ _ _ _ Hi2).
Qed.

End Pipeline.

(** ** A host for the witnesses

    Commands above the common ones append their argument to a log. *)
Module Sample.

#[global] Instance log_host : Host (list Z) := {|
  DoCommand := fun command arg_count data s =>
    if command <? kNumCommands
    then CommonDecoder.DoCommonCommand 1 command arg_count (fst data) (snd data) s
    else if (kLastCommonId <? command) && (arg_count =? 1) then
      let! x := Memory.load32 (fst data) (snd data + 4) (memory (snd s)) in
      Ret (kNoError, on_engine (fun e => with_app (app e ++ [x]) e) s)
    else Ret (kUnknownCommand, s);
  run_task := fun _ s => Ret s;
  HasCompleted := fun _ _ => true;
  GetContextLostReason := fun _ => kUnknown
|}.

#[global] Instance log_common : @CommonHost (list Z) log_host.
Proof.
  intros command arg_count seg off s Hc. cbn [DoCommand log_host fst snd].
  destruct (Z.ltb_spec command kNumCommands); [done|lia].
Qed.

(** Command [id] with one argument. *)
Definition log_words (id x : Z) : list Z := [CommandHeader.pack (CommandHeader.mk 2 id); x].

#[global] Instance log_app : AppHost (list Z) := {|
  app_accepts := fun ws => exists id x, ws = log_words id x /\ kLastCommonId < id < 2 ^ 11 /\ is_u32 x;
  app_step := fun a ws => a ++ tail ws
|}.

#[global] Instance log_laws : AppHostLaws (list Z).
Proof.
  split.
  - intros ws (id & x & -> & Hid & Hx). unfold kLastCommonId in Hid.
    assert (Hup : CommandHeader.unpack (CommandHeader.pack (CommandHeader.mk 2 id)) = CommandHeader.mk 2 id)
      by (apply unpack_pack; cbn; lia).
    split; [|cbn [hd log_words]; rewrite Hup; cbn; unfold kLastCommonId; lia]. split.
    + eexists. split; [done|]. split.
      * intros E. apply (f_equal CommandHeader.unpack) in E. rewrite Hup in E.
        apply (f_equal CommandHeader.command) in E. change (id = 2) in E. lia.
      * by rewrite Hup.
    + constructor; [apply pack_u32; cbn; lia|]. by constructor.
  - intros ws seg off s (id & x & -> & Hid & Hx) Hl. unfold kLastCommonId in Hid.
    cbn [hd log_words]. rewrite unpack_pack by (cbn; lia).
    cbn [CommandHeader.command CommandHeader.size DoCommand log_host fst snd].
    unfold kLastCommonId, kNumCommands. replace (id <? 12) with false by lia.
    replace (255 <? id) with true by lia. cbn [andb]. change (2 - 1 =? 1) with true. cbn iota.
    rewrite <- (app_nil_r (bytes_of_entries _)) in Hl.
    pose proof (Memory.load32_entry _ _ _ _ _ _ 1%nat x Hl eq_refl Hx) as Hw.
    change (4 * Z.of_nat 1) with 4 in Hw. rewrite Hw. done.
Qed.

(** A 64-byte ring in segment 7. *)
Definition system : os := mkOs true true (Some (7, replicate 64 0)).
Definition clock : @CommonDecoder.machine (engine (list Z)) -> Z := fun _ => 0.

Lemma system_grants : grants system 7 (replicate 64 0).
Proof. split; [done..|]. apply Forall_replicate. unfold Memory.is_byte. lia. Qed.

Lemma log_words_accepted id x : kLastCommonId < id < 2 ^ 11 -> is_u32 x -> accepts (log_words id x).
Proof. intros. apply accepts_app. by exists id, x. Qed.

(** Nine commands, more than the ring holds. *)
Definition nine : list (list Z) := map (log_words 300) [1; 2; 3; 4; 5; 6; 7; 8; 9].

Lemma nine_issuable : Forall (fun ws => accepts ws /\ Z.of_nat (length ws) < 14) nine.
Proof.
  unfold nine. cbn [map]. repeat (apply Forall_cons; split;
    [split; [apply log_words_accepted; unfold kLastCommonId, is_u32; lia|cbn; lia]|]).
  by apply Forall_nil.
Qed.

Lemma nine_logged : foldl execute (0, []) nine = (0, [1; 2; 3; 4; 5; 6; 7; 8; 9]).
Proof. by vm_compute. Qed.

Lemma pipeline_in_order_witness :
  exists h0 s0 h1 s1 h2 s2,
    @CommandBufferHelper.Initialize _ (service system clock) 64 CommandBufferHelper.init (fresh []) = Ret (true, h0, s0) /\
    @HelperQueue.issue_all _ (service system clock) 32 nine h0 s0 = Ret (h1, s1) /\
    @CommandBufferHelper.Finish _ (service system clock) 32 h1 s1 = Ret (true, h2, s2) /\
    observed s2 = (0, [1; 2; 3; 4; 5; 6; 7; 8; 9]).
Proof.
  rewrite <- nine_logged. change 64 with (4 * (14 + 2)).
  apply (pipeline_in_order system clock 7 14 (replicate 64 0) [] nine 32 system_grants);
    [reflexivity|lia|lia|lia|apply nine_issuable].
Defined.

(** The machine after [Initialize], for the helper's theorems. *)
Abbreviation started h c := (
  @HelperQueue.inv _ _ (service system clock) (service_ring system clock) 7 14 (0, []) h c [] [] [] /\
  CommandBufferHelper.token_ h = 0).

Lemma sample_started : exists h (c : @CommonDecoder.machine (engine (list Z))), started h c.
Proof.
  destruct (initialize_ok system clock 7 (replicate 64 0) 14 [] system_grants)
    as (h & c & _ & Hi & Ht); [reflexivity|lia|lia|]. by exists h, c.
Qed.

Lemma get_space_safe_witness :
  exists h c, started h c /\ exists index h' c',
    @CommandBufferHelper.GetSpace _ (service system clock) 32 5 h c = Ret (Some index, h', c') /\
    0 <= index /\ index + 5 <= 14 /\
    forall i, index <= i < index + 5 ->
      ~ RingQueue.live 14 (@CommandBufferHelper.get_offset _ (service system clock) c') index i.
Proof.
  destruct sample_started as (h & c & Hs). exists h, c. split; [exact Hs|].
  apply (HelperQueue.get_space_safe 7 14 (0, []) 32 5 h c [] [] []);
    [unfold HelperQueue.enough; lia|lia|exact (proj1 Hs)].
Defined.

Lemma commands_run_in_order_witness :
  exists h c, started h c /\ exists h1 c1 h2 c2,
    @HelperQueue.issue_all _ (service system clock) 32 nine h c = Ret (h1, c1) /\
    @CommandBufferHelper.Finish _ (service system clock) 32 h1 c1 = Ret (true, h2, c2) /\
    observed c2 = (0, [1; 2; 3; 4; 5; 6; 7; 8; 9]) /\
    @CommandBufferHelper.get_offset _ (service system clock) c2 = CommandBufferHelper.put_ h2.
Proof.
  destruct sample_started as (h & c & Hs). exists h, c. split; [exact Hs|]. rewrite <- nine_logged.
  assert (Hf : HelperQueue.enough 14 32) by (unfold HelperQueue.enough; lia).
  exact (@HelperQueue.commands_run_in_order _ _ (service system clock) (service_ring system clock)
    (service_laws system clock) 7 14 (0, []) 32 nine h c [] [] [] Hf nine_issuable (proj1 Hs)).
Defined.

Lemma sample_ordered (h : CommandBufferHelper.t) : CommandBufferHelper.token_ h = 0 ->
  @HelperQueue.ordered (@CommonDecoder.machine (engine (list Z))) _ (service system clock) (service_ring system clock) (0, []) [] h.
Proof. intros Ht. split; [by repeat constructor|exact Ht]. Qed.

Lemma insert_token_witness :
  exists h c, started h c /\ exists ws h' c' ex' pe',
    @CommandBufferHelper.InsertToken _ (service system clock) 32 h c
      = Ret (Z.land (CommandBufferHelper.token_ h + 1) 0x7fffffff, h', c') /\
    CommandBufferHelper.token_ h' = Z.land (CommandBufferHelper.token_ h + 1) 0x7fffffff /\
    token_in ws = Some (Z.land (CommandBufferHelper.token_ h + 1) 0x7fffffff) /\
    @HelperQueue.inv _ _ (service system clock) (service_ring system clock) 7 14 (0, []) h' c' ([] ++ [ws]) ex' pe' /\
    (Z.land (CommandBufferHelper.token_ h + 1) 0x7fffffff = 0 /\ pe' = [] /\
       @CommandBufferHelper.last_token_read _ (service system clock) c' = 0 \/
     Z.land (CommandBufferHelper.token_ h + 1) 0x7fffffff = CommandBufferHelper.token_ h + 1 /\
       @HelperQueue.ordered _ _ (service system clock) (service_ring system clock) (0, []) ([] ++ [ws]) h').
Proof.
  destruct sample_started as (h & c & Hs). exists h, c. split; [exact Hs|].
  apply (HelperQueue.insert_token 7 14 (0, []) 32 h c [] [] []);
    [unfold HelperQueue.enough; lia|lia|rewrite (proj2 Hs); lia|exact (proj1 Hs)|].
  apply sample_ordered, (proj2 Hs).
Defined.

(** A token inserted and waited for. *)
Lemma wait_for_token_witness :
  exists h c issued ex pe ws h' c' ex' pe', issued = [ws] /\ token_in ws = Some 1 /\
    @HelperQueue.inv _ _ (service system clock) (service_ring system clock) 7 14 (0, []) h c issued ex pe /\
    @CommandBufferHelper.WaitForToken _ (service system clock) 32 1 h c = Ret (h', c') /\
    @HelperQueue.inv _ _ (service system clock) (service_ring system clock) 7 14 (0, []) h' c' issued ex' pe' /\
    1 <= @CommandBufferHelper.last_token_read _ (service system clock) c' /\
    forall before ws after, issued = before ++ ws :: after -> token_in ws = Some 1 ->
      prefix (before ++ [ws]) ex'.
Proof.
  destruct sample_started as (h & c & Hs).
  destruct (@HelperQueue.InsertToken_ok _ _ (service system clock) (service_ring system clock)
      (service_laws system clock) 7 14 (0, []) 32 h c [] [] [])
    as (ws & h1 & c1 & ex1 & pe1 & _ & Ht & Hin & Hi & Ho);
    [unfold HelperQueue.enough; lia|lia|rewrite (proj2 Hs); lia|exact (proj1 Hs)|apply sample_ordered, (proj2 Hs)|].
  rewrite (proj2 Hs) in Ht, Hin, Ho. change (Z.land (0 + 1) 0x7fffffff) with 1 in *.
  destruct Ho as [(? & _)|[_ Ho]]; [lia|].
  destruct (@HelperQueue.wait_for_token _ _ (service system clock) (service_ring system clock)
      (service_laws system clock) 7 14 (0, []) 32 1 h1 c1 ([] ++ [ws]) ex1 pe1)
    as (h2 & c2 & ex2 & pe2 & E & Hi2 & Hle & Hpre);
    [unfold HelperQueue.enough; lia|exact Hi|exact Ho|rewrite Ht; lia|].
  exists h1, c1, ([] ++ [ws]), ex1, pe1, ws, h2, c2, ex2, pe2.
  split; [reflexivity|]. split; [exact Hin|]. split; [exact Hi|]. split; [exact E|].
  split; [exact Hi2|]. split; [exact Hle|exact Hpre].
Defined.

End Sample.

End Pipeline.
