(* ===== verification/PrimeField.v ===== *)
(** The modulus of [crypto/p224.cc] is prime: powers modulo a prime and a Pocklington
    certificate for 2^224 - 2^96 + 1, so that the integers modulo it are a field. *)
From Stdlib Require Import Znumtheory Zpow_facts.
From Stdlib Require Import Zmod.Zmod.
From S2P Require Import Prelude.

(** ** Exponents of a power that is 1 *)

Section Exponents.
Context (q b : Z) (q_gt : 1 < q).

Definition unit_at (x : Z) : Prop := b ^ x mod q = 1.

Lemma unit_at_mul x k : 0 <= x -> 0 <= k -> unit_at x -> unit_at (x * k).
Proof.
  unfold unit_at. intros Hx Hk H.
  by rewrite Z.pow_mul_r, Zpower_mod, H, Z.pow_1_l, Z.mod_1_l by lia.
Qed.

Lemma unit_at_divide x y : 0 < x -> 0 <= y -> (x | y) -> unit_at x -> unit_at y.
Proof. intros Hx Hy [k ->] H. rewrite Z.mul_comm. apply unit_at_mul; try done; nia. Qed.

Lemma unit_at_sub x y : 0 <= x -> 0 <= y -> unit_at x -> unit_at (x + y) -> unit_at y.
Proof.
  unfold unit_at. intros Hx Hy H. rewrite Z.pow_add_r, Z.mul_mod, H, Z.mul_1_l, Z.mod_mod by lia. done.
Qed.

Lemma unit_at_gcd y : 0 <= y -> forall x, 0 <= x -> unit_at x -> unit_at y -> unit_at (Z.gcd x y).
Proof.
  intros Hy. pattern y. revert y Hy. apply Z_lt_induction. intros y IH x Hx H1 H2.
  destruct (Z.le_gt_cases y 0) as [Hy|Hy].
  - destruct (Z.eq_dec y 0) as [->|Hy0].
    + by rewrite Z.gcd_0_r, Z.abs_eq by lia.
    + unfold unit_at in H2. rewrite Z.pow_neg_r in H2 by lia. by rewrite Z.mod_0_l in H2 by lia.
  - rewrite Z.gcd_comm, <- Z.gcd_mod, Z.gcd_comm by lia.
    pose proof (Z.mod_pos_bound x y Hy). apply IH; [lia|lia|done|].
    apply (unit_at_sub (y * (x / y))); [|lia| |].
    + pose proof (Z.div_pos x y). nia.
    + apply unit_at_mul; [lia|by apply Z.div_pos; lia|done].
    + by rewrite <- Z.div_mod by lia.
Qed.

(** The exponents that give 1 are divisible by the full power of a prime whose last
    division loses the 1. *)
Lemma prime_power_divides r k n :
  prime r -> 0 <= k -> 0 < n -> unit_at (r ^ (k + 1)) -> ~ unit_at (r ^ k) -> unit_at n ->
  (r ^ (k + 1) | n).
Proof.
  intros Hr Hk Hn H1 H2 Hu. pose proof (prime_ge_2 r Hr).
  assert (Hrk : 0 < r ^ k) by (apply Z.pow_pos_nonneg; lia).
  assert (Hrk1 : 0 < r ^ (k + 1)) by (apply Z.pow_pos_nonneg; lia).
  pose proof (unit_at_gcd n ltac:(lia) (r ^ (k + 1)) ltac:(lia) H1 Hu) as Hg.
  destruct (Z.gcd_divide_l (r ^ (k + 1)) n) as [c Hc]. set (g := Z.gcd _ _) in *.
  assert (Hg0 : 0 < g).
  { pose proof (Z.gcd_nonneg (r ^ (k + 1)) n). fold g in H0. destruct (Z.eq_dec g 0); [nia|lia]. }
  destruct (Zdivide_dec r c) as [[d ->]|Hrc].
  - exfalso. apply H2. apply (unit_at_divide g); [done|lia| |done]. exists d.
    rewrite Z.pow_add_r, Z.pow_1_r in Hc by lia. nia.
  - assert (Hcp : rel_prime c (r ^ (k + 1))).
    { apply rel_prime_Zpower_r; [lia|]. by apply rel_prime_sym, prime_rel_prime. }
    assert (Hc1 : (c | 1)).
    { destruct Hcp as [_ _ Hcp]. apply Hcp; [reflexivity|]. exists g. lia. }
    assert (c = 1) as -> by (apply Z.divide_1_r in Hc1 as [|]; nia).
    rewrite Z.mul_1_l in Hc. rewrite Hc. apply Z.gcd_divide_r.
Qed.
End Exponents.

Lemma prime_divisor n : 1 < n -> exists q, prime q /\ (q | n).
Proof.
  intros Hn. assert (Hn0 : 0 <= n) by lia. revert Hn. pattern n. revert n Hn0. apply Z_lt_induction.
  intros n IH Hn. destruct (prime_dec n) as [Hp|Hp]; [by exists n|].
  destruct (not_prime_divide n Hn Hp) as (m & Hm & Hd).
  destruct (IH m ltac:(lia) ltac:(lia)) as (q & Hq & Hqm). exists q. split; [done|]. by transitivity m.
Qed.

(** ** Pocklington's criterion *)

(** [b] witnesses the power [r^(k+1)] in the order of every prime divisor of [n]. *)
Definition pock_check (n b r k : Z) : bool :=
  (Zpow_mod b (r ^ (k + 1)) n =? 1) && (Z.gcd (Zpow_mod b (r ^ k) n - 1) n =? 1).

Lemma mod_mod_divide x n q : 0 < q -> 0 < n -> (q | n) -> (x mod n) mod q = x mod q.
Proof. intros. symmetry. by apply Zmod_div_mod. Qed.

Lemma pock_check_sound n b r k q :
  1 < n -> prime r -> 0 <= k -> prime q -> (q | n) -> pock_check n b r k = true -> (r ^ (k + 1) | q - 1).
Proof.
  intros Hn Hr Hk Hq Hqn Hc. pose proof (prime_ge_2 r Hr). pose proof (prime_ge_2 q Hq).
  unfold pock_check in Hc. rewrite !Zpow_mod_correct, andb_true_iff, !Z.eqb_eq in Hc by lia.
  destruct Hc as [H1 H2].
  assert (Hu : unit_at q b (r ^ (k + 1))).
  { unfold unit_at. rewrite <- (mod_mod_divide _ n q), H1 by (done || lia). apply Z.mod_1_l. lia. }
  apply (prime_power_divides q b); [lia|done|done|lia|done| |].
  - intros Hk1. unfold unit_at in Hk1. rewrite <- (mod_mod_divide _ n q) in Hk1 by (done || lia).
    assert (Hd : (q | Z.gcd (b ^ (r ^ k) mod n - 1) n)).
    { apply Z.gcd_greatest; [|done]. apply Z.mod_divide; [lia|].
      rewrite Zminus_mod, Hk1, (Z.mod_1_l q) by lia. done. }
    rewrite H2 in Hd. apply Z.divide_1_r in Hd. lia.
  - unfold unit_at. apply Z.fermat_nz; [by apply prime_alt|]. intros Hb.
    assert (0 < r ^ (k + 1)) by (apply Z.pow_pos_nonneg; lia).
    unfold unit_at in Hu. rewrite Zpower_mod, Hb, Z.pow_0_l, Z.mod_0_l in Hu by lia. done.
Qed.

(** A number whose prime divisors are all 1 modulo a number above its square root is
    prime. *)
Lemma prime_of_divisors n f :
  1 < n -> 0 < f -> n < (f + 1) * (f + 1) -> (forall q, prime q -> (q | n) -> (f | q - 1)) -> prime n.
Proof.
  intros Hn Hf Hsq Hd. destruct (prime_dec n) as [|Hp]; [done|exfalso].
  destruct (not_prime_divide n Hn Hp) as (m & Hm & [c Hc]).
  assert (Hbig : forall x, 1 < x -> (x | n) -> f + 1 <= x).
  { intros x Hx Hxn. destruct (prime_divisor x Hx) as (q & Hq & Hqx).
    pose proof (prime_ge_2 q Hq). pose proof (Hd q Hq ltac:(by transitivity x)) as H1.
    apply Z.divide_pos_le in H1; [|lia]. apply Z.divide_pos_le in Hqx; lia. }
  pose proof (Hbig m ltac:(lia) ltac:(by exists c)).
  pose proof (Hbig c ltac:(nia) ltac:(exists m; lia)). nia.
Qed.

Definition P : Z := 2 ^ 224 - 2 ^ 96 + 1.

(** 2^16 divides the order of 3 modulo 65537. *)
Lemma prime_65537 : prime 65537.
Proof.
  apply (prime_of_divisors 65537 (2 ^ 16)); [done..|]. intros q Hq Hd.
  by apply (pock_check_sound 65537 3 2 15); [|apply prime_2|..].
Qed.

(** The order of 11 modulo p is a multiple of 2^96, and p - 1 one of 65537. *)
Lemma prime_P : prime P.
Proof.
  apply (prime_of_divisors P (2 ^ 96 * 65537)); [reflexivity..|]. intros q Hq Hd.
  assert (H2 : (2 ^ (95 + 1) | q - 1)).
  { apply (pock_check_sound P (Zpow_mod 11 (2 ^ 128 - 1) P) 2 95 q); [reflexivity|apply prime_2|lia|done|done|].
    vm_compute. reflexivity. }
  assert (H65537 : (65537 ^ (0 + 1) | q - 1)).
  { apply (pock_check_sound P (Zpow_mod 11 ((P - 1) / 65537) P) 65537 0 q); [reflexivity|apply prime_65537|lia|done|done|].
    vm_compute. reflexivity. }
  rewrite Z.pow_1_r in H65537. destruct H2 as [c Hc]. rewrite Hc in H65537 |- *.
  rewrite (Z.mul_comm c) in *. apply Gauss in H65537.
  - apply Z.mul_divide_mono_l, H65537.
  - apply Zgcd_1_rel_prime. reflexivity.
Qed.

Lemma prime_modulus : Z.prime P.
Proof. apply prime_alt, prime_P. Qed.
