(* ===== verification/CryptoP224Field.v ===== *)
(** Arithmetic modulo p = 2^224 - 2^96 + 1, [crypto/p224.cc]: eight 28-bit limbs
    in 32-bit words.  The definitions follow the C++ loops word by word; the
    lemmas say that no operation overflows within its bounds and that each computes
    its function modulo p. *)
From Stdlib Require Import Zmod.Zmod.
From S2P Require Import Prelude PrimeField.

Module FieldElement.

(** A field element is a list of 8 words, a large one a list of 15, 28 bits apart. *)
Abbreviation t := (list Z).

(** [l[i]], and [l[i] = f(l[i])]. *)
Definition at_ (l : list Z) (i : nat) : Z := nth i l 0.

Fixpoint upd (i : nat) (f : Z -> Z) (l : list Z) : list Z :=
  match l, i with
  | [], _ => []
  | x :: l, O => f x :: l
  | x :: l, S i => x :: upd i f l
  end.

(** The integer the limbs stand for. *)
Fixpoint val (l : list Z) : Z :=
  match l with [] => 0 | x :: l => x + 268435456 * val l end.

Definition Add (a b : t) : t := zip_with (fun x y => u32 (x + y)) a b.

Definition kTwo31p3 : Z := 2 ^ 31 + 2 ^ 3.
Definition kTwo31m3 : Z := 2 ^ 31 - 2 ^ 3.
Definition kTwo31m15m3 : Z := 2 ^ 31 - 2 ^ 15 - 2 ^ 3.

Definition kZero31ModP : t :=
  [kTwo31p3; kTwo31m3; kTwo31m3; kTwo31m15m3; kTwo31m3; kTwo31m3; kTwo31m3; kTwo31m3].

Definition Subtract (a b : t) : t :=
  zip_with (fun s y => u32 (s - y)) (zip_with (fun x z => u32 (x + z)) a kZero31ModP) b.

Definition kTwo63p35 : Z := 2 ^ 63 + 2 ^ 35.
Definition kTwo63m35 : Z := 2 ^ 63 - 2 ^ 35.
Definition kTwo63m35m19 : Z := 2 ^ 63 - 2 ^ 35 - 2 ^ 19.

Definition kZero63ModP : list Z :=
  [kTwo63p35; kTwo63m35; kTwo63m35; kTwo63m35; kTwo63m35m19; kTwo63m35; kTwo63m35; kTwo63m35].

Definition kBottom28Bits : Z := 0xfffffff.

(** ** [ReduceLarge] *)

Definition add_zero63 (l : list Z) : list Z :=
  foldl (fun l i => upd i (fun x => u64 (x + at_ kZero63ModP i)) l) l (seq 0 8).

(** The limb at [28 i] bits folded onto three lower ones. *)
Definition reflect (l : list Z) (i : nat) : list Z :=
  let x := at_ l i in
  let l := upd (i - 8) (fun y => u64 (y - x)) l in
  let l := upd (i - 5) (fun y => u64 (y + u64 (Z.shiftl (Z.land x 0xffff) 12))) l in
  upd (i - 4) (fun y => u64 (y + Z.shiftr x 16)) l.

Definition reflect_all (l : list Z) : list Z :=
  upd 8 (fun _ => 0) (foldl reflect l [14; 13; 12; 11; 10; 9; 8]%nat).

(** [in[i+1] += in[i] >> 28; out[i] = in[i] & kBottom28Bits]. *)
Definition carry_out (s : list Z * t) (i : nat) : list Z * t :=
  let '(l, out) := s in
  (upd (i + 1) (fun y => u64 (y + Z.shiftr (at_ l i) 28)) l,
   upd i (fun _ => u32 (Z.land (at_ l i) kBottom28Bits)) out).

Definition fold_top (s : list Z * t) : t :=
  let '(l, out) := s in
  let top := at_ l 8 in
  let x := u64 (at_ l 0 - top) in
  let out := upd 3 (fun y => u32 (y + u32 (Z.shiftl (u32 (Z.land top 0xffff)) 12))) out in
  let out := upd 4 (fun y => u32 (y + u32 (Z.shiftr top 16))) out in
  let out := upd 0 (fun _ => u32 (Z.land x kBottom28Bits)) out in
  let out := upd 1 (fun y => u32 (y + u32 (Z.land (Z.shiftr x 28) kBottom28Bits))) out in
  upd 2 (fun y => u32 (y + u32 (Z.shiftr x 56))) out.

(** The words of [out] are all assigned, so they start as anything. *)
Definition ReduceLarge (l : list Z) : t :=
  fold_top (foldl carry_out (reflect_all (add_zero63 l), replicate 8 0) (seq 1 7)).

(** ** Products *)

Definition mul_row (b : t) (x : Z) (tmp : list Z) (i : nat) : list Z :=
  foldl (fun tmp j => upd (i + j) (fun y => u64 (y + u64 (x * at_ b j))) tmp) tmp (seq 0 8).

Definition Mul (a b : t) : t :=
  ReduceLarge (foldl (fun tmp i => mul_row b (at_ a i) tmp i) (replicate 15 0) (seq 0 8)).

Definition square_row (a : t) (tmp : list Z) (i : nat) : list Z :=
  foldl (fun tmp j =>
    let r := u64 (at_ a i * at_ a j) in
    upd (i + j) (fun y => u64 (y + (if (i =? j)%nat then r else u64 (Z.shiftl r 1)))) tmp)
    tmp (seq 0 (i + 1)).

Definition Square (a : t) : t :=
  ReduceLarge (foldl (square_row a) (replicate 15 0) (seq 0 8)).

(** ** [Reduce] *)

(** [a[i+1] += a[i] >> 28; a[i] &= kBottom28Bits]. *)
Definition carry (a : t) (i : nat) : t :=
  let x := at_ a i in
  upd i (fun _ => Z.land x kBottom28Bits) (upd (i + 1) (fun y => u32 (y + Z.shiftr x 28)) a).

(** [(int32)x >> 31], as a [uint32]. *)
Definition sign_mask (x : Z) : Z := u32 (Z.shiftr (i32 x) 31).

Definition nonzero_mask (top : Z) : Z :=
  let mask := top in
  let mask := Z.lor mask (Z.shiftr mask 2) in
  let mask := Z.lor mask (Z.shiftr mask 1) in
  sign_mask (u32 (Z.shiftl mask 31)).

(** The words 0 and 3 with [top] taken off 2^224. *)
Definition eliminate_top (top : Z) (a : t) : t :=
  upd 3 (fun y => u32 (y + u32 (Z.shiftl top 12))) (upd 0 (fun y => u32 (y - top)) a).

Definition Reduce (a : t) : t :=
  let a := foldl carry a (seq 0 7) in
  let top := Z.shiftr (at_ a 7) 28 in
  let a := upd 7 (fun y => Z.land y kBottom28Bits) a in
  let mask := nonzero_mask top in
  let a := eliminate_top top a in
  let a := upd 3 (fun y => u32 (y - Z.land 1 mask)) a in
  let a := upd 2 (fun y => u32 (y + Z.land mask (2 ^ 28 - 1))) a in
  let a := upd 1 (fun y => u32 (y + Z.land mask (2 ^ 28 - 1))) a in
  upd 0 (fun y => u32 (y + Z.land mask (2 ^ 28))) a.

(** ** [Invert] *)

Definition squares (n : nat) (a : t) : t := Nat.iter n Square a.

Definition Invert (in_ : t) : t :=
  let f1 := Square in_ in
  let f1 := Mul f1 in_ in
  let f1 := Square f1 in
  let f1 := Mul f1 in_ in
  let f2 := Square f1 in
  let f2 := Square f2 in
  let f2 := Square f2 in
  let f1 := Mul f1 f2 in
  let f2 := Square f1 in
  let f2 := squares 5 f2 in
  let f2 := Mul f2 f1 in
  let f3 := Square f2 in
  let f3 := squares 11 f3 in
  let f2 := Mul f3 f2 in
  let f3 := Square f2 in
  let f3 := squares 23 f3 in
  let f3 := Mul f3 f2 in
  let f4 := Square f3 in
  let f4 := squares 47 f4 in
  let f3 := Mul f3 f4 in
  let f4 := Square f3 in
  let f4 := squares 23 f4 in
  let f2 := Mul f4 f2 in
  let f2 := squares 6 f2 in
  let f1 := Mul f1 f2 in
  let f1 := Square f1 in
  let f1 := Mul f1 in_ in
  let f1 := squares 97 f1 in
  Mul f1 f3.

(** ** Words *)

Lemma land_low28 x : Z.land x kBottom28Bits = x mod 268435456.
Proof. change kBottom28Bits with (Z.ones 28). by rewrite Z.land_ones. Qed.

Lemma land_low16 x : Z.land x 0xffff = x mod 65536.
Proof. change 0xffff with (Z.ones 16). by rewrite Z.land_ones. Qed.

Lemma shiftr28 x : Z.shiftr x 28 = x / 268435456.
Proof. by rewrite Z.shiftr_div_pow2. Qed.

Lemma shiftr16 x : Z.shiftr x 16 = x / 65536.
Proof. by rewrite Z.shiftr_div_pow2. Qed.

Lemma shiftr56 x : Z.shiftr x 56 = x / 72057594037927936.
Proof. by rewrite Z.shiftr_div_pow2. Qed.

Lemma shiftl12 x : Z.shiftl x 12 = x * 4096.
Proof. by rewrite Z.shiftl_mul_pow2. Qed.

Lemma u64_id x : 0 <= x < 18446744073709551616 -> u64 x = x.
Proof. intros. apply u64_small. lia. Qed.

Lemma u32_id x : 0 <= x < 4294967296 -> u32 x = x.
Proof. intros. apply u32_small. lia. Qed.

Lemma u32_add_l x y : u32 (u32 x + y) = u32 (x + y).
Proof. apply Zplus_mod_idemp_l. Qed.

(** Quotient and remainder as fresh variables. *)
Ltac split_div x d q r :=
  pose proof (Z.div_mod x d ltac:(lia)); pose proof (Z.mod_pos_bound x d ltac:(lia));
  set (q := x / d) in *; set (r := x mod d) in *; clearbody q r.

(** Take off the innermost word operation, which does not wrap. *)
Ltac peel :=
  match goal with
  | |- context [u64 ?e] =>
      lazymatch e with
      | context [u64 _] => fail | context [u32 _] => fail
      | _ => rewrite (u64_id e) by lia
      end
  | |- context [u32 ?e] =>
      lazymatch e with
      | context [u64 _] => fail | context [u32 _] => fail
      | _ => rewrite (u32_id e) by lia
      end
  end.

(** The prime as a numeral, for linear arithmetic. *)
Lemma P_literal : P = 26959946667150639794667015087019630673557916260026308143510066298881.
Proof. reflexivity. Qed.

(** A list of [n] words below a bound. *)
Definition words (n : nat) (bound : Z) (l : list Z) : Prop :=
  length l = n /\ Forall (fun x => 0 <= x < bound) l.

(** The elements of a [words] hypothesis, with their ranges. *)
Ltac explode H :=
  let Hl := fresh "Hl" in let Hb := fresh "Hb" in
  destruct H as [Hl Hb];
  repeat match type of Hl with
  | length ?l = S _ =>
      is_var l; let x := fresh "x" in let Hx := fresh "Hx" in
      destruct l as [|x l]; [discriminate Hl|]; apply Forall_cons in Hb as [Hx Hb];
      cbn [length] in Hl; injection Hl as Hl
  | length ?l = O => apply nil_length_inv in Hl; subst l; clear Hb
  end.

(** Equality modulo the prime, with the quotient given. *)
Lemma mod_shift a b k : a = b + k * P -> a mod P = b mod P.
Proof. intros ->. by rewrite Z.mod_add. Qed.

(** ** [ReduceLarge] *)

Lemma add_zero63_spec x0 x1 x2 x3 x4 x5 x6 x7 l :
  Forall (fun x => 0 <= x < 4611686018427387904) [x0; x1; x2; x3; x4; x5; x6; x7] ->
  add_zero63 (x0 :: x1 :: x2 :: x3 :: x4 :: x5 :: x6 :: x7 :: l) =
    x0 + 9223372071214514176 :: x1 + 9223372002495037440 :: x2 + 9223372002495037440 ::
    x3 + 9223372002495037440 :: x4 + 9223372002494513152 :: x5 + 9223372002495037440 ::
    x6 + 9223372002495037440 :: x7 + 9223372002495037440 :: l.
Proof.
  intros Hall. repeat (apply Forall_cons in Hall as [? Hall]).
  unfold add_zero63. cbn [foldl seq upd at_ nth kZero63ModP].
  unfold kTwo63p35, kTwo63m35, kTwo63m35m19.
  change (2 ^ 63 + 2 ^ 35) with 9223372071214514176.
  change (2 ^ 63 - 2 ^ 35) with 9223372002495037440.
  change (9223372002495037440 - 2 ^ 19) with 9223372002494513152.
  by repeat peel.
Qed.

(** Unfold the innermost [reflect]: none of its words wraps. *)
Ltac reflect_step :=
  match goal with |- context [reflect ?l ?i] =>
    lazymatch l with
    | context [reflect _ _] => fail
    | _ =>
        let x := eval cbn [at_ nth] in (at_ l i) in
        let r := eval cbv beta zeta iota delta [reflect upd at_ nth Nat.sub] in (reflect l i) in
        change (reflect l i) with r;
        rewrite land_low16, shiftl12, shiftr16;
        let q := fresh "q" in let r := fresh "r" in split_div x 65536 q r; repeat peel
    end
  end.

(** After the reflections: the first eight words, none negative, and the ninth
    zero. *)
Record reflected (l : list Z) (y0 y1 y2 y3 y4 y5 y6 y7 : Z) : Prop := {
  ref_list : exists rest, reflect_all (add_zero63 l) =
    y0 :: y1 :: y2 :: y3 :: y4 :: y5 :: y6 :: y7 :: 0 :: rest;
  ref_low : 2 ^ 61 <= y0 < 2 ^ 64;
  ref_words : Forall (fun y => 0 <= y < 2 ^ 64 - 2 ^ 37) [y1; y2; y3; y4; y5; y6; y7];
  ref_val : exists k, val [y0; y1; y2; y3; y4; y5; y6; y7] = val l + k * P
}.

Lemma reflect_all_spec l :
  words 15 4611686018427387904 l -> exists y0 y1 y2 y3 y4 y5 y6 y7, reflected l y0 y1 y2 y3 y4 y5 y6 y7.
Proof.
  intros H. explode H.
  assert (Heq : exists y0 y1 y2 y3 y4 y5 y6 y7 rest w8 w9 w10,
    reflect_all (add_zero63 [x; x0; x1; x2; x3; x4; x5; x6; x7; x8; x9; x10; x11; x12; x13]) =
      y0 :: y1 :: y2 :: y3 :: y4 :: y5 :: y6 :: y7 :: 0 :: rest /\
    2 ^ 61 <= y0 < 2 ^ 64 /\
    Forall (fun y => 0 <= y < 2 ^ 64 - 2 ^ 37) [y1; y2; y3; y4; y5; y6; y7] /\
    val [y0; y1; y2; y3; y4; y5; y6; y7] =
      val [x; x0; x1; x2; x3; x4; x5; x6; x7; x8; x9; x10; x11; x12; x13] +
      (34359738368 - val [w8; w9; w10; x10; x11; x12; x13]) * P).
  { rewrite add_zero63_spec by (repeat constructor; lia).
    unfold reflect_all. cbn [foldl]. do 7 reflect_step. cbn [upd].
    do 9 eexists. exists (x7 + r0 * 4096 + q1), (x8 + r * 4096 + q0), (x9 + q).
    split; [reflexivity|]. split; [lia|]. split; [repeat constructor; lia|].
    cbn [val]. rewrite P_literal. lia. }
  destruct Heq as (y0 & y1 & y2 & y3 & y4 & y5 & y6 & y7 & rest & w8 & w9 & w10 & H1 & H2 & H3 & H4).
  exists y0, y1, y2, y3, y4, y5, y6, y7. split; [by exists rest|done|done|by eexists].
Qed.

(** The innermost step of the carry loop. *)
Ltac carry_out_step :=
  match goal with |- context [carry_out (?l, ?o) ?i] =>
    let x := eval cbn [at_ nth] in (at_ l i) in
    let r := eval cbv beta zeta iota delta [carry_out upd at_ nth Nat.add] in (carry_out (l, o) i) in
    change (carry_out (l, o) i) with r;
    rewrite land_low28, shiftr28;
    let q := fresh "q" in let r := fresh "r" in split_div x 268435456 q r; repeat peel
  end.

(** The bounds of a product's words: looser than 28 bits where the last reflection
    lands, tighter than 29 bits. *)
Definition tight (a : t) : Prop :=
  Forall2 (fun x b => 0 <= x < b) a
    [2 ^ 28; 2 ^ 29 - 1; 2 ^ 28 + 2 ^ 8; 2 ^ 29 - 2 ^ 12; 2 ^ 28 + 2 ^ 20; 2 ^ 28; 2 ^ 28; 2 ^ 28].

Lemma div_2_56 x : x / 72057594037927936 = x / 268435456 / 268435456.
Proof. by rewrite Z.div_div. Qed.

Lemma ReduceLarge_spec l :
  words 15 4611686018427387904 l ->
  tight (ReduceLarge l) /\ val (ReduceLarge l) mod P = val l mod P.
Proof.
  intros H. destruct (reflect_all_spec l H) as (y0 & y1 & y2 & y3 & y4 & y5 & y6 & y7 & [(rest & E) H0 Hw (k & Hv)]).
  repeat (apply Forall_cons in Hw as [? Hw]). clear Hw. unfold ReduceLarge. rewrite E.
  cbn [foldl seq replicate]. do 7 carry_out_step.
  unfold fold_top. cbn [upd at_ nth].
  rewrite !land_low28, land_low16, shiftl12, shiftr16, shiftr28, shiftr56, div_2_56.
  match goal with |- context [?b mod 65536] => set (top := b); split_div top 65536 tq tr end.
  peel. split_div (y0 - top) 268435456 lo1 lo0. split_div lo1 268435456 hi mid.
  repeat peel. split; [repeat constructor; lia|].
  apply (mod_shift _ _ (k - top)). cbn [val] in Hv |- *. rewrite P_literal in *. lia.
Qed.

(** ** Products *)

(** Words at most [n]. *)
Definition upto (len : nat) (n : Z) (l : list Z) : Prop :=
  length l = len /\ Forall (fun x => 0 <= x <= n) l.

Definition B : Z := 268435456.

Lemma words_at len n l i : words len n l -> (i < len)%nat -> 0 <= at_ l i < n.
Proof.
  intros [Hl Hn] Hi. unfold at_. destruct (lookup_lt_is_Some_2 l i ltac:(lia)) as [x Hx].
  rewrite (nth_lookup_Some _ _ _ _ Hx). rewrite Forall_lookup in Hn. by eapply Hn.
Qed.

Lemma val_app l m : val (l ++ m) = val l + B ^ Z.of_nat (length l) * val m.
Proof.
  induction l as [|x l IH]; cbn [app val length]; [lia|].
  rewrite IH, Nat2Z.inj_succ, Z.pow_succ_r by lia. unfold B. ring.
Qed.

Lemma val_take_S l i : (i < length l)%nat ->
  val (take (S i) l) = val (take i l) + B ^ Z.of_nat i * at_ l i.
Proof.
  intros Hi. destruct (lookup_lt_is_Some_2 l i Hi) as [x Hx].
  rewrite (take_S_r l i x Hx), val_app, length_take, Nat.min_l by lia. cbn [val].
  unfold at_. rewrite (nth_lookup_Some _ _ _ _ Hx). lia.
Qed.

(** Literal powers of the base, and words one by one. *)
Ltac eval_powers :=
  repeat match goal with |- context [B ^ Z.of_nat ?k] =>
    let v := eval vm_compute in (B ^ Z.of_nat k) in change (B ^ Z.of_nat k) with v
  end.

Ltac solve_forall :=
  repeat match goal with
  | |- Forall _ (_ :: _) => apply Forall_cons; split; [lia|]
  | |- Forall _ [] => apply Forall_nil_2
  end.

(** A row of the product: eight terms, each in its own word. *)
Lemma mul_row_spec i b x tmp M N :
  (i < 8)%nat -> length b = 8%nat -> Forall (fun y => 0 <= x * y <= M) b ->
  upto 15 N tmp -> 0 <= M -> 0 <= N -> N + M < 18446744073709551616 ->
  upto 15 (N + M) (mul_row b x tmp i) /\
  val (mul_row b x tmp i) = val tmp + B ^ Z.of_nat i * (x * val b).
Proof.
  intros Hi Hb Hall Htmp HM HN Hmax.
  destruct b as [|b0 [|b1 [|b2 [|b3 [|b4 [|b5 [|b6 [|b7 [|? ?]]]]]]]]]; try discriminate Hb.
  repeat (apply Forall_cons in Hall as [? Hall]). clear Hall. explode Htmp.
  assert (Hgoal : forall r, mul_row [b0; b1; b2; b3; b4; b5; b6; b7] x
      [x0; x1; x2; x3; x4; x5; x6; x7; x8; x9; x10; x11; x12; x13; x14] i = r ->
    Forall (fun y => 0 <= y <= N + M) r /\ length r = 15%nat /\
    val r = val [x0; x1; x2; x3; x4; x5; x6; x7; x8; x9; x10; x11; x12; x13; x14]
      + B ^ Z.of_nat i * (x * val [b0; b1; b2; b3; b4; b5; b6; b7])).
  2: { destruct (Hgoal _ eq_refl) as (? & ? & ?). by split. }
  intros r <-. unfold mul_row. cbn [foldl seq at_ nth].
  do 8 (destruct i as [|i]; [cbn [upd Nat.add]; repeat peel; split; [solve_forall|];
    split; [done|]; eval_powers; cbn [val]; ring|]).
  lia.
Qed.

Lemma square_row_spec i a tmp M N :
  (i < 8)%nat -> length a = 8%nat -> Forall (fun y => 0 <= at_ a i * y <= M) a ->
  upto 15 N tmp -> 0 <= M -> 0 <= N -> N + 2 * M < 18446744073709551616 ->
  upto 15 (N + 2 * M) (square_row a tmp i) /\
  val (square_row a tmp i) =
    val tmp + B ^ Z.of_nat i * at_ a i * (2 * val (take i a) + B ^ Z.of_nat i * at_ a i).
Proof.
  intros Hi Ha Hall Htmp HM HN Hmax.
  destruct a as [|a0 [|a1 [|a2 [|a3 [|a4 [|a5 [|a6 [|a7 [|? ?]]]]]]]]]; try discriminate Ha.
  repeat (apply Forall_cons in Hall as [? Hall]). clear Hall. explode Htmp.
  assert (Hgoal : forall r, square_row [a0; a1; a2; a3; a4; a5; a6; a7]
      [x; x0; x1; x2; x3; x4; x5; x6; x7; x8; x9; x10; x11; x12; x13] i = r ->
    Forall (fun y => 0 <= y <= N + 2 * M) r /\ length r = 15%nat /\
    val r = val [x; x0; x1; x2; x3; x4; x5; x6; x7; x8; x9; x10; x11; x12; x13]
      + B ^ Z.of_nat i * at_ [a0; a1; a2; a3; a4; a5; a6; a7] i *
        (2 * val (take i [a0; a1; a2; a3; a4; a5; a6; a7]) + B ^ Z.of_nat i * at_ [a0; a1; a2; a3; a4; a5; a6; a7] i)).
  2: { destruct (Hgoal _ eq_refl) as (? & ? & ?). by split. }
  intros r <-. unfold square_row.
  do 8 (destruct i as [|i]; [cbn [foldl seq Nat.add Nat.eqb at_ nth upd take] in *;
    rewrite ?Z.shiftl_mul_pow2 by lia; change (2 ^ 1) with 2; repeat peel;
    split; [solve_forall|]; split; [done|]; eval_powers; cbn [val]; ring|]).
  lia.
Qed.

(** The products summed row by row, for words with [m * n] at most 2^59. *)
Lemma mul_rows_spec m n a b k :
  words 8 m a -> words 8 n b -> 0 <= m -> 0 <= n -> m * n <= 2 ^ 59 -> (k <= 8)%nat ->
  let tmp := foldl (fun tmp i => mul_row b (at_ a i) tmp i) (replicate 15 0) (seq 0 k) in
  upto 15 (Z.of_nat k * ((m - 1) * (n - 1))) tmp /\ val tmp = val (take k a) * val b.
Proof.
  intros [Hla Ha] [Hlb Hb] Hm Hn Hmn Hk. induction k as [|k IH]; cbv zeta.
  { split; [split; [done|by repeat constructor]|done]. }
  rewrite seq_S, foldl_app. cbn [foldl Nat.add]. cbv zeta in IH.
  destruct (IH ltac:(lia)) as [Hu Hv]. set (tmp := foldl _ _ _) in *.
  pose proof (words_at 8 m a k (conj Hla Ha) ltac:(lia)) as Hx.
  assert (0 <= n - 1) by (destruct b as [|y b]; [done|]; apply Forall_cons in Hb as [? _]; lia).
  assert (HM : 0 <= (m - 1) * (n - 1) <= 2 ^ 59) by nia.
  assert (HN : 0 <= Z.of_nat k * ((m - 1) * (n - 1)) <= 7 * 2 ^ 59).
  { split; [apply Z.mul_nonneg_nonneg; lia|apply Z.mul_le_mono_nonneg; lia]. }
  destruct (mul_row_spec k b (at_ a k) tmp ((m - 1) * (n - 1)) (Z.of_nat k * ((m - 1) * (n - 1)))
    ltac:(lia) Hlb) as [Hu' Hv']; [|exact Hu|lia|lia|lia|].
  { eapply Forall_impl; [exact Hb|]. intros y Hy. cbn beta in Hy. nia. }
  split.
  - destruct Hu' as [? Hu']. split; [done|]. eapply Forall_impl; [exact Hu'|]. intros y Hy. cbn beta in Hy. lia.
  - rewrite Hv', Hv, val_take_S by lia. ring.
Qed.

Lemma square_rows_spec a k :
  words 8 (2 ^ 29) a -> (k <= 8)%nat ->
  let tmp := foldl (square_row a) (replicate 15 0) (seq 0 k) in
  upto 15 (Z.of_nat k * (2 * ((2 ^ 29 - 1) * (2 ^ 29 - 1)))) tmp /\ val tmp = val (take k a) * val (take k a).
Proof.
  intros [Hla Ha] Hk. induction k as [|k IH]; cbv zeta.
  { split; [split; [done|by repeat constructor]|done]. }
  rewrite seq_S, foldl_app. cbn [foldl Nat.add]. cbv zeta in IH.
  destruct (IH ltac:(lia)) as [Hu Hv]. set (tmp := foldl _ _ _) in *.
  pose proof (words_at 8 (2 ^ 29) a k (conj Hla Ha) ltac:(lia)) as Hx.
  destruct (square_row_spec k a tmp ((2 ^ 29 - 1) * (2 ^ 29 - 1))
    (Z.of_nat k * (2 * ((2 ^ 29 - 1) * (2 ^ 29 - 1)))) ltac:(lia) Hla) as [Hu' Hv'];
    [|exact Hu|lia|lia|lia|].
  { eapply Forall_impl; [exact Ha|]. intros y Hy. cbn beta in Hy. nia. }
  split.
  - destruct Hu' as [? Hu']. split; [done|]. eapply Forall_impl; [exact Hu'|]. intros y Hy. cbn beta in Hy. lia.
  - rewrite Hv', Hv, val_take_S by lia. ring.
Qed.

Lemma upto_words len n m l : upto len n l -> n < m -> words len m l.
Proof. intros [? Hl] Hn. split; [done|]. eapply Forall_impl; [exact Hl|]. cbn. lia. Qed.

Lemma rows_bound m n :
  0 <= m -> 0 <= n -> m * n <= 2 ^ 59 -> Z.of_nat 8 * ((m - 1) * (n - 1)) < 4611686018427387904.
Proof. intros. change (Z.of_nat 8) with 8. nia. Qed.

(** The product of words whose bounds multiply to at most 2^59. *)
Lemma Mul_bounds m n a b :
  words 8 m a -> words 8 n b -> 0 <= m -> 0 <= n -> m * n <= 2 ^ 59 ->
  tight (Mul a b) /\ val (Mul a b) mod P = (val a * val b) mod P.
Proof.
  intros Ha Hb Hm Hn Hmn. destruct (mul_rows_spec m n a b 8 Ha Hb Hm Hn Hmn ltac:(lia)) as [Hu Hv].
  destruct (ReduceLarge_spec _ (upto_words _ _ 4611686018427387904 _ Hu (rows_bound m n Hm Hn Hmn))) as [Ht Hr].
  split; [exact Ht|]. unfold Mul. rewrite Hr, Hv. rewrite take_ge; [done|]. destruct Ha. lia.
Qed.

Lemma Square_spec a :
  words 8 (2 ^ 29) a ->
  tight (Square a) /\ val (Square a) mod P = (val a * val a) mod P.
Proof.
  intros Ha. destruct (square_rows_spec a 8 Ha ltac:(lia)) as [Hu Hv].
  destruct (ReduceLarge_spec _ (upto_words _ _ 4611686018427387904 _ Hu ltac:(lia))) as [Ht Hr].
  split; [exact Ht|]. unfold Square. rewrite Hr, Hv. rewrite take_ge; [done|]. destruct Ha. lia.
Qed.

(** ** Sums, differences and [Reduce] *)

Lemma val_zip_with f k a b :
  length a = length b -> (forall i, (i < length a)%nat -> f (at_ a i) (at_ b i) = at_ a i + k * at_ b i) ->
  val (zip_with f a b) = val a + k * val b.
Proof.
  revert b. induction a as [|x a IH]; intros [|y b] Hl Hf; try done; [cbn; lia|].
  cbn [zip_with val]. rewrite (IH b).
  - pose proof (Hf 0%nat ltac:(cbn; lia)) as H0. cbn in H0. rewrite H0. ring.
  - cbn in Hl. lia.
  - intros i Hi. exact (Hf (S i) ltac:(cbn; lia)).
Qed.

Lemma words_zip_with len f m a b :
  length a = len -> length b = len -> (forall i, (i < len)%nat -> 0 <= f (at_ a i) (at_ b i) < m) ->
  words len m (zip_with f a b).
Proof.
  revert b len. induction a as [|x a IH]; intros [|y b] len Ha Hb Hf; cbn in Ha, Hb; subst; try done.
  destruct (IH b (length a) eq_refl ltac:(congruence)) as [Hl Hw].
  { intros i Hi. exact (Hf (S i) ltac:(lia)). }
  split; cbn; [by rewrite Hl|]. constructor; [exact (Hf 0%nat ltac:(lia))|done].
Qed.

Lemma Add_spec m n a b :
  words 8 m a -> words 8 n b -> m + n <= 2 ^ 32 ->
  words 8 (m + n) (Add a b) /\ val (Add a b) = val a + val b.
Proof.
  intros Ha Hb Hmn. pose proof (proj1 Ha). pose proof (proj1 Hb). split.
  - apply words_zip_with; [done|done|]. intros i Hi.
    pose proof (words_at _ _ _ _ Ha Hi). pose proof (words_at _ _ _ _ Hb Hi). rewrite u32_id; lia.
  - unfold Add. rewrite (val_zip_with _ 1); [ring|congruence|]. intros i Hi.
    pose proof (words_at _ _ _ i Ha ltac:(lia)). pose proof (words_at _ _ _ i Hb ltac:(lia)).
    rewrite u32_id; lia.
Qed.

Lemma words_kZero31 i : (i < 8)%nat -> 2 ^ 30 <= at_ kZero31ModP i <= 2 ^ 31 + 2 ^ 3.
Proof. intros. do 8 (destruct i as [|i]; [vm_compute; split; congruence|]). lia. Qed.

Lemma val_kZero31 : val kZero31ModP = 8 * P.
Proof. reflexivity. Qed.

Lemma Subtract_spec a b :
  words 8 (2 ^ 30) a -> words 8 (2 ^ 30) b ->
  words 8 (2 ^ 31 + 2 ^ 30 + 2 ^ 3) (Subtract a b) /\ val (Subtract a b) mod P = (val a - val b) mod P.
Proof.
  intros Ha Hb. pose proof (proj1 Ha) as La. pose proof (proj1 Hb) as Lb.
  destruct (Add_spec (2 ^ 30) (2 ^ 31 + 2 ^ 3 + 1) a kZero31ModP Ha) as [Hs Hv]; [|lia|].
  { split; [done|]. apply Forall_lookup. intros i x Hx. pose proof (lookup_lt_Some _ _ _ Hx) as Hi.
    pose proof (words_kZero31 i Hi) as Hz. unfold at_ in Hz. rewrite (nth_lookup_Some _ _ _ _ Hx) in Hz. lia. }
  assert (Hd : forall i, (i < 8)%nat -> 2 ^ 30 <= at_ (Add a kZero31ModP) i <= 2 ^ 31 + 2 ^ 30 + 7).
  { intros i Hi. pose proof (words_at _ _ _ i Ha Hi). pose proof (words_kZero31 i Hi).
    assert (E : at_ (Add a kZero31ModP) i = at_ a i + at_ kZero31ModP i); [|lia].
    unfold at_ in *. destruct (lookup_lt_is_Some_2 a i ltac:(lia)) as [x Hx].
    destruct (lookup_lt_is_Some_2 kZero31ModP i ltac:(cbn; lia)) as [z Hz].
    rewrite (nth_lookup_Some _ _ _ _ Hx), (nth_lookup_Some _ _ _ _ Hz) in *.
    apply nth_lookup_Some. unfold Add. rewrite lookup_zip_with, Hx, Hz. cbn. f_equal. apply u32_id. lia. }
  change (Subtract a b) with (zip_with (fun s y => u32 (s - y)) (Add a kZero31ModP) b). split.
  - apply words_zip_with; [apply Hs|done|]. intros i Hi.
    pose proof (words_at _ _ _ _ Hb Hi). pose proof (Hd i Hi). rewrite u32_id; lia.
  - rewrite (val_zip_with _ (-1)).
    + apply (mod_shift _ _ 8). rewrite Hv, val_kZero31. ring.
    + destruct Hs. lia.
    + intros i Hi. destruct Hs as [Ls _]. rewrite Ls in Hi.
      pose proof (words_at _ _ _ _ Hb Hi). pose proof (Hd i Hi). rewrite u32_id; lia.
Qed.

Ltac carry_step :=
  match goal with |- context [carry ?l ?i] =>
    lazymatch l with
    | context [carry _ _] => fail
    | _ =>
      let x := eval cbn [at_ nth] in (at_ l i) in
      let r := eval cbv beta zeta iota delta [carry upd at_ nth Nat.add] in (carry l i) in
      change (carry l i) with r;
      rewrite (land_low28 x), (shiftr28 x);
      let q := fresh "q" in let r := fresh "r" in split_div x 268435456 q r; repeat peel
    end
  end.

(** The carries of the first seven words leave them below 2^28. *)
Lemma carries_spec a :
  words 8 (2 ^ 32 - 15) a ->
  exists y0 y1 y2 y3 y4 y5 y6 y7,
    foldl carry a (seq 0 7) = [y0; y1; y2; y3; y4; y5; y6; y7] /\
    Forall (fun y => 0 <= y < 268435456) [y0; y1; y2; y3; y4; y5; y6] /\
    0 <= y7 < 2 ^ 32 /\ y7 <= at_ a 7 + 15 /\ val [y0; y1; y2; y3; y4; y5; y6; y7] = val a.
Proof.
  intros H. explode H. cbn [foldl seq]. do 7 carry_step.
  do 8 eexists. split; [reflexivity|]. split; [repeat constructor; lia|].
  cbn [at_ nth val]. lia.
Qed.

Lemma nonzero_mask_spec top :
  0 <= top < 16 -> nonzero_mask top = if top =? 0 then 0 else 0xffffffff.
Proof.
  intros H. assert (Hall : forallb (fun t => nonzero_mask t =? if t =? 0 then 0 else 0xffffffff)
    (map Z.of_nat (seq 0 16)) = true) by reflexivity.
  rewrite forallb_forall in Hall. apply Z.eqb_eq, Hall.
  rewrite <- (Z2Nat.id top) by lia. apply in_map, in_seq. lia.
Qed.

Lemma Reduce_spec a :
  words 8 (2 ^ 32 - 15) a ->
  words 8 (2 ^ 29) (Reduce a) /\ val (Reduce a) mod P = val a mod P.
Proof.
  intros H. destruct (carries_spec a H) as (y0 & y1 & y2 & y3 & y4 & y5 & y6 & y7 & E & Hy & H7 & _ & <-).
  repeat (apply Forall_cons in Hy as [? Hy]). unfold Reduce. rewrite E. clear E Hy H.
  cbn [at_ nth upd]. rewrite shiftr28, land_low28.
  split_div y7 268435456 hi lo.
  rewrite nonzero_mask_spec by lia. unfold eliminate_top. rewrite shiftl12. cbn [upd].
  destruct (Z.eqb_spec hi 0) as [->|Htop].
  - change (Z.land 1 0) with 0. rewrite !Z.land_0_l. repeat peel.
    split; [split; [done|repeat constructor; lia]|]. apply (mod_shift _ _ 0). cbn [val]. lia.
  - change (Z.land 1 4294967295) with 1. change (Z.land 4294967295 (2 ^ 28 - 1)) with 268435455.
    change (Z.land 4294967295 (2 ^ 28)) with 268435456.
    rewrite u32_add_l. repeat peel. split; [split; [done|repeat constructor; lia]|].
    apply (mod_shift _ _ (- hi)). cbn [val]. rewrite P_literal. lia.
Qed.

(** ** The field *)

(** The residue an element stands for. *)
Definition fe (a : t) : Zmod P := Zmod.of_Z P (val a).

(** The words of an element that every function takes and returns. *)
Definition wf (a : t) : Prop := words 8 (2 ^ 29) a.

Add Field residues : (Zmod.field_theory P prime_modulus).

Lemma fe_eq a x : val a mod P = x mod P -> fe a = Zmod.of_Z P x.
Proof. apply Zmod.of_Z_inj. Qed.

Lemma words_weaken n m m' l : words n m l -> m <= m' -> words n m' l.
Proof. intros [? Hl] Hm. split; [done|]. eapply Forall_impl; [exact Hl|]. cbn. lia. Qed.

Lemma tight_wf a : tight a -> wf a.
Proof.
  intros H. unfold tight in H.
  repeat (apply Forall2_cons_inv_r in H as (? & ? & ? & H & ->)). apply Forall2_nil_inv_r in H as ->.
  split; [done|]. repeat constructor; lia.
Qed.

Lemma fe_Mul m n a b :
  words 8 m a -> words 8 n b -> 0 <= m -> 0 <= n -> m * n <= 2 ^ 59 ->
  tight (Mul a b) /\ fe (Mul a b) = Zmod.mul (fe a) (fe b).
Proof.
  intros Ha Hb Hm Hn Hmn. destruct (Mul_bounds m n a b Ha Hb Hm Hn Hmn) as [Ht Hv].
  split; [done|]. by rewrite (fe_eq _ _ Hv), Zmod.of_Z_mul.
Qed.

Lemma fe_Square a : wf a -> tight (Square a) /\ fe (Square a) = Zmod.mul (fe a) (fe a).
Proof.
  intros Ha. destruct (Square_spec a Ha) as [Ht Hv].
  split; [done|]. by rewrite (fe_eq _ _ Hv), Zmod.of_Z_mul.
Qed.

Lemma fe_Reduce a : words 8 (2 ^ 32 - 15) a -> wf (Reduce a) /\ fe (Reduce a) = fe a.
Proof. intros Ha. destruct (Reduce_spec a Ha) as [Ht Hv]. split; [done|]. by rewrite (fe_eq _ _ Hv). Qed.

Lemma fe_Add m n a b :
  words 8 m a -> words 8 n b -> m + n <= 2 ^ 32 ->
  words 8 (m + n) (Add a b) /\ fe (Add a b) = Zmod.add (fe a) (fe b).
Proof.
  intros Ha Hb Hmn. destruct (Add_spec m n a b Ha Hb Hmn) as [Hw Hv].
  split; [done|]. unfold fe. by rewrite Hv, Zmod.of_Z_add.
Qed.

Lemma fe_Subtract a b :
  words 8 (2 ^ 30) a -> words 8 (2 ^ 30) b ->
  words 8 (2 ^ 31 + 2 ^ 30 + 2 ^ 3) (Subtract a b) /\ fe (Subtract a b) = Zmod.sub (fe a) (fe b).
Proof.
  intros Ha Hb. destruct (Subtract_spec a b Ha Hb) as [Hw Hv].
  split; [done|]. by rewrite (fe_eq _ _ Hv), Zmod.of_Z_sub.
Qed.

(** ** [Invert] *)

(** [a] stands for the power [e] of [x]. *)
Definition power (x : Zmod P) (a : t) (e : Z) : Prop := wf a /\ fe a = Zmod.pow x e.

Lemma power_Mul x a b d e : 0 <= d -> 0 <= e -> power x a d -> power x b e -> power x (Mul a b) (d + e).
Proof.
  intros Hd He [Ha Ea] [Hb Eb]. destruct (fe_Mul (2 ^ 29) (2 ^ 29) a b Ha Hb) as [Ht Hf]; [lia..|].
  split; [by apply tight_wf|]. by rewrite Hf, Ea, Eb, Zmod.pow_add_r_nonneg by done.
Qed.

Lemma power_Square x a e : 0 <= e -> power x a e -> power x (Square a) (2 * e).
Proof.
  intros He [Ha Ea]. destruct (fe_Square a Ha) as [Ht Hf].
  split; [by apply tight_wf|]. rewrite Hf, Ea, <- Zmod.pow_add_r_nonneg by done. f_equal. lia.
Qed.

Lemma power_squares x n a e : 0 <= e -> power x a e -> power x (squares n a) (2 ^ Z.of_nat n * e).
Proof.
  intros He Ha. induction n as [|n IH]; [by rewrite Z.mul_1_l|].
  rewrite Nat2Z.inj_succ, Z.pow_succ_r, <- Z.mul_assoc by lia. apply power_Square; [|done].
  apply Z.mul_nonneg_nonneg; lia.
Qed.

Lemma power_exponent x a d e : power x a d -> d = e -> power x a e.
Proof. by intros H <-. Qed.

(** One more step of the addition chain, its exponent evaluated. *)
Ltac chain_step :=
  match goal with
  | Ha : power ?x ?a ?d, Hb : power ?x ?b ?e |- context [Mul ?a ?b] =>
      let H := fresh "H" in let c := fresh "c" in
      pose proof (power_Mul x a b d e ltac:(lia) ltac:(lia) Ha Hb) as H;
      let v := eval vm_compute in (d + e) in change (d + e) with v in H;
      set (c := Mul a b) in *; clearbody c
  | Ha : power ?x ?a ?d |- context [Square ?a] =>
      let H := fresh "H" in let c := fresh "c" in
      pose proof (power_Square x a d ltac:(lia) Ha) as H;
      let v := eval vm_compute in (2 * d) in change (2 * d) with v in H;
      set (c := Square a) in *; clearbody c
  | Ha : power ?x ?a ?d |- context [squares ?n ?a] =>
      let H := fresh "H" in let c := fresh "c" in
      pose proof (power_squares x n a d ltac:(lia) Ha) as H;
      let v := eval vm_compute in (2 ^ Z.of_nat n * d) in change (2 ^ Z.of_nat n * d) with v in H;
      set (c := squares n a) in *; clearbody c
  end.

Lemma power_Invert a : wf a -> power (fe a) (Invert a) (P - 2).
Proof.
  intros Ha. assert (H : power (fe a) a 1) by (split; [done|by rewrite Zmod.pow_1_r]).
  unfold Invert. cbv zeta. repeat chain_step. eapply power_exponent; [eassumption|reflexivity].
Qed.

Lemma fe_Invert a : wf a -> wf (Invert a) /\ fe (Invert a) = Zmod.inv (fe a).
Proof.
  intros Ha. destruct (power_Invert a Ha) as [Hw Hp]. split; [done|]. rewrite Hp.
  destruct (Zmod.eqb_spec (fe a) Zmod.zero) as [->|Hz].
  - by rewrite Zmod.inv_0, Zmod.pow_0_l.
  - apply Zmod.fermat_inv; [done|apply prime_modulus].
Qed.

(** C20: the arithmetic of field elements stays within its words and is that of the
    field: sums and differences of words below 2^30, products of words below 2^29 and
    2^30 in either order, squares, and [Reduce] from anything that leaves room for
    its carries. *)
Theorem field_arithmetic a b :
  words 8 (2 ^ 29) a -> words 8 (2 ^ 30) b ->
  (words 8 (2 ^ 29) (Mul a b) /\ fe (Mul a b) = Zmod.mul (fe a) (fe b)) /\
  (words 8 (2 ^ 29) (Mul b a) /\ fe (Mul b a) = Zmod.mul (fe b) (fe a)) /\
  (words 8 (2 ^ 29) (Square a) /\ fe (Square a) = Zmod.mul (fe a) (fe a)) /\
  (words 8 (2 ^ 29 + 2 ^ 30) (Add a b) /\ fe (Add a b) = Zmod.add (fe a) (fe b)) /\
  (words 8 (2 ^ 32 - 15) (Subtract a b) /\ fe (Subtract a b) = Zmod.sub (fe a) (fe b)) /\
  (forall c, words 8 (2 ^ 32 - 15) c -> words 8 (2 ^ 29) (Reduce c) /\ fe (Reduce c) = fe c).
Proof.
  intros Ha Hb. assert (Ha' : words 8 (2 ^ 30) a) by (by apply (words_weaken _ (2 ^ 29))).
  destruct (fe_Mul (2 ^ 29) (2 ^ 30) a b Ha Hb) as [M1 E1]; [lia..|].
  destruct (fe_Mul (2 ^ 30) (2 ^ 29) b a Hb Ha) as [M2 E2]; [lia..|].
  destruct (fe_Square a Ha) as [M3 E3]. destruct (fe_Subtract a b Ha' Hb) as [M4 E4].
  do 3 (split; [split; [by apply tight_wf|assumption]|]).
  split; [by apply (fe_Add (2 ^ 29) (2 ^ 30))|]. split.
  - split; [by apply (words_weaken _ (2 ^ 31 + 2 ^ 30 + 2 ^ 3))|assumption].
  - intros c. apply fe_Reduce.
Qed.

Definition sample_a : t := [2 ^ 29 - 1; 0; 7; 2 ^ 29 - 1; 1; 2; 3; 2 ^ 29 - 1].
Definition sample_b : t := [2 ^ 30 - 1; 2 ^ 30 - 1; 5; 0; 1; 2; 3; 2 ^ 30 - 1].

Lemma field_arithmetic_witness : fe (Mul sample_a sample_b) = Zmod.mul (fe sample_a) (fe sample_b).
Proof.
  refine (proj2 (proj1 (field_arithmetic sample_a sample_b _ _)));
    (split; [reflexivity|]; repeat constructor; lia).
Defined.

(** C25: [Invert] computes the power p - 2, which is the inverse: p is prime, and 0 is
    sent to 0. *)
Theorem invert_correct a :
  words 8 (2 ^ 29) a ->
  words 8 (2 ^ 29) (Invert a) /\ fe (Invert a) = Zmod.pow (fe a) (P - 2) /\ fe (Invert a) = Zmod.inv (fe a).
Proof.
  intros Ha. destruct (power_Invert a Ha) as [_ Hp]. destruct (fe_Invert a Ha) as [Hw Hi]. by split_and!.
Qed.

Lemma invert_correct_witness : fe (Invert sample_a) = Zmod.inv (fe sample_a).
Proof.
  refine (proj2 (proj2 (invert_correct sample_a _))). split; [reflexivity|]. repeat constructor; lia.
Defined.

End FieldElement.
