(* ===== verification/CryptoP224Contract.v ===== *)
(** [Contract] of [crypto/p224.cc]: a field element to 28-bit words.  The carries
    leave words of the same residue; the constant-time comparison with p that follows
    takes the residues below 2^112 for those above p. *)
From Stdlib Require Import Zmod.Zmod.
From S2P Require Import Prelude PrimeField CryptoP224Field.

Module Contraction.
Import FieldElement.

(** Carry a negative word down to the next, for [i] = 0, 1, 2. *)
Definition borrow (a : t) (i : nat) : t :=
  let mask := sign_mask (at_ a i) in
  upd (i + 1) (fun y => u32 (y - Z.land 1 mask))
    (upd i (fun y => u32 (y + Z.land (2 ^ 28) mask)) a).

Definition mask_of_bit0 (x : Z) : Z := sign_mask (u32 (Z.shiftl x 31)).

Definition smear (op : Z -> Z -> Z) (x : Z) : Z :=
  foldl (fun x k => op x (Z.shiftr x k)) x [16; 8; 4; 2; 1].

Definition top4AllOnes (a : t) : Z :=
  mask_of_bit0 (smear Z.land (Z.lor
    (foldl (fun m i => Z.land m (u32 (Z.land (at_ a i) kBottom28Bits - 1))) 0xffffffff [4; 5; 6; 7]%nat)
    0xf0000000)).

Definition bottom3NonZero (a : t) : Z :=
  mask_of_bit0 (smear Z.lor (Z.lor (Z.lor (at_ a 0) (at_ a 1)) (at_ a 2))).

(** [~x] on 32 bits. *)
Definition not32 (x : Z) : Z := Z.lxor x 0xffffffff.

Definition out3Equal (n : Z) : Z := not32 (mask_of_bit0 (smear Z.lor n)).
Definition out3GT (n : Z) : Z := not32 (mask_of_bit0 n).

Definition contract_mask (a : t) : Z :=
  let n := u32 (at_ a 3 - 0xffff000) in
  Z.land (top4AllOnes a) (Z.lor (Z.land (out3Equal n) (bottom3NonZero a)) (out3GT n)).

Definition subtract_p (mask : Z) (a : t) : t :=
  let a := upd 0 (fun y => u32 (y - Z.land 1 mask)) a in
  let a := upd 3 (fun y => u32 (y - Z.land 0xffff000 mask)) a in
  foldl (fun a i => upd i (fun y => u32 (y - Z.land 0xfffffff mask)) a) a [4; 5; 6; 7]%nat.

(** The part of [Contract] before the comparison with p. *)
Definition contract_carries (a : t) : t :=
  let a := foldl carry a (seq 0 7) in
  let top := Z.shiftr (at_ a 7) 28 in
  let a := upd 7 (fun y => Z.land y kBottom28Bits) a in
  let a := eliminate_top top a in
  let a := foldl borrow a (seq 0 3) in
  let a := foldl carry a (seq 3 4) in
  let top := Z.shiftr (at_ a 7) 28 in
  let a := upd 7 (fun y => Z.land y kBottom28Bits) a in
  let a := eliminate_top top a in
  foldl borrow a (seq 0 3).

Definition Contract (a : t) : t :=
  let a := contract_carries a in
  subtract_p (contract_mask a) a.

(** ** The carries *)

Lemma sign_mask_spec x : -2 ^ 31 <= x < 2 ^ 31 -> sign_mask (u32 x) = if x <? 0 then 0xffffffff else 0.
Proof.
  intros Hx. unfold sign_mask. rewrite Z.shiftr_div_pow2 by lia.
  assert (i32 (u32 x) = x) as ->. { unfold i32, u32. div_lia. }
  destruct (Z.ltb_spec x 0).
  - assert (x / 2 ^ 31 = -1) as -> by div_lia. reflexivity.
  - assert (x / 2 ^ 31 = 0) as -> by div_lia. reflexivity.
Qed.

(** One borrow: the word [u32 x], in range or negative by less than a limb. *)
Lemma borrow_word x :
  -2 ^ 28 <= x < 2 ^ 31 ->
  u32 (u32 x + Z.land (2 ^ 28) (sign_mask (u32 x))) = (if x <? 0 then x + 2 ^ 28 else x) /\
  Z.land 1 (sign_mask (u32 x)) = (if x <? 0 then 1 else 0).
Proof.
  intros Hx. rewrite sign_mask_spec by lia. destruct (Z.ltb_spec x 0).
  - change (Z.land (2 ^ 28) 4294967295) with (2 ^ 28). split; [|done].
    rewrite u32_add_l, u32_id by lia. done.
  - rewrite !Z.land_0_r, Z.add_0_r, (u32_id x) by lia. split; [|done]. by rewrite u32_id by lia.
Qed.

Ltac borrow_step x :=
  let H1 := fresh in let H2 := fresh in
  match goal with |- context [borrow ?l ?i] =>
    lazymatch l with
    | context [borrow _ _] => fail
    | _ =>
      let r := eval cbv beta zeta iota delta [borrow upd at_ nth Nat.add] in (borrow l i) in
      change (borrow l i) with r;
      destruct (borrow_word x ltac:(lia)) as [H1 H2]; rewrite H1, H2; clear H1 H2
    end
  end.

(** Taking a few multiples of p off, with the borrows of the low words. *)
Lemma eliminate_borrow hi y0 y1 y2 y3 l :
  0 <= hi < 16 -> Forall (fun y => 0 <= y < 2 ^ 28) [y0; y1; y2; y3] ->
  exists z0 z1 z2 z3,
    foldl borrow (eliminate_top hi (y0 :: y1 :: y2 :: y3 :: l)) (seq 0 3) = z0 :: z1 :: z2 :: z3 :: l /\
    Forall (fun y => 0 <= y < 2 ^ 28) [z0; z1; z2] /\ 0 <= z3 <= y3 + hi * 4096 /\
    val [z0; z1; z2; z3] = val [y0 - hi; y1; y2; y3 + hi * 4096].
Proof.
  intros Hhi Hy. repeat (apply Forall_cons in Hy as [? Hy]). clear Hy.
  unfold eliminate_top. rewrite shiftl12. cbn [upd foldl seq]. rewrite !(u32_id (_ * _)), !(u32_id (y3 + _)) by lia.
  borrow_step (y0 - hi). destruct (Z.ltb_spec (y0 - hi) 0).
  - borrow_step (y1 - 1). destruct (Z.ltb_spec (y1 - 1) 0).
    + borrow_step (y2 - 1). destruct (Z.ltb_spec (y2 - 1) 0); repeat peel; do 4 eexists;
        (split; [reflexivity|]); (split; [solve_forall|]); cbn [val]; lia.
    + rewrite Z.sub_0_r. borrow_step y2. destruct (Z.ltb_spec y2 0); [lia|]. repeat peel. do 4 eexists.
      split; [reflexivity|]. split; [solve_forall|]. cbn [val]. lia.
  - rewrite Z.sub_0_r. borrow_step y1. destruct (Z.ltb_spec y1 0); [lia|].
    rewrite Z.sub_0_r. borrow_step y2. destruct (Z.ltb_spec y2 0); [lia|]. repeat peel. do 4 eexists.
    split; [reflexivity|]. split; [solve_forall|]. cbn [val]. lia.
Qed.

(** The carries leave 28-bit words of the same residue. *)
Lemma contract_carries_spec a :
  words 8 (2 ^ 32 - 15) a -> words 8 (2 ^ 28) (contract_carries a) /\ val (contract_carries a) mod P = val a mod P.
Proof.
  intros H. destruct (carries_spec a H)
    as (y0 & y1 & y2 & y3 & y4 & y5 & y6 & y7 & E & Hy & H7 & H15 & Hv).
  pose proof (words_at _ _ _ 7 H ltac:(lia)) as Ha7. unfold contract_carries. rewrite E. clear E H.
  repeat (apply Forall_cons in Hy as [? Hy]). clear Hy. cbn [at_ nth upd].
  rewrite !(shiftr28 y7), !(land_low28 y7). split_div y7 268435456 hi lo.
  destruct (eliminate_borrow hi y0 y1 y2 y3 [y4; y5; y6; lo]) as (z0 & z1 & z2 & z3 & -> & Hz & Hz3 & Ev);
    [lia|solve_forall|].
  repeat (apply Forall_cons in Hz as [? Hz]). clear Hz.
  change (seq 3 4) with [3; 4; 5; 6]%nat. cbn [foldl]. do 4 carry_step.
  cbn [at_ nth upd]. rewrite shiftr28, land_low28.
  match goal with |- context [?b mod 268435456] => split_div b 268435456 hi2 lo2 end.
  match goal with |- context [eliminate_top hi2 (_ :: _ :: _ :: ?w3 :: ?l)] =>
    destruct (eliminate_borrow hi2 z0 z1 z2 w3 l) as (v0 & v1 & v2 & v3 & -> & Hz & Hw3 & Ev2) end;
    [lia|solve_forall|].
  repeat (apply Forall_cons in Hz as [? Hz]). clear Hz.
  split; [split; [done|]; solve_forall|].
  apply (mod_shift _ _ (- hi - hi2)). rewrite <- Hv. cbn [val] in *. rewrite P_literal. lia.
Qed.

(** ** The masks of [Contract] *)

(** The bits of the 32 shifts a smeared word is made of. *)
Ltac smear_bits :=
  rewrite <- Z.bit0_odd; unfold smear; cbn [foldl];
  repeat rewrite ?Z.lor_spec, ?Z.land_spec, ?Z.shiftr_spec by lia; cbn [existsb forallb seq];
  repeat match goal with |- context [Z.testbit ?x ?i] =>
    let v := eval vm_compute in i in progress change i with v
  end;
  apply Bool.eq_iff_eq_true; rewrite ?orb_true_iff, ?andb_true_iff; intuition congruence.

Lemma smear_lor_bits x : Z.odd (smear Z.lor x) = existsb (fun i => Z.testbit x (Z.of_nat i)) (seq 0 32).
Proof. smear_bits. Qed.

Lemma smear_land_bits x : Z.odd (smear Z.land x) = forallb (fun i => Z.testbit x (Z.of_nat i)) (seq 0 32).
Proof. smear_bits. Qed.

Lemma smear_lor x : is_u32 x -> Z.odd (smear Z.lor x) = negb (x =? 0).
Proof.
  intros Hx. rewrite smear_lor_bits. destruct (Z.eqb_spec x 0) as [->|Hx0]; [reflexivity|]. cbn [negb].
  apply Bool.not_false_iff_true. intros Hf. apply Hx0, Z.bits_inj_0. intros n.
  destruct (Z.neg_nonneg_cases n); [by apply Z.testbit_neg_r|].
  destruct (Z.le_gt_cases 32 n) as [|Hn]; [by apply (testbit_high x 32)|].
  destruct (Z.testbit x n) eqn:E; [|done]. rewrite <- Hf. symmetry. apply existsb_exists.
  exists (Z.to_nat n). rewrite Z2Nat.id by done. split; [|done]. apply in_seq. lia.
Qed.

Lemma smear_land x : is_u32 x -> Z.odd (smear Z.land x) = (x =? 0xffffffff).
Proof.
  intros Hx. rewrite smear_land_bits. destruct (Z.eqb_spec x 0xffffffff) as [->|Hx0]; [reflexivity|].
  apply Bool.not_true_iff_false. intros Ht. apply Hx0. change 0xffffffff with (Z.ones 32).
  rewrite forallb_forall in Ht. apply Z.bits_inj'. intros n Hn.
  destruct (Z.le_gt_cases 32 n) as [|Hn32].
  - by rewrite (testbit_high x 32), Z.ones_spec_high.
  - rewrite Z.ones_spec_low by lia. rewrite <- (Z2Nat.id n) by done. apply Ht, in_seq. lia.
Qed.

Lemma mask_of_bit0_spec x : mask_of_bit0 x = if Z.odd x then 0xffffffff else 0.
Proof.
  unfold mask_of_bit0, sign_mask. rewrite Z.shiftl_mul_pow2, Z.shiftr_div_pow2 by lia.
  assert (i32 (u32 (x * 2 ^ 31)) = if Z.odd x then - 2 ^ 31 else 0) as ->.
  { rewrite Zodd_mod. pose proof (Z.div_mod x 2 ltac:(lia)). pose proof (Z.mod_pos_bound x 2 ltac:(lia)).
    destruct (Z.eqb (x mod 2) 1) eqn:E; zb2p; unfold i32, u32; div_lia. }
  by destruct (Z.odd x).
Qed.

Lemma is_u32_lor x y : is_u32 x -> is_u32 y -> is_u32 (Z.lor x y).
Proof.
  intros Hx Hy. assert (E : u32 (Z.lor x y) = Z.lor x y); [|rewrite <- E; apply u32_range].
  unfold u32. rewrite <- Z.land_ones, Z.land_lor_distr_l, !Z.land_ones by lia. by rewrite !Z.mod_small.
Qed.

Lemma is_u32_land x y : is_u32 x -> is_u32 (Z.land x y).
Proof.
  intros Hx. assert (E : u32 (Z.land x y) = Z.land x y); [|rewrite <- E; apply u32_range].
  unfold u32. rewrite <- Z.land_ones, <- Z.land_assoc, (Z.land_comm y), Z.land_assoc, Z.land_ones by lia.
  by rewrite Z.mod_small.
Qed.

Lemma is_u32_lxor x y : is_u32 x -> is_u32 y -> is_u32 (Z.lxor x y).
Proof.
  intros Hx Hy. assert (E : u32 (Z.lxor x y) = Z.lxor x y); [|rewrite <- E; apply u32_range].
  apply Z.bits_inj'. intros n Hn. unfold u32. destruct (Z.le_gt_cases 32 n).
  - rewrite Z.mod_pow2_bits_high, Z.lxor_spec, !(testbit_high _ 32) by (done || lia). done.
  - by rewrite Z.mod_pow2_bits_low by lia.
Qed.

(** A word one less than a limb whose 28 low bits are all ones is one less than 0. *)
Lemma ones_below_limb w :
  0 <= w < 2 ^ 28 -> (forall n, 0 <= n < 28 -> Z.testbit (u32 (Z.land w kBottom28Bits - 1)) n = true) -> w = 0.
Proof.
  intros Hw Hb. rewrite land_low28, Z.mod_small in Hb by lia.
  destruct (Z.eq_dec w 0) as [|Hw0]; [done|exfalso]. rewrite u32_id in Hb by lia.
  assert (w - 1 = Z.ones 28); [|assert (Z.ones 28 = 268435455) by done; lia].
  apply Z.bits_inj'. intros n Hn. destruct (Z.le_gt_cases 28 n).
  - by rewrite (testbit_high _ 28), Z.ones_spec_high by lia.
  - by rewrite Hb, Z.ones_spec_low by lia.
Qed.

(** All ones exactly when the four words are zero. *)
Lemma top4AllOnes_spec a :
  words 8 (2 ^ 28) a -> top4AllOnes a = if forallb (fun w => w =? 0) (drop 4 a) then 0xffffffff else 0.
Proof.
  intros H. unfold top4AllOnes. rewrite mask_of_bit0_spec. explode H. cbn [drop forallb at_ nth foldl].
  destruct (_ && _) eqn:Ez.
  - rewrite !andb_true_iff, !Z.eqb_eq in Ez. destruct Ez as (-> & -> & -> & -> & _). reflexivity.
  - rewrite smear_land by (apply is_u32_lor; [do 4 (apply is_u32_land); done|done]).
    match goal with |- context [Z.lor ?A ?F =? _] => set (v := A); destruct (Z.eqb_spec (Z.lor v F) 0xffffffff) as [Em|] end;
      [exfalso|done].
    assert (Hlow : forall n, 0 <= n < 28 -> Z.testbit v n = true).
    { intros n Hn. apply (f_equal (fun z => Z.testbit z n)) in Em. cbn beta in Em.
      rewrite Z.lor_spec in Em. change 4026531840 with (Z.shiftl 15 28) in Em.
      rewrite Z.shiftl_spec_low, orb_false_r in Em by lia. rewrite Em.
      change 4294967295 with (Z.ones 32). apply Z.ones_spec_low. lia. }
    assert (Hz : forall w n, Z.testbit w n = true -> Z.testbit w n = true) by done.
    apply Bool.not_true_iff_false in Ez. apply Ez.
    rewrite (ones_below_limb x3), (ones_below_limb x4), (ones_below_limb x5), (ones_below_limb x6); try done;
      intros n Hn; pose proof (Hlow n Hn) as Hv; unfold v in Hv; rewrite !Z.land_spec, !andb_true_iff in Hv; tauto.
Qed.

Lemma contract_mask_spec a :
  words 8 (2 ^ 28) a ->
  contract_mask a = if forallb (fun w => w =? 0) (drop 4 a) && Z.even (at_ a 3) then 0xffffffff else 0.
Proof.
  intros H. unfold contract_mask. rewrite top4AllOnes_spec by done.
  destruct (forallb _ _); [|apply Z.land_0_l]. cbn [andb].
  unfold out3Equal, out3GT, bottom3NonZero. rewrite !mask_of_bit0_spec, (smear_lor _ (u32_range _)).
  set (n := at_ a 3 - 0xffff000). assert (Hn : Z.odd (u32 n) = Z.odd (at_ a 3)).
  { unfold u32. rewrite <- Z.bit0_odd, Z.mod_pow2_bits_low, Z.bit0_odd by lia.
    unfold n. rewrite Z.odd_sub. apply xorb_false_r. }
  rewrite Hn, <- Z.negb_odd. destruct (Z.eqb_spec (u32 n) 0) as [E|], (Z.odd (at_ a 3)) eqn:Eo;
    try by destruct (Z.odd (smear _ _)).
  by rewrite E in Hn.
Qed.

Lemma subtract_p_0 a : words 8 (2 ^ 28) a -> subtract_p 0 a = a.
Proof.
  intros H. unfold subtract_p. rewrite !Z.land_0_r. explode H. cbn [upd foldl].
  rewrite !Z.sub_0_r. by rewrite !u32_id by (rewrite ?u32_id; lia).
Qed.

(** The words of [Contract a], by the carried words. *)
Lemma Contract_cases a :
  words 8 (2 ^ 32 - 15) a -> let c := contract_carries a in
  Contract a = if forallb (fun w => w =? 0) (drop 4 c) && Z.even (at_ c 3) then subtract_p 0xffffffff c else c.
Proof.
  intros Ha c. destruct (contract_carries_spec a Ha) as [Hc _]. unfold Contract. fold c.
  rewrite contract_mask_spec by done. destruct (_ && _); [done|]. by apply subtract_p_0.
Qed.

Lemma val_bounds n a : words n (2 ^ 28) a -> 0 <= val a < 2 ^ (28 * Z.of_nat n).
Proof.
  intros [<- Ha]. induction Ha as [|x a Hx Ha IH]; cbn [val length]; [lia|].
  rewrite Nat2Z.inj_succ, Z.mul_succ_r, Z.add_comm, Z.pow_add_r by lia.
  assert (1 <= 2 ^ (28 * Z.of_nat (length a))) by lia. nia.
Qed.

Lemma top_zero_small c : words 8 (2 ^ 28) c -> forallb (fun w => w =? 0) (drop 4 c) = true -> val c < 2 ^ 112.
Proof.
  intros H. explode H. cbn [drop forallb]. rewrite !andb_true_iff, !Z.eqb_eq.
  intros (-> & -> & -> & -> & _). cbn [val]. lia.
Qed.

Lemma small_top_zero c : words 8 (2 ^ 28) c -> val c < 2 ^ 112 -> forallb (fun w => w =? 0) (drop 4 c) = true.
Proof.
  intros H. explode H. cbn [drop forallb val]. intros Hv. rewrite !andb_true_iff, !Z.eqb_eq. split_and!; lia.
Qed.

Lemma Contract_large a :
  words 8 (2 ^ 32 - 15) a -> 2 ^ 112 <= val a mod P -> words 8 (2 ^ 28) (Contract a) /\ val (Contract a) = val a mod P.
Proof.
  intros Ha Hv. rewrite Contract_cases by done. cbv zeta. destruct (contract_carries_spec a Ha) as [Hc Em].
  set (c := contract_carries a) in *. pose proof (val_bounds 8 c Hc) as Hb. rewrite <- Em in Hv |- *.
  destruct (forallb _ _) eqn:Ez; cbn [andb].
  { pose proof (top_zero_small c Hc Ez). rewrite Z.mod_small in Hv; [lia|]. rewrite P_literal. lia. }
  split; [done|]. symmetry. destruct (Z.le_gt_cases P (val c)); [exfalso|by apply Z.mod_small; lia].
  rewrite <- (Z.mod_add _ (-1)), Z.mod_small in Hv; rewrite P_literal in *; lia.
Qed.

(** [Contract]'s carries do not change words that need none. *)
Lemma upd_id l i f : f (at_ l i) = at_ l i -> upd i f l = l.
Proof.
  revert i. induction l as [|x l IH]; intros [|i] Hf; [done|done| |].
  - cbn in *. by rewrite Hf.
  - cbn. f_equal. by apply IH.
Qed.

Section Id.
Context (l : list Z) (l_words : words 8 (2 ^ 28) l).

Lemma carry_id i : (i < 7)%nat -> carry l i = l.
Proof.
  intros Hi. unfold carry. pose proof (words_at _ _ _ i l_words ltac:(lia)).
  pose proof (words_at _ _ _ (i + 1) l_words ltac:(lia)).
  rewrite land_low28, shiftr28, Z.mod_small, Z.div_small by lia.
  rewrite (upd_id l (i + 1)); [by apply upd_id|]. by rewrite Z.add_0_r, u32_id by lia.
Qed.

Lemma eliminate_top_id : eliminate_top 0 l = l.
Proof.
  unfold eliminate_top. pose proof (words_at _ _ _ 0 l_words ltac:(lia)).
  pose proof (words_at _ _ _ 3 l_words ltac:(lia)).
  rewrite (upd_id l 0); [apply upd_id|]; rewrite ?Z.sub_0_r, ?Z.shiftl_0_l, ?Z.add_0_r, u32_id; lia.
Qed.

Lemma borrow_id i : (i < 7)%nat -> borrow l i = l.
Proof.
  intros Hi. unfold borrow. pose proof (words_at _ _ _ i l_words ltac:(lia)) as H.
  pose proof (words_at _ _ _ (i + 1) l_words ltac:(lia)).
  rewrite <- (u32_id (at_ l i)), sign_mask_spec by lia.
  destruct (Z.ltb_spec (at_ l i) 0) as [|_]; [lia|]. rewrite !Z.land_0_r.
  rewrite (upd_id l i); [apply upd_id|]; rewrite ?Z.sub_0_r, ?Z.add_0_r, u32_id; lia.
Qed.

Lemma contract_carries_id : contract_carries l = l.
Proof.
  pose proof (words_at _ _ _ 7 l_words ltac:(lia)). unfold contract_carries.
  change (seq 0 7) with [0; 1; 2; 3; 4; 5; 6]%nat. change (seq 3 4) with [3; 4; 5; 6]%nat.
  change (seq 0 3) with [0; 1; 2]%nat. cbn [foldl]. cbv zeta. rewrite !carry_id by lia.
  rewrite (shiftr28 (at_ l 7)), Z.div_small by lia. rewrite (upd_id l 7) by (rewrite land_low28, Z.mod_small; lia).
  rewrite eliminate_top_id, !borrow_id, !carry_id by lia. rewrite shiftr28, Z.div_small by lia.
  rewrite (upd_id l 7) by (rewrite land_low28, Z.mod_small; lia).
  by rewrite eliminate_top_id, !borrow_id by lia.
Qed.
End Id.

(** The subtraction of p out of words that are less: the last word wraps. *)
Lemma subtract_p_high a :
  words 8 (2 ^ 28) a -> at_ a 7 = 0 -> at_ (subtract_p 0xffffffff a) 7 = 2 ^ 32 - (2 ^ 28 - 1).
Proof. intros H H7. explode H. cbn in H7. subst. reflexivity. Qed.

Lemma forallb_zero_7 c : words 8 (2 ^ 28) c -> forallb (fun w => w =? 0) (drop 4 c) = true -> at_ c 7 = 0.
Proof.
  intros H. explode H. cbn [drop forallb]. rewrite !andb_true_iff, !Z.eqb_eq. by intros (_ & _ & _ & -> & _).
Qed.

(** A residue below 2^112 whose fourth limb is even is not contracted to its limbs:
    p is subtracted from it. *)
Lemma Contract_small a :
  words 8 (2 ^ 28) a -> forallb (fun w => w =? 0) (drop 4 a) = true -> Z.even (at_ a 3) = true ->
  at_ (Contract a) 7 = 2 ^ 32 - (2 ^ 28 - 1).
Proof.
  intros Ha Hz He. rewrite Contract_cases by (apply (words_weaken _ (2 ^ 28)); [done|lia]).
  rewrite contract_carries_id, Hz, He by done. apply subtract_p_high; [done|]. by apply forallb_zero_7.
Qed.

Lemma u32_sub_inj c x y : is_u32 x -> is_u32 y -> u32 (x - c) = u32 (y - c) -> x = y.
Proof.
  unfold u32, is_u32. intros Hx Hy H. pose proof (Z.div_mod (x - c) (2 ^ 32) ltac:(lia)).
  pose proof (Z.div_mod (y - c) (2 ^ 32) ltac:(lia)). lia.
Qed.

Lemma subtract_p_injective a b :
  words 8 (2 ^ 28) a -> words 8 (2 ^ 28) b ->
  subtract_p 0xffffffff a = subtract_p 0xffffffff b -> a = b.
Proof.
  intros Ha Hb. explode Ha. explode Hb. unfold subtract_p. cbn [upd foldl].
  intros E. injection E as E0 -> -> E3 E4 E5 E6 E7.
  repeat match goal with H : u32 _ = u32 _ |- _ => apply u32_sub_inj in H; [subst|unfold is_u32; lia..] end. done.
Qed.


(** Equal contractions are of equal residues, whatever p is subtracted from. *)
Lemma Contract_injective a b :
  words 8 (2 ^ 32 - 15) a -> words 8 (2 ^ 32 - 15) b -> Contract a = Contract b -> fe a = fe b.
Proof.
  intros Ha Hb. rewrite !Contract_cases by done. cbv zeta.
  destruct (contract_carries_spec a Ha) as [Hc Ea], (contract_carries_spec b Hb) as [Hd Eb].
  set (c := contract_carries a) in *. set (d := contract_carries b) in *.
  assert (Hfe : c = d -> fe a = fe b) by (intros E; apply Zmod.of_Z_inj; by rewrite <- Ea, <- Eb, E).
  pose proof (words_at _ _ _ 7 Hc ltac:(lia)). pose proof (words_at _ _ _ 7 Hd ltac:(lia)).
  destruct (forallb _ (drop 4 c)) eqn:Zc, (Z.even (at_ c 3)), (forallb _ (drop 4 d)) eqn:Zd, (Z.even (at_ d 3));
    cbn [andb]; intros E; try (by apply Hfe); try (by apply Hfe, subtract_p_injective); exfalso;
    apply (f_equal (fun l => at_ l 7)) in E; cbn beta in E;
    rewrite ?subtract_p_high in E by (done || by apply forallb_zero_7); lia.
Qed.

(** C33: for residues from 2^112 up [Contract] gives the canonical limbs, 28 bits each
    and less than p, whatever words it starts from. *)
Theorem contract_canonical a :
  words 8 (2 ^ 32 - 15) a -> 2 ^ 112 <= val a mod P ->
  words 8 (2 ^ 28) (Contract a) /\ val (Contract a) = val a mod P.
Proof. apply Contract_large. Qed.

Lemma contract_canonical_witness :
  val (Contract [2 ^ 29; 0; 0; 0; 0; 0; 0; 2 ^ 29 - 1]) = val [2 ^ 29; 0; 0; 0; 0; 0; 0; 2 ^ 29 - 1] mod P.
Proof.
  apply contract_canonical; [split; [reflexivity|]; repeat constructor; lia|]. vm_compute. discriminate.
Defined.

(** canonical limbs of a value below 2^112 with an even fourth limb do not stay: p is
    subtracted and the last word wraps to 2^32 - 2^28 + 1. *)
Theorem contract_below_2_112 a :
  words 8 (2 ^ 28) a -> val a < 2 ^ 112 -> Z.even (at_ a 3) = true ->
  at_ (Contract a) 7 = 2 ^ 32 - (2 ^ 28 - 1).
Proof.
  intros Ha Hv He. apply Contract_small; [done| |done]. by apply small_top_zero.
Qed.

Lemma contract_below_2_112_witness : at_ (Contract [1; 0; 0; 0; 0; 0; 0; 0]) 7 = 2 ^ 32 - (2 ^ 28 - 1).
Proof.
  apply contract_below_2_112; [split; [reflexivity|]; repeat constructor; lia|reflexivity|reflexivity].
Defined.

End Contraction.
