(* ===== verification/CryptoP224Curve.v ===== *)
(** The group of [crypto/p224.cc]: points of y^2 = x^3 - 3x + b in Jacobian
    coordinates, [AddJacobian], [DoubleJacobian], [ScalarMult], [Negate] and the
    external representation.  The formulas are shown to be the chords and tangents of
    the affine curve, and [ScalarMult] to be double-and-add over them. *)
From Stdlib Require Import Field Zmod.Zmod.
From S2P Require Import Prelude PrimeField CryptoP224Field CryptoP224Contract.

Module Curve.
Import FieldElement Contraction.

(** ** Points *)

Record Point := mkPoint { px : t; py : t; pz : t }.

Definition kP : t := [1; 0; 0; 268431360; 268435455; 268435455; 268435455; 268435455].

Definition kB : t :=
  [55967668; 11768882; 265861671; 185302395; 39211076; 180311059; 84673715; 188764328].

(** [for (i...) out[i] = a[i] << k]. *)
Definition shl (k : Z) (a : t) : t := map (fun x => u32 (Z.shiftl x k)) a.

(** The assignments of the C++, in its order; [out] is written after the last read
    of the operand it may alias. *)
Definition AddJacobian (a b : Point) : Point :=
  let z1z1 := Square (pz a) in
  let z2z2 := Square (pz b) in
  let u1 := Mul (px a) z2z2 in
  let u2 := Mul (px b) z1z1 in
  let s1 := Mul (pz b) z2z2 in
  let s1 := Mul (py a) s1 in
  let s2 := Mul (pz a) z1z1 in
  let s2 := Mul (py b) s2 in
  let h := Reduce (Subtract u2 u1) in
  let i := Reduce (shl 1 h) in
  let i := Square i in
  let j := Mul h i in
  let r := Reduce (Subtract s2 s1) in
  let r := Reduce (shl 1 r) in
  let v := Mul u1 i in
  let z1z1 := Add z1z1 z2z2 in
  let z2z2 := Reduce (Add (pz a) (pz b)) in
  let z2z2 := Square z2z2 in
  let out_z := Reduce (Subtract z2z2 z1z1) in
  let out_z := Mul out_z h in
  let z1z1 := shl 1 v in
  let z1z1 := Reduce (Add j z1z1) in
  let out_x := Square r in
  let out_x := Reduce (Subtract out_x z1z1) in
  let s1 := shl 1 s1 in
  let s1 := Mul s1 j in
  let z1z1 := Reduce (Subtract v out_x) in
  let z1z1 := Mul z1z1 r in
  let out_y := Reduce (Subtract z1z1 s1) in
  mkPoint out_x out_y out_z.

Definition DoubleJacobian (a : Point) : Point :=
  let delta := Square (pz a) in
  let gamma := Square (py a) in
  let beta := Mul (px a) gamma in
  let t := Add (px a) delta in
  let t := map (fun x => u32 (x + u32 (Z.shiftl x 1))) t in
  let t := Reduce t in
  let alpha := Reduce (Subtract (px a) delta) in
  let alpha := Mul alpha t in
  let out_z := Reduce (Add (py a) (pz a)) in
  let out_z := Square out_z in
  let out_z := Reduce (Subtract out_z gamma) in
  let out_z := Reduce (Subtract out_z delta) in
  let delta := Reduce (shl 3 beta) in
  let out_x := Square alpha in
  let out_x := Reduce (Subtract out_x delta) in
  let beta := Reduce (shl 2 beta) in
  let beta := Reduce (Subtract beta out_x) in
  let gamma := Square gamma in
  let gamma := Reduce (shl 3 gamma) in
  let out_y := Mul alpha beta in
  let out_y := Reduce (Subtract out_y gamma) in
  mkPoint out_x out_y out_z.

(** [out[i] ^= mask & (a[i] ^ out[i])]. *)
Definition copy_words (mask : Z) (out a : t) : t :=
  zip_with (fun o x => Z.lxor o (Z.land mask (Z.lxor x o))) out a.

Definition CopyConditional (out a : Point) (mask : Z) : Point :=
  mkPoint (copy_words mask (px out) (px a)) (copy_words mask (py out) (py a))
    (copy_words mask (pz out) (pz a)).

(** [((byte >> (7 - bit_num)) & 1) << 31 >> 31]. *)
Definition bit_mask (byte : Z) (bit_num : nat) : Z :=
  sign_mask (u32 (Z.shiftl (Z.land (Z.shiftr byte (7 - Z.of_nat bit_num)) 1) 31)).

Definition zero_point : Point := mkPoint (replicate 8 0) (replicate 8 0) (replicate 8 0).

Definition scalar_step (a : Point) (s : Point * Z) (bit : Z) : Point * Z :=
  let '(out, first_bit) := s in
  let out := DoubleJacobian out in
  let tmp := AddJacobian a out in
  let out := CopyConditional out a (Z.land first_bit bit) in
  let out := CopyConditional out tmp (Z.land (not32 first_bit) bit) in
  (out, Z.land first_bit (not32 bit)).

Definition scalar_byte (a : Point) (s : Point * Z) (byte : Z) : Point * Z :=
  foldl (fun s bit_num => scalar_step a s (bit_mask byte bit_num)) s (seq 0 8).

(** [out] is cleared before [a] is read, so it is not [a]. *)
Definition ScalarMult (a : Point) (scalar : list Z) : Point :=
  fst (foldl (scalar_byte a) (zero_point, 0xffffffff) scalar).

Definition kBasePoint : Point := mkPoint
  [22813985; 52956513; 34677300; 203240812; 12143107; 133374265; 225162431; 191946955]
  [83918388; 223877528; 122119236; 123340192; 266784067; 263504429; 146143011; 198407736]
  [1; 0; 0; 0; 0; 0; 0; 0].

Definition ScalarBaseMult (scalar : list Z) : Point := ScalarMult kBasePoint scalar.

Definition one_words : t := [1; 0; 0; 0; 0; 0; 0; 0].

Definition Negate (in_ : Point) : Point :=
  let zinv := Invert (pz in_) in
  let zinv_sq := Square zinv in
  let out_x := Mul (px in_) zinv_sq in
  let zinv_sq := Mul zinv_sq zinv in
  let y := Mul (py in_) zinv_sq in
  let out_y := Reduce (Subtract kP y) in
  mkPoint out_x out_y one_words.

(** ** The affine curve *)

Abbreviation F := (Zmod P).

Declare Scope field_scope.
Delimit Scope field_scope with F.
Infix "+" := Zmod.add : field_scope.
Infix "-" := Zmod.sub : field_scope.
Infix "*" := Zmod.mul : field_scope.
Infix "/" := Zmod.mdiv : field_scope.
Notation "0" := (@Zmod.zero P) : field_scope.
Notation "1" := (@Zmod.one P) : field_scope.
Notation "2" := (1 + 1)%F : field_scope.
Notation "3" := (1 + 1 + 1)%F : field_scope.

#[global] Instance F_eq_dec : EqDecision F.
Proof.
  intros a b. refine (cast_if (decide (Zmod.to_Z a = Zmod.to_Z b))).
  - by apply Zmod.to_Z_inj.
  - by intros ->.
Defined.

Inductive affine := Infinity | Affine (x y : F).

#[global] Instance affine_eq_dec : EqDecision affine.
Proof. solve_decision. Defined.

(** The point [lambda] is a slope to, from [(x1, y1)] and [x2]. *)
Definition third (lambda x1 y1 x2 : F) : affine :=
  let x3 := (lambda * lambda - x1 - x2)%F in
  Affine x3 (lambda * (x1 - x3) - y1)%F.

Definition double (p : affine) : affine :=
  match p with
  | Infinity => Infinity
  | Affine x y => if decide (y = 0%F) then Infinity else third (3 * (x * x - 1) / (2 * y))%F x y x
  end.

Definition add (p q : affine) : affine :=
  match p, q with
  | Infinity, q => q
  | p, Infinity => p
  | Affine x1 y1, Affine x2 y2 =>
      if decide (x1 = x2) then if decide (y1 = y2) then double p else Infinity
      else third ((y2 - y1) / (x2 - x1))%F x1 y1 x2
  end.

Definition negate (p : affine) : affine :=
  match p with Infinity => Infinity | Affine x y => Affine x (0 - y)%F end.

Definition curve_b : F := fe kB.

Definition on_curve (p : affine) : Prop :=
  match p with Infinity => True | Affine x y => (y * y = x * x * x - 3 * x + curve_b)%F end.

#[global] Instance on_curve_dec p : Decision (on_curve p).
Proof. destruct p; simpl; apply _. Defined.

(** The affine point a triple stands for: [(x/z^2, y/z^3)], or infinity. *)
Definition to_affine (p : Point) : affine :=
  let x := fe (px p) in let y := fe (py p) in let z := fe (pz p) in
  if decide (z = 0%F) then Infinity else Affine (x / (z * z))%F (y / (z * z * z))%F.

(** ** Bounds and residues of the formulas *)

#[local] Open Scope field_scope.

Definition wf_point (p : Point) : Prop := wf (px p) /\ wf (py p) /\ wf (pz p).

(** [a] has words below [m] and stands for [v]. *)
Definition rep (m : Z) (a : t) (v : F) : Prop := words 8 m a /\ fe a = v.

(** The output of a product. *)
Definition rept (a : t) (v : F) : Prop := tight a /\ fe a = v.

Lemma rept_rep a v : rept a v -> rep (2 ^ 29) a v.
Proof. intros [H E]. split; [by apply tight_wf|done]. Qed.

Lemma rep_fe m a : words 8 m a -> rep m a (fe a).
Proof. by split. Qed.

Lemma rept_Square m a v : rep m a v -> (m <= 2 ^ 29)%Z -> rept (Square a) (v * v).
Proof.
  intros [Ha <-] Hm. apply fe_Square. by apply (words_weaken _ m).
Qed.

Lemma words_nonneg n m a : words (S n) m a -> (0 <= m)%Z.
Proof. intros [Hl Ha]. destruct a as [|x a]; [done|]. apply Forall_cons in Ha as [? _]. lia. Qed.

Lemma rept_Mul m n a b v w :
  rep m a v -> rep n b w -> (m * n <= 2 ^ 59)%Z -> rept (Mul a b) (v * w).
Proof.
  intros [Ha <-] [Hb <-] Hmn. apply (fe_Mul m n); try done; by eapply words_nonneg.
Qed.

Lemma rep_Reduce m a v : rep m a v -> (m <= 2 ^ 32 - 15)%Z -> rep (2 ^ 29) (Reduce a) v.
Proof. intros [Ha <-] Hm. apply fe_Reduce. by apply (words_weaken _ m). Qed.

Lemma rep_Subtract m n a b v w :
  rep m a v -> rep n b w -> (m <= 2 ^ 30 /\ n <= 2 ^ 30)%Z ->
  rep (2 ^ 31 + 2 ^ 30 + 2 ^ 3) (Subtract a b) (v - w).
Proof.
  intros [Ha <-] [Hb <-] [Hm Hn]. apply fe_Subtract; by eapply words_weaken.
Qed.

Lemma rep_Add m n a b v w :
  rep m a v -> rep n b w -> (m + n <= 2 ^ 32)%Z -> rep (m + n) (Add a b) (v + w).
Proof. intros [Ha <-] [Hb <-] Hmn. by apply fe_Add. Qed.

(** Word-wise multiples that do not wrap. *)
Lemma words_map len f k m a :
  words len m a -> (forall x, 0 <= x < m -> f x = k * x)%Z -> (0 < k)%Z ->
  upto len (k * (m - 1)) (map f a) /\ val (map f a) = (k * val a)%Z.
Proof.
  intros [Hl Ha] Hf Hk. revert len Hl. induction Ha as [|x a Hx Ha IH]; intros len Hl.
  { cbn in *. split; [by split|lia]. }
  destruct len as [|len]; [done|]. injection Hl as Hl. destruct (IH len Hl) as [[Hl' Hw] Hv].
  cbn [map val]. rewrite Hv, Hf by done. split; [|lia].
  split; [cbn; by rewrite Hl'|]. constructor; [nia|done].
Qed.

Lemma rep_shl k m a v :
  rep m a v -> (0 <= k /\ 2 ^ k * m <= 2 ^ 32)%Z ->
  rep (2 ^ k * m) (shl k a) (Zmod.of_Z P (2 ^ k) * v).
Proof.
  intros [Ha <-] [Hk Hm]. destruct (words_map 8 (fun x => u32 (Z.shiftl x k)) (2 ^ k) m a Ha) as [Hw Hv]; [|lia|].
  - intros x Hx. rewrite Z.shiftl_mul_pow2, (Z.mul_comm x) by lia. apply u32_id. nia.
  - split; [apply (upto_words _ _ _ _ Hw); nia|]. unfold fe, shl. by rewrite Hv, Zmod.of_Z_mul.
Qed.

Lemma rep_triple m a v :
  rep m a v -> (3 * m <= 2 ^ 32)%Z ->
  rep (3 * m) (map (fun x => u32 (x + u32 (Z.shiftl x 1))) a) (3 * v).
Proof.
  intros [Ha <-] Hm. destruct (words_map 8 (fun x => u32 (x + u32 (Z.shiftl x 1))) 3 m a Ha) as [Hw Hv]; [|lia|].
  - intros x Hx. rewrite Z.shiftl_mul_pow2 by lia. rewrite (u32_id (x * 2 ^ 1)), u32_id; lia.
  - split; [apply (upto_words _ _ _ _ Hw); lia|]. unfold fe. by rewrite Hv, Zmod.of_Z_mul.
Qed.

(** The words of a product leave room for a shift by 3, and the carries after it. *)
Lemma rep_shl3 a v : rept a v -> rep (2 ^ 32 - 15) (shl 3 a) (Zmod.of_Z P 8 * v).
Proof.
  intros [Ht <-]. pose proof (tight_wf a Ht) as Ha.
  destruct (words_map 8 (fun x => u32 (Z.shiftl x 3)) 8 (2 ^ 29 - 1) a) as [Hw Hv]; [|intros|lia|].
  - split; [apply Ha|]. unfold tight in Ht.
    repeat (apply Forall2_cons_inv_r in Ht as (? & ? & ? & Ht & ->)). apply Forall2_nil_inv_r in Ht as ->.
    repeat constructor; lia.
  - rewrite Z.shiftl_mul_pow2, u32_id by lia. lia.
  - split; [|unfold fe; by rewrite <- Zmod.of_Z_mul, <- Hv]. apply (upto_words _ _ _ _ Hw). lia.
Qed.

(** The next operation of a formula whose operands are known: its bound and value. *)
Ltac known K :=
  match type of K with
  | rept ?x _ => let H := fresh "H" in pose proof (rept_rep _ _ K) as H; 
      let c := fresh "c" in set (c := x) in *; clearbody c
  | rep _ ?x _ => let c := fresh "c" in set (c := x) in *; clearbody c
  end.

Ltac field_step :=
  let K := fresh "K" in
  match goal with
  | H : rep ?m ?a ?v |- context [Square ?a] => pose proof (rept_Square m a v H ltac:(lia)) as K
  | H : rep ?m ?a ?v, H' : rep ?n ?b ?w |- context [Mul ?a ?b] =>
      pose proof (rept_Mul m n a b v w H H' ltac:(lia)) as K
  | H : rep ?m ?a ?v |- context [Reduce ?a] => pose proof (rep_Reduce m a v H ltac:(lia)) as K
  | H : rep ?m ?a ?v, H' : rep ?n ?b ?w |- context [Subtract ?a ?b] =>
      pose proof (rep_Subtract m n a b v w H H' ltac:(lia)) as K
  | H : rep ?m ?a ?v, H' : rep ?n ?b ?w |- context [Add ?a ?b] =>
      pose proof (rep_Add m n a b v w H H' ltac:(lia)) as K
  | H : rept ?a ?v |- context [shl 3 ?a] => pose proof (rep_shl3 a v H) as K
  | H : rep ?m ?a ?v |- context [shl ?k ?a] => pose proof (rep_shl k m a v H ltac:(lia)) as K
  | H : rep ?m ?a ?v |- context [map _ ?a] => pose proof (rep_triple m a v H ltac:(lia)) as K
  end; known K.

Lemma of_Z_2 : Zmod.of_Z P (2 ^ 1) = 2.
Proof. by apply Zmod.to_Z_inj. Qed.

Lemma of_Z_4 : Zmod.of_Z P (2 ^ 2) = 2 * 2.
Proof. by apply Zmod.to_Z_inj. Qed.

Lemma of_Z_8 : Zmod.of_Z P 8 = 2 * 2 * 2.
Proof. by apply Zmod.to_Z_inj. Qed.

Ltac formula_done :=
  unfold wf_point; cbn [px py pz];
  repeat match goal with H : rep _ _ _ |- _ => destruct H end;
  repeat match goal with |- _ /\ _ => split end;
  match goal with
  | |- wf _ => assumption
  | H : fe ?c = _ |- fe ?c = _ => rewrite H, ?of_Z_2, ?of_Z_4, ?of_Z_8; ring
  end.

Lemma AddJacobian_fe a b :
  wf_point a -> wf_point b ->
  let x1 := fe (px a) in let y1 := fe (py a) in let z1 := fe (pz a) in
  let x2 := fe (px b) in let y2 := fe (py b) in let z2 := fe (pz b) in
  let h := x2 * (z1 * z1) - x1 * (z2 * z2) in
  let r := 2 * (y2 * (z1 * z1 * z1) - y1 * (z2 * z2 * z2)) in
  let v := 2 * 2 * (x1 * (z2 * z2)) * (h * h) in
  let x3 := r * r - 2 * 2 * (h * h * h) - 2 * v in
  wf_point (AddJacobian a b) /\
  fe (pz (AddJacobian a b)) = 2 * z1 * z2 * h /\
  fe (px (AddJacobian a b)) = x3 /\
  fe (py (AddJacobian a b)) = r * (v - x3) - 2 * 2 * 2 * (y1 * (z2 * z2 * z2)) * (h * h * h).
Proof.
  intros (Hx1 & Hy1 & Hz1) (Hx2 & Hy2 & Hz2). cbv zeta.
  apply rep_fe in Hx1, Hy1, Hz1, Hx2, Hy2, Hz2. unfold AddJacobian. cbv zeta. cbn [px py pz].
  set (x1 := fe (px a)) in *. set (y1 := fe (py a)) in *. set (z1 := fe (pz a)) in *.
  set (x2 := fe (px b)) in *. set (y2 := fe (py b)) in *. set (z2 := fe (pz b)) in *.
  clearbody x1 y1 z1 x2 y2 z2.
  repeat field_step. formula_done.
Qed.

Lemma DoubleJacobian_fe a :
  wf_point a ->
  let x1 := fe (px a) in let y1 := fe (py a) in let z1 := fe (pz a) in
  let alpha := 3 * (x1 * x1 - z1 * z1 * (z1 * z1)) in
  let beta := x1 * (y1 * y1) in
  let x3 := alpha * alpha - 2 * 2 * 2 * beta in
  wf_point (DoubleJacobian a) /\
  fe (pz (DoubleJacobian a)) = 2 * y1 * z1 /\
  fe (px (DoubleJacobian a)) = x3 /\
  fe (py (DoubleJacobian a)) = alpha * (2 * 2 * beta - x3) - 2 * 2 * 2 * (y1 * y1 * (y1 * y1)).
Proof.
  intros (Hx1 & Hy1 & Hz1). cbv zeta.
  apply rep_fe in Hx1, Hy1, Hz1. unfold DoubleJacobian. cbv zeta. cbn [px py pz].
  set (x1 := fe (px a)) in *. set (y1 := fe (py a)) in *. set (z1 := fe (pz a)) in *.
  clearbody x1 y1 z1. repeat field_step. formula_done.
Qed.

(** ** The formulas are the chords and tangents *)

Lemma two_nonzero : (2 : F) <> 0.
Proof. intros H. by apply (f_equal Zmod.to_Z) in H. Qed.

Lemma fe_zero_words : fe (replicate 8 0%Z) = 0.
Proof. by apply Zmod.to_Z_inj. Qed.

Lemma one_nonzero : (1 : F) <> 0.
Proof. intros H. by apply (f_equal Zmod.to_Z) in H. Qed.

Lemma fe_one_words : fe one_words = 1.
Proof. by apply Zmod.to_Z_inj. Qed.

Lemma fe_kP : fe kP = 0.
Proof. by apply Zmod.to_Z_inj. Qed.

(** The proofs below do not compute in the field. *)
#[local] Opaque Zmod.add Zmod.sub Zmod.mul Zmod.mdiv Zmod.inv Zmod.of_Z Zmod.zero Zmod.one.

Lemma mul_nonzero (x y : F) : x <> 0 -> y <> 0 -> x * y <> 0.
Proof. intros Hx Hy Hxy. apply (Zmod.mul_0_iff_prime prime_modulus) in Hxy as [|]; done. Qed.

Ltac nonzero := repeat first [assumption | apply two_nonzero | apply mul_nonzero].

Lemma mul_zero (x y : F) : x * y = 0 -> x = 0 \/ y = 0.
Proof. apply (Zmod.mul_0_iff_prime prime_modulus). Qed.

Lemma div_zero (x y : F) : y <> 0 -> x / y = 0 -> x = 0.
Proof.
  intros Hy H. assert (E : x = x / y * y) by (field; done). rewrite E, H. ring.
Qed.

Lemma sub_zero (x y : F) : x - y = 0 -> x = y.
Proof. intros H. assert (E : x = x - y + y) by ring. rewrite E, H. ring. Qed.

Lemma to_affine_infinity p : fe (pz p) = 0 -> to_affine p = Infinity.
Proof. intros H. unfold to_affine. by rewrite decide_True. Qed.

Lemma to_affine_finite p :
  fe (pz p) <> 0 ->
  to_affine p = Affine (fe (px p) / (fe (pz p) * fe (pz p))) (fe (py p) / (fe (pz p) * fe (pz p) * fe (pz p))).
Proof. intros H. unfold to_affine. by rewrite decide_False. Qed.

Lemma DoubleJacobian_affine a : wf_point a -> to_affine (DoubleJacobian a) = double (to_affine a).
Proof.
  intros Ha. destruct (DoubleJacobian_fe a Ha) as (_ & Ez & Ex & Ey).
  set (x1 := fe (px a)) in *. set (y1 := fe (py a)) in *. set (z1 := fe (pz a)) in *.
  destruct (decide (z1 = 0)) as [Hz|Hz].
  { rewrite (to_affine_infinity a) by done. apply to_affine_infinity. rewrite Ez, Hz. ring. }
  rewrite (to_affine_finite a) by done. fold x1 y1 z1. clearbody x1 y1 z1. cbn [double].
  destruct (decide (y1 = 0)) as [Hy|Hy].
  { rewrite decide_True by (rewrite Hy; field; done). apply to_affine_infinity. rewrite Ez, Hy. ring. }
  assert (H : y1 / (z1 * z1 * z1) <> 0).
  { intros H. apply Hy. revert H. apply div_zero. nonzero. }
  rewrite decide_False by exact H.
  rewrite to_affine_finite; rewrite Ez; [|nonzero].
  rewrite Ex, Ey. clear Ex Ey Ez. unfold third.
  f_equal; field; repeat split; nonzero.
Qed.

(** What [AddJacobian] computes: the sum, except that it does not double and takes
    no neutral element. *)
Definition jacobian_sum (p q : affine) : affine :=
  if decide (p = Infinity \/ q = Infinity \/ p = q) then Infinity else add p q.

Lemma Affine_x x y x' y' : Affine x y = Affine x' y' -> x = x'.
Proof. exact (@f_equal _ _ (fun p => match p with Affine x _ => x | Infinity => x end) _ _). Qed.

Lemma Affine_y x y x' y' : Affine x y = Affine x' y' -> y = y'.
Proof. exact (@f_equal _ _ (fun p => match p with Affine _ y => y | Infinity => y end) _ _). Qed.

Lemma affine_ratio (x1 x2 z1 z2 : F) :
  z1 <> 0 -> z2 <> 0 -> (x1 / z1 = x2 / z2 <-> x2 * z1 - x1 * z2 = 0).
Proof.
  intros H1 H2. split; intros H.
  - assert (E : x2 * z1 - x1 * z2 = (x2 / z2 - x1 / z1) * (z1 * z2)) by (field; split; assumption).
    rewrite E, H. ring.
  - apply sub_zero. assert (E : x1 / z1 - x2 / z2 = (x1 * z2 - x2 * z1) / (z1 * z2)) by (field; split; assumption).
    rewrite E. apply sub_zero in H. rewrite H. field. split; assumption.
Qed.

Lemma AddJacobian_affine a b :
  wf_point a -> wf_point b ->
  to_affine (AddJacobian a b) = jacobian_sum (to_affine a) (to_affine b).
Proof.
  intros Ha Hb. destruct (AddJacobian_fe a b Ha Hb) as (_ & Ez & Ex & Ey).
  unfold jacobian_sum.
  destruct (decide (fe (pz a) = 0)) as [Hz1|Hz1].
  { rewrite (to_affine_infinity a Hz1), decide_True by (left; reflexivity).
    apply to_affine_infinity. rewrite Ez, Hz1. ring. }
  destruct (decide (fe (pz b) = 0)) as [Hz2|Hz2].
  { rewrite (to_affine_infinity b Hz2), decide_True by (right; left; reflexivity).
    apply to_affine_infinity. rewrite Ez, Hz2. ring. }
  rewrite (to_affine_finite a Hz1), (to_affine_finite b Hz2).
  set (x1 := fe (px a)) in *. set (y1 := fe (py a)) in *. set (z1 := fe (pz a)) in *.
  set (x2 := fe (px b)) in *. set (y2 := fe (py b)) in *. set (z2 := fe (pz b)) in *.
  clearbody x1 y1 z1 x2 y2 z2.
  pose proof (affine_ratio x1 x2 (z1 * z1) (z2 * z2) ltac:(nonzero) ltac:(nonzero)) as Hx.
  destruct (decide (x2 * (z1 * z1) - x1 * (z2 * z2) = 0)) as [Hh|Hh].
  { assert (Hinf : to_affine (AddJacobian a b) = Infinity) by (apply to_affine_infinity; rewrite Ez, Hh; ring).
    rewrite Hinf. apply Hx in Hh as E. destruct (decide _) as [|Hne]; [reflexivity|]. cbn [add].
    rewrite decide_True by exact E. rewrite decide_False; [reflexivity|].
    intros E'. apply Hne. right. right. rewrite E, E'. reflexivity. }
  rewrite decide_False by (intros [|[|E]]; [discriminate|discriminate|]; apply Affine_x in E; exact (Hh (proj1 Hx E))).
  cbn [add]. rewrite decide_False by (intros E; exact (Hh (proj1 Hx E))).
  assert (Hz : fe (pz (AddJacobian a b)) <> 0) by (rewrite Ez; nonzero).
  rewrite (to_affine_finite _ Hz), Ez, Ex, Ey. clear Ez Ex Ey Hz Hx. unfold third.
  f_equal; field; repeat split; nonzero.
Qed.

(** ** [ScalarMult] is double-and-add *)

(** [n] times [p] by the binary digits of [n], most significant first. *)
Fixpoint multiple (sum : affine -> affine -> affine) (p : affine) (n : positive) : affine :=
  match n with
  | xH => p
  | xO n => double (multiple sum p n)
  | xI n => sum p (double (multiple sum p n))
  end.

(** No addition of the double-and-add meets the neutral element or the point itself. *)
Fixpoint regular (p : affine) (n : positive) : bool :=
  match n with
  | xH => true
  | xO n => regular p n
  | xI n =>
      let q := double (multiple add p n) in
      bool_decide (p <> Infinity /\ q <> Infinity /\ p <> q) && regular p n
  end.

Lemma multiple_regular p n : regular p n = true -> multiple jacobian_sum p n = multiple add p n.
Proof.
  induction n as [n IH|n IH|]; cbn [regular multiple]; [|by intros H; rewrite IH|done].
  rewrite andb_true_iff, bool_decide_eq_true. intros [(H1 & H2 & H3) H]. rewrite IH by done.
  unfold jacobian_sum. rewrite decide_False; [reflexivity|]. intros [|[|]]; contradiction.
Qed.

(** The number a big-endian string of bytes stands for, and its bits. *)
Definition big_endian (l : list Z) : Z := foldl (fun n byte => 256 * n + byte)%Z 0%Z l.

Definition byte_bits (byte : Z) : list bool := map (fun i => Z.testbit byte (7 - Z.of_nat i)) (seq 0 8).

Definition of_bits (n : Z) (l : list bool) : Z := foldl (fun n b => 2 * n + Z.b2z b)%Z n l.

Definition ones : Z := 0xffffffff.

Definition mask_of (b : bool) : Z := if b then ones else 0%Z.

(** What holds between bytes: [forallb] over the 256 of them. *)
Lemma all_bytes (f : Z -> bool) :
  forallb (fun i => f (Z.of_nat i)) (seq 0 256) = true -> forall x, is_u8 x -> f x = true.
Proof.
  rewrite forallb_forall. intros H x Hx. unfold is_u8 in Hx. rewrite <- (Z2Nat.id x) by lia.
  apply H, in_seq. lia.
Qed.

Lemma bit_masks byte : is_u8 byte -> map (bit_mask byte) (seq 0 8) = map mask_of (byte_bits byte).
Proof.
  intros H. apply (bool_decide_eq_true_1 (_ = _)). revert byte H. apply all_bytes. vm_compute. reflexivity.
Qed.

Lemma of_bits_byte n byte : is_u8 byte -> of_bits n (byte_bits byte) = (256 * n + byte)%Z.
Proof.
  intros H. assert (E : of_bits 0 (byte_bits byte) = byte).
  { apply Z.eqb_eq. revert byte H. apply (all_bytes (fun byte => of_bits 0 (byte_bits byte) =? byte)%Z).
    vm_compute. reflexivity. }
  rewrite <- E at 2. unfold of_bits, byte_bits. cbn [map seq foldl]. lia.
Qed.

Lemma lxor_copy o x : is_u32 o -> is_u32 x -> Z.lxor o (Z.land ones (Z.lxor x o)) = x.
Proof.
  intros Ho Hx. change ones with (Z.ones 32). rewrite Z.land_comm, Z.land_ones by lia.
  rewrite Z.mod_small.
  - by rewrite (Z.lxor_comm x), <- Z.lxor_assoc, Z.lxor_nilpotent, Z.lxor_0_l.
  - apply is_u32_lxor; done.
Qed.

Lemma copy_words_ones out a : wf out -> wf a -> copy_words ones out a = a.
Proof.
  intros [Hlo Ho] [Hla Ha]. unfold copy_words. rewrite <- Hla in Hlo. clear Hla.
  revert a Hlo Ha. induction Ho as [|o out Ho1 Ho IH]; intros [|x a] Hl Ha; try done.
  apply Forall_cons in Ha as [Hx Ha]. cbn. rewrite IH by (done || by injection Hl).
  f_equal. apply lxor_copy; unfold is_u32; lia.
Qed.

Lemma copy_words_zero out a : length a = length out -> copy_words 0 out a = out.
Proof.
  unfold copy_words. revert a. induction out as [|o out IH]; intros [|x a] Hl; try done.
  cbn [zip_with]. rewrite IH by (by injection Hl). by rewrite Z.land_0_l, Z.lxor_0_r.
Qed.

Lemma CopyConditional_mask out a (c : bool) :
  wf_point out -> wf_point a -> CopyConditional out a (mask_of c) = if c then a else out.
Proof.
  intros (Hx & Hy & Hz) (Hx' & Hy' & Hz'). unfold CopyConditional. destruct c; cbn [mask_of].
  - rewrite !copy_words_ones by assumption. by destruct a.
  - rewrite !copy_words_zero by (by rewrite (proj1 Hx), (proj1 Hx') || by rewrite (proj1 Hy), (proj1 Hy')
      || by rewrite (proj1 Hz), (proj1 Hz')). by destruct out.
Qed.

Section Scalar.
Context (a : Point) (a_wf : wf_point a).

(** After the bits of [n]: no one bit yet, or the multiple of [a]. *)
Definition accumulated (n : Z) (s : Point * Z) : Prop :=
  wf_point (fst s) /\
  ((n = 0%Z /\ snd s = ones /\ to_affine (fst s) = Infinity) \/
   exists m, n = Zpos m /\ snd s = 0%Z /\ to_affine (fst s) = multiple jacobian_sum (to_affine a) m).

Lemma scalar_step_ok n s (bit : bool) :
  accumulated n s -> accumulated (2 * n + Z.b2z bit) (scalar_step a s (mask_of bit)).
Proof.
  destruct s as [out first]. intros [Hw Hn]. cbn [fst snd] in *. unfold scalar_step.
  pose proof (DoubleJacobian_affine out Hw) as Hd. destruct (DoubleJacobian_fe out Hw) as [Hdw _].
  set (out2 := DoubleJacobian out) in *. clearbody out2.
  pose proof (AddJacobian_affine a out2 a_wf Hdw) as Hs. destruct (AddJacobian_fe a out2 a_wf Hdw) as [Hsw _].
  set (tmp := AddJacobian a out2) in *. clearbody tmp.
  destruct Hn as [(-> & -> & Hinf)|(m & -> & -> & Hm)].
  - assert (Z.land ones (mask_of bit) = mask_of bit) as -> by (by destruct bit).
    assert (Z.land (not32 ones) (mask_of bit) = mask_of false) as -> by (by destruct bit).
    rewrite (CopyConditional_mask out2 a bit), CopyConditional_mask by (try destruct bit; assumption). destruct bit.
    + split; [exact a_wf|]. right. by exists 1%positive.
    + split; [exact Hdw|]. left. cbn [fst snd]. rewrite Hd, Hinf. done.
  - change (Z.land 0 (mask_of bit)) with (mask_of false).
    assert (Z.land (not32 0) (mask_of bit) = mask_of bit) as -> by (by destruct bit).
    rewrite (CopyConditional_mask out2 a false), CopyConditional_mask by assumption. rewrite Z.land_0_l.
    destruct bit; (split; [assumption|right]); [exists (xI m)|exists (xO m)]; cbn [fst snd multiple];
      (split; [done|split; [done|]]).
    + by rewrite Hs, Hd, Hm.
    + by rewrite Hd, Hm.
Qed.

Lemma scalar_bits_ok l n s :
  accumulated n s -> accumulated (of_bits n l) (foldl (scalar_step a) s (map mask_of l)).
Proof.
  revert n s. induction l as [|bit l IH]; intros n s H; [done|]. cbn. apply IH, scalar_step_ok, H.
Qed.

Lemma scalar_byte_ok n s byte :
  is_u8 byte -> accumulated n s -> accumulated (256 * n + byte) (scalar_byte a s byte).
Proof.
  intros Hb H. unfold scalar_byte. rewrite <- (of_bits_byte n byte Hb).
  replace (foldl _ s (seq 0 8)) with (foldl (scalar_step a) s (map (bit_mask byte) (seq 0 8))) by done.
  rewrite bit_masks by done. by apply scalar_bits_ok.
Qed.

Lemma scalar_bytes_ok l n s :
  Forall is_u8 l -> accumulated n s ->
  accumulated (foldl (fun n byte => 256 * n + byte)%Z n l) (foldl (scalar_byte a) s l).
Proof.
  intros Hl. revert n s. induction Hl as [|byte l Hb Hl IH]; intros n s H; [done|].
  cbn. by apply IH, scalar_byte_ok.
Qed.

Lemma accumulated_start : accumulated 0 (zero_point, 0xffffffff%Z).
Proof.
  assert (Hz : wf (replicate 8 0%Z)) by (split; [done|by repeat constructor]).
  split; [split; [exact Hz|split; exact Hz]|]. left. split; [reflexivity|split; [reflexivity|]].
  apply to_affine_infinity, fe_zero_words.
Qed.

Lemma ScalarMult_exact scalar :
  Forall is_u8 scalar ->
  wf_point (ScalarMult a scalar) /\
  to_affine (ScalarMult a scalar) =
    match big_endian scalar with Zpos n => multiple jacobian_sum (to_affine a) n | _ => Infinity end.
Proof.
  intros H. destruct (scalar_bytes_ok scalar _ _ H accumulated_start) as [Hw Hc].
  split; [exact Hw|]. unfold big_endian. unfold ScalarMult.
  destruct Hc as [(-> & _ & E)|(m & -> & _ & E)]; exact E.
Qed.
End Scalar.

(** ** [Negate] *)

Lemma words_kP : words 8 (2 ^ 28) kP.
Proof. split; [reflexivity|]. repeat constructor; lia. Qed.

Lemma Negate_affine p :
  wf_point p ->
  wf_point (Negate p) /\
  to_affine (Negate p) = match to_affine p with Infinity => Affine 0 0 | q => negate q end.
Proof.
  intros (Hx & Hy & Hz). destruct (fe_Invert (pz p) Hz) as [Hi Ei].
  apply rep_fe in Hx, Hy. assert (Hinv : rep (2 ^ 29) (Invert (pz p)) (Zmod.inv (fe (pz p)))) by (by split).
  pose proof (rep_fe _ _ words_kP) as HP. rewrite fe_kP in HP.
  unfold Negate. cbv zeta. set (i := Invert (pz p)) in *. clearbody i.
  repeat field_step. unfold wf_point. cbn [px py pz].
  repeat match goal with H : rep _ _ _ |- _ => destruct H end.
  split; [split; [assumption|split; [assumption|]]|].
  { split; [reflexivity|]. repeat constructor; lia. }
  rewrite to_affine_finite; cbn [px py pz]; rewrite fe_one_words; [|apply one_nonzero].
  unfold to_affine. cbv zeta.
  repeat match goal with H : fe ?c = _ |- context [fe ?c] => rewrite H end.
  destruct (decide (fe (pz p) = 0)) as [Ez|Ez].
  - rewrite Ez, Zmod.inv_0. f_equal; field; apply one_nonzero.
  - cbn [negate]. f_equal; field; repeat split; first [apply one_nonzero|assumption].
Qed.

(** ** The curve equation is preserved *)

Lemma third_on_curve s x1 y1 x2 :
  on_curve (Affine x1 y1) ->
  let d := x2 - x1 in
  2 * y1 * s + s * s * d = 3 * (x1 * x1) + 3 * x1 * d + d * d - 3 ->
  on_curve (third s x1 y1 x2).
Proof.
  cbn [on_curve]. intros Hc Hs. unfold third. cbn [on_curve]. cbv zeta in *.
  apply sub_zero. set (x3 := s * s - x1 - x2).
  transitivity ((y1 * y1 - (x1 * x1 * x1 - 3 * x1 + curve_b)) +
    (x1 - x3) * ((3 * (x1 * x1) + 3 * x1 * (x2 - x1) + (x2 - x1) * (x2 - x1) - 3) -
                 (2 * y1 * s + s * s * (x2 - x1)))).
  - unfold x3. ring.
  - rewrite Hs, Hc. ring.
Qed.

Lemma double_on_curve p : on_curve p -> on_curve (double p).
Proof.
  destruct p as [|x y]; [done|]. intros Hc. cbn [double]. destruct (decide (y = 0)) as [|Hy]; [done|].
  apply third_on_curve; [exact Hc|]. cbv zeta. field. repeat split; nonzero.
Qed.

Lemma add_on_curve p q : on_curve p -> on_curve q -> on_curve (add p q).
Proof.
  destruct p as [|x1 y1]; [done|]. destruct q as [|x2 y2]; [done|]. intros Hp Hq. cbn [add].
  destruct (decide (x1 = x2)) as [|Hx].
  { destruct (decide (y1 = y2)); [by apply double_on_curve|done]. }
  assert (Hd : x2 - x1 <> 0) by (intros H; apply Hx; symmetry; by apply sub_zero).
  apply third_on_curve; [exact Hp|]. cbv zeta. cbn [on_curve] in Hp, Hq.
  apply sub_zero.
  transitivity ((y2 * y2 - (x2 * x2 * x2 - 3 * x2 + curve_b) - (y1 * y1 - (x1 * x1 * x1 - 3 * x1 + curve_b)))
    / (x2 - x1)).
  - field. exact Hd.
  - rewrite Hp, Hq. field. exact Hd.
Qed.

Lemma jacobian_sum_on_curve p q : on_curve p -> on_curve q -> on_curve (jacobian_sum p q).
Proof. intros Hp Hq. unfold jacobian_sum. destruct (decide _); [exact I|]. by apply add_on_curve. Qed.

Lemma multiple_on_curve sum p n :
  (forall q r, on_curve q -> on_curve r -> on_curve (sum q r)) -> on_curve p -> on_curve (multiple sum p n).
Proof.
  intros Hsum Hp. induction n as [n IH|n IH|]; cbn [multiple]; auto using double_on_curve.
Qed.

Lemma ScalarMult_on_curve a scalar :
  wf_point a -> Forall is_u8 scalar -> on_curve (to_affine a) -> on_curve (to_affine (ScalarMult a scalar)).
Proof.
  intros Ha Hs Hc. destruct (ScalarMult_exact a Ha scalar Hs) as [_ E]. rewrite E.
  destruct (big_endian scalar); [exact I| |exact I]. by apply multiple_on_curve; [apply jacobian_sum_on_curve|].
Qed.

(** ** Properties *)

(** C18: the Jacobian formulas are the group operations of the affine curve: doubling
    without exception, the sum of two different finite points, and the negative of a
    finite point; they keep the bounds of the coordinates. *)
Theorem jacobian_refines_affine a b :
  wf_point a -> wf_point b ->
  (wf_point (DoubleJacobian a) /\ to_affine (DoubleJacobian a) = double (to_affine a)) /\
  wf_point (AddJacobian a b) /\
  (to_affine a <> Infinity -> to_affine b <> Infinity -> to_affine a <> to_affine b ->
   to_affine (AddJacobian a b) = add (to_affine a) (to_affine b)) /\
  wf_point (Negate a) /\
  (to_affine a <> Infinity -> to_affine (Negate a) = negate (to_affine a)).
Proof.
  intros Ha Hb. destruct (DoubleJacobian_fe a Ha) as [Hd _]. destruct (AddJacobian_fe a b Ha Hb) as [Hs _].
  destruct (Negate_affine a Ha) as [Hn En].
  split; [split; [exact Hd|by apply DoubleJacobian_affine]|]. split; [exact Hs|]. split.
  - intros H1 H2 H3. rewrite AddJacobian_affine by assumption. unfold jacobian_sum.
    rewrite decide_False; [reflexivity|]. intros [|[|]]; contradiction.
  - split; [exact Hn|]. intros H1. rewrite En. destruct (to_affine a); [contradiction|reflexivity].
Qed.

Lemma kBasePoint_wf : wf_point kBasePoint.
Proof.
  split; [|split]; (apply (words_weaken _ (2 ^ 28)); [|lia]); (split; [reflexivity|]); repeat constructor; lia.
Qed.

(** Twice the base point. *)
Definition twice : Point := DoubleJacobian kBasePoint.

Lemma jacobian_refines_affine_witness :
  to_affine (AddJacobian kBasePoint twice) = add (to_affine kBasePoint) (double (to_affine kBasePoint)).
Proof.
  assert (H2 := proj1 (jacobian_refines_affine kBasePoint kBasePoint kBasePoint_wf kBasePoint_wf)).
  destruct H2 as [W2 E2].
  assert (H := proj1 (proj2 (proj2 (jacobian_refines_affine kBasePoint twice kBasePoint_wf W2)))).
  unfold twice in *. rewrite E2 in H. apply H; apply (bool_decide_eq_true_1 (_ <> _)); vm_compute; reflexivity.
Defined.

(** C11: [ScalarMult] is double-and-add over the affine curve: as long as no addition of
    the run meets the neutral element or the point itself, the result is the multiple
    by the big-endian number, and 0 gives the neutral element. *)
Theorem scalar_mult_multiple a scalar n :
  wf_point a -> Forall is_u8 scalar -> big_endian scalar = Zpos n -> regular (to_affine a) n = true ->
  wf_point (ScalarMult a scalar) /\ to_affine (ScalarMult a scalar) = multiple add (to_affine a) n.
Proof.
  intros Ha Hs Hn Hr. destruct (ScalarMult_exact a Ha scalar Hs) as [Hw E]. split; [exact Hw|].
  rewrite E, Hn. by apply multiple_regular.
Qed.

Lemma scalar_mult_multiple_witness :
  to_affine (ScalarMult kBasePoint [1; 2]%Z) = multiple add (to_affine kBasePoint) 258.
Proof.
  refine (proj2 (scalar_mult_multiple kBasePoint [1; 2]%Z 258 kBasePoint_wf _ eq_refl _)).
  - repeat constructor; unfold is_u8; lia.
  - vm_compute. reflexivity.
Defined.

(** a multiple of a point of the curve is on the curve, for every scalar: what the
    exceptional cases of the addition give is too. *)
Theorem scalar_mult_on_curve a scalar :
  wf_point a -> Forall is_u8 scalar -> on_curve (to_affine a) ->
  wf_point (ScalarMult a scalar) /\ on_curve (to_affine (ScalarMult a scalar)).
Proof.
  intros Ha Hs Hc. split; [by apply ScalarMult_exact|by apply ScalarMult_on_curve].
Qed.

Lemma scalar_mult_on_curve_witness : on_curve (to_affine (ScalarBaseMult (replicate 28 0xff%Z))).
Proof.
  refine (proj2 (scalar_mult_on_curve kBasePoint _ kBasePoint_wf _ _)).
  - repeat constructor; unfold is_u8; lia.
  - apply (bool_decide_eq_true_1 _). vm_compute. reflexivity.
Defined.

End Curve.
