(* ===== verification/CryptoP224Point.v ===== *)
(** The external representation of [crypto/p224.cc]: [Get224Bits] and [Put224Bits],
    [Point::SetFromString] and [Point::ToString], on a little-endian host. *)
From Stdlib Require Import Field Zmod.Zmod.
From S2P Require Import Prelude GpuCommands PrimeField CryptoP224Field CryptoP224Contract CryptoP224Curve.

Module External.
Import FieldElement Contraction Curve.

(** The byte swap of a 32-bit word: [htonl] and [ntohl]. *)
Definition ntohl (w : Z) : Z :=
  Z.lor (Z.lor (u32 (Z.shiftl w 24)) (Z.land (Z.shiftl w 8) 0xff0000))
    (Z.lor (Z.land (Z.shiftr w 8) 0xff00) (Z.shiftr w 24)).

(** The words [reinterpret_cast] sees in a string. *)
Fixpoint words_of (l : list Z) : list Z :=
  match l with
  | b0 :: b1 :: b2 :: b3 :: l => default 0 (u32_of_bytes [b0; b1; b2; b3]) :: words_of l
  | _ => []
  end.

Definition Get224Bits (in_ : list Z) : t :=
  let n i := ntohl (at_ in_ i) in
  [Z.land (n 6%nat) kBottom28Bits;
   Z.land (Z.lor (u32 (Z.shiftl (n 5%nat) 4)) (Z.shiftr (n 6%nat) 28)) kBottom28Bits;
   Z.land (Z.lor (u32 (Z.shiftl (n 4%nat) 8)) (Z.shiftr (n 5%nat) 24)) kBottom28Bits;
   Z.land (Z.lor (u32 (Z.shiftl (n 3%nat) 12)) (Z.shiftr (n 4%nat) 20)) kBottom28Bits;
   Z.land (Z.lor (u32 (Z.shiftl (n 2%nat) 16)) (Z.shiftr (n 3%nat) 16)) kBottom28Bits;
   Z.land (Z.lor (u32 (Z.shiftl (n 1%nat) 20)) (Z.shiftr (n 2%nat) 12)) kBottom28Bits;
   Z.land (Z.lor (u32 (Z.shiftl (n 0%nat) 24)) (Z.shiftr (n 1%nat) 8)) kBottom28Bits;
   Z.land (Z.shiftr (n 0%nat) 4) kBottom28Bits].

Definition Put224Bits (in_ : t) : list Z :=
  let w i := at_ in_ i in
  [ntohl (Z.lor (Z.shiftr (w 6%nat) 24) (u32 (Z.shiftl (w 7%nat) 4)));
   ntohl (Z.lor (Z.shiftr (w 5%nat) 20) (u32 (Z.shiftl (w 6%nat) 8)));
   ntohl (Z.lor (Z.shiftr (w 4%nat) 16) (u32 (Z.shiftl (w 5%nat) 12)));
   ntohl (Z.lor (Z.shiftr (w 3%nat) 12) (u32 (Z.shiftl (w 4%nat) 16)));
   ntohl (Z.lor (Z.shiftr (w 2%nat) 8) (u32 (Z.shiftl (w 3%nat) 20)));
   ntohl (Z.lor (Z.shiftr (w 1%nat) 4) (u32 (Z.shiftl (w 2%nat) 24)));
   ntohl (Z.lor (Z.shiftr (w 0%nat) 0) (u32 (Z.shiftl (w 1%nat) 28)))].

(** The three coordinates are assigned before the point is checked. *)
Definition SetFromString (p : Point) (in_ : list Z) : bool * Point :=
  if negb (length in_ =? 2 * 28)%nat then (false, p)
  else
    let inwords := words_of in_ in
    let x := Get224Bits inwords in
    let y := Get224Bits (drop 7 inwords) in
    let p := mkPoint x y one_words in
    let lhs := Contract (Square y) in
    let rhs := Square x in
    let rhs := Mul x rhs in
    let three_x := map (fun w => u32 (w * 3)) x in
    let three_x := Reduce three_x in
    let rhs := Reduce (Subtract rhs three_x) in
    let rhs := Contract (Add rhs kB) in
    (bool_decide (lhs = rhs), p).

Definition ToString (p : Point) : list Z :=
  let zinv := Invert (pz p) in
  let zinv_sq := Square zinv in
  let x := Mul (px p) zinv_sq in
  let zinv_sq := Mul zinv_sq zinv in
  let y := Mul (py p) zinv_sq in
  let x := Contract x in
  let y := Contract y in
  bytes_of_entries (Put224Bits x ++ Put224Bits y).

(** ** Bits of words *)

Lemma u32_shiftl a k : 0 <= k <= 32 -> u32 (Z.shiftl a k) = a mod 2 ^ (32 - k) * 2 ^ k.
Proof.
  intros Hk. unfold u32. rewrite Z.shiftl_mul_pow2 by lia.
  replace (2 ^ 32) with (2 ^ (32 - k) * 2 ^ k) by (rewrite <- Z.pow_add_r by lia; f_equal; lia).
  apply Z.mul_mod_distr_r; apply Z.pow_nonzero; lia.
Qed.

Lemma lor_bytes a b c d :
  0 <= b < 2 ^ 8 -> 0 <= c < 2 ^ 8 -> 0 <= d < 2 ^ 8 ->
  Z.lor (Z.lor (a * 2 ^ 24) (b * 2 ^ 16)) (Z.lor (c * 2 ^ 8) d) = a * 2 ^ 24 + b * 2 ^ 16 + c * 2 ^ 8 + d.
Proof.
  intros Hb Hc Hd. rewrite (lor_add c), (lor_add a) by lia.
  replace (a * 2 ^ 24 + b * 2 ^ 16) with ((a * 2 ^ 8 + b) * 2 ^ 16) by lia. rewrite lor_add; lia.
Qed.

(** The four bytes of a word, most significant first. *)
Lemma ntohl_spec w :
  is_u32 w ->
  ntohl w = w mod 256 * 16777216 + w / 256 mod 256 * 65536 + w / 65536 mod 256 * 256 + w / 16777216.
Proof.
  intros Hw. unfold ntohl. rewrite u32_shiftl by lia.
  change 0xff0000 with (Z.ones 8 * 2 ^ 16). change 0xff00 with (Z.ones 8 * 2 ^ 8).
  rewrite !land_field, !Z.shiftr_div_pow2, Z.shiftl_mul_pow2 by lia.
  assert (w * 2 ^ 8 / 2 ^ 16 = w / 256) as -> by (change (2 ^ 16) with (256 * 2 ^ 8); by rewrite Z.div_mul_cancel_r).
  assert (w / 2 ^ 8 / 2 ^ 8 = w / 65536) as -> by (by rewrite Z.div_div).
  rewrite lor_bytes; [done|by apply Z.mod_pos_bound..|]. unfold is_u32 in Hw. div_lia.
Qed.

(** The word of four bytes, as read and swapped. *)
Lemma ntohl_bytes b0 b1 b2 b3 :
  is_u8 b0 -> is_u8 b1 -> is_u8 b2 -> is_u8 b3 ->
  ntohl (b0 + 256 * b1 + 65536 * b2 + 16777216 * b3) = ((b0 * 256 + b1) * 256 + b2) * 256 + b3.
Proof. unfold is_u8. intros. rewrite ntohl_spec by (unfold is_u32; lia). div_lia. Qed.

Lemma ntohl_range w : is_u32 w -> is_u32 (ntohl w).
Proof. intros Hw. rewrite ntohl_spec by done. unfold is_u32 in *. div_lia. Qed.

Lemma word_bytes w :
  is_u32 w -> exists b0 b1 b2 b3, is_u8 b0 /\ is_u8 b1 /\ is_u8 b2 /\ is_u8 b3 /\
    w = b0 + 256 * b1 + 65536 * b2 + 16777216 * b3.
Proof.
  intros Hw. exists (w mod 256), (w / 256 mod 256), (w / 65536 mod 256), (w / 16777216).
  unfold is_u32, is_u8 in *. split_and!; div_lia.
Qed.

Lemma ntohl_ntohl w : is_u32 w -> ntohl (ntohl w) = w.
Proof.
  intros Hw. destruct (word_bytes w Hw) as (b0 & b1 & b2 & b3 & H0 & H1 & H2 & H3 & ->).
  rewrite ntohl_bytes by done.
  replace (((b0 * 256 + b1) * 256 + b2) * 256 + b3) with (b3 + 256 * b2 + 65536 * b1 + 16777216 * b0) by lia.
  rewrite ntohl_bytes by done. lia.
Qed.

(** ** [Get224Bits] and [Put224Bits] *)

(** A limb made of two neighbouring words. *)
Lemma limb_of_words a b k :
  0 <= k <= 28 -> is_u32 b ->
  Z.land (Z.lor (u32 (Z.shiftl a k)) (Z.shiftr b (32 - k))) kBottom28Bits =
    a mod 2 ^ (28 - k) * 2 ^ k + b / 2 ^ (32 - k).
Proof.
  intros Hk Hb. unfold is_u32 in Hb. rewrite u32_shiftl, Z.shiftr_div_pow2 by lia.
  assert (0 < 2 ^ k) by (apply Z.pow_pos_nonneg; lia).
  assert (0 < 2 ^ (32 - k)) by (apply Z.pow_pos_nonneg; lia).
  assert (H32 : 2 ^ 32 = 2 ^ k * 2 ^ (32 - k)) by (rewrite <- Z.pow_add_r by lia; f_equal; lia).
  assert (Hq : 0 <= b / 2 ^ (32 - k) < 2 ^ k).
  { split; [apply Z.div_pos; lia|]. apply Z.div_lt_upper_bound; lia. }
  rewrite lor_add by lia. rewrite land_low28. change 268435456 with (2 ^ 28).
  replace (2 ^ 28) with (2 ^ k * 2 ^ (28 - k)) by (rewrite <- Z.pow_add_r by lia; f_equal; lia).
  assert (0 < 2 ^ (28 - k)) by (apply Z.pow_pos_nonneg; lia).
  set (x := a mod 2 ^ (32 - k)). set (q := b / 2 ^ (32 - k)) in *.
  assert ((x * 2 ^ k + q) mod 2 ^ k = q) as E1 by (rewrite Z.add_comm, Z.mod_add, Z.mod_small; lia).
  assert ((x * 2 ^ k + q) / 2 ^ k = x) as E2 by (rewrite Z.add_comm, Z.div_add, Z.div_small; lia).
  rewrite Z.rem_mul_r, E1, E2 by lia. unfold x.
  rewrite mod_mod_divide; [lia|lia|apply Z.pow_pos_nonneg; lia|].
  exists (2 ^ 4). rewrite <- Z.pow_add_r by lia. f_equal. lia.
Qed.

Lemma word_of_limbs a b k :
  4 <= k <= 28 -> 0 <= a < 2 ^ 28 ->
  Z.lor (Z.shiftr a (28 - k)) (u32 (Z.shiftl b k)) = b mod 2 ^ (32 - k) * 2 ^ k + a / 2 ^ (28 - k).
Proof.
  intros Hk Ha. rewrite u32_shiftl, Z.shiftr_div_pow2, Z.lor_comm by lia.
  apply lor_add; [lia|]. assert (0 < 2 ^ (28 - k)) by (apply Z.pow_pos_nonneg; lia).
  split; [apply Z.div_pos; lia|]. apply Z.div_lt_upper_bound; [done|]. rewrite <- Z.pow_add_r by lia.
  replace (28 - k + k) with 28 by lia. lia.
Qed.

(** The number in seven big-endian words, as stored. *)
Definition words_value (l : list Z) : Z := foldl (fun n w => 4294967296 * n + ntohl w) 0 l.

Ltac eval_sub e := let v := eval vm_compute in e in change e with v in *.

Ltac word a b k Ha :=
  let E := fresh "E" in
  pose proof (word_of_limbs a b k ltac:(lia) Ha) as E;
  eval_sub (32 - k); eval_sub (28 - k); rewrite E; clear E.

(** One limb, with its two words split at its ends. *)
Ltac limb a b k Hb :=
  let E := fresh "E" in
  pose proof (limb_of_words a b k ltac:(lia) Hb) as E;
  eval_sub (32 - k); eval_sub (28 - k); rewrite E; clear E.

Lemma Get224Bits_spec in_ :
  (7 <= length in_)%nat -> Forall is_u32 in_ ->
  words 8 (2 ^ 28) (Get224Bits in_) /\ val (Get224Bits in_) = words_value (take 7 in_).
Proof.
  intros Hl Hin. destruct in_ as [|w0 [|w1 [|w2 [|w3 [|w4 [|w5 [|w6 in_]]]]]]]; try (cbn in Hl; lia).
  do 7 (let H := fresh "H" in apply Forall_cons in Hin as [H Hin]). clear Hl Hin.
  cbn [take]. unfold words_value, Get224Bits. cbn [at_ nth foldl]. rewrite firstn_O. cbn [foldl].
  repeat match goal with H : is_u32 ?w |- _ =>
    apply ntohl_range in H; revert H; generalize (ntohl w); clear w; intros w ? end.
  limb w5 w6 4 H5. limb w4 w5 8 H4. limb w3 w4 12 H3. limb w2 w3 16 H2. limb w1 w2 20 H1. limb w0 w1 24 H0.
  rewrite !land_low28, Z.shiftr_div_pow2 by lia. change (w6 mod 268435456) with (w6 mod 2 ^ 28).
  unfold is_u32 in *. rewrite (Z.mod_small (w0 / 2 ^ 4)) by div_lia.
  split_div w6 (2 ^ 28) q6 r6. split_div w5 (2 ^ 24) q5 r5. split_div w4 (2 ^ 20) q4 r4.
  split_div w3 (2 ^ 16) q3 r3. split_div w2 (2 ^ 12) q2 r2. split_div w1 (2 ^ 8) q1 r1. split_div w0 (2 ^ 4) q0 r0.
  split; [split; [reflexivity|]; solve_forall|]. cbn [val]. lia.
Qed.

Lemma Put224Bits_spec a :
  words 8 (2 ^ 28) a ->
  length (Put224Bits a) = 7%nat /\ Forall is_u32 (Put224Bits a) /\ words_value (Put224Bits a) = val a.
Proof.
  intros H. explode H. unfold Put224Bits, words_value. cbn [at_ nth].
  rewrite Z.shiftr_0_r. pose proof (word_of_limbs x x0 28 ltac:(lia) Hx) as E.
  change (28 - 28) with 0 in E. rewrite Z.shiftr_0_r in E. rewrite E. clear E.
  word x0 x1 24 Hx0. word x1 x2 20 Hx1. word x2 x3 16 Hx2. word x3 x4 12 Hx3. word x4 x5 8 Hx4. word x5 x6 4 Hx5.
  change (32 - 28) with 4. change (2 ^ 0) with 1. rewrite Z.div_1_r.
  split_div x0 (2 ^ 4) q0 r0. split_div x1 (2 ^ 8) q1 r1. split_div x2 (2 ^ 12) q2 r2.
  split_div x3 (2 ^ 16) q3 r3. split_div x4 (2 ^ 20) q4 r4. split_div x5 (2 ^ 24) q5 r5.
  rewrite (Z.mod_small x6) by lia.
  split; [reflexivity|]. cbn [foldl]. rewrite !ntohl_ntohl by (unfold is_u32; lia). split.
  - repeat (apply Forall_cons; split; [apply ntohl_range; unfold is_u32; lia|]). by apply Forall_nil.
  - cbn [val]. lia.
Qed.

(** Limbs are digits. *)
Lemma val_injective n a b : words n (2 ^ 28) a -> words n (2 ^ 28) b -> val a = val b -> a = b.
Proof.
  revert a b. induction n as [|n IH]; intros a b [Ha Wa] [Hb Wb] E.
  { by rewrite (nil_length_inv a), (nil_length_inv b). }
  destruct a as [|x a]; [done|]. destruct b as [|y b]; [done|].
  apply Forall_cons in Wa as [Hx Wa]. apply Forall_cons in Wb as [Hy Wb]. cbn [val] in E.
  rewrite (IH a b); [|by split; [injection Ha|]|by split; [injection Hb|]|lia]. f_equal. lia.
Qed.

Lemma Get_Put a : words 8 (2 ^ 28) a -> Get224Bits (Put224Bits a) = a.
Proof.
  intros Ha. destruct (Put224Bits_spec a Ha) as (Hl & Hw & Hv).
  destruct (Get224Bits_spec (Put224Bits a) ltac:(lia) Hw) as [Hg Hv'].
  apply (val_injective 8); [done|done|]. rewrite Hv', take_ge by lia. exact Hv.
Qed.

(** ** Bytes *)

Lemma words_of_bytes l k :
  Forall is_u8 l -> length l = (4 * k)%nat ->
  length (words_of l) = k /\ Forall is_u32 (words_of l) /\
  forall n, foldl (fun n w => 4294967296 * n + ntohl w) n (words_of l) =
    foldl (fun n byte => 256 * n + byte) n l.
Proof.
  revert l. induction k as [|k IH]; intros l Hb Hl.
  { rewrite (nil_length_inv l) by lia. split_and!; [done|constructor|done]. }
  destruct l as [|b0 [|b1 [|b2 [|b3 l]]]]; try (cbn in Hl; lia).
  do 4 (let H := fresh "H" in apply Forall_cons in Hb as [H Hb]).
  destruct (IH l Hb ltac:(cbn in Hl; lia)) as (IHl & IHw & IHv). cbn [words_of u32_of_bytes default from_option id].
  split_and!.
  - cbn. by rewrite IHl.
  - constructor; [|done]. unfold is_u32, is_u8 in *. lia.
  - intros n. cbn [foldl]. rewrite IHv, ntohl_bytes by done. f_equal. lia.
Qed.

Lemma words_of_app l m k : length l = (4 * k)%nat -> words_of (l ++ m) = words_of l ++ words_of m.
Proof.
  revert l. induction k as [|k IH]; intros l Hl; [by rewrite (nil_length_inv l) by lia|].
  destruct l as [|b0 [|b1 [|b2 [|b3 l]]]]; try (cbn in Hl; lia).
  cbn [app words_of]. rewrite IH by (cbn in Hl; lia). done.
Qed.

Lemma words_of_entries ws : Forall is_u32 ws -> words_of (bytes_of_entries ws) = ws.
Proof.
  induction 1 as [|w ws Hw Hws IH]; [done|]. rewrite bytes_of_entries_cons.
  pose proof (u32_of_bytes_of w Hw) as E. unfold bytes_of_u32 in *. cbn [app words_of].
  rewrite E, IH. done.
Qed.

(** ** [SetFromString] *)

#[local] Open Scope field_scope.

Lemma Get_bytes l m :
  Forall is_u8 l -> Forall is_u8 m -> length l = 28%nat ->
  words 8 (2 ^ 28) (Get224Bits (words_of l ++ words_of m)) /\
  val (Get224Bits (words_of l ++ words_of m)) = big_endian l.
Proof.
  intros Hl Hm Ll. destruct (words_of_bytes l 7 Hl Ll) as (Lw & Hw & Hv).
  assert (Hwm : Forall is_u32 (words_of l ++ words_of m)).
  { apply Forall_app. split; [exact Hw|]. clear -Hm. induction m as [m IH] using (induction_ltof1 _ length).
    destruct m as [|b0 [|b1 [|b2 [|b3 m]]]]; try constructor.
    - do 4 (let H := fresh "H" in apply Forall_cons in Hm as [H Hm]).
      cbn [u32_of_bytes default from_option id]. unfold is_u8, is_u32 in *. lia.
    - do 4 (apply Forall_cons in Hm as [_ Hm]). apply IH; [unfold ltof; cbn; lia|done]. }
  destruct (Get224Bits_spec (words_of l ++ words_of m) ltac:(rewrite length_app; lia) Hwm) as [Hg E]. split; [exact Hg|].
  rewrite E, take_app_length' by done. apply Hv.
Qed.

Lemma rep_weaken m n a v w : rep m a v -> (m <= n)%Z -> w = v -> rep n a w.
Proof. intros [Ha <-] Hm ->. split; [by eapply words_weaken|done]. Qed.

(** Both sides of the curve equation, as compared. *)
Lemma equation_sides x y :
  words 8 (2 ^ 28) x -> words 8 (2 ^ 28) y ->
  let lhs := Square y in
  let rhs := Add (Reduce (Subtract (Mul x (Square x)) (Reduce (map (fun w => u32 (w * 3)) x)))) kB in
  rep (2 ^ 32 - 15) lhs (fe y * fe y) /\
  rep (2 ^ 32 - 15) rhs (fe x * fe x * fe x - 3 * fe x + curve_b).
Proof.
  intros Hx Hy. cbv zeta. destruct (words_map 8 (fun w => u32 (w * 3)) 3 (2 ^ 28) x Hx) as [Hw Hv]; [|lia|].
  { intros w Hw. rewrite u32_id; lia. }
  assert (H3 : rep (2 ^ 30) (map (fun w => u32 (w * 3)) x) (3 * fe x)).
  { split; [apply (upto_words _ _ _ _ Hw); lia|]. unfold fe. by rewrite Hv, Zmod.of_Z_mul. }
  assert (HB : rep (2 ^ 28) kB curve_b).
  { split; [|done]. split; [done|]. repeat constructor; lia. }
  apply rep_fe in Hx, Hy. set (m := map _ x) in *. clearbody m. repeat field_step.
  split; (eapply rep_weaken; [eassumption|lia|ring]).
Qed.

(** The point [SetFromString] reads. *)
Definition read_point (in_ : list Z) : affine :=
  Affine (Zmod.of_Z P (big_endian (take 28 in_))) (Zmod.of_Z P (big_endian (drop 28 in_))).

Lemma read_words in_ :
  Forall is_u8 in_ -> length in_ = 56%nat ->
  let x := Get224Bits (words_of in_) in let y := Get224Bits (drop 7 (words_of in_)) in
  words 8 (2 ^ 28) x /\ words 8 (2 ^ 28) y /\
  val x = big_endian (take 28 in_) /\ val y = big_endian (drop 28 in_).
Proof.
  intros Hb Hl. cbv zeta. assert (Lt : length (take 28 in_) = 28%nat) by (rewrite length_take; lia).
  assert (Ld : length (drop 28 in_) = 28%nat) by (rewrite length_drop; lia).
  assert (E : words_of in_ = words_of (take 28 in_) ++ words_of (drop 28 in_)).
  { rewrite <- (take_drop 28 in_) at 1. by apply (words_of_app _ _ 7). }
  destruct (words_of_bytes (take 28 in_) 7) as [Lw _]; [by apply Forall_take|done|].
  destruct (Get_bytes (take 28 in_) (drop 28 in_)) as [H1 H2]; [by apply Forall_take|by apply Forall_drop|done|].
  destruct (Get_bytes (drop 28 in_) []) as [H3 H4]; [by apply Forall_drop|constructor|done|].
  rewrite E, drop_app_length' by done. rewrite app_nil_r in H3, H4. by split_and!.
Qed.

Lemma Contract_compare a b v w :
  rep (2 ^ 32 - 15) a v -> rep (2 ^ 32 - 15) b w ->
  (Contract a = Contract b -> v = w) /\ (v = w -> (2 ^ 112 <= Zmod.to_Z v)%Z -> Contract a = Contract b).
Proof.
  intros [Ha <-] [Hb <-]. split; [by apply Contract_injective|]. intros E Hv.
  assert (Ea : Zmod.to_Z (fe a) = (val a mod P)%Z) by apply Zmod.to_Z_of_Z.
  assert (Eb : Zmod.to_Z (fe b) = (val b mod P)%Z) by apply Zmod.to_Z_of_Z.
  destruct (Contract_large a Ha ltac:(lia)) as [Wa Va].
  destruct (Contract_large b Hb ltac:(rewrite <- Eb, <- E; lia)) as [Wb Vb].
  apply (val_injective 8); [done|done|]. rewrite Va, Vb, <- Ea, <- Eb. by rewrite E.
Qed.

Lemma SetFromString_spec p in_ :
  Forall is_u8 in_ -> length in_ = 56%nat ->
  exists q ok, SetFromString p in_ = (ok, q) /\ wf_point q /\ to_affine q = read_point in_ /\
    (ok = true -> on_curve (read_point in_)) /\
    (on_curve (read_point in_) ->
      (2 ^ 112 <= big_endian (drop 28 in_) * big_endian (drop 28 in_) mod P)%Z -> ok = true).
Proof.
  intros Hb Hl. destruct (read_words in_ Hb Hl) as (Wx & Wy & Vx & Vy).
  unfold SetFromString. rewrite Hl. cbn [Nat.eqb Nat.mul Nat.add negb]. cbv zeta.
  set (x := Get224Bits (words_of in_)) in *. set (y := Get224Bits (drop 7 (words_of in_))) in *. clearbody x y.
  destruct (equation_sides x y Wx Wy) as [Hlhs Hrhs].
  destruct (Contract_compare _ _ _ _ Hlhs Hrhs) as [Hto Hfrom].
  do 2 eexists. split; [reflexivity|]. unfold read_point. rewrite <- Vx, <- Vy. fold (fe x) (fe y).
  split.
  { split; [|split]; cbn [px py pz]; [eapply words_weaken; [eassumption|lia]..|].
    split; [reflexivity|]. repeat constructor; lia. }
  split.
  { rewrite to_affine_finite; cbn [px py pz]; rewrite fe_one_words; [|apply one_nonzero].
    f_equal; field; apply one_nonzero. }
  split.
  - rewrite bool_decide_eq_true. exact Hto.
  - intros Hc Hy. apply bool_decide_eq_true, Hfrom; [exact Hc|].
    rewrite Zmod.to_Z_mul. unfold fe. rewrite Zmod.to_Z_of_Z, <- Z.mul_mod by done. exact Hy.
Qed.

(** ** [ToString] *)

Lemma Contract_rep a v :
  rep (2 ^ 32 - 15) a v -> (2 ^ 112 <= Zmod.to_Z v)%Z ->
  words 8 (2 ^ 28) (Contract a) /\ val (Contract a) = Zmod.to_Z v.
Proof.
  intros [Ha <-] Hv. assert (E : Zmod.to_Z (fe a) = (val a mod P)%Z) by apply Zmod.to_Z_of_Z.
  rewrite E in *. by apply Contract_large.
Qed.

Lemma put_bytes a :
  words 8 (2 ^ 28) a ->
  Forall is_u8 (bytes_of_entries (Put224Bits a)) /\ length (bytes_of_entries (Put224Bits a)) = 28%nat /\
  big_endian (bytes_of_entries (Put224Bits a)) = val a.
Proof.
  intros Ha. destruct (Put224Bits_spec a Ha) as (Hl & Hw & Hv).
  assert (Hb : Forall is_u8 (bytes_of_entries (Put224Bits a))).
  { clear -Hw. induction Hw as [|w ws Hw Hws IH]; [constructor|]. rewrite bytes_of_entries_cons.
    apply Forall_app. split; [|exact IH]. apply Forall_forall. intros b Hin.
    pose proof (bytes_of_u32_range w b Hin). unfold is_u8. lia. }
  assert (L : length (bytes_of_entries (Put224Bits a)) = 28%nat).
  { rewrite length_bytes_of_entries, Hl. reflexivity. }
  split; [exact Hb|split; [exact L|]].
  destruct (words_of_bytes (bytes_of_entries (Put224Bits a)) 7 Hb L) as (_ & _ & E). rewrite words_of_entries in E by exact Hw.
  transitivity (words_value (Put224Bits a)); [symmetry; exact (E 0%Z)|exact Hv].
Qed.

(** The limbs [ToString] writes are those of the coordinates. *)
Lemma ToString_words p x y :
  wf_point p -> to_affine p = Affine x y -> (2 ^ 112 <= Zmod.to_Z x)%Z -> (2 ^ 112 <= Zmod.to_Z y)%Z ->
  exists a b, ToString p = bytes_of_entries (Put224Bits a ++ Put224Bits b) /\
    words 8 (2 ^ 28) a /\ words 8 (2 ^ 28) b /\ val a = Zmod.to_Z x /\ val b = Zmod.to_Z y.
Proof.
  intros (Hx & Hy & Hz) Ha Lx Ly. destruct (fe_Invert (pz p) Hz) as [Hi Ei].
  apply rep_fe in Hx, Hy. assert (Hinv : rep (2 ^ 29) (Invert (pz p)) (Zmod.inv (fe (pz p)))) by (by split).
  unfold ToString. cbv zeta. set (i := Invert (pz p)) in *. clearbody i.
  destruct (decide (fe (pz p) = 0)) as [Ez|Ez]; [by rewrite to_affine_infinity in Ha|].
  rewrite (to_affine_finite p Ez) in Ha. pose proof (Affine_x _ _ _ _ Ha) as <-. pose proof (Affine_y _ _ _ _ Ha) as <-. clear Ha.
  set (z := fe (pz p)) in *. clearbody z. set (x := fe (px p)) in *. clearbody x.
  set (y := fe (py p)) in *. clearbody y.
  repeat field_step.
  assert (R1 : rep (2 ^ 32 - 15) c0 (x / (z * z))) by (eapply rep_weaken; [eassumption|lia|field; assumption]).
  assert (R2 : rep (2 ^ 32 - 15) c2 (y / (z * z * z))) by (eapply rep_weaken; [eassumption|lia|field; assumption]).
  destruct (Contract_rep _ _ R1 Lx) as [W1 V1]. destruct (Contract_rep _ _ R2 Ly) as [W2 V2].
  do 2 eexists. split; [reflexivity|]. split_and!; assumption.
Qed.

Lemma ToString_spec p x y :
  wf_point p -> to_affine p = Affine x y -> (2 ^ 112 <= Zmod.to_Z x)%Z -> (2 ^ 112 <= Zmod.to_Z y)%Z ->
  Forall is_u8 (ToString p) /\ length (ToString p) = 56%nat /\
  big_endian (take 28 (ToString p)) = Zmod.to_Z x /\ big_endian (drop 28 (ToString p)) = Zmod.to_Z y.
Proof.
  intros Hp Ha Lx Ly. destruct (ToString_words p x y Hp Ha Lx Ly) as (a & b & -> & W1 & W2 & V1 & V2).
  destruct (put_bytes _ W1) as (B1 & L1 & E1). destruct (put_bytes _ W2) as (B2 & L2 & E2).
  rewrite bytes_of_entries_app, take_app_length', drop_app_length' by done.
  split; [by apply Forall_app|]. rewrite length_app, L1, L2, E1, E2, V1, V2. done.
Qed.

(** What is written is read back: coordinates, and their equation, above 2^112. *)
Lemma SetFromString_ToString p q x y :
  wf_point p -> to_affine p = Affine x y -> on_curve (Affine x y) ->
  (2 ^ 112 <= Zmod.to_Z x)%Z -> (2 ^ 112 <= Zmod.to_Z y)%Z -> (2 ^ 112 <= Zmod.to_Z (y * y))%Z ->
  exists r, SetFromString q (ToString p) = (true, r) /\ wf_point r /\ to_affine r = Affine x y.
Proof.
  intros Hp Ha Hc Hx Hy Hyy. destruct (ToString_spec p x y Hp Ha Hx Hy) as (Hb & Hl & Ex & Ey).
  destruct (SetFromString_spec q _ Hb Hl) as (r & ok & E & Hw & Er & _ & Hok).
  unfold read_point in Er, Hok. rewrite Ex, Ey, !Zmod.of_Z_to_Z in Er, Hok.
  rewrite Zmod.to_Z_mul in Hyy. rewrite (Hok Hc Hyy) in E. by exists r.
Qed.

(** A finite point whose coordinates, and the square of the second, are out of the reach
    of the comparison in [Contract]. *)
Definition large (p : affine) : bool :=
  match p with
  | Affine x y => (2 ^ 112 <=? Zmod.to_Z x)%Z && (2 ^ 112 <=? Zmod.to_Z y)%Z && (2 ^ 112 <=? Zmod.to_Z (y * y))%Z
  | Infinity => false
  end.

Lemma large_bounds x y :
  large (Affine x y) = true ->
  (2 ^ 112 <= Zmod.to_Z x)%Z /\ (2 ^ 112 <= Zmod.to_Z y)%Z /\ (2 ^ 112 <= Zmod.to_Z (y * y))%Z.
Proof. cbn [large]. rewrite !andb_true_iff, !Z.leb_le. tauto. Qed.

(** ** Properties *)

(** [Put224Bits] and [Get224Bits] are inverse on 28-bit words, and [Get224Bits]
    reads the big-endian number of 28 bytes. *)
Theorem get_put_224 a l :
  words 8 (2 ^ 28) a -> Forall is_u8 l -> length l = 28%nat ->
  Get224Bits (Put224Bits a) = a /\
  words 8 (2 ^ 28) (Get224Bits (words_of l)) /\ val (Get224Bits (words_of l)) = big_endian l.
Proof.
  intros Ha Hl Ll. split; [by apply Get_Put|].
  destruct (Get_bytes l [] Hl (Forall_nil_2 _) Ll) as [Hw Hv]. by rewrite app_nil_r in Hw, Hv.
Qed.

Lemma get_put_224_witness : Get224Bits (Put224Bits kB) = kB.
Proof.
  refine (proj1 (get_put_224 kB (replicate 28 0xff%Z) _ _ eq_refl)).
  - split; [reflexivity|]. repeat constructor; lia.
  - repeat constructor; unfold is_u8; lia.
Defined.

(** Coordinates that are numbers below p, as the header describes the representation. *)
Definition canonical (in_ : list Z) : Prop := (big_endian (take 28 in_) < P /\ big_endian (drop 28 in_) < P)%Z.

Lemma big_endian_nonneg l : Forall is_u8 l -> (0 <= big_endian l)%Z.
Proof.
  unfold big_endian. assert (H : forall n, (0 <= n)%Z -> Forall is_u8 l -> (0 <= foldl (fun n byte => 256 * n + byte)%Z n l)%Z); [|by apply H].
  induction l as [|b l IH]; intros n Hn Hl; [done|]. apply Forall_cons in Hl as [Hb Hl]. apply IH; [|done]. unfold is_u8 in Hb. lia.
Qed.

Lemma read_point_canonical in_ x y : Forall is_u8 in_ -> canonical in_ -> read_point in_ = Affine x y ->
  Zmod.to_Z x = big_endian (take 28 in_) /\ Zmod.to_Z y = big_endian (drop 28 in_).
Proof.
  intros Hb [Hx Hy] E. injection E as <- <-. rewrite !Zmod.to_Z_of_Z.
  split; apply Z.mod_small; split; try assumption; apply big_endian_nonneg; [by apply Forall_take|by apply Forall_drop].
Qed.

(** C27: [SetFromString] accepts only 56 bytes that are the coordinates of a point of the
    curve, read modulo p, and accepts all of those with a square of y from 2^112 up; the
    point it sets is the one read, the two numbers themselves where they are below p.  The
    header says that they are; the code does not test it (see [above_p_accepted]).  Any
    other length leaves the point as it was. *)
Theorem set_from_string p in_ ok q :
  Forall is_u8 in_ -> SetFromString p in_ = (ok, q) ->
  if decide (length in_ = 56%nat) then
    wf_point q /\ to_affine q = read_point in_ /\
    (ok = true -> on_curve (read_point in_)) /\
    (on_curve (read_point in_) ->
     (2 ^ 112 <= big_endian (drop 28 in_) * big_endian (drop 28 in_) mod P)%Z -> ok = true) /\
    (canonical in_ -> forall x y, read_point in_ = Affine x y ->
     Zmod.to_Z x = big_endian (take 28 in_) /\ Zmod.to_Z y = big_endian (drop 28 in_))
  else ok = false /\ q = p.
Proof.
  intros Hb E. destruct (decide (length in_ = 56%nat)) as [Hl|Hl].
  - destruct (SetFromString_spec p in_ Hb Hl) as (q' & ok' & E' & H1 & H2 & H3 & H4). rewrite E' in E. injection E as <- <-.
    split_and!; [exact H1|exact H2|exact H3|exact H4|]. intros Hc x y. by apply read_point_canonical.
  - unfold SetFromString in E. rewrite (proj2 (Nat.eqb_neq (length in_) (2 * 28)) Hl) in E. injection E as <- <-. by split.
Qed.

Lemma set_from_string_witness : to_affine (snd (SetFromString zero_point (replicate 56 5%Z))) = read_point (replicate 56 5%Z).
Proof.
  assert (Hb : Forall is_u8 (replicate 56 5%Z)) by (repeat constructor; unfold is_u8; lia).
  exact (proj1 (proj2 (set_from_string zero_point (replicate 56 5%Z) _ _ Hb (surjective_pairing _)))).
Defined.

(** The point with x = 3, and the same bytes with x = 3 + p. *)
Definition small_point : list Z :=
  replicate 27 0%Z ++ [3;
    131; 83; 217; 99; 152; 66; 170; 21; 235; 16; 0; 177; 82; 16; 26; 23; 182; 135; 174; 181; 14; 179; 119; 5; 75; 145; 63; 187]%Z.
Definition small_point_above_p : list Z := replicate 16 255%Z ++ replicate 11 0%Z ++ 4%Z :: drop 28 small_point.

(** A number of p or more is accepted as a coordinate: the point has two representations. *)
Example above_p_accepted :
  fst (SetFromString zero_point small_point) = true /\ fst (SetFromString zero_point small_point_above_p) = true /\
  read_point small_point = read_point small_point_above_p /\ (P <=? big_endian (take 28 small_point_above_p))%Z = true.
Proof. split_and!; [vm_compute; reflexivity..| |vm_compute; reflexivity]. apply (bool_decide_eq_true_1 _). vm_compute. reflexivity. Qed.

(** [SetFromString] reads back what [ToString] writes, whatever the Jacobian
    coordinates of the point. *)
Theorem to_string_round_trip p q :
  wf_point p -> on_curve (to_affine p) -> large (to_affine p) = true ->
  exists r, SetFromString q (ToString p) = (true, r) /\ wf_point r /\ to_affine r = to_affine p.
Proof.
  intros Hp Hc HL. destruct (to_affine p) as [|x y] eqn:E; [discriminate HL|].
  destruct (large_bounds x y HL) as (Hx & Hy & Hyy). exact (SetFromString_ToString p q x y Hp E Hc Hx Hy Hyy).
Qed.

Lemma twice_wf : wf_point twice.
Proof. apply DoubleJacobian_fe, kBasePoint_wf. Qed.

Lemma to_string_round_trip_witness :
  exists r, SetFromString zero_point (ToString twice) = (true, r) /\ wf_point r /\ to_affine r = to_affine twice.
Proof.
  apply (to_string_round_trip twice zero_point twice_wf).
  - apply (bool_decide_eq_true_1 _). vm_compute. reflexivity.
  - vm_compute. reflexivity.
Defined.

End External.
