(* ===== verification/CryptoP224Group.v ===== *)
(** The points of the curve of [crypto/p224.cc] are a group under the chords and tangents of
    [CryptoP224Curve], so a multiple does not depend on how it is computed, and the multiples
    of a point by two scalars commute. *)
From Stdlib Require Import Field Zmod.Zmod.
From S2P Require Import Prelude.
From S2P Require Import PrimeField.
From S2P Require Import CryptoP224Field.
From S2P Require Import CryptoP224Contract.
From S2P Require Import CryptoP224Curve.

Module Group.
Import FieldElement Contraction Curve.

#[local] Open Scope field_scope.
#[local] Opaque Zmod.add Zmod.sub Zmod.mul Zmod.mdiv Zmod.inv Zmod.of_Z Zmod.zero Zmod.one.

(** ** Slopes

    The slope of the line through two points, the tangent where they are one: it is fixed by
    either equation where that is not trivial. *)
Definition slope (u x1 y1 x2 y2 : F) : Prop :=
  y2 = y1 + u * (x2 - x1) /\ u * (y1 + y2) - (x1 * x1 + x1 * x2 + x2 * x2) = 0 - 3.

Lemma sub_nonzero (x y : F) : x <> y -> x - y <> 0.
Proof. intros H E. by apply H, sub_zero. Qed.

Lemma mul_cancel (k x y : F) : k <> 0 -> k * x = k * y -> x = y.
Proof.
  intros Hk E. apply sub_zero. assert (H : k * (x - y) = 0) by (transitivity (k * x - k * y); [ring|rewrite E; ring]).
  by apply mul_zero in H as [H|H].
Qed.

Lemma div_eq (n d u : F) : d <> 0 -> u * d = n -> n / d = u.
Proof. intros Hd <-. field. exact Hd. Qed.

Lemma double_zero (y : F) : y = 0 - y -> y = 0.
Proof. intros E. apply (mul_cancel 2); [apply two_nonzero|]. transitivity (y - (0 - y)); [ring|]. rewrite <- E. ring. Qed.

(** The curve has no singular point: [curve_b] is neither 2 nor -2. *)
Lemma curve_b_regular : curve_b * curve_b - 2 * 2 <> 0.
Proof. intros E. apply (f_equal Zmod.to_Z) in E. vm_compute in E. discriminate E. Qed.

Lemma not_singular x : on_curve (Affine x 0) -> 3 * (x * x) = 3 -> False.
Proof.
  cbn [on_curve]. intros Hc H3. assert (Hxx : x * x = 1).
  { apply (mul_cancel 3); [|rewrite H3; ring]. intros E. apply (f_equal Zmod.to_Z) in E. vm_compute in E. discriminate E. }
  assert (Hb : curve_b = 2 * x).
  { transitivity (0 * 0 - (x * (x * x) - 3 * x)); [rewrite Hc; ring|]. rewrite Hxx. ring. }
  apply curve_b_regular. rewrite Hb. transitivity (2 * 2 * (x * x) - 2 * 2); [ring|]. rewrite Hxx. ring.
Qed.

Lemma slope_sym u x1 y1 x2 y2 : slope u x1 y1 x2 y2 -> slope u x2 y2 x1 y1.
Proof.
  intros [E1 E2]. split; [rewrite E1; ring|]. rewrite <- E2. ring.
Qed.

(** Two points have a slope unless they are opposite. *)
Lemma slope_exists x1 y1 x2 y2 :
  on_curve (Affine x1 y1) -> on_curve (Affine x2 y2) -> Affine x2 y2 <> negate (Affine x1 y1) -> exists u, slope u x1 y1 x2 y2.
Proof.
  cbn [on_curve negate]. intros H1 H2 Hn. destruct (decide (x1 = x2)) as [<-|Hx].
  - assert (Hy : y2 = y1).
    { assert (E : (y2 - y1) * (y2 - (0 - y1)) = 0) by (transitivity (y2 * y2 - y1 * y1); [ring|rewrite H1, H2; ring]).
      apply mul_zero in E as [E|E]; apply sub_zero in E; [done|]. by rewrite E in Hn. }
    subst y2. assert (Hy : y1 <> 0) by (intros ->; apply Hn; f_equal; ring).
    exists (3 * (x1 * x1 - 1) / (2 * y1)). split; [ring|]. field. split; nonzero.
  - exists ((y2 - y1) / (x2 - x1)). assert (Hd : x2 - x1 <> 0) by (apply sub_nonzero; congruence). split; [field; done|].
    transitivity ((y2 * y2 - x2 * x2 * x2 - (y1 * y1 - x1 * x1 * x1)) / (x2 - x1)); [field; done|]. rewrite H1, H2. field. exact Hd.
Qed.

Lemma slope_opposite u x1 y1 x2 y2 :
  on_curve (Affine x1 y1) -> slope u x1 y1 x2 y2 -> Affine x2 y2 <> negate (Affine x1 y1).
Proof.
  intros Hc [E1 E2] [= -> ->]. assert (E : y1 = 0).
  { apply double_zero. rewrite E1. ring. }
  subst y1. apply (not_singular x1 Hc). apply sub_zero. 
  transitivity (0 - (u * (0 + (0 - 0)) - (x1 * x1 + x1 * x1 + x1 * x1)) - 3); [ring|]. rewrite E2. ring.
Qed.

(** The sum of two points with a slope. *)
Lemma slope_sum u x1 y1 x2 y2 :
  on_curve (Affine x1 y1) -> slope u x1 y1 x2 y2 -> add (Affine x1 y1) (Affine x2 y2) = third u x1 y1 x2.
Proof.
  intros Hc Hu. pose proof (slope_opposite _ _ _ _ _ Hc Hu) as Hn. destruct Hu as [E1 E2]. cbn [add double].
  destruct (decide (x1 = x2)) as [<-|Hx].
  - assert (Ey : y2 = y1) by (rewrite E1; ring). rewrite Ey in E2, Hn |- *. rewrite decide_True by done.
    destruct (decide (y1 = 0)) as [->|Hy]; [destruct Hn; cbn [negate]; f_equal; ring|]. f_equal. apply div_eq; [nonzero|].
    apply sub_zero. transitivity (u * (y1 + y1) - (x1 * x1 + x1 * x1 + x1 * x1) - (0 - 3)); [ring|]. rewrite E2. ring.
  - f_equal. apply div_eq; [apply sub_nonzero; congruence|]. rewrite E1. ring.
Qed.

Lemma opposite_sum p : on_curve p -> add p (negate p) = Infinity.
Proof.
  destruct p as [|x y]; [done|]. intros Hc. cbn [add negate double]. rewrite decide_True by done. destruct (decide (y = 0 - y)) as [E|]; [|done].
  apply double_zero in E. by rewrite decide_True.
Qed.

Lemma negate_twice p : negate (negate p) = p.
Proof. destruct p; [done|]. cbn [negate]. f_equal. ring. Qed.

Lemma negate_on_curve p : on_curve p -> on_curve (negate p).
Proof. destruct p; [done|]. cbn [on_curve negate]. intros <-. ring. Qed.

(** ** The laws *)

Lemma add_infinity p : add p Infinity = p.
Proof. by destruct p. Qed.

(** Addition is by cases: the neutral element, opposite points, or a slope. *)
Lemma add_cases p q : on_curve p -> on_curve q ->
  p = Infinity \/ q = Infinity \/ q = negate p \/
  exists u x1 y1 x2 y2, p = Affine x1 y1 /\ q = Affine x2 y2 /\ slope u x1 y1 x2 y2.
Proof.
  intros Hp Hq. destruct p as [|x1 y1]; [by left|]. destruct q as [|x2 y2]; [by right; left|]. right; right.
  destruct (decide (Affine x2 y2 = negate (Affine x1 y1))) as [E|E]; [by left|]. right.
  destruct (slope_exists _ _ _ _ Hp Hq E) as [u Hu]. by exists u, x1, y1, x2, y2.
Qed.

Lemma add_comm p q : on_curve p -> on_curve q -> add p q = add q p.
Proof.
  intros Hp Hq. destruct (add_cases p q Hp Hq) as [->|[->|[->|(u & x1 & y1 & x2 & y2 & -> & -> & Hu)]]].
  - by rewrite add_infinity.
  - by rewrite add_infinity.
  - rewrite opposite_sum by done. pose proof (opposite_sum (negate p) Hq) as E. by rewrite negate_twice in E.
  - rewrite (slope_sum u), (slope_sum u x2) by first [done|by apply slope_sym]. destruct Hu as [-> _]. unfold third. f_equal; ring.
Qed.

Lemma add_opposite p q : on_curve p -> on_curve q -> add p (add (negate p) q) = q.
Proof.
  intros Hp Hq. pose proof (negate_on_curve p Hp) as Hn.
  destruct (add_cases (negate p) q Hn Hq) as [E|[->|[->|(t & x1 & y1 & x3 & y3 & E & -> & Ht)]]].
  - rewrite E. destruct p; [done|discriminate E].
  - rewrite add_infinity. by apply opposite_sum.
  - rewrite opposite_sum by done. by rewrite negate_twice, add_infinity.
  - rewrite E in *. rewrite (slope_sum t) by done. destruct p as [|x y]; [discriminate E|]. injection E as -> <-.
    destruct Ht as [E1 E2]. unfold third. cbv zeta. set (x5 := t * t - x1 - x3).
    assert (Hs : slope (0 - t) x1 y x5 (t * (x1 - x5) - (0 - y))).
    { split; [ring|]. rewrite <- E2, E1. unfold x5. ring. }
    rewrite (slope_sum _ _ _ _ _ Hp Hs). unfold third. rewrite E1. f_equal; unfold x5; ring.
Qed.

(** Three points whose lines through the second have two slopes: what the slopes say of the
    second point. *)
Lemma two_slopes s t x1 y1 x2 y2 x3 y3 :
  slope s x1 y1 x2 y2 -> slope t x2 y2 x3 y3 ->
  let u := x1 - x2 in let v := x3 - x2 in let sum := x1 + x2 + x3 in
  y1 = y2 + s * u /\ y3 = y2 + t * v /\ (s - t) * (2 * y2) = v * (t * t - sum) - u * (s * s - sum).
Proof.
  intros [E1 E2] [E3 E4]. cbv zeta. assert (Ey : y1 = y2 + s * (x1 - x2)) by (rewrite E1; ring). split; [exact Ey|]. split; [exact E3|].
  apply sub_zero. rewrite Ey in E2. rewrite E3 in E4.
  transitivity ((s * (y2 + s * (x1 - x2) + y2) - (x1 * x1 + x1 * x2 + x2 * x2)) -
                (t * (y2 + (y2 + t * (x3 - x2))) - (x2 * x2 + x2 * x3 + x3 * x3))); [ring|]. rewrite E2, E4. ring.
Qed.

(** Two different slopes: both ways of adding have the slopes [- s - w] and [- t - w]. *)
Lemma add_assoc_slopes s t x1 y1 x2 y2 x3 y3 :
  on_curve (Affine x1 y1) -> on_curve (Affine x2 y2) -> on_curve (Affine x3 y3) ->
  slope s x1 y1 x2 y2 -> slope t x2 y2 x3 y3 -> s <> t ->
  add (third s x1 y1 x2) (Affine x3 y3) = add (Affine x1 y1) (third t x2 y2 x3).
Proof.
  intros H1 H2 H3 Hs Ht Hd.
  assert (Hon : on_curve (third s x1 y1 x2)) by (rewrite <- (slope_sum s _ _ _ _ H1 Hs); by apply add_on_curve).
  destruct (two_slopes _ _ _ _ _ _ _ _ Hs Ht) as (Ey1 & Ey3 & Ey2). destruct Hs as [_ Es]. destruct Ht as [_ Et].
  apply sub_nonzero in Hd. assert (Ey : y2 = ((x3 - x2) * (t * t - (x1 + x2 + x3)) - (x1 - x2) * (s * s - (x1 + x2 + x3))) / (2 * (s - t))).
  { symmetry. apply div_eq; [nonzero|]. rewrite <- Ey2. ring. }
  set (w := (x3 - x1) / (s - t)). unfold third in *. cbv zeta in *. set (x4 := s * s - x1 - x2) in *. set (x5 := t * t - x2 - x3).
  assert (Hp : slope (0 - s - w) x4 (s * (x1 - x4) - y1) x3 y3).
  { split; [|rewrite <- Es]; rewrite ?Ey3, ?Ey1, Ey; unfold w, x4; field; repeat split; nonzero. }
  assert (Hq : slope (0 - t - w) x1 y1 x5 (t * (x2 - x5) - y2)).
  { split; [|rewrite <- Et]; rewrite ?Ey3, ?Ey1, Ey; unfold w, x5; field; repeat split; nonzero. }
  rewrite (slope_sum _ _ _ _ _ Hon Hp), (slope_sum _ _ _ _ _ H1 Hq). unfold third. cbv zeta.
  rewrite Ey1, Ey. f_equal; unfold w, x4, x5; field; repeat split; nonzero.
Qed.

(** One slope: the points are on a line, and their sum is nothing, or the outer two are one. *)
Lemma add_assoc_line s x1 y1 x2 y2 x3 y3 :
  on_curve (Affine x1 y1) -> on_curve (Affine x2 y2) -> on_curve (Affine x3 y3) ->
  slope s x1 y1 x2 y2 -> slope s x2 y2 x3 y3 ->
  add (third s x1 y1 x2) (Affine x3 y3) = add (Affine x1 y1) (third s x2 y2 x3).
Proof.
  intros H1 H2 H3 Hs Ht. destruct (two_slopes _ _ _ _ _ _ _ _ Hs Ht) as (Ey1 & Ey3 & Ey2).
  assert (E : (x3 - x1) * (s * s - (x1 + x2 + x3)) = 0).
  { transitivity ((s - s) * (2 * y2)); [rewrite Ey2; ring|ring]. }
  apply mul_zero in E as [E|E]; apply sub_zero in E.
  - subst x3. assert (y3 = y1) as -> by (rewrite Ey1, Ey3; ring).
    pose proof (slope_sum s _ _ _ _ H1 Hs) as E1. pose proof (slope_sum s _ _ _ _ H2 Ht) as E2.
    rewrite <- E1, <- E2. rewrite (add_comm (Affine x2 y2) (Affine x1 y1)) by done. apply add_comm; [by apply add_on_curve|done].
  - assert (E1 : third s x1 y1 x2 = negate (Affine x3 y3)).
    { unfold third. cbn [negate]. cbv zeta. rewrite E, Ey1, Ey3. f_equal; ring. }
    assert (E2 : third s x2 y2 x3 = negate (Affine x1 y1)).
    { unfold third. cbn [negate]. cbv zeta. rewrite E, Ey1. f_equal; ring. }
    rewrite E1, E2, opposite_sum by done. rewrite add_comm by (try apply negate_on_curve; done). by apply opposite_sum.
Qed.

Lemma add_assoc p q r : on_curve p -> on_curve q -> on_curve r -> add (add p q) r = add p (add q r).
Proof.
  intros Hp Hq Hr. destruct (add_cases p q Hp Hq) as [->|[->|[->|(s & x1 & y1 & x2 & y2 & -> & -> & Hs)]]]; [done|by rewrite add_infinity|..].
  { rewrite opposite_sum by done. by rewrite add_opposite. }
  destruct (add_cases _ r Hq Hr) as [E|[->|[->|(t & x2' & y2' & x3 & y3 & [= <- <-] & -> & Ht)]]]; [discriminate E|by rewrite !add_infinity|..].
  { set (q := Affine x2 y2) in *. set (p := Affine x1 y1) in *. rewrite opposite_sum, add_infinity by done.
    rewrite (add_comm p q), add_comm by (try apply add_on_curve; try apply negate_on_curve; done).
    pose proof (add_opposite (negate q) p Hr Hp) as E. by rewrite negate_twice in E. }
  rewrite (slope_sum s), (slope_sum t) by done. destruct (decide (s = t)) as [<-|Hd]; [by apply add_assoc_line|by apply add_assoc_slopes].
Qed.

(** ** Multiples *)

Lemma double_add p : double p = add p p.
Proof. destruct p as [|x y]; [done|]. cbn [add]. by rewrite !decide_True. Qed.

(** The sum of [n] times [p]. *)
Fixpoint times (n : nat) (p : affine) : affine := match n with O => Infinity | S n => add p (times n p) end.

Lemma times_on_curve n p : on_curve p -> on_curve (times n p).
Proof. intros Hp. induction n as [|n IH]; [exact I|]. by apply add_on_curve. Qed.

Lemma times_add n m p : on_curve p -> times (n + m) p = add (times n p) (times m p).
Proof.
  intros Hp. induction n as [|n IH]; [done|]. cbn [Nat.add times]. rewrite IH. symmetry. apply add_assoc; [done|by apply times_on_curve..].
Qed.

Lemma times_mul n m p : on_curve p -> times (n * m) p = times n (times m p).
Proof.
  intros Hp. induction n as [|n IH]; [done|]. cbn [Nat.mul]. rewrite times_add by done. cbn [times]. by rewrite IH.
Qed.

(** Double-and-add computes it. *)
Lemma multiple_times p n : on_curve p -> multiple add p n = times (Pos.to_nat n) p.
Proof.
  intros Hp. assert (Hd : forall n, double (times (Pos.to_nat n) p) = times (Pos.to_nat n~0) p).
  { intros m. rewrite double_add, Pos2Nat.inj_xO, <- times_add by done. f_equal. lia. }
  induction n as [n IH|n IH|]; cbn [multiple].
  - by rewrite IH, Hd, Pos2Nat.inj_xI, Pos2Nat.inj_xO.
  - by rewrite IH.
  - change (Pos.to_nat 1) with 1%nat. cbn. by rewrite add_infinity.
Qed.

(** The multiples of a point by two numbers commute. *)
Lemma multiple_comm p m n : on_curve p -> multiple add (multiple add p n) m = multiple add (multiple add p m) n.
Proof.
  intros Hp. pose proof (times_on_curve (Pos.to_nat m) p Hp). pose proof (times_on_curve (Pos.to_nat n) p Hp).
  rewrite !(multiple_times p) by done. rewrite !multiple_times, <- !times_mul by done. f_equal. lia.
Qed.

End Group.
