(* ===== verification/CryptoSpake.v ===== *)
(** The password-authenticated key exchange of [crypto/p224_spake.cc] (SPAKE2) and
    [SecureMemEqual] of [crypto/secure_util.cc]: the party's state machine, what
    success guarantees, and that two parties with one password agree on the key, by the group law. *)
From Stdlib Require Import Field Zmod.Zmod.
From Stdlib Require Import String.
From S2P Require Import Prelude PrimeField CryptoP224Field CryptoP224Contract CryptoP224Curve CryptoP224Point CryptoP224Group.

Module Spake.
Import FieldElement Curve External.


(** SHA-256, which is linked from NSS or OpenSSL: the digest of a string of bytes. *)
Class Sha256 := sha256 : list Z -> list Z.

Class Sha256Laws (H : Sha256) : Prop := {
  sha256_length s : length (sha256 s) = 32%nat;
  sha256_bytes s : Forall is_u8 (sha256 s)
}.

Definition kSHA256Length : nat := 32.
Definition kScalarBytes : nat := 28.

(** [SecureMemEqual]: no early exit. *)
Definition SecureMemEqual (s1 s2 : list Z) (n : nat) : bool :=
  foldl (fun tmp i => Z.lor tmp (Z.lxor (at_ s1 i) (at_ s2 i))) 0 (seq 0 n) =? 0.

Definition kM : Point := mkPoint
  [174237515; 77186811; 235213682; 33849492; 33188520; 48266885; 177021753; 81038478]
  [104523827; 245682244; 266509668; 236196369; 28372046; 145351378; 198520366; 113345994]
  [1; 0; 0; 0; 0; 0; 0; 0].

Definition kN : Point := mkPoint
  [136176322; 263523628; 251628795; 229292285; 5034302; 185981975; 171998428; 11653062]
  [197567436; 51226044; 60372156; 175772188; 42075930; 8083165; 160827401; 65097570]
  [1; 0; 0; 0; 0; 0; 0; 0].

Inductive Result := kResultPending | kResultFailed | kResultSuccess.

Inductive PeerType := kPeerTypeClient | kPeerTypeServer.

Inductive State := kStateInitial | kStateRecvDH | kStateSendHash | kStateRecvHash | kStateDone.

#[global] Instance State_eq_dec : EqDecision State.
Proof. solve_decision. Defined.

Record t := mk {
  state_ : State;
  is_server_ : bool;
  next_message_ : list Z;
  error_ : string;
  x_ : list Z;
  pw_ : list Z;
  expected_authenticator_ : list Z;
  key_ : list Z
}.

Definition label (peer_type : PeerType) : list Z :=
  match peer_type with
  | kPeerTypeServer => [115; 101; 114; 118; 101; 114]
  | kPeerTypeClient => [99; 108; 105; 101; 110; 116]
  end.

Section Exchange.
Context {hash : Sha256}.

(** The constructor, with the 28 bytes [RandBytes] puts in [x_]. *)
Definition init (peer_type : PeerType) (password random : list Z) : t :=
  let is_server := match peer_type with kPeerTypeServer => true | kPeerTypeClient => false end in
  let X := ScalarBaseMult random in
  let pw := take kScalarBytes (sha256 password) in
  let MNpw := ScalarMult (if is_server then kN else kM) pw in
  let Xstar := AddJacobian X MNpw in
  mk kStateInitial is_server (ToString Xstar) "" random pw (replicate kSHA256Length 0) [].

Definition set_state (s : State) (e : t) : t :=
  mk s (is_server_ e) (next_message_ e) (error_ e) (x_ e) (pw_ e) (expected_authenticator_ e) (key_ e).

Definition set_error (m : string) (e : t) : t :=
  mk (state_ e) (is_server_ e) (next_message_ e) m (x_ e) (pw_ e) (expected_authenticator_ e) (key_ e).

(** [LOG(FATAL)] ends the process. *)
Definition GetMessage (e : t) : outcome (list Z * t) :=
  match state_ e with
  | kStateInitial => Ret (next_message_ e, set_state kStateRecvDH e)
  | kStateSendHash => Ret (next_message_ e, set_state kStateRecvHash e)
  | _ => Crash
  end.

Definition CalculateHash (e : t) (peer_type : PeerType) (client_masked_dh server_masked_dh k : list Z) : list Z :=
  sha256 (label peer_type ++ client_masked_dh ++ server_masked_dh ++ pw_ e ++ k).

(** K = (Y - mask) * x_, as a string. *)
Definition derive_key (e : t) (Ystar : Point) : list Z :=
  let MNpw := ScalarMult (if is_server_ e then kM else kN) (pw_ e) in
  let minus_MNpw := Negate MNpw in
  let Y := AddJacobian Ystar minus_MNpw in
  let k := ScalarMult Y (x_ e) in
  ToString k.

(** The two proofs of knowledge of [key], one to send and one to expect. *)
Definition send_hash (e : t) (message key : list Z) : t :=
  let '(client_masked_dh, server_masked_dh) :=
    if is_server_ e then (message, next_message_ e) else (next_message_ e, message) in
  let client_hash := CalculateHash e kPeerTypeClient client_masked_dh server_masked_dh key in
  let server_hash := CalculateHash e kPeerTypeServer client_masked_dh server_masked_dh key in
  let my_hash := if is_server_ e then server_hash else client_hash in
  let their_hash := if is_server_ e then client_hash else server_hash in
  mk kStateSendHash (is_server_ e) my_hash (error_ e) (x_ e) (pw_ e) their_hash key.

(** The answer to the peer's masked value. *)
Definition process_dh (e : t) (message : list Z) : Result * t :=
  let '(ok, Ystar) := SetFromString zero_point message in
  if negb ok then
    (kResultFailed, set_error "failed to parse peer's masked Diffie-Hellman value" e)
  else (kResultPending, send_hash e message (derive_key e Ystar)).

Definition ProcessMessage (e : t) (message : list Z) : outcome (Result * t) :=
  match state_ e with
  | kStateRecvHash =>
      if negb (length message =? kSHA256Length)%nat then
        Ret (kResultFailed, set_error "peer's hash had an incorrect size" e)
      else if negb (SecureMemEqual message (expected_authenticator_ e) (length message)) then
        Ret (kResultFailed, set_error "peer's hash had incorrect value" e)
      else Ret (kResultSuccess, set_state kStateDone e)
  | kStateRecvDH => Ret (process_dh e message)
  | _ => Crash
  end.

Definition error (e : t) : string := error_ e.

Definition GetKey (e : t) : outcome (list Z) :=
  check! bool_decide (state_ e = kStateDone);
  Ret (key_ e).

End Exchange.

(** ** [SecureMemEqual] *)

Lemma lor_fold_zero (f : nat -> Z) l a :
  foldl (fun tmp i => Z.lor tmp (f i)) a l = 0 <-> a = 0 /\ Forall (fun i => f i = 0) l.
Proof.
  revert a. induction l as [|i l IH]; intros a; cbn [foldl]; [split; [by split|by intros [? _]]|].
  rewrite IH, Forall_cons, Z.lor_eq_0_iff. tauto.
Qed.

Lemma SecureMemEqual_iff s1 s2 n :
  length s1 = n -> length s2 = n -> SecureMemEqual s1 s2 n = true <-> s1 = s2.
Proof.
  intros L1 L2. unfold SecureMemEqual. rewrite Z.eqb_eq, lor_fold_zero, Forall_forall. split.
  - intros [_ H]. apply list_eq_same_length with n; [lia|lia|]. intros i x y Hi Hx Hy.
    specialize (H i). apply Z.lxor_eq.
    rewrite <- (nth_lookup_Some _ _ 0 _ Hx), <- (nth_lookup_Some _ _ 0 _ Hy). apply H.
    apply elem_of_seq. lia.
  - intros ->. split; [done|]. intros i _. apply Z.lxor_nilpotent.
Qed.

(** ** Points and scalars of an exchange *)

Definition scalar_multiple (s : list Z) (p : affine) : affine :=
  match big_endian s with Zpos n => multiple add p n | _ => Infinity end.

Definition regular_scalar (s : list Z) (p : affine) : bool :=
  match big_endian s with Zpos n => regular p n | _ => false end.

(** Two finite points with different first coordinates. *)
Definition separate (p q : affine) : bool :=
  match p, q with Affine x1 _, Affine x2 _ => bool_decide (x1 <> x2) | _, _ => false end.

Lemma ScalarMult_multiple a s p :
  wf_point a -> Forall is_u8 s -> to_affine a = p -> regular_scalar s p = true ->
  wf_point (ScalarMult a s) /\ to_affine (ScalarMult a s) = scalar_multiple s p.
Proof.
  intros Ha Hs <- Hr. destruct (ScalarMult_exact a Ha s Hs) as [Hw E]. split; [exact Hw|]. rewrite E.
  unfold regular_scalar, scalar_multiple in *. destruct (big_endian s); try done. by apply multiple_regular.
Qed.

Lemma AddJacobian_separate a b p q :
  wf_point a -> wf_point b -> to_affine a = p -> to_affine b = q -> separate p q = true ->
  wf_point (AddJacobian a b) /\ to_affine (AddJacobian a b) = add p q.
Proof.
  intros Ha Hb <- <- Hs. split; [by apply AddJacobian_fe|]. rewrite AddJacobian_affine by done.
  unfold jacobian_sum. rewrite decide_False; [reflexivity|].
  unfold separate in Hs. destruct (to_affine a) as [|x1 y1]; [discriminate|].
  destruct (to_affine b) as [|x2 y2]; [discriminate|]. apply bool_decide_eq_true in Hs.
  intros [|[|E]]; [discriminate|discriminate|]. apply Hs, (Affine_x _ _ _ _ E).
Qed.

#[local] Open Scope field_scope.

(** The mask comes off again. *)
Lemma add_negate p q :
  separate p q = true -> separate (add p q) q = true -> add (add p q) (negate q) = p.
Proof.
  destruct p as [|x1 y1]; [done|]. destruct q as [|x2 y2]; [done|]. cbn [separate].
  intros Hx. apply bool_decide_eq_true in Hx. cbn [add]. rewrite decide_False by exact Hx.
  unfold third. set (s := Zmod.mdiv (Zmod.sub y2 y1) (Zmod.sub x2 x1)). cbv zeta. cbn [separate negate].
  set (x3 := Zmod.sub (Zmod.sub (Zmod.mul s s) x1) x2). intros H3. apply bool_decide_eq_true in H3.
  cbn [add]. rewrite decide_False by exact H3. unfold third. cbv zeta.
  assert (Hd : x2 - x1 <> 0) by (intros H; apply Hx; symmetry; by apply sub_zero).
  assert (Hd3 : x2 - x3 <> 0) by (intros H; apply H3; symmetry; by apply sub_zero).
  assert (Hy : y2 = y1 + s * (x2 - x1)) by (unfold s; field; exact Hd).
  assert (Ht : (0 - y2 - (s * (x1 - x3) - y1)) / (x2 - x3) = 0 - s).
  { rewrite Hy. field. exact Hd3. }
  rewrite Ht. f_equal; unfold x3; ring.
Qed.

Lemma negate_affine q p :
  wf_point q -> to_affine q = p -> p <> Infinity -> wf_point (Negate q) /\ to_affine (Negate q) = negate p.
Proof.
  intros Hq <- Hp. destruct (Negate_affine q Hq) as [Hw E]. split; [exact Hw|]. rewrite E.
  destruct (to_affine q); [contradiction|reflexivity].
Qed.

Lemma separate_negate p q : separate p q = separate p (negate q).
Proof. by destruct p, q. Qed.

Lemma separate_finite p q : separate p q = true -> q <> Infinity.
Proof. by destruct p, q. Qed.

Lemma ToString_affine p q :
  wf_point p -> wf_point q -> to_affine p = to_affine q -> large (to_affine p) = true -> ToString p = ToString q.
Proof.
  intros Hp Hq E HL. destruct (to_affine p) as [|x y] eqn:Ep; [discriminate HL|]. cbn [large] in HL.
  rewrite !andb_true_iff, !Z.leb_le in HL. destruct HL as [[Hx Hy] _].
  destruct (ToString_words p x y Hp Ep Hx Hy) as (c & d & -> & Hc & Hd & Ec & Ed).
  destruct (ToString_words q x y Hq (eq_sym E) Hx Hy) as (c' & d' & -> & Hc' & Hd' & Ec' & Ed').
  rewrite (val_injective 8 c c'), (val_injective 8 d d'); congruence.
Qed.

(** ** Agreement *)

Definition G : affine := to_affine kBasePoint.
Definition M : affine := to_affine kM.
Definition N : affine := to_affine kN.

Lemma wf_literal a : words 8 (2 ^ 28) a -> wf a.
Proof. intros H. by eapply words_weaken. Qed.

Ltac wf_constant := split_and!; apply wf_literal; (split; [reflexivity|]); repeat constructor; lia.

Lemma kM_wf : wf_point kM.
Proof. wf_constant. Qed.

Lemma kN_wf : wf_point kN.
Proof. wf_constant. Qed.

(** What a party sends: its public point plus the mask [pw * base]. *)
Definition masked (x pw : list Z) (base : affine) : affine :=
  add (scalar_multiple x G) (scalar_multiple pw base).

(** No doubling, neutral element or short coordinate on the way of one message. *)
Definition sendable (x pw : list Z) (base : affine) : bool :=
  regular_scalar x G && regular_scalar pw base &&
  separate (scalar_multiple x G) (scalar_multiple pw base) &&
  separate (masked x pw base) (scalar_multiple pw base) &&
  large (masked x pw base).

Section Agreement.
Context {hash : Sha256} {laws : Sha256Laws hash}.

Lemma pw_bytes s : Forall is_u8 (take kScalarBytes (sha256 s)).
Proof. apply Forall_take, sha256_bytes. Qed.

Definition base_of (peer_type : PeerType) : Point :=
  match peer_type with kPeerTypeServer => kN | kPeerTypeClient => kM end.

Lemma base_of_wf peer_type : wf_point (base_of peer_type).
Proof. destruct peer_type; [apply kM_wf|apply kN_wf]. Qed.

(** The first message carries the masked point. *)
Lemma init_message peer_type password random :
  Forall is_u8 random ->
  let pw := take kScalarBytes (sha256 password) in
  let base := to_affine (base_of peer_type) in
  sendable random pw base = true ->
  exists q, next_message_ (init peer_type password random) = ToString q /\ wf_point q /\
    to_affine q = masked random pw base.
Proof.
  intros Hr pw base Hs. unfold sendable in Hs. rewrite !andb_true_iff in Hs.
  destruct Hs as [[[[H1 H2] H3] _] _].
  destruct (ScalarMult_multiple kBasePoint random G kBasePoint_wf Hr eq_refl H1) as [Wx Ex].
  destruct (ScalarMult_multiple (base_of peer_type) pw base (base_of_wf _) (pw_bytes password) eq_refl H2) as [Wm Em].
  destruct (AddJacobian_separate _ _ _ _ Wx Wm Ex Em H3) as [Wa Ea].
  eexists. split; [|split; [exact Wa|exact Ea]]. by destruct peer_type.
Qed.

(** Reading the peer's masked point and taking its mask off. *)
Lemma unmask x pw peer q :
  wf_point q -> Forall is_u8 pw ->
  sendable x pw (to_affine (base_of peer)) = true -> to_affine q = masked x pw (to_affine (base_of peer)) ->
  on_curve (to_affine q) ->
  exists r, SetFromString zero_point (ToString q) = (true, r) /\
    let Y := AddJacobian r (Negate (ScalarMult (base_of peer) pw)) in
    wf_point Y /\ to_affine Y = scalar_multiple x G.
Proof.
  intros Wq Hpw Hs Eq Hc. unfold sendable in Hs. rewrite !andb_true_iff in Hs.
  destruct Hs as [[[[_ H2] H3] H4] H5].
  destruct (to_affine q) as [|a b] eqn:Eab; [rewrite <- Eq in H5; discriminate H5|].
  pose proof H5 as HL. rewrite <- Eq in HL. destruct (large_bounds a b HL) as (La & Lb & Lbb).
  destruct (SetFromString_ToString q zero_point a b Wq Eab Hc La Lb Lbb) as (r & Er & Wr & Ar).
  exists r. split; [exact Er|].
  destruct (ScalarMult_multiple _ pw _ (base_of_wf peer) Hpw eq_refl H2) as [Wm Em].
  destruct (negate_affine _ _ Wm Em (separate_finite _ _ H3)) as [Wn En].
  rewrite Eq in Ar. rewrite separate_negate in H4. unfold masked in *.
  destruct (AddJacobian_separate _ _ _ _ Wr Wn Ar En H4) as [WY EY].
  split; [exact WY|]. rewrite EY. apply add_negate; [exact H3|]. by rewrite separate_negate.
Qed.
Lemma curve_constants : on_curve G /\ on_curve M /\ on_curve N.
Proof.
  split; [|split]; apply (bool_decide_eq_true_1 _); vm_compute; reflexivity.
Qed.

Lemma scalar_multiple_on_curve s p : on_curve p -> on_curve (scalar_multiple s p).
Proof.
  intros Hp. unfold scalar_multiple. destruct (big_endian s); [exact I| |exact I].
  apply multiple_on_curve; [apply add_on_curve|exact Hp].
Qed.

(** The group law is what makes the two keys one. *)
Lemma scalar_multiple_comm c s p :
  on_curve p -> scalar_multiple c (scalar_multiple s p) = scalar_multiple s (scalar_multiple c p).
Proof.
  intros Hp. unfold scalar_multiple. assert (Hi : forall n, multiple add Infinity n = Infinity).
  { intros n. rewrite Group.multiple_times by exact I. induction (Pos.to_nat n) as [|m IH]; [done|]. cbn [Group.times]. by rewrite IH. }
  destruct (big_endian c), (big_endian s); rewrite ?Hi; try done. by apply Group.multiple_comm.
Qed.

Lemma masked_on_curve x pw peer : on_curve (masked x pw (to_affine (base_of peer))).
Proof.
  destruct curve_constants as (HG & HM & HN).
  apply add_on_curve; apply scalar_multiple_on_curve; [exact HG|]. by destruct peer.
Qed.

(** The type of the other party. *)
Definition other (is_server : bool) : PeerType := if is_server then kPeerTypeClient else kPeerTypeServer.

Lemma base_of_other b : base_of (other b) = if b then kM else kN.
Proof. by destruct b. Qed.

Lemma process_dh_ok e x q :
  Forall is_u8 (x_ e) -> Forall is_u8 (pw_ e) -> wf_point q ->
  sendable x (pw_ e) (to_affine (base_of (other (is_server_ e)))) = true ->
  to_affine q = masked x (pw_ e) (to_affine (base_of (other (is_server_ e)))) ->
  regular_scalar (x_ e) (scalar_multiple x G) = true ->
  exists k, process_dh e (ToString q) = (kResultPending, send_hash e (ToString q) (ToString k)) /\
    wf_point k /\ to_affine k = scalar_multiple (x_ e) (scalar_multiple x G).
Proof.
  intros Hx Hpw Wq Hs Eq Hr.
  destruct (unmask x (pw_ e) (other (is_server_ e)) q Wq Hpw Hs Eq) as (r & Er & WY & EY).
  { rewrite Eq. apply masked_on_curve. }
  destruct (ScalarMult_multiple _ (x_ e) _ WY Hx EY Hr) as [Wk Ek].
  eexists. split; [|split; [exact Wk|exact Ek]].
  unfold process_dh. rewrite Er. cbn [negb]. unfold derive_key.
  rewrite <- base_of_other. reflexivity.
Qed.
End Agreement.

(** A whole exchange: each party's two messages given to the other. *)
Definition exchange {hash : Sha256} (client server : t) : outcome (list Result * t * t) :=
  let! '(mc, client) := GetMessage client in
  let! '(ms, server) := GetMessage server in
  let! '(rc, client) := ProcessMessage client ms in
  let! '(rs, server) := ProcessMessage server mc in
  let! '(hc, client) := GetMessage client in
  let! '(hs, server) := GetMessage server in
  let! '(rc2, client) := ProcessMessage client hs in
  let! '(rs2, server) := ProcessMessage server hc in
  Ret ([rc; rs; rc2; rs2], client, server).

(** The scalars of an exchange meet no exceptional case, and the coordinates sent and the
    key's are large enough for [Contract]. *)
Definition fair (c s pw : list Z) : bool :=
  sendable c pw M && sendable s pw N &&
  regular_scalar c (scalar_multiple s G) && regular_scalar s (scalar_multiple c G) &&
  large (scalar_multiple c (scalar_multiple s G)).

Lemma ProcessMessage_hash {hash : Sha256} e m :
  state_ e = kStateRecvHash -> length (expected_authenticator_ e) = kSHA256Length ->
  ProcessMessage e m =
    if (length m =? kSHA256Length)%nat then
      if bool_decide (m = expected_authenticator_ e) then Ret (kResultSuccess, set_state kStateDone e)
      else Ret (kResultFailed, set_error "peer's hash had incorrect value" e)
    else Ret (kResultFailed, set_error "peer's hash had an incorrect size" e).
Proof.
  intros Hs Hl. unfold ProcessMessage. rewrite Hs. destruct (Nat.eqb_spec (length m) kSHA256Length) as [E|]; [|done].
  cbn [negb]. pose proof (SecureMemEqual_iff m (expected_authenticator_ e) kSHA256Length E Hl) as Hm.
  rewrite E. destruct (SecureMemEqual _ _ _); case_bool_decide; cbn [negb]; try done.
  - exfalso. naive_solver.
  - exfalso. naive_solver.
Qed.

Lemma exchange_agrees {hash : Sha256} {laws : Sha256Laws hash} password c s :
  Forall is_u8 c -> Forall is_u8 s -> fair c s (take kScalarBytes (sha256 password)) = true ->
  exists key client server,
    exchange (init kPeerTypeClient password c) (init kPeerTypeServer password s) =
      Ret ([kResultPending; kResultPending; kResultSuccess; kResultSuccess], client, server) /\
    GetKey client = Ret key /\ GetKey server = Ret key.
Proof.
  intros Hc Hs Hf. unfold fair in Hf. rewrite !andb_true_iff in Hf. destruct Hf as [[[[Sc Ss] Rc] Rs] Lk].
  pose proof (scalar_multiple_comm c s G (proj1 curve_constants)) as Ek.
  destruct (init_message kPeerTypeClient password c Hc Sc) as (qc & Mc & Wc & Ac).
  destruct (init_message kPeerTypeServer password s Hs Ss) as (qs & Ms & Ws & As).
  set (pw := take kScalarBytes (sha256 password)) in *.
  set (client := init kPeerTypeClient password c) in *. set (server := init kPeerTypeServer password s) in *.
  pose proof (pw_bytes (hash:=hash) password) as Hpw. fold pw in Hpw.
  destruct (process_dh_ok (set_state kStateRecvDH client) s qs Hc Hpw Ws Ss As Rc) as (kc & Pc & Wkc & Akc).
  destruct (process_dh_ok (set_state kStateRecvDH server) c qc Hs Hpw Wc Sc Ac Rs) as (ks & Ps & Wks & Aks).
  assert (Ekey : ToString kc = ToString ks).
  { apply ToString_affine; [exact Wkc|exact Wks| |].
    - rewrite Akc, Aks. exact Ek.
    - rewrite Akc. exact Lk. }
  clear Ek Lk Akc Aks Sc Ss Rc Rs Ac As Wkc Wks Wc Ws Hc Hs.
  assert (Tc : state_ client = kStateInitial /\ is_server_ client = false /\ pw_ client = pw) by (split; [|split]; reflexivity).
  assert (Ts : state_ server = kStateInitial /\ is_server_ server = true /\ pw_ server = pw) by (split; [|split]; reflexivity).
  clearbody client server pw. destruct Tc as (Tc & Bc & Wc), Ts as (Ts & Bs & Ws).
  exists (ToString kc). do 2 eexists. unfold exchange, GetMessage at 1 2. rewrite Tc, Ts. cbn [obind].
  rewrite Mc, Ms. unfold ProcessMessage at 1 2. cbn [set_state state_ obind]. unfold set_state in *.
  rewrite Pc, Ps. clear Pc Ps. cbn [obind].
  unfold send_hash. cbn [is_server_ next_message_]. rewrite Bc, Bs. cbn [obind GetMessage state_ next_message_].
  unfold CalculateHash. cbn [pw_ set_state is_server_ next_message_ error_ x_ expected_authenticator_ key_].
  rewrite Wc, Ws, Mc, Ms, <- Ekey.
  rewrite !ProcessMessage_hash by first [apply sha256_length | reflexivity].
  cbn [expected_authenticator_]. rewrite !sha256_length. rewrite !bool_decide_true by reflexivity.
  cbn [Nat.eqb kSHA256Length obind]. split; [reflexivity|]. split; reflexivity.
Qed.

(** ** The calls of a party, in any order *)

Inductive event := Sent (m : list Z) | Received (m : list Z) (r : Result).

Section Calls.
Context {hash : Sha256} {laws : Sha256Laws hash}.

Inductive call : t -> event -> t -> Prop :=
| call_get e m e' : GetMessage e = Ret (m, e') -> call e (Sent m) e'
| call_process e m r e' : ProcessMessage e m = Ret (r, e') -> call e (Received m r) e'.

(** The calls that return, latest first. *)
Inductive run (e0 : t) : list event -> t -> Prop :=
| run_start : run e0 [] e0
| run_call tr e ev e' : run e0 tr e -> call e ev e' -> run e0 (ev :: tr) e'.

(** The hash the peer has to send after the masked value [m], with this key. *)
Definition peer_hash (e0 : t) (m key : list Z) : list Z :=
  let '(c, s) := if is_server_ e0 then (m, next_message_ e0) else (next_message_ e0, m) in
  CalculateHash e0 (other (is_server_ e0)) c s key.

(** The key comes from a masked value that was received and is on the curve. *)
Definition keyed (e0 : t) (tr : list event) (e : t) : Prop :=
  exists m Y, Received m kResultPending ∈ tr /\ SetFromString zero_point m = (true, Y) /\
    key_ e = derive_key e0 Y /\ expected_authenticator_ e = peer_hash e0 m (key_ e).

Definition same_secrets (e0 e : t) : Prop :=
  is_server_ e = is_server_ e0 /\ x_ e = x_ e0 /\ pw_ e = pw_ e0.

Definition calls_inv (e0 : t) (tr : list event) (e : t) : Prop :=
  same_secrets e0 e /\
  match state_ e with
  | kStateInitial | kStateRecvDH => next_message_ e = next_message_ e0
  | kStateSendHash | kStateRecvHash => keyed e0 tr e
  | kStateDone => keyed e0 tr e /\ Received (expected_authenticator_ e) kResultSuccess ∈ tr
  end.

Lemma keyed_more e0 ev tr e e' :
  keyed e0 tr e -> key_ e' = key_ e -> expected_authenticator_ e' = expected_authenticator_ e ->
  keyed e0 (ev :: tr) e'.
Proof.
  unfold keyed. intros (m & Y & H1 & H2 & H3 & H4) -> ->. exists m, Y.
  split; [by apply list_elem_of_further|]. by split_and!.
Qed.

Lemma process_dh_cases e m r e' :
  process_dh e m = (r, e') ->
  (r = kResultFailed /\ e' = set_error "failed to parse peer's masked Diffie-Hellman value" e) \/
  exists Y, r = kResultPending /\ SetFromString zero_point m = (true, Y) /\ e' = send_hash e m (derive_key e Y).
Proof.
  unfold process_dh. destruct (SetFromString zero_point m) as [[] Y]; cbn [negb]; intros [= <- <-].
  - right. by exists Y.
  - by left.
Qed.

Lemma peer_hash_length e0 m key : length (peer_hash e0 m key) = kSHA256Length.
Proof. unfold peer_hash. destruct (is_server_ e0); apply sha256_length. Qed.

Lemma send_hash_expected e0 e m key :
  same_secrets e0 e -> next_message_ e = next_message_ e0 ->
  expected_authenticator_ (send_hash e m key) = peer_hash e0 m key.
Proof.
  intros (Hs & _ & Hp) Hn. unfold send_hash, peer_hash, CalculateHash. rewrite Hs, Hn, Hp.
  by destruct (is_server_ e0).
Qed.

Lemma derive_key_same e0 e Y : same_secrets e0 e -> derive_key e Y = derive_key e0 Y.
Proof. intros (Hs & Hx & Hp). unfold derive_key. by rewrite Hs, Hx, Hp. Qed.

Lemma call_inv e0 tr e ev e' : calls_inv e0 tr e -> call e ev e' -> calls_inv e0 (ev :: tr) e'.
Proof.
  intros [Hs Hi] Hc. destruct Hc as [e m e' Hg|e m r e' Hp].
  - unfold GetMessage in Hg. destruct (state_ e) eqn:Es; try discriminate Hg; injection Hg as <- <-.
    + by split.
    + split; [done|]. cbn [set_state state_]. by eapply keyed_more.
  - destruct (state_ e) eqn:Es; try (unfold ProcessMessage in Hp; rewrite Es in Hp; discriminate Hp).
    + unfold ProcessMessage in Hp. rewrite Es in Hp. injection Hp as Hp. apply process_dh_cases in Hp as [[-> ->]|(Y & -> & HY & ->)].
      * split; [done|]. cbn [set_error state_]. by rewrite Es.
      * assert (Hss : same_secrets e0 (send_hash e m (derive_key e Y))).
        { unfold send_hash. by destruct Hs, (is_server_ e). }
        split; [done|]. assert (state_ (send_hash e m (derive_key e Y)) = kStateSendHash) as ->.
        { unfold send_hash. by destruct (is_server_ e). }
        assert (Ek : key_ (send_hash e m (derive_key e Y)) = derive_key e0 Y).
        { unfold send_hash. rewrite (derive_key_same e0) by done. by destruct (is_server_ e). }
        exists m, Y. rewrite Ek. split_and!; [apply list_elem_of_here|done|done|].
        rewrite (derive_key_same e0) by done. by apply send_hash_expected.
    + assert (Hl : length (expected_authenticator_ e) = kSHA256Length).
      { destruct Hi as (? & ? & _ & _ & _ & ->). apply peer_hash_length. }
      rewrite ProcessMessage_hash in Hp by done. repeat case_match; simplify_eq.
      * split; [done|]. cbn [set_state state_]. split; [by eapply keyed_more|].
        cbn [expected_authenticator_]. case_bool_decide; [subst|done]. apply list_elem_of_here.
      * split; [done|]. cbn [set_error state_]. rewrite Es. by eapply keyed_more.
      * split; [done|]. cbn [set_error state_]. rewrite Es. by eapply keyed_more.
Qed.

Lemma run_inv e0 tr e :
  state_ e0 = kStateInitial -> run e0 tr e -> calls_inv e0 tr e.
Proof.
  intros H0. induction 1 as [|tr e ev e' Hr IH Hc]; [|by eapply call_inv].
  split; [done|]. by rewrite H0.
Qed.
End Calls.

(** ** Properties *)

(** C13: however the calls of a party interleave, it is done only after a masked value
    that is a point of the curve and the peer's hash over both values, the password
    and the key: the key it then hands out is the one derived from that value. *)
Theorem spake_authenticated {hash : Sha256} {laws : Sha256Laws hash} peer_type password random tr e :
  let e0 := init peer_type password random in
  run e0 tr e -> state_ e = kStateDone ->
  exists m Y,
    Received m kResultPending ∈ tr /\ SetFromString zero_point m = (true, Y) /\
    Received (peer_hash e0 m (derive_key e0 Y)) kResultSuccess ∈ tr /\
    GetKey e = Ret (derive_key e0 Y).
Proof.
  intros e0 Hr Hd. destruct (run_inv e0 tr e eq_refl Hr) as [_ Hi]. rewrite Hd in Hi.
  destruct Hi as ((m & Y & Hm & HY & Hk & Hx) & Hs). exists m, Y. rewrite Hx, Hk in Hs.
  split_and!; try assumption. unfold GetKey. rewrite Hd, Hk. reflexivity.
Qed.

(** C9: a client and a server with one password that exchange their messages both end
    with success and the same key, for secrets that meet no exceptional case of the
    addition formulas on the way and no coordinate below 2^112 in what is sent and in the
    key. *)
Theorem spake_agreement {hash : Sha256} {laws : Sha256Laws hash} password c s :
  Forall is_u8 c -> Forall is_u8 s -> fair c s (take kScalarBytes (sha256 password)) = true ->
  exists key client server,
    exchange (init kPeerTypeClient password c) (init kPeerTypeServer password s) =
      Ret ([kResultPending; kResultPending; kResultSuccess; kResultSuccess], client, server) /\
    GetKey client = Ret key /\ GetKey server = Ret key.
Proof. apply exchange_agrees. Qed.

(** ** A concrete exchange *)

Module Sample.

(** A digest good enough to run: 27 zero bytes, a password of 1, a checksum. *)
Definition digest : Sha256 := fun s => replicate 27 0%Z ++ [1; zsum id s mod 256; 0; 0; 0]%Z.

Lemma digest_laws : Sha256Laws digest.
Proof.
  split; intros s; [reflexivity|]. unfold sha256, digest. apply Forall_app.
  split; repeat constructor; unfold is_u8; try lia; apply Z.mod_pos_bound; lia.
Qed.

Lemma exchange_run {hash : Sha256} c s rs c' s' : exchange c s = Ret (rs, c', s') -> exists tr, run c tr c'.
Proof.
  unfold exchange. intros H. inv_outcome.
  eexists. repeat (eapply run_call; [|first [by eapply call_get|by eapply call_process]]). apply run_start.
Qed.

Lemma fair_2_3 : fair [2]%Z [3]%Z (take kScalarBytes (digest [112%Z])) = true.
Proof. vm_compute. reflexivity. Qed.

Lemma byte_2 : Forall is_u8 [2%Z].
Proof. repeat constructor; unfold is_u8; lia. Qed.

Lemma byte_3 : Forall is_u8 [3%Z].
Proof. repeat constructor; unfold is_u8; lia. Qed.

Lemma spake_agreement_witness :
  exists key client server,
    exchange (hash:=digest) (init (hash:=digest) kPeerTypeClient [112%Z] [2%Z]) (init (hash:=digest) kPeerTypeServer [112%Z] [3%Z]) =
      Ret ([kResultPending; kResultPending; kResultSuccess; kResultSuccess], client, server) /\
    GetKey client = Ret key /\ GetKey server = Ret key.
Proof. exact (spake_agreement (hash:=digest) (laws:=digest_laws) [112%Z] [2%Z] [3%Z] byte_2 byte_3 fair_2_3). Defined.

Lemma done_run : exists tr e, run (hash:=digest) (init (hash:=digest) kPeerTypeClient [112%Z] [2%Z]) tr e /\ state_ e = kStateDone.
Proof.
  destruct (exchange_agrees (hash:=digest) (laws:=digest_laws) [112%Z] [2%Z] [3%Z] byte_2 byte_3 fair_2_3)
    as (key & client & server & Hx & Hk & _).
  destruct (exchange_run _ _ _ _ _ Hx) as [tr Hr]. exists tr, client. split; [exact Hr|].
  unfold GetKey in Hk. destruct (bool_decide (state_ client = kStateDone)) eqn:E; [|discriminate Hk].
  by apply bool_decide_eq_true in E.
Qed.

Lemma spake_authenticated_witness :
  exists tr e key, run (hash:=digest) (init (hash:=digest) kPeerTypeClient [112%Z] [2%Z]) tr e /\ GetKey e = Ret key.
Proof.
  destruct done_run as (tr & e & Hr & Hd).
  destruct (spake_authenticated (laws:=digest_laws) kPeerTypeClient [112%Z] [2%Z] tr e Hr Hd) as (m & Y & _ & _ & _ & Hk).
  exists tr, e. by eexists.
Defined.

End Sample.

End Spake.
