(* ===== verification/BaseNumbers.v ===== *)
(** Conversions between integers and strings, [base/string_number_conversions.cc]:
    the templates behind [IntToString], [StringToInt] and [HexStringToInt], over the
    value type, the base and the bounds of their traits.  Characters are bytes. *)
From S2P Require Import Prelude.

Module Numbers.

(** ** Types and traits *)

(** An integer type of C++: its width and signedness. *)
Record int_type := mkType { width : Z; signed : bool }.

Definition int32 : int_type := mkType 32 true.
Definition uint32 : int_type := mkType 32 false.
Definition int64 : int_type := mkType 64 true.
Definition uint64 : int_type := mkType 64 false.

(** Conversion to the type; signed arithmetic that overflows wraps like the hardware. *)
Definition to_type (ty : int_type) (x : Z) : Z :=
  if signed ty then (x + 2 ^ (width ty - 1)) mod 2 ^ width ty - 2 ^ (width ty - 1) else x mod 2 ^ width ty.

Definition type_min (ty : int_type) : Z := if signed ty then - 2 ^ (width ty - 1) else 0.
Definition type_max (ty : int_type) : Z := if signed ty then 2 ^ (width ty - 1) - 1 else 2 ^ width ty - 1.

(** [BaseIteratorRangeToNumberTraits]: [max()] need not be of the value type. *)
Record traits := mkTraits { value_type : int_type; min : Z; max : Z; kBase : Z }.

Definition BaseTraits (ty : int_type) (base : Z) : traits := mkTraits ty (type_min ty) (type_max ty) base.

(** "Allow parsing of 0xFFFFFFFF, which is technically an overflow". *)
Definition HexIteratorRangeToIntTraits : traits := mkTraits int32 (type_min int32) (type_max uint32) 16.

(** ** Characters *)

Definition LocalIsWhitespace (c : Z) : bool := (9 <=? c) && (c <=? 13) || (c =? 32).

Definition CharToDigit (base c : Z) : option Z :=
  if base <=? 10 then if (48 <=? c) && (c <? 48 + base) then Some (c - 48) else None
  else if (48 <=? c) && (c <=? 57) then Some (c - 48)
  else if (97 <=? c) && (c <? 97 + base - 10) then Some (c - 97 + 10)
  else if (65 <=? c) && (c <? 65 + base - 10) then Some (c - 65 + 10)
  else None.

(** ** From strings *)

Section Parse.
Context (tr : traits).

(** [Sign::CheckBounds]: whether another digit fits, and the output it leaves. *)
Definition Positive_CheckBounds (output new_digit : Z) : bool * Z :=
  let limit := to_type (value_type tr) (Z.quot (max tr) (kBase tr)) in
  if (limit <? output) || ((output =? limit) && (Z.rem (max tr) (kBase tr) <? new_digit))
  then (false, to_type (value_type tr) (max tr)) else (true, output).

Definition Negative_CheckBounds (output new_digit : Z) : bool * Z :=
  let limit := Z.quot (min tr) (kBase tr) in
  if (output <? limit) || ((output =? limit) && (0 - Z.rem (min tr) (kBase tr) <? new_digit))
  then (false, min tr) else (true, output).

Definition CheckBounds (negative : bool) : Z -> Z -> bool * Z :=
  if negative then Negative_CheckBounds else Positive_CheckBounds.

Definition Increment (negative : bool) (increment output : Z) : Z :=
  to_type (value_type tr) (if negative then output - increment else output + increment).

(** The loop over the characters; [first] is [current == begin]. *)
Fixpoint digits_loop (negative first : bool) (output : Z) (l : list Z) : bool * Z :=
  match l with
  | [] => (true, output)
  | c :: l =>
      match CharToDigit (kBase tr) c with
      | None => (false, output)
      | Some new_digit =>
          let '(ok, output) := if first then (true, output) else CheckBounds negative output new_digit in
          if negb ok then (false, output)
          else
            let output := if first then output else to_type (value_type tr) (output * kBase tr) in
            digits_loop negative false (Increment negative new_digit output) l
      end
  end.

(** The prefix "0x" before at least one digit, when the base is 16. *)
Definition skip_prefix (l : list Z) : list Z :=
  match l with
  | c0 :: c1 :: _ :: _ =>
      if (kBase tr =? 16) && (c0 =? 48) && ((c1 =? 120) || (c1 =? 88)) then drop 2 l else l
  | _ => l
  end.

(** [Base<Sign>::Invoke]. *)
Definition Base_Invoke (negative : bool) (l : list Z) : bool * Z :=
  match l with
  | [] => (false, 0)
  | _ => digits_loop negative true 0 (skip_prefix l)
  end.

Fixpoint skip_space (valid : bool) (l : list Z) : bool * list Z :=
  match l with
  | c :: l' => if LocalIsWhitespace c then skip_space false l' else (valid, l)
  | [] => (valid, l)
  end.

Definition Invoke (l : list Z) : bool * Z :=
  let '(valid, l) := skip_space true l in
  let '(ok, output) :=
    match l with
    | 45 :: l => Base_Invoke true l
    | 43 :: l => Base_Invoke false l
    | _ => Base_Invoke false l
    end in
  (valid && ok, output).

End Parse.

Definition StringToInt : list Z -> bool * Z := Invoke (BaseTraits int32 10).
Definition StringToUint : list Z -> bool * Z := Invoke (BaseTraits uint32 10).
Definition StringToInt64 : list Z -> bool * Z := Invoke (BaseTraits int64 10).
Definition StringToUint64 : list Z -> bool * Z := Invoke (BaseTraits uint64 10).
Definition HexStringToInt : list Z -> bool * Z := Invoke HexIteratorRangeToIntTraits.

(** ** To strings *)

(** [value < 0 ? -value : value], converted to the unsigned type. *)
Definition ToUnsigned (ty : int_type) (value : Z) : Z :=
  to_type (mkType (width ty) false)
    (if signed ty && (value <? 0) then to_type ty (- value) else value).

(** The loop from the end of the buffer: [room] is the distance of [it] from its
    begin, the text so far is behind it. *)
Fixpoint write_digits (fuel : nat) (is_neg : bool) (res room : Z) (text : list Z) : outcome (list Z) :=
  match fuel with
  | O => Timeout
  | S fuel =>
      check! negb (room - 1 =? 0);
      let text := (res mod 10 + 48) :: text in
      let res := res / 10 in
      if res =? 0 then
        if is_neg then check! negb (room - 2 =? 0); Ret (45 :: text) else Ret text
      else write_digits fuel is_neg res (room - 1) text
  end.

Definition IntToStringT (ty : int_type) (value : Z) : outcome (list Z) :=
  let kOutputBufSize := 3 * (width ty / 8) + 1 in
  write_digits (Z.to_nat kOutputBufSize) (signed ty && (value <? 0)) (ToUnsigned ty value) kOutputBufSize [].

Definition IntToString : Z -> outcome (list Z) := IntToStringT int32.
Definition UintToString : Z -> outcome (list Z) := IntToStringT uint32.
Definition Int64ToString : Z -> outcome (list Z) := IntToStringT int64.
Definition Uint64ToString : Z -> outcome (list Z) := IntToStringT uint64.

(** ** Bytes in hexadecimal *)

Definition kHexChars : list Z := [48; 49; 50; 51; 52; 53; 54; 55; 56; 57; 65; 66; 67; 68; 69; 70].

(** [b] is a signed char: its high bits are masked off. *)
Definition HexEncode (bytes : list Z) : list Z :=
  mjoin (map (fun b => [nth (Z.to_nat (Z.land (Z.shiftr b 4) 0xf)) kHexChars 0;
                        nth (Z.to_nat (Z.land b 0xf)) kHexChars 0]) bytes).

Fixpoint hex_pairs (l : list Z) (output : list Z) : bool * list Z :=
  match l with
  | c0 :: c1 :: l =>
      match CharToDigit 16 c0, CharToDigit 16 c1 with
      | Some msb, Some lsb => hex_pairs l (output ++ [u8 (Z.lor (Z.shiftl msb 4) lsb)])
      | _, _ => (false, output)
      end
  | _ => (true, output)
  end.

Definition HexStringToBytes (input output : list Z) : outcome (bool * list Z) :=
  check! (length output =? 0)%nat;
  Ret (if (length input =? 0)%nat || negb (length input mod 2 =? 0)%nat then (false, output)
       else hex_pairs input output).

(** ** The reference

    What the header promises: the number is an optional sign and digits; its value
    is clamped to the type; the conversion is perfect when there is no leading
    whitespace, at least one digit, nothing after the digits, and no clamping. *)

Definition value (base : Z) (n : Z) (digits : list Z) : Z :=
  fold_left (fun n d => n * base + d) digits n.

(** The longest prefix of digits, and whether it is the whole text. *)
Fixpoint digit_prefix (base : Z) (l : list Z) : list Z :=
  match l with
  | c :: l => match CharToDigit base c with Some d => d :: digit_prefix base l | None => [] end
  | [] => []
  end.

Definition all_digits (base : Z) (l : list Z) : bool :=
  forallb (fun c => bool_decide (is_Some (CharToDigit base c))) l.

Fixpoint trim (l : list Z) : list Z :=
  match l with c :: l' => if LocalIsWhitespace c then trim l' else l | [] => [] end.

Definition split_sign (l : list Z) : bool * list Z :=
  match l with 45 :: l => (true, l) | 43 :: l => (false, l) | _ => (false, l) end.

Definition clamp (ty : int_type) (v : Z) : Z := Z.max (type_min ty) (Z.min (type_max ty) v).

Definition reference_parse (ty : int_type) (base : Z) (l : list Z) : bool * Z :=
  let '(negative, body) := split_sign (trim l) in
  let v := value base 0 (digit_prefix base body) in
  let v := if negative then - v else v in
  (bool_decide (trim l = l) && bool_decide (body <> []) && all_digits base body && (clamp ty v =? v),
   clamp ty v).

(** ** Digits *)

Lemma CharToDigit_range base c d : 2 <= base <= 36 -> CharToDigit base c = Some d -> 0 <= d < base.
Proof.
  unfold CharToDigit. intros Hb H.
  repeat match type of H with context [if ?b then _ else _] => destruct b eqn:?; zb2p end;
    simplify_eq; lia.
Qed.

Lemma value_cons base n d ds : value base n (d :: ds) = value base (n * base + d) ds.
Proof. done. Qed.

Lemma value_app base n ds es : value base n (ds ++ es) = value base (value base n ds) es.
Proof. apply fold_left_app. Qed.

Lemma digit_prefix_range base l : 2 <= base <= 36 -> Forall (fun d => 0 <= d < base) (digit_prefix base l).
Proof.
  intros Hb. induction l as [|c l IH]; cbn; [constructor|].
  destruct (CharToDigit base c) eqn:E; [|constructor].
  constructor; [by eapply CharToDigit_range|done].
Qed.

(** More digits only make the number larger. *)
Lemma value_mono base n ds : 2 <= base -> 0 <= n -> Forall (fun d => 0 <= d < base) ds -> n <= value base n ds.
Proof.
  intros Hb Hn H. revert n Hn. induction H as [|d ds Hd _ IH]; intros n Hn; [done|].
  rewrite value_cons. specialize (IH (n * base + d) ltac:(nia)). nia.
Qed.

(** ** The types *)

Lemma width_split ty : 8 <= width ty ->
  2 ^ width ty = 2 * 2 ^ (width ty - 1) /\ 128 <= 2 ^ (width ty - 1).
Proof.
  intros H. split.
  - rewrite <- (Z.pow_succ_r 2) by lia. f_equal. lia.
  - change 128 with (2 ^ 7). apply Z.pow_le_mono_r; lia.
Qed.

Lemma to_type_small ty x : 8 <= width ty -> type_min ty <= x <= type_max ty -> to_type ty x = x.
Proof.
  intros Hw. destruct (width_split ty Hw). unfold to_type, type_min, type_max.
  destruct (signed ty); intros Hx; [|apply Z.mod_small; lia].
  rewrite Z.mod_small; lia.
Qed.

(** ** The loop over the digits *)

Section Exact.
Context (ty : int_type) (base : Z) (Hw : 8 <= width ty) (Hb : 2 <= base <= 36).
#[local] Abbreviation tr := (BaseTraits ty base).

(** The largest magnitude of a sign. *)
Definition limit (negative : bool) : Z := if negative then - type_min ty else type_max ty.
Definition with_sign (negative : bool) (x : Z) : Z := if negative then - x else x.

(** A negative number only makes sense for a signed type. *)
Definition usable (negative : bool) : Prop := negative = true -> signed ty = true.

Lemma limit_large negative : usable negative -> 127 <= limit negative.
Proof.
  unfold usable, limit, type_min, type_max. destruct (width_split ty Hw).
  destruct negative, (signed ty); intros Hu; first [lia|discriminate (Hu eq_refl)].
Qed.

Lemma to_type_sign negative x :
  usable negative -> 0 <= x <= limit negative -> to_type ty (with_sign negative x) = with_sign negative x.
Proof.
  intros Hu Hx. apply to_type_small; [done|].
  unfold usable, limit, with_sign, type_min, type_max in *. destruct (width_split ty Hw).
  destruct negative, (signed ty); first [lia|discriminate (Hu eq_refl)].
Qed.

(** [CheckBounds] asks whether the number with another digit is within the type. *)
Lemma CheckBounds_exact negative n d :
  usable negative -> 0 <= n <= limit negative -> 0 <= d < base ->
  CheckBounds tr negative (with_sign negative n) d =
    if limit negative <? n * base + d then (false, with_sign negative (limit negative))
    else (true, with_sign negative n).
Proof.
  intros Hu Hn Hd. pose proof (limit_large negative Hu) as Hl.
  assert (Hdm := Z.div_mod (limit negative) base ltac:(lia)).
  pose proof (Z.mod_pos_bound (limit negative) base ltac:(lia)).
  assert (Hq : 0 <= limit negative / base <= limit negative) by (split; [apply Z.div_pos; lia|apply Z.div_le_upper_bound; nia]).
  destruct negative; cbn [CheckBounds with_sign] in *.
  - unfold Negative_CheckBounds. cbn [kBase min BaseTraits].
    replace (type_min ty) with (- limit true) by (cbn; lia).
    rewrite Z.quot_opp_l, Z.rem_opp_l, Z.quot_div_nonneg, Z.rem_mod_nonneg by lia.
    repeat case_if; try done; exfalso;
      repeat match goal with E : orb _ _ = true |- _ => apply orb_true_iff in E as [E|E]; zb2p
                           | E : andb _ _ = false |- _ => apply andb_false_iff in E as [E|E]; zb2p end; nia.
  - unfold Positive_CheckBounds. cbn [kBase max value_type BaseTraits].
    change (type_max ty) with (limit false).
    rewrite Z.quot_div_nonneg, Z.rem_mod_nonneg by lia.
    pose proof (to_type_sign false (limit false / base) Hu ltac:(lia)) as E1.
    pose proof (to_type_sign false (limit false) Hu ltac:(lia)) as E2.
    cbn [with_sign] in E1, E2. rewrite E1, E2.
    repeat case_if; try done; exfalso;
      repeat match goal with E : orb _ _ = true |- _ => apply orb_true_iff in E as [E|E]; zb2p
                           | E : andb _ _ = false |- _ => apply andb_false_iff in E as [E|E]; zb2p end; nia.
Qed.

Lemma Increment_exact negative n d :
  usable negative -> 0 <= n -> 0 <= d -> n * base + d <= limit negative ->
  Increment tr negative d (to_type ty (with_sign negative n * base)) = with_sign negative (n * base + d).
Proof.
  intros Hu Hn Hd Hle. unfold Increment. cbn [value_type BaseTraits].
  replace (with_sign negative n * base) with (with_sign negative (n * base)) by (destruct negative; cbn; lia).
  rewrite (to_type_sign negative (n * base)) by (done || nia).
  rewrite <- (to_type_sign negative (n * base + d)) by (done || nia).
  f_equal. destruct negative; cbn; lia.
Qed.

Lemma digits_loop_exact negative l n :
  usable negative -> 0 <= n <= limit negative ->
  digits_loop tr negative false (with_sign negative n) l =
    let v := value base n (digit_prefix base l) in
    (all_digits base l && (v <=? limit negative), with_sign negative (Z.min v (limit negative))).
Proof.
  intros Hu. revert n. induction l as [|c l IH]; intros n Hn; cbn [digits_loop digit_prefix all_digits forallb].
  - cbn. rewrite Z.min_l by lia. f_equal. symmetry. apply Z.leb_le. lia.
  - cbn [kBase BaseTraits]. destruct (CharToDigit base c) as [d|] eqn:E.
    2:{ cbn. by rewrite Z.min_l by lia. }
    rewrite bool_decide_eq_true_2 by done. cbn [andb].
    pose proof (CharToDigit_range _ _ _ Hb E) as Hd.
    rewrite CheckBounds_exact by done. rewrite value_cons. case_if; cbn [negb].
    + pose proof (value_mono base (n * base + d) (digit_prefix base l) ltac:(lia) ltac:(nia) (digit_prefix_range base l Hb)).
      rewrite Z.min_r by lia. f_equal. symmetry. apply andb_false_iff. right. apply Z.leb_gt. lia.
    + cbn [value_type BaseTraits]. rewrite Increment_exact by (done || lia). rewrite IH by nia. done.
Qed.

(** The first digit needs no check. *)
Lemma digits_loop_first negative l :
  usable negative -> digits_loop tr negative true 0 l = digits_loop tr negative false (with_sign negative 0) l.
Proof.
  intros Hu. destruct l as [|c l]; [by destruct negative|]. cbn [digits_loop kBase BaseTraits].
  destruct (CharToDigit base c) as [d|] eqn:E; [|by destruct negative].
  pose proof (CharToDigit_range _ _ _ Hb E) as Hd. pose proof (limit_large negative Hu).
  assert (Hl : base - 1 <= limit negative) by lia.
  rewrite CheckBounds_exact by (done || lia).
  rewrite (proj2 (Z.ltb_ge _ _)) by lia. cbn [negb value_type BaseTraits].
  replace (with_sign negative 0) with 0 by (by destruct negative). rewrite Z.mul_0_l.
  pose proof (to_type_sign negative 0 Hu ltac:(lia)) as E0.
  replace (with_sign negative 0) with 0 in E0 by (by destruct negative). by rewrite E0.
Qed.

Lemma Base_Invoke_exact negative l :
  usable negative -> base <> 16 ->
  Base_Invoke tr negative l =
    let v := with_sign negative (value base 0 (digit_prefix base l)) in
    (bool_decide (l <> []) && all_digits base l && (clamp ty v =? v), clamp ty v).
Proof.
  intros Hu H16. unfold Base_Invoke.
  pose proof (value_mono base 0 (digit_prefix base l) ltac:(lia) ltac:(lia) (digit_prefix_range base l Hb)).
  assert (Hc : forall v, 0 <= v -> clamp ty (with_sign negative v) = with_sign negative (Z.min v (limit negative))).
  { intros v Hv. pose proof (limit_large negative Hu). unfold clamp, with_sign, limit, type_min, type_max in *.
    destruct (width_split ty Hw). unfold usable in Hu.
    destruct negative, (signed ty) eqn:Es; first [lia|discriminate (Hu eq_refl)]. }
  destruct l as [|c l']; [cbn; rewrite Hc by lia; cbn; pose proof (limit_large negative Hu);
    rewrite Z.min_l by lia; by destruct negative|].
  replace (skip_prefix tr (c :: l')) with (c :: l').
  2:{ unfold skip_prefix. cbn [kBase BaseTraits]. rewrite (proj2 (Z.eqb_neq _ _) H16). by destruct l' as [|? [|??]]. }
  rewrite digits_loop_first, digits_loop_exact by (done || pose proof (limit_large negative Hu); lia).
  cbn zeta. rewrite Hc by done. f_equal. rewrite bool_decide_eq_true_2 by done. cbn [andb]. f_equal.
  destruct negative; cbn [with_sign]; apply eq_true_iff_eq; rewrite Z.leb_le, Z.eqb_eq; lia.
Qed.

End Exact.

Lemma skip_space_trim valid l :
  skip_space valid l = (valid && bool_decide (trim l = l), trim l).
Proof.
  assert (Hle : forall l, (length (trim l) <= length l)%nat).
  { clear. induction l as [|c l IH]; cbn; [done|]. destruct (LocalIsWhitespace c); cbn in *; lia. }
  revert valid. induction l as [|c l IH]; intros valid; cbn.
  - by rewrite bool_decide_eq_true_2, andb_true_r.
  - destruct (LocalIsWhitespace c).
    + rewrite IH. f_equal. cbn. symmetry. apply andb_false_iff. right. apply bool_decide_eq_false_2.
      intros E. specialize (Hle l). rewrite E in Hle. cbn in Hle. lia.
    + by rewrite bool_decide_eq_true_2, andb_true_r.
Qed.

Lemma Invoke_split tr l :
  Invoke tr l =
    let '(negative, body) := split_sign (trim l) in
    let '(ok, output) := Base_Invoke tr negative body in (bool_decide (trim l = l) && ok, output).
Proof.
  unfold Invoke. rewrite skip_space_trim. cbn [andb]. unfold split_sign.
  generalize (bool_decide (trim l = l)) (trim l). intros b t.
  by repeat match goal with |- context [match ?x with _ => _ end] => is_var x; destruct x end.
Qed.

(** C23: For a signed type, or a text without minus, and a base other than 16, the
    conversion is the reference: the sign and the longest run of digits, clamped to the
    type, perfect exactly when there is no leading whitespace, a digit, nothing after
    the digits and no clamping.  On underflow the output is the minimum of the type, where
    the header says the maximum; an unsigned type takes a minus, against the header, and is
    left out. *)
Theorem string_to_number_exact ty base l :
  8 <= width ty -> 2 <= base <= 36 -> base <> 16 ->
  (fst (split_sign (trim l)) = true -> signed ty = true) ->
  Invoke (BaseTraits ty base) l = reference_parse ty base l.
Proof.
  intros Hw Hb H16 Hs. unfold reference_parse. rewrite Invoke_split.
  destruct (split_sign (trim l)) as [negative body]. cbn [fst] in Hs.
  rewrite Base_Invoke_exact by done. cbn zeta. by rewrite <- !andb_assoc.
Qed.

(** ** The round trip *)

Definition types : list int_type := [int32; uint32; int64; uint64].

Lemma digit_prefix_app base l k :
  all_digits base l = true -> digit_prefix base (l ++ k) = digit_prefix base l ++ digit_prefix base k.
Proof.
  induction l as [|c l IH]; [done|]. cbn. intros [Hc Hl]%andb_prop.
  apply bool_decide_eq_true_1 in Hc as [d ->]. cbn. f_equal. by apply IH.
Qed.

(** The digits of a number, most significant first and without leading zeros. *)
Definition numeral (v : Z) (ds : list Z) : Prop :=
  all_digits 10 ds = true /\ value 10 0 (digit_prefix 10 ds) = v /\
  ds <> [] /\ (head ds = Some 48 -> ds = [48]).

Lemma numeral_digit d : 0 <= d < 10 -> numeral d [d + 48].
Proof.
  intros Hd. assert (E : CharToDigit 10 (d + 48) = Some d).
  { unfold CharToDigit. cbn. rewrite (proj2 (Z.leb_le _ _)), (proj2 (Z.ltb_lt _ _)) by lia. cbn. f_equal. lia. }
  unfold numeral. cbn [all_digits digit_prefix forallb]. rewrite E.
  repeat split; [done|]. cbn. intros [= ->]. done.
Qed.

Lemma numeral_snoc v ds d : 0 < v -> 0 <= d < 10 -> numeral v ds -> numeral (v * 10 + d) (ds ++ [d + 48]).
Proof.
  intros Hv Hd (Ha & Hv' & Hn & Hz). destruct (numeral_digit d Hd) as (Ha' & Hd' & _ & _).
  repeat split.
  - unfold all_digits in *. by rewrite forallb_app, Ha, Ha'.
  - rewrite digit_prefix_app by done. rewrite value_app, Hv'.
    cbn [all_digits forallb] in Ha'. apply andb_prop in Ha' as [[d' E]%bool_decide_eq_true_1 _].
    cbn [digit_prefix] in Hd' |- *. rewrite E in Hd' |- *. cbn in Hd' |- *. lia.
  - by destruct ds.
  - destruct ds as [|c ds]; [done|]. cbn in Hz |- *. intros Hc. specialize (Hz Hc).
    injection Hz as -> ->. subst v. discriminate Hv.
Qed.

Lemma write_digits_spec fuel is_neg k res room text :
  (1 <= k <= fuel)%nat -> 0 <= res < 10 ^ Z.of_nat k -> Z.of_nat k + 1 < room ->
  exists ds, write_digits fuel is_neg res room text = Ret ((if is_neg then [45] else []) ++ ds ++ text) /\
    numeral res ds.
Proof.
  revert k res room text. induction fuel as [|fuel IH]; intros k res room text Hk Hres Hroom; [lia|].
  cbn [write_digits]. rewrite (proj2 (Z.eqb_neq (room - 1) 0)) by lia. cbn [negb dcheck obind].
  pose proof (Z.mod_pos_bound res 10 ltac:(lia)) as Hm. pose proof (Z.div_mod res 10 ltac:(lia)) as Hdm.
  destruct (res / 10 =? 0) eqn:E; zb2p.
  - exists [res mod 10 + 48]. split; [|replace res with (res mod 10) at 1 by lia; by apply numeral_digit].
    rewrite (proj2 (Z.eqb_neq (room - 2) 0)) by lia. by destruct is_neg.
  - pose proof (Z.div_pos res 10 ltac:(lia) ltac:(lia)) as Hq.
    destruct k as [|[|k]]; [lia|cbn in Hres; lia|].
    destruct (IH (S k) (res / 10) (room - 1) ((res mod 10 + 48) :: text)) as (ds & Hw & Hn); [lia| |lia|].
    { split; [done|]. apply Z.div_lt_upper_bound; [lia|]. rewrite <- Z.pow_succ_r by lia.
      replace (Z.succ (Z.of_nat (S k))) with (Z.of_nat (S (S k))) by lia. lia. }
    exists (ds ++ [res mod 10 + 48]). rewrite Hw, <- !app_assoc. split; [done|].
    replace res with (res / 10 * 10 + res mod 10) at 1 by lia. apply numeral_snoc; [lia|done|done].
Qed.

Lemma ToUnsigned_abs ty v :
  ty ∈ types -> type_min ty <= v <= type_max ty -> ToUnsigned ty v = Z.abs v.
Proof.
  unfold types. rewrite !elem_of_cons, elem_of_nil. intros Hty Hv.
  destruct Hty as [->|[->|[->|[->|[]]]]]; cbn in Hv; unfold ToUnsigned; cbn [width signed andb int32 uint32 int64 uint64].
  - change (to_type int32) with i32. change (to_type (mkType 32 false)) with u32. case_if; word_lia.
  - change (to_type (mkType 32 false)) with u32. word_lia.
  - change (to_type int64) with i64. change (to_type (mkType 64 false)) with u64. case_if; word_lia.
  - change (to_type (mkType 64 false)) with u64. word_lia.
Qed.

(** The magnitude of a value and its sign take fewer characters than the buffer has. *)
Lemma buffer_large ty v :
  ty ∈ types -> type_min ty <= v <= type_max ty ->
  exists k, (1 <= k)%nat /\ Z.abs v < 10 ^ Z.of_nat k /\ Z.of_nat k + 1 < 3 * (width ty / 8) + 1 /\ 8 <= width ty.
Proof.
  unfold types. rewrite !elem_of_cons, elem_of_nil. intros Hty Hv.
  exists (if width ty =? 32 then 10%nat else 20%nat).
  destruct Hty as [->|[->|[->|[->|[]]]]]; lazy -[Z.le Z.lt Z.abs] in Hv |- *; lia.
Qed.

Lemma digit_head v ds : numeral v ds -> exists c l, ds = c :: l /\ 48 <= c <= 57.
Proof.
  intros (Ha & _ & Hn & _). destruct ds as [|c l]; [done|]. exists c, l. split; [done|].
  cbn in Ha. apply andb_prop in Ha as [[d E]%bool_decide_eq_true_1 _].
  unfold CharToDigit in E. cbn in E. destruct (_ && _) eqn:Ec; zb2p; [lia|done].
Qed.

Lemma split_sign_digit c l : 48 <= c <= 57 -> split_sign (c :: l) = (false, c :: l).
Proof. intros H. unfold split_sign. repeat (case_match; try lia; try done). Qed.

(** Every value of the four integer types is printed, within the fixed buffer, as
    its sign and a numeral without leading zeros, and the conversion back reads the
    same value and accepts it. *)
Theorem int_to_string_round_trip ty v :
  ty ∈ types -> type_min ty <= v <= type_max ty ->
  exists ds, IntToStringT ty v = Ret ((if v <? 0 then [45] else []) ++ ds) /\ numeral (Z.abs v) ds /\
    Invoke (BaseTraits ty 10) ((if v <? 0 then [45] else []) ++ ds) = (true, v).
Proof.
  intros Hty Hv. destruct (buffer_large ty v Hty Hv) as (k & Hk & Hv' & Hroom & Hw).
  assert (Hs : signed ty && (v <? 0) = (v <? 0)).
  { destruct (v <? 0) eqn:E; zb2p; [|by rewrite andb_false_r]. unfold type_min in Hv. destruct (signed ty); [done|lia]. }
  destruct (write_digits_spec (Z.to_nat (3 * (width ty / 8) + 1)) (v <? 0) k (Z.abs v) (3 * (width ty / 8) + 1) [])
    as (ds & Hwr & Hn); [lia|lia|lia|].
  exists ds. unfold IntToStringT. rewrite ToUnsigned_abs, Hs, Hwr, app_nil_r by done. do 2 (split; [done|]).
  destruct (digit_head _ _ Hn) as (c & l & -> & Hc). destruct Hn as (Ha & Hval & _ & _).
  assert (Hws : LocalIsWhitespace c = false) by (unfold LocalIsWhitespace; lia).
  assert (Hcl : clamp ty v = v) by (unfold clamp; lia).
  rewrite Invoke_split.
  assert (Ht : forall x y, LocalIsWhitespace x = false -> trim (x :: y) = x :: y) by (intros x y Hx; cbn; by rewrite Hx).
  destruct (v <? 0) eqn:E; zb2p; cbn [app]; rewrite Ht by done.
  all: rewrite ?split_sign_digit by done; try change (split_sign (45 :: c :: l)) with (true, c :: l); cbn beta iota.
  all: rewrite Base_Invoke_exact; [|lia|lia| |lia].
  all: rewrite ?bool_decide_eq_true_2 by done; cbn zeta; rewrite ?Ha, ?Hval; cbn [with_sign andb].
  - rewrite Z.abs_neq, Z.opp_involutive, Hcl by lia. by rewrite Z.eqb_refl.
  - intros _. by destruct (signed ty).
  - rewrite Z.abs_eq, Hcl by lia. by rewrite Z.eqb_refl.
  - done.
Qed.

(** ** Hexadecimal numbers

    [HexStringToInt] reads a 32-bit pattern, so that "FFFFFFFF" is -1.  Up to eight
    digits the bounds check always passes. *)

Lemma digits_loop_app tr negative first output l k o :
  l <> [] -> digits_loop tr negative first output l = (true, o) -> all_digits (kBase tr) l = true ->
  digits_loop tr negative first output (l ++ k) = digits_loop tr negative false o k.
Proof.
  intros Hn. revert first output Hn. induction l as [|c l IH]; intros first output Hn H Ha; [done|].
  cbn [app digits_loop] in *. cbn [all_digits forallb] in Ha.
  apply andb_prop in Ha as [[d E]%bool_decide_eq_true_1 Ha]. rewrite E in H |- *.
  destruct (if first then _ else _) as [ok o']. destruct ok; cbn [negb] in *; [|done].
  destruct l as [|c' l]; [cbn in *; congruence|]. by apply IH.
Qed.

Lemma hex_check n d : 0 <= n < 2 ^ 28 -> 0 <= d < 16 ->
  CheckBounds HexIteratorRangeToIntTraits false (i32 n) d = (true, i32 n).
Proof.
  intros Hn Hd. rewrite i32_small by lia. cbn [CheckBounds]. unfold Positive_CheckBounds.
  replace (to_type _ _) with (2 ^ 28 - 1) by reflexivity. change (Z.rem _ _) with 15.
  case_if; [|done]. apply orb_true_iff in E as [E|E]; zb2p; lia.
Qed.

Lemma hex_push n d : 0 <= d ->
  Increment HexIteratorRangeToIntTraits false d (to_type int32 (i32 n * 16)) = i32 (n * 16 + d).
Proof.
  intros Hd. unfold Increment. cbn [value_type HexIteratorRangeToIntTraits].
  change (to_type int32) with i32. word_lia.
Qed.

Lemma hex_loop l n first :
  (first = true -> n = 0) -> all_digits 16 l = true -> 0 <= n -> value 16 n (digit_prefix 16 l) < 2 ^ 32 ->
  digits_loop HexIteratorRangeToIntTraits false first (i32 n) l = (true, i32 (value 16 n (digit_prefix 16 l))).
Proof.
  revert n first. induction l as [|c l IH]; intros n first Hf Ha Hn Hl; [done|].
  cbn [all_digits forallb] in Ha. apply andb_prop in Ha as [[d E]%bool_decide_eq_true_1 Ha].
  pose proof (CharToDigit_range 16 _ _ ltac:(lia) E) as Hd.
  cbn [digits_loop digit_prefix kBase HexIteratorRangeToIntTraits] in *. rewrite E in Hl |- *.
  rewrite value_cons in Hl |- *.
  pose proof (value_mono 16 (n * 16 + d) (digit_prefix 16 l) ltac:(lia) ltac:(lia) (digit_prefix_range 16 l ltac:(lia))).
  assert (Hst : (if first then (true, i32 n) else CheckBounds HexIteratorRangeToIntTraits false (i32 n) d) = (true, i32 n)).
  { destruct first; [done|]. apply hex_check; lia. }
  rewrite Hst. cbn [negb value_type HexIteratorRangeToIntTraits].
  assert (Ho : (if first then i32 n else to_type int32 (i32 n * 16)) = to_type int32 (i32 n * 16)).
  { destruct first; [|done]. by rewrite Hf by done. }
  rewrite Ho, hex_push by lia. apply IH; [done|done|lia|done].
Qed.

(** Text that is digits only is neither a sign, a space nor a prefix. *)
Lemma hex_invoke l :
  l <> [] -> all_digits 16 l = true ->
  HexStringToInt l = digits_loop HexIteratorRangeToIntTraits false true 0 l.
Proof.
  intros Hn Ha. unfold HexStringToInt. rewrite Invoke_split.
  assert (Hc : forall c l', all_digits 16 (c :: l') = true ->
    (48 <= c <= 57 \/ 97 <= c <= 102 \/ 65 <= c <= 70) /\ all_digits 16 l' = true).
  { intros c l' Hd. cbn in Hd. apply andb_prop in Hd as [[d E]%bool_decide_eq_true_1 Hd]. split; [|done].
    unfold CharToDigit in E. cbn in E.
    repeat match type of E with context [if ?b then _ else _] => destruct b eqn:?; zb2p end; lia || done. }
  destruct l as [|c l]; [done|]. destruct (Hc _ _ Ha) as [Hr Ha'].
  assert (Hw : LocalIsWhitespace c = false) by (unfold LocalIsWhitespace; lia).
  replace (trim (c :: l)) with (c :: l) by (cbn; by rewrite Hw).
  replace (split_sign (c :: l)) with (false, c :: l)
    by (unfold split_sign; repeat (case_match; try lia; try done)).
  rewrite bool_decide_eq_true_2 by done. unfold Base_Invoke.
  replace (skip_prefix HexIteratorRangeToIntTraits (c :: l)) with (c :: l).
  { by destruct (digits_loop _ _ _ _ _). }
  unfold skip_prefix. destruct l as [|c' [|c'' l]]; [done|done|]. destruct (Hc _ _ Ha') as [Hr' _].
  case_if; [lia|done].
Qed.

Lemma hex_exact l :
  l <> [] -> all_digits 16 l = true -> value 16 0 (digit_prefix 16 l) < 2 ^ 32 ->
  HexStringToInt l = (true, i32 (value 16 0 (digit_prefix 16 l))).
Proof. intros Hl Ha Hv. rewrite hex_invoke by done. change 0 with (i32 0) at 1. by apply hex_loop. Qed.

Lemma hex_wraps l c d :
  all_digits 16 l = true -> CharToDigit 16 c = Some d ->
  2 ^ 31 <= value 16 0 (digit_prefix 16 l) < 2 ^ 32 ->
  HexStringToInt (l ++ [c]) = (true, i32 (value 16 0 (digit_prefix 16 l) * 16 + d)).
Proof.
  intros Ha Hc. set (v := value 16 0 (digit_prefix 16 l)). intros Hv.
  assert (Hl : l <> []) by (intros ->; cbn in *; lia).
  pose proof (CharToDigit_range 16 _ _ ltac:(lia) Hc) as Hd.
  rewrite hex_invoke; [|by destruct l|unfold all_digits in *; rewrite forallb_app, Ha; cbn [forallb andb]; by rewrite Hc].
  erewrite digits_loop_app with (o := i32 v); [|done| |done].
  - cbn [digits_loop kBase HexIteratorRangeToIntTraits]. rewrite Hc.
    cbn [CheckBounds]. unfold Positive_CheckBounds. replace (to_type _ (Z.quot _ _)) with (2 ^ 28 - 1) by reflexivity.
    assert (Hneg : i32 v < 0) by word_lia.
    rewrite (proj2 (Z.ltb_ge _ _)), (proj2 (Z.eqb_neq _ _)) by lia. cbn [orb andb negb value_type].
    by rewrite hex_push by lia.
  - change 0 with (i32 0) at 1. apply hex_loop; [done|done|lia|]. fold v. lia.
Qed.

(** Hexadecimal digits with a value below 2^32, one at least, are read as a 32-bit
    pattern; the next digit is accepted too when the pattern has the high bit set:
    the output is negative, below the limit of [CheckBounds], and is shifted out. *)
Theorem hex_string_wraps l c d :
  let v := value 16 0 (digit_prefix 16 l) in
  l <> [] -> all_digits 16 l = true -> v < 2 ^ 32 -> CharToDigit 16 c = Some d ->
  HexStringToInt l = (true, i32 v) /\
  (2 ^ 31 <= v -> HexStringToInt (l ++ [c]) = (true, i32 (v * 16 + d))).
Proof. intros v Hn Ha Hv Hc. split; [by apply hex_exact|]. intros Hlow. by apply hex_wraps. Qed.

(** ** Minus for an unsigned type *)

Section Minus.
Context (ty : int_type) (Hs : signed ty = false) (Hw : 8 <= width ty).

Lemma minus_loop l n :
  all_digits 10 l = true -> 0 < n -> value 10 n (digit_prefix 10 l) < 2 ^ width ty ->
  digits_loop (BaseTraits ty 10) true false ((- n) mod 2 ^ width ty) l =
    (true, (- value 10 n (digit_prefix 10 l)) mod 2 ^ width ty).
Proof.
  assert (Hp : 0 < 2 ^ width ty) by (apply Z.pow_pos_nonneg; lia).
  assert (Hto : forall x, to_type ty x = x mod 2 ^ width ty) by (intros x; unfold to_type; by rewrite Hs).
  revert n. induction l as [|c l IH]; intros n Ha Hn Hv; [done|].
  cbn [all_digits forallb] in Ha. apply andb_prop in Ha as [[d E]%bool_decide_eq_true_1 Ha].
  pose proof (CharToDigit_range 10 _ _ ltac:(lia) E) as Hd.
  cbn [digits_loop digit_prefix kBase BaseTraits] in *. rewrite E in Hv |- *. rewrite value_cons in Hv |- *.
  pose proof (value_mono 10 (n * 10 + d) (digit_prefix 10 l) ltac:(lia) ltac:(lia) (digit_prefix_range 10 l ltac:(lia))).
  assert (Hm : (- n) mod 2 ^ width ty = 2 ^ width ty - n).
  { replace (- n) with (2 ^ width ty - n + (-1) * 2 ^ width ty) by lia. rewrite Z.mod_add by lia.
    apply Z.mod_small. lia. }
  replace (CheckBounds _ _ _ _) with (true, (- n) mod 2 ^ width ty).
  2:{ cbn [CheckBounds]. unfold Negative_CheckBounds. cbn [min kBase BaseTraits].
      unfold type_min. rewrite Hs. change (Z.quot 0 10) with 0.
      by rewrite (proj2 (Z.ltb_ge _ _)), (proj2 (Z.eqb_neq _ _)) by lia. }
  cbn [negb]. unfold Increment. cbn [value_type BaseTraits]. rewrite !Hto.
  rewrite Z.mul_mod_idemp_l, Zminus_mod_idemp_l by lia.
  replace (- n * 10 - d) with (- (n * 10 + d)) by lia. apply IH; [done|lia|done].
Qed.

Lemma minus_loop_first v ds :
  0 < v < 2 ^ width ty -> numeral v ds ->
  digits_loop (BaseTraits ty 10) true true 0 ds = (true, (- v) mod 2 ^ width ty).
Proof.
  intros Hv (Ha & Hval & Hn & Hz). destruct ds as [|c l]; [done|].
  cbn [all_digits forallb] in Ha. apply andb_prop in Ha as [[d E]%bool_decide_eq_true_1 Ha].
  pose proof (CharToDigit_range 10 _ _ ltac:(lia) E) as Hd.
  cbn [digits_loop digit_prefix kBase BaseTraits] in *. rewrite E in Hval |- *. rewrite value_cons in Hval.
  cbn [negb]. unfold Increment, to_type. cbn [value_type BaseTraits]. rewrite Hs.
  change (0 - d) with (- d). change (0 * 10 + d) with d in Hval. subst v.
  apply minus_loop; [done| |lia]. destruct (Z.eq_dec d 0) as [->|]; [|lia].
  assert (c = 48) as ->.
  { unfold CharToDigit in E. cbn in E. destruct (_ && _); simplify_eq; lia. }
  specialize (Hz eq_refl). injection Hz as ->. cbn in Hv. lia.
Qed.

End Minus.

(** A minus is accepted for an unsigned type, although every such number is below
    the minimum: the value wraps, and the bound for negative numbers never applies
    because the wrapped output is never 0. *)
Theorem unsigned_minus_accepted ty v ds :
  signed ty = false -> 8 <= width ty -> 0 < v < 2 ^ width ty -> numeral v ds ->
  Invoke (BaseTraits ty 10) (45 :: ds) = (true, 2 ^ width ty - v).
Proof.
  intros Hs Hw Hv Hn. rewrite Invoke_split. change (trim (45 :: ds)) with (45 :: ds).
  change (split_sign (45 :: ds)) with (true, ds). cbn beta iota. rewrite bool_decide_eq_true_2 by done.
  assert (Hne : ds <> []) by apply Hn.
  replace (Base_Invoke (BaseTraits ty 10) true ds) with (digits_loop (BaseTraits ty 10) true true 0 ds).
  2:{ unfold Base_Invoke, skip_prefix. cbn [kBase BaseTraits]. by destruct ds as [|? [|? [|? ?]]]. }
  rewrite (minus_loop_first ty Hs Hw v) by done. cbn [andb]. f_equal.
  replace (- v) with (2 ^ width ty - v + (-1) * 2 ^ width ty) by lia.
  rewrite Z.mod_add by lia. apply Z.mod_small. lia.
Qed.

(** ** Bytes *)

(** Two digits of an alphabet stand for a byte. *)
Definition hex_pair_ok (chars : list Z) (b : Z) : bool :=
  bool_decide (CharToDigit 16 (nth (Z.to_nat (Z.land (Z.shiftr b 4) 0xf)) chars 0) = Some (b / 16)) &&
  bool_decide (CharToDigit 16 (nth (Z.to_nat (Z.land b 0xf)) chars 0) = Some (b mod 16)) &&
  (u8 (Z.lor (Z.shiftl (b / 16) 4) (b mod 16)) =? b).

Definition hex_alphabet (chars : list Z) : Prop := forallb (hex_pair_ok chars) (map Z.of_nat (seq 0 256)) = true.

Lemma hex_pair chars b : hex_alphabet chars -> is_u8 b -> hex_pair_ok chars b = true.
Proof.
  intros H Hb. unfold hex_alphabet in H. rewrite forallb_forall in H. apply H. apply in_map_iff.
  exists (Z.to_nat b). unfold is_u8 in Hb. split; [lia|]. apply in_seq. lia.
Qed.

Lemma hex_pairs_encode chars bytes output :
  hex_alphabet chars -> Forall is_u8 bytes ->
  hex_pairs (mjoin (map (fun b => [nth (Z.to_nat (Z.land (Z.shiftr b 4) 0xf)) chars 0;
                                   nth (Z.to_nat (Z.land b 0xf)) chars 0]) bytes)) output = (true, output ++ bytes).
Proof.
  intros Hc H. revert output. induction H as [|b bytes Hb _ IH]; intros output; [by rewrite app_nil_r|].
  pose proof (hex_pair chars b Hc Hb) as Hp. unfold hex_pair_ok in Hp. apply andb_prop in Hp as [Hp E3].
  apply andb_prop in Hp as [E1%bool_decide_eq_true_1 E2%bool_decide_eq_true_1]. apply Z.eqb_eq in E3.
  match goal with |- context [mjoin (map ?f (b :: bytes))] => change (mjoin (map f (b :: bytes))) with (f b ++ mjoin (map f bytes)) end.
  cbn [app hex_pairs]. rewrite E1, E2, E3, IH. by rewrite <- app_assoc.
Qed.

Lemma length_HexEncode bytes : length (HexEncode bytes) = (2 * length bytes)%nat.
Proof. induction bytes as [|b bytes IH]; [done|]. change (length (HexEncode (b :: bytes))) with (S (S (length (HexEncode bytes)))). rewrite IH. cbn. lia. Qed.

(** Encoding bytes in hexadecimal and decoding gives the bytes back; text of odd
    length, and the empty one, is rejected without output. *)
Theorem hex_bytes_round_trip bytes input :
  Forall is_u8 bytes ->
  (bytes <> [] -> HexStringToBytes (HexEncode bytes) [] = Ret (true, bytes)) /\
  (input = [] \/ (length input mod 2 = 1)%nat -> HexStringToBytes input [] = Ret (false, [])).
Proof.
  intros Hb. unfold HexStringToBytes. split; cbn [length Nat.eqb dcheck obind].
  - intros Hn. rewrite length_HexEncode.
    unfold HexEncode. rewrite hex_pairs_encode; [|vm_compute; reflexivity|done].
    replace (2 * length bytes)%nat with (length bytes * 2)%nat by lia. rewrite Nat.Div0.mod_mul.
    destruct bytes as [|b bytes]; [done|]. reflexivity.
  - intros [->| ->]; [done|]. by rewrite orb_true_r.
Qed.

(** ** Sample conversions *)

Module Sample.

Ltac concrete := first [reflexivity | discriminate | split; first [reflexivity|discriminate] | intros H; discriminate H].

(** " -12", "-99999999999", "12x". *)
Example string_to_number_exact_witness :
  StringToInt [32; 45; 49; 50] = (false, -12) /\
  StringToInt ([45] ++ repeat 57 11) = (false, -2147483648) /\
  StringToUint [49; 50; 120] = (false, 12).
Proof.
  split; [|split].
  - refine (eq_trans (string_to_number_exact int32 10 [32; 45; 49; 50] _ _ _ _) _); concrete.
  - refine (eq_trans (string_to_number_exact int32 10 ([45] ++ repeat 57 11) _ _ _ _) _); concrete.
  - refine (eq_trans (string_to_number_exact uint32 10 [49; 50; 120] _ _ _ _) _); concrete.
Defined.

Example int_to_string_round_trip_witness :
  IntToString (-2147483648) = Ret [45; 50; 49; 52; 55; 52; 56; 51; 54; 52; 56] /\
  exists ds, IntToStringT int32 (-2147483648) = Ret ((if -2147483648 <? 0 then [45] else []) ++ ds) /\
    numeral (Z.abs (-2147483648)) ds /\
    Invoke (BaseTraits int32 10) ((if -2147483648 <? 0 then [45] else []) ++ ds) = (true, -2147483648).
Proof.
  split; [reflexivity|]. apply int_to_string_round_trip; [unfold types; left|split; intros H; discriminate H].
Defined.

(** "80000000" is the least int and "800000001" is 1. *)
Example hex_string_wraps_witness :
  HexStringToInt (56 :: repeat 48 7) = (true, -2147483648) /\ HexStringToInt ((56 :: repeat 48 7) ++ [49]) = (true, 1).
Proof.
  destruct (hex_string_wraps (56 :: repeat 48 7) 49 1) as [H1 H2]; [concrete..|].
  split; [exact H1|]. apply H2. concrete.
Defined.

(** "-12" as an unsigned int. *)
Example unsigned_minus_accepted_witness : StringToUint [45; 49; 50] = (true, 4294967284).
Proof.
  refine (unsigned_minus_accepted uint32 12 [49; 50] eq_refl _ _ _); [concrete|concrete|].
  split; [reflexivity|split; [reflexivity|split; concrete]].
Defined.

Example hex_bytes_round_trip_witness :
  HexStringToBytes (HexEncode [202; 254]) [] = Ret (true, [202; 254]) /\ HexStringToBytes [49] [] = Ret (false, []).
Proof.
  assert (H : Forall is_u8 [202; 254]) by (repeat constructor; discriminate).
  split.
  - apply (hex_bytes_round_trip [202; 254] [] H). discriminate.
  - apply (hex_bytes_round_trip [202; 254] [49] H). right. reflexivity.
Defined.

End Sample.

End Numbers.
