(* ===== verification/BaseHash.v ===== *)
(** What the hash functions of [src/base] share: little-endian words of bytes, writing
    into a byte buffer, and messages processed in blocks of 64 bytes. *)
From S2P Require Import Prelude.

(** ** Words and bytes of a little-endian host *)

(** The word at a pointer. *)
Definition le32 (l : list Z) : Z :=
  nth 0 l 0 + 2 ^ 8 * nth 1 l 0 + 2 ^ 16 * nth 2 l 0 + 2 ^ 24 * nth 3 l 0.

Definition le_bytes (w : Z) : list Z := [w mod 2 ^ 8; w / 2 ^ 8 mod 2 ^ 8; w / 2 ^ 16 mod 2 ^ 8; w / 2 ^ 24 mod 2 ^ 8].

(** The array of words at the front of a buffer. *)
Fixpoint le_words (n : nat) (l : list Z) : list Z :=
  match n with
  | O => []
  | S n => le32 l :: le_words n (drop 4 l)
  end.

(** Rotation of a word. *)
Definition rotl (s x : Z) : Z := Z.lor (u32 (Z.shiftl x s)) (Z.shiftr x (32 - s)).

(** [~x] on a word. *)
Definition not32 (x : Z) : Z := Z.lxor x 0xffffffff.

Lemma le32_bytes w : is_u32 w -> le32 (le_bytes w) = w.
Proof. unfold le32, le_bytes, is_u32. cbn [nth]. intros. div_lia. Qed.

Lemma le_bytes_le32 a b c d :
  is_u8 a -> is_u8 b -> is_u8 c -> is_u8 d -> le_bytes (le32 [a; b; c; d]) = [a; b; c; d].
Proof. unfold le32, le_bytes, is_u8. cbn [nth]. intros. repeat (f_equal; [div_lia|]). f_equal. div_lia. Qed.

Lemma le_words_app n l k : length l = (4 * n)%nat -> le_words n (l ++ k) = le_words n l.
Proof.
  revert l. induction n as [|n IH]; intros l Hl; [done|].
  destruct l as [|a [|b [|c [|d l]]]]; cbn [length] in Hl; try lia. cbn [app le_words skipn].
  f_equal. apply (IH l). lia.
Qed.

Lemma le_bytes_u8 w : Forall is_u8 (le_bytes w).
Proof. unfold le_bytes. repeat constructor; apply Z.mod_pos_bound; lia. Qed.

(** ** Blocks *)

Section Blocks.
Context {St : Type} (compress : St -> list Z -> St).

(** [n] blocks are compressed; the state and the bytes that remain. *)
Fixpoint absorb_n (n : nat) (st : St) (l : list Z) : St * list Z :=
  match n with
  | O => (st, l)
  | S n => absorb_n n (compress st (take 64 l)) (drop 64 l)
  end.

(** All the whole blocks of a message. *)
Definition absorb (st : St) (l : list Z) : St * list Z := absorb_n (length l / 64) st l.

Lemma absorb_small st l : (length l < 64)%nat -> absorb st l = (st, l).
Proof. intros H. unfold absorb. by rewrite Nat.div_small. Qed.

Lemma absorb_block st b l : length b = 64%nat -> absorb st (b ++ l) = absorb (compress st b) l.
Proof.
  intros H. unfold absorb. rewrite length_app, H.
  replace (64 + length l)%nat with (length l + 1 * 64)%nat by lia. rewrite Nat.div_add, Nat.add_1_r by lia.
  cbn [absorb_n]. by rewrite take_app_length', drop_app_length' by done.
Qed.

Lemma absorb_split st l : (64 <= length l)%nat -> absorb st l = absorb (compress st (take 64 l)) (drop 64 l).
Proof. intros H. rewrite <- (take_drop 64 l) at 1. apply absorb_block. rewrite length_take. lia. Qed.

Lemma absorb_one st b : length b = 64%nat -> absorb st b = (compress st b, []).
Proof. intros H. unfold absorb. rewrite H. cbn [absorb_n Nat.div Nat.divmod fst]. by rewrite take_ge, drop_ge by lia. Qed.

(** Induction over a message, a block at a time. *)
Lemma block_ind (P : list Z -> Prop) :
  (forall l, (length l < 64)%nat -> P l) ->
  (forall l, (64 <= length l)%nat -> P (drop 64 l) -> P l) -> forall l, P l.
Proof.
  intros H1 H2 l. remember (length l) as n eqn:Hn. revert l Hn.
  induction n as [n IH] using lt_wf_ind. intros l ->.
  destruct (Nat.lt_ge_cases (length l) 64) as [H|H]; [by apply H1|].
  apply H2; [done|]. eapply IH; [|reflexivity]. rewrite length_drop. lia.
Qed.

Lemma absorb_rest st l : length (snd (absorb st l)) = (length l mod 64)%nat.
Proof.
  revert st. induction l as [l H|l H IH] using block_ind; intros st.
  - rewrite absorb_small by done. cbn [snd]. by rewrite Nat.mod_small.
  - rewrite absorb_split, IH, length_drop by done.
    replace (length l) with (length l - 64 + 1 * 64)%nat at 2 by lia. by rewrite Nat.Div0.mod_add.
Qed.

(** A message may be absorbed in pieces. *)
Lemma absorb_app st l k : absorb st (l ++ k) = absorb (fst (absorb st l)) (snd (absorb st l) ++ k).
Proof.
  revert st. induction l as [l H|l H IH] using block_ind; intros st.
  - by rewrite (absorb_small st l).
  - rewrite (absorb_split st l), <- IH by done. rewrite absorb_split by (rewrite length_app; lia).
    by rewrite take_app_le, drop_app_le by done.
Qed.

End Blocks.

(** The padding of MD5 and SHA-1: a bit, zeros to 56 bytes modulo 64, the length. *)
Definition pad_zeros (n : nat) : nat := ((119 - n mod 64) mod 64)%nat.

Definition padded (m length_field : list Z) : list Z := m ++ [128] ++ repeat 0 (pad_zeros (length m)) ++ length_field.

Lemma pad_zeros_small n : (n mod 64 < 56)%nat -> pad_zeros n = (55 - n mod 64)%nat.
Proof.
  intros H. unfold pad_zeros. replace (119 - n mod 64)%nat with (55 - n mod 64 + 1 * 64)%nat by lia.
  rewrite Nat.Div0.mod_add. apply Nat.mod_small. lia.
Qed.

Lemma pad_zeros_large n : (56 <= n mod 64)%nat -> pad_zeros n = (119 - n mod 64)%nat.
Proof. intros H. unfold pad_zeros. apply Nat.mod_small. lia. Qed.

(** Whole blocks are left: nothing remains after the last one. *)
Lemma padded_length m f : length f = 8%nat -> (length (padded m f) mod 64 = 0)%nat.
Proof.
  intros Hf. unfold padded. rewrite !length_app, repeat_length, Hf. cbn [length].
  pose proof (Nat.mod_upper_bound (length m) 64 ltac:(lia)). pose proof (Nat.div_mod_eq (length m) 64) as E.
  destruct (Nat.lt_ge_cases (length m mod 64) 56).
  - rewrite pad_zeros_small by done.
    replace (length m + (1 + (55 - length m mod 64 + 8)))%nat with (0 + (length m / 64 + 1) * 64)%nat by lia.
    by rewrite Nat.Div0.mod_add.
  - rewrite pad_zeros_large by done.
    replace (length m + (1 + (119 - length m mod 64 + 8)))%nat with (0 + (length m / 64 + 2) * 64)%nat by lia.
    by rewrite Nat.Div0.mod_add.
Qed.

(** The last block, or the last two, after the whole blocks of the message. *)
Lemma absorb_padded {St} (compress : St -> list Z -> St) st m f :
  length f = 8%nat ->
  let st' := fst (absorb compress st m) in
  let r := snd (absorb compress st m) in
  fst (absorb compress st (padded m f)) =
    if (length r <? 56)%nat then compress st' (r ++ [128] ++ repeat 0 (55 - length r) ++ f)
    else compress (compress st' (r ++ [128] ++ repeat 0 (63 - length r))) (repeat 0 56 ++ f).
Proof.
  intros Hf st' r. pose proof (absorb_rest compress st m) as Hr. fold r in Hr.
  pose proof (Nat.mod_upper_bound (length m) 64 ltac:(lia)) as Hb.
  unfold padded. rewrite absorb_app. fold st' r. destruct (Nat.ltb_spec (length r) 56) as [H|H].
  - rewrite pad_zeros_small, <- Hr by lia. set (b := r ++ _).
    assert (Hlen : length b = 64%nat).
    { unfold b. rewrite !length_app, repeat_length, Hf. cbn [length]. lia. }
    by rewrite absorb_one.
  - rewrite pad_zeros_large, <- Hr by lia. replace (119 - length r)%nat with (63 - length r + 56)%nat by lia.
    replace (r ++ [128] ++ repeat 0 (63 - length r + 56) ++ f)
      with ((r ++ [128] ++ repeat 0 (63 - length r)) ++ (repeat 0 56 ++ f))
      by (rewrite repeat_app, <- !app_assoc; done).
    rewrite absorb_block, absorb_one; [done| |].
    + by rewrite length_app, repeat_length, Hf.
    + rewrite !length_app, repeat_length. cbn [length]. lia.
Qed.
