(* ===== verification/BaseMD5.v ===== *)
(** MD5, [base/md5.cc]: the transform as it is unrolled in the source, the context that
    collects bytes, and the algorithm of RFC 1321 it computes.  The host is
    little-endian. *)
From S2P Require Import Prelude BaseHash BaseNumbers.

Module MD5.

(** ** The transform *)

(** The four words of a hash. *)
Record hash := mkHash { h0 : Z; h1 : Z; h2 : Z; h3 : Z }.

(** [F1] is optimized; it stands for x & y | ~x & z. *)
Definition F1 (x y z : Z) : Z := Z.lxor z (Z.land x (Z.lxor y z)).
Definition F2 (x y z : Z) : Z := F1 z x y.
Definition F3 (x y z : Z) : Z := Z.lxor (Z.lxor x y) z.
Definition F4 (x y z : Z) : Z := Z.lxor y (Z.lor x (not32 z)).

(** The variables of the transform. *)
Inductive register := ra | rb | rc | rd.

Definition get (r : register) (v : hash) : Z :=
  match r with ra => h0 v | rb => h1 v | rc => h2 v | rd => h3 v end.

Definition set (r : register) (x : Z) (v : hash) : hash :=
  match r with
  | ra => mkHash x (h1 v) (h2 v) (h3 v)
  | rb => mkHash (h0 v) x (h2 v) (h3 v)
  | rc => mkHash (h0 v) (h1 v) x (h3 v)
  | rd => mkHash (h0 v) (h1 v) (h2 v) x
  end.

(** A use of the macro: the function, the variable it updates and its arguments, the
    index of the word of the block, the constant added to it and the rotation. *)
Inductive use := MD5STEP (f : Z -> Z -> Z -> Z) (w x y z : register) (k : nat) (c s : Z).

(** [w += f(x, y, z) + data, w = w<<s | w>>(32-s), w += x]. *)
Definition new_value (f : Z -> Z -> Z -> Z) (w x y z data s : Z) : Z :=
  let w := u32 (w + (f x y z + data)) in
  let w := rotl s w in
  u32 (w + x).

Definition expand (in_ : list Z) (v : hash) (m : use) : hash :=
  let '(MD5STEP f w x y z k c s) := m in
  set w (new_value f (get w v) (get x v) (get y v) (get z v) (u32 (nth k in_ 0 + c)) s) v.

(** The body of the transform. *)
Definition body : list use :=
  [MD5STEP F1 ra rb rc rd 0 0xd76aa478 7;
   MD5STEP F1 rd ra rb rc 1 0xe8c7b756 12;
   MD5STEP F1 rc rd ra rb 2 0x242070db 17;
   MD5STEP F1 rb rc rd ra 3 0xc1bdceee 22;
   MD5STEP F1 ra rb rc rd 4 0xf57c0faf 7;
   MD5STEP F1 rd ra rb rc 5 0x4787c62a 12;
   MD5STEP F1 rc rd ra rb 6 0xa8304613 17;
   MD5STEP F1 rb rc rd ra 7 0xfd469501 22;
   MD5STEP F1 ra rb rc rd 8 0x698098d8 7;
   MD5STEP F1 rd ra rb rc 9 0x8b44f7af 12;
   MD5STEP F1 rc rd ra rb 10 0xffff5bb1 17;
   MD5STEP F1 rb rc rd ra 11 0x895cd7be 22;
   MD5STEP F1 ra rb rc rd 12 0x6b901122 7;
   MD5STEP F1 rd ra rb rc 13 0xfd987193 12;
   MD5STEP F1 rc rd ra rb 14 0xa679438e 17;
   MD5STEP F1 rb rc rd ra 15 0x49b40821 22;
   MD5STEP F2 ra rb rc rd 1 0xf61e2562 5;
   MD5STEP F2 rd ra rb rc 6 0xc040b340 9;
   MD5STEP F2 rc rd ra rb 11 0x265e5a51 14;
   MD5STEP F2 rb rc rd ra 0 0xe9b6c7aa 20;
   MD5STEP F2 ra rb rc rd 5 0xd62f105d 5;
   MD5STEP F2 rd ra rb rc 10 0x02441453 9;
   MD5STEP F2 rc rd ra rb 15 0xd8a1e681 14;
   MD5STEP F2 rb rc rd ra 4 0xe7d3fbc8 20;
   MD5STEP F2 ra rb rc rd 9 0x21e1cde6 5;
   MD5STEP F2 rd ra rb rc 14 0xc33707d6 9;
   MD5STEP F2 rc rd ra rb 3 0xf4d50d87 14;
   MD5STEP F2 rb rc rd ra 8 0x455a14ed 20;
   MD5STEP F2 ra rb rc rd 13 0xa9e3e905 5;
   MD5STEP F2 rd ra rb rc 2 0xfcefa3f8 9;
   MD5STEP F2 rc rd ra rb 7 0x676f02d9 14;
   MD5STEP F2 rb rc rd ra 12 0x8d2a4c8a 20;
   MD5STEP F3 ra rb rc rd 5 0xfffa3942 4;
   MD5STEP F3 rd ra rb rc 8 0x8771f681 11;
   MD5STEP F3 rc rd ra rb 11 0x6d9d6122 16;
   MD5STEP F3 rb rc rd ra 14 0xfde5380c 23;
   MD5STEP F3 ra rb rc rd 1 0xa4beea44 4;
   MD5STEP F3 rd ra rb rc 4 0x4bdecfa9 11;
   MD5STEP F3 rc rd ra rb 7 0xf6bb4b60 16;
   MD5STEP F3 rb rc rd ra 10 0xbebfbc70 23;
   MD5STEP F3 ra rb rc rd 13 0x289b7ec6 4;
   MD5STEP F3 rd ra rb rc 0 0xeaa127fa 11;
   MD5STEP F3 rc rd ra rb 3 0xd4ef3085 16;
   MD5STEP F3 rb rc rd ra 6 0x04881d05 23;
   MD5STEP F3 ra rb rc rd 9 0xd9d4d039 4;
   MD5STEP F3 rd ra rb rc 12 0xe6db99e5 11;
   MD5STEP F3 rc rd ra rb 15 0x1fa27cf8 16;
   MD5STEP F3 rb rc rd ra 2 0xc4ac5665 23;
   MD5STEP F4 ra rb rc rd 0 0xf4292244 6;
   MD5STEP F4 rd ra rb rc 7 0x432aff97 10;
   MD5STEP F4 rc rd ra rb 14 0xab9423a7 15;
   MD5STEP F4 rb rc rd ra 5 0xfc93a039 21;
   MD5STEP F4 ra rb rc rd 12 0x655b59c3 6;
   MD5STEP F4 rd ra rb rc 3 0x8f0ccc92 10;
   MD5STEP F4 rc rd ra rb 10 0xffeff47d 15;
   MD5STEP F4 rb rc rd ra 1 0x85845dd1 21;
   MD5STEP F4 ra rb rc rd 8 0x6fa87e4f 6;
   MD5STEP F4 rd ra rb rc 15 0xfe2ce6e0 10;
   MD5STEP F4 rc rd ra rb 6 0xa3014314 15;
   MD5STEP F4 rb rc rd ra 13 0x4e0811a1 21;
   MD5STEP F4 ra rb rc rd 4 0xf7537e82 6;
   MD5STEP F4 rd ra rb rc 11 0xbd3af235 10;
   MD5STEP F4 rc rd ra rb 2 0x2ad7d2bb 15;
   MD5STEP F4 rb rc rd ra 9 0xeb86d391 21].

Definition add_hash (x y : hash) : hash :=
  mkHash (u32 (h0 x + h0 y)) (u32 (h1 x + h1 y)) (u32 (h2 x + h2 y)) (u32 (h3 x + h3 y)).

Definition MD5Transform (buf : hash) (in_ : list Z) : hash := add_hash buf (foldl (expand in_) buf body).

(** The bytes of [longs] words are brought into the order of the host; [do ... while]. *)
Fixpoint byteReverse (buf : list Z) (longs : nat) : list Z :=
  match longs with
  | O => buf
  | S longs =>
      let t := Z.lor (Z.shiftl (Z.lor (Z.shiftl (nth 3 buf 0) 8) (nth 2 buf 0)) 16)
                 (Z.lor (Z.shiftl (nth 1 buf 0) 8) (nth 0 buf 0)) in
      le_bytes t ++ byteReverse (drop 4 buf) longs
  end.

(** ** The context *)

Record Context := mkContext { buf : hash; bits0 : Z; bits1 : Z; in_ : list Z }.

Definition MD5Init (ctx : Context) : Context :=
  mkContext (mkHash 0x67452301 0xefcdab89 0x98badcfe 0x10325476) 0 0 (in_ ctx).

(** [byteReverse(ctx->in, 16); MD5Transform(ctx->buf, ctx->in)] on a full buffer. *)
Definition transform_in (buf : hash) (in_ : list Z) : hash * list Z :=
  let in_ := byteReverse in_ 16 in (MD5Transform buf (le_words 16 in_), in_).

(** The loop over whole blocks, and the rest. *)
Fixpoint update_blocks (fuel : nat) (buf : hash) (in_ data : list Z) : outcome (hash * list Z) :=
  if (64 <=? length data)%nat then
    match fuel with
    | O => Timeout
    | S fuel =>
        let '(buf, in_) := transform_in buf (splice 0 (take 64 data) in_) in
        update_blocks fuel buf in_ (drop 64 data)
    end
  else Ret (buf, splice 0 data in_).

Definition MD5Update (ctx : Context) (data : list Z) : outcome Context :=
  let len := Z.of_nat (length data) in
  let t := bits0 ctx in
  let low := u32 (t + u32 (Z.shiftl (u32 len) 3)) in
  let high := if low <? t then u32 (bits1 ctx + 1) else bits1 ctx in
  let high := u32 (high + u32 (Z.shiftr len 29)) in
  let t := Z.land (Z.shiftr t 3) 0x3f in
  if negb (t =? 0) then
    let p := Z.to_nat t in
    let t := (64 - p)%nat in
    if (length data <? t)%nat then Ret (mkContext (buf ctx) low high (splice p data (in_ ctx)))
    else
      let '(b, i) := transform_in (buf ctx) (splice p (take t data) (in_ ctx)) in
      let! '(b, i) := update_blocks (length data) b i (drop t data) in
      Ret (mkContext b low high i)
  else
    let! '(b, i) := update_blocks (length data) (buf ctx) (in_ ctx) data in
    Ret (mkContext b low high i).

(** The length is appended and the last block transformed; the digest. *)
Definition append_length (b : hash) (i : list Z) (lo hi : Z) : list Z :=
  let i := byteReverse (take 56 i) 14 ++ drop 56 i in
  let i := splice 56 (le_bytes lo) i in
  let i := splice 60 (le_bytes hi) i in
  let b := MD5Transform b (le_words 16 i) in
  byteReverse (le_bytes (h0 b) ++ le_bytes (h1 b) ++ le_bytes (h2 b) ++ le_bytes (h3 b)) 4.

(** The digest, and the context cleared. *)
Definition MD5Final (ctx : Context) : list Z * Context :=
  let count := Z.to_nat (Z.land (Z.shiftr (bits0 ctx) 3) 0x3F) in
  let i := splice count [0x80] (in_ ctx) in
  let p := (count + 1)%nat in
  let count := (64 - 1 - count)%nat in
  let '(b, i) :=
    if (count <? 8)%nat then
      let '(b, i) := transform_in (buf ctx) (splice p (repeat 0 count) i) in (b, splice 0 (repeat 0 56) i)
    else (buf ctx, splice p (repeat 0 (count - 8)) i) in
  (append_length b i (bits0 ctx) (bits1 ctx), mkContext (mkHash 0 0 0 0) 0 0 (repeat 0 64)).

(** [ctx] is what the stack held. *)
Definition MD5Sum (ctx : Context) (data : list Z) : outcome (list Z) :=
  let! ctx := MD5Update (MD5Init ctx) data in Ret (fst (MD5Final ctx)).

Definition zEncode : list Z := [48; 49; 50; 51; 52; 53; 54; 55; 56; 57; 97; 98; 99; 100; 101; 102].

Definition MD5DigestToBase16 (digest : list Z) : list Z :=
  mjoin (map (fun a => [nth (Z.to_nat (Z.land (Z.shiftr a 4) 0xf)) zEncode 0;
                        nth (Z.to_nat (Z.land a 0xf)) zEncode 0]) digest).

Definition MD5String (ctx : Context) (str : list Z) : outcome (list Z) :=
  let! digest := MD5Sum ctx str in Ret (MD5DigestToBase16 digest).

(** ** The algorithm of RFC 1321 *)

(** The table T, the integer part of 2^32 times |sin i| for i from 1. *)
Definition T : list Z :=
  [0xd76aa478; 0xe8c7b756; 0x242070db; 0xc1bdceee;
   0xf57c0faf; 0x4787c62a; 0xa8304613; 0xfd469501;
   0x698098d8; 0x8b44f7af; 0xffff5bb1; 0x895cd7be;
   0x6b901122; 0xfd987193; 0xa679438e; 0x49b40821;
   0xf61e2562; 0xc040b340; 0x265e5a51; 0xe9b6c7aa;
   0xd62f105d; 0x02441453; 0xd8a1e681; 0xe7d3fbc8;
   0x21e1cde6; 0xc33707d6; 0xf4d50d87; 0x455a14ed;
   0xa9e3e905; 0xfcefa3f8; 0x676f02d9; 0x8d2a4c8a;
   0xfffa3942; 0x8771f681; 0x6d9d6122; 0xfde5380c;
   0xa4beea44; 0x4bdecfa9; 0xf6bb4b60; 0xbebfbc70;
   0x289b7ec6; 0xeaa127fa; 0xd4ef3085; 0x04881d05;
   0xd9d4d039; 0xe6db99e5; 0x1fa27cf8; 0xc4ac5665;
   0xf4292244; 0x432aff97; 0xab9423a7; 0xfc93a039;
   0x655b59c3; 0x8f0ccc92; 0xffeff47d; 0x85845dd1;
   0x6fa87e4f; 0xfe2ce6e0; 0xa3014314; 0x4e0811a1;
   0xf7537e82; 0xbd3af235; 0x2ad7d2bb; 0xeb86d391].

(** The function, the word and the rotation of operation [i]. *)
Definition aux_function (i : nat) (x y z : Z) : Z :=
  match (i / 16)%nat with
  | 0%nat => Z.lor (Z.land x y) (Z.land (Z.lnot x) z)
  | 1%nat => Z.lor (Z.land x z) (Z.land y (Z.lnot z))
  | 2%nat => Z.lxor (Z.lxor x y) z
  | _ => Z.lxor y (Z.lor x (not32 z))
  end.

Definition word_index (i : nat) : nat :=
  match (i / 16)%nat with
  | 0%nat => i mod 16
  | 1%nat => (1 + 5 * i) mod 16
  | 2%nat => (5 + 3 * i) mod 16
  | _ => (7 * i) mod 16
  end.

Definition rotation (i : nat) : Z :=
  nth (i mod 4) (nth (i / 16) [[7; 12; 17; 22]; [5; 9; 14; 20]; [4; 11; 16; 23]; [6; 10; 15; 21]] []) 0.

(** Operation [i]; the names of the words rotate. *)
Definition operation (block : list Z) (abcd : hash) (i : nat) : hash :=
  let '(mkHash a b c d) := abcd in
  mkHash d (u32 (b + rotl (rotation i) (u32 (a + aux_function i b c d + nth (word_index i) block 0 + nth i T 0)))) b c.

Definition compress (abcd : hash) (block : list Z) : hash :=
  add_hash abcd (foldl (operation (le_words 16 block)) abcd (seq 0 64)).

(** The length in bits, modulo 2^64, low word first. *)
Definition length_field (m : list Z) : list Z :=
  let bits := 8 * Z.of_nat (length m) in le_bytes (u32 bits) ++ le_bytes (u32 (bits / 2 ^ 32)).

Definition initial : hash := mkHash 0x67452301 0xefcdab89 0x98badcfe 0x10325476.

Definition digest_of (v : hash) : list Z := le_bytes (h0 v) ++ le_bytes (h1 v) ++ le_bytes (h2 v) ++ le_bytes (h3 v).

Definition md5 (m : list Z) : list Z := digest_of (fst (absorb compress initial (padded m (length_field m)))).

(** ** The unrolled transform is the loop *)

Lemma F1_spec x y z : F1 x y z = Z.lor (Z.land x y) (Z.land (Z.lnot x) z).
Proof.
  unfold F1. apply Z.bits_inj'. intros n Hn. rewrite ?Z.lxor_spec, ?Z.lor_spec, ?Z.land_spec, ?Z.lxor_spec, Z.lnot_spec by done.
  by destruct (Z.testbit x n), (Z.testbit y n), (Z.testbit z n).
Qed.

Lemma F2_spec x y z : F2 x y z = Z.lor (Z.land x z) (Z.land y (Z.lnot z)).
Proof. unfold F2. rewrite F1_spec. f_equal; apply Z.land_comm. Qed.

(** The function as the code has it. *)
Definition code_function (i : nat) : Z -> Z -> Z -> Z :=
  match (i / 16)%nat with 0%nat => F1 | 1%nat => F2 | 2%nat => F3 | _ => F4 end.

Lemma code_function_spec i x y z : code_function i x y z = aux_function i x y z.
Proof.
  unfold code_function, aux_function. destruct (i / 16)%nat as [|[|[|n]]]; [apply F1_spec|apply F2_spec|done|done].
Qed.

Lemma operation_step block a b c d i :
  operation block (mkHash a b c d) i =
    mkHash d (new_value (code_function i) a b c d (u32 (nth (word_index i) block 0 + nth i T 0)) (rotation i)) b c.
Proof.
  unfold operation, new_value. rewrite code_function_spec. f_equal. rewrite (Z.add_comm b). f_equal. f_equal. f_equal.
  unfold u32. rewrite (Z.add_assoc a), Zplus_mod_idemp_r. f_equal. lia.
Qed.

(** Four uses of the macro bring the variables back into place. *)
Definition group (j : nat) : list use :=
  let step i w x y z := MD5STEP (code_function i) w x y z (word_index i) (nth i T 0) (rotation i) in
  [step (4 * j) ra rb rc rd; step (4 * j + 1) rd ra rb rc; step (4 * j + 2) rc rd ra rb; step (4 * j + 3) rb rc rd ra]%nat.

Lemma body_groups : body = mjoin (map group (seq 0 16)).
Proof. reflexivity. Qed.

Lemma group_operations block v j :
  foldl (expand block) v (group j) = foldl (operation block) v [4 * j; 4 * j + 1; 4 * j + 2; 4 * j + 3]%nat.
Proof. destruct v as [a b c d]. unfold group. cbn [foldl]. by rewrite !operation_step. Qed.

Lemma MD5Transform_loop buf block : MD5Transform buf (le_words 16 block) = compress buf block.
Proof.
  unfold MD5Transform, compress. f_equal. rewrite body_groups.
  replace (seq 0 64) with (mjoin (map (fun j => [4 * j; 4 * j + 1; 4 * j + 2; 4 * j + 3]%nat) (seq 0 16))) by reflexivity.
  generalize (seq 0 16) buf. intros l. induction l as [|j l IH]; intros v; [done|].
  change (mjoin (map ?f (j :: l))) with (f j ++ mjoin (map f l)). by rewrite !foldl_app, group_operations, IH.
Qed.

(** ** Bytes *)

(** On a little-endian host the reversal changes nothing. *)
Lemma byteReverse_id n l : Forall is_u8 l -> (4 * n <= length l)%nat -> byteReverse l n = l.
Proof.
  revert l. induction n as [|n IH]; intros l Hl Hn; [done|].
  destruct l as [|x [|y [|z [|t l]]]]; cbn [length] in Hn; try lia.
  inversion_clear Hl as [|? ? Hx Hl1]. inversion_clear Hl1 as [|? ? Hy Hl2].
  inversion_clear Hl2 as [|? ? Hz Hl3]. inversion_clear Hl3 as [|? ? Ht Hl4].
  cbn [byteReverse nth skipn]. rewrite drop_0, IH by (done || lia).
  assert (E : Z.lor (Z.shiftl (Z.lor (Z.shiftl t 8) z) 16) (Z.lor (Z.shiftl y 8) x) = le32 [x; y; z; t]).
  { unfold le32. cbn [nth]. rewrite !Z.shiftl_mul_pow2 by lia. unfold is_u8 in *.
    rewrite (lor_add t), (lor_add y), lor_add by lia. lia. }
  rewrite E, le_bytes_le32 by done. done.
Qed.

Lemma transform_in_spec v i :
  Forall is_u8 i -> length i = 64%nat -> transform_in v i = (compress v i, i).
Proof.
  intros Hi Hl. unfold transform_in. rewrite byteReverse_id by (done || lia). by rewrite MD5Transform_loop.
Qed.

(** ** The context stands for the bytes it was given *)

Definition bits_of (m : list Z) : Z := 8 * Z.of_nat (length m).

Record represents (ctx : Context) (m : list Z) : Prop := {
  repr_buf : buf ctx = fst (absorb compress initial m);
  repr_bits0 : bits0 ctx = u32 (bits_of m);
  repr_bits1 : bits1 ctx = u32 (bits_of m / 2 ^ 32);
  repr_length : length (in_ ctx) = 64%nat;
  repr_bytes : Forall is_u8 (in_ ctx);
  repr_in : take (length m mod 64) (in_ ctx) = snd (absorb compress initial m)
}.

(** The count of bits modulo 2^64, with the carry into the high word. *)
Lemma bits_update x y :
  0 <= x -> 0 <= y ->
  let low := u32 (u32 x + u32 (Z.shiftl (u32 (y / 8)) 3)) in
  y mod 8 = 0 ->
  low = u32 (x + y) /\
  u32 ((if low <? u32 x then u32 (u32 (x / 2 ^ 32) + 1) else u32 (x / 2 ^ 32)) + u32 (Z.shiftr (y / 8) 29)) =
    u32 ((x + y) / 2 ^ 32).
Proof.
  intros Hx Hy low Hy8. assert (E : u32 (Z.shiftl (u32 (y / 8)) 3) = u32 y).
  { rewrite Z.shiftl_mul_pow2 by lia. word_lia. }
  assert (Elow : low = u32 (u32 x + u32 y)) by (unfold low; by rewrite E).
  rewrite Z.shiftr_div_pow2 by lia.
  replace (y / 8 / 2 ^ 29) with (y / 2 ^ 32) by (rewrite Z.div_div by lia; done).
  clearbody low. clear E. rewrite Elow. clear low Elow Hy8.
  split; [word_lia|]. unfold u32.
  set (M := 2 ^ 32). assert (HM : M = 4294967296) by reflexivity. clearbody M.
  pose proof (Z.div_mod x M ltac:(lia)). pose proof (Z.mod_pos_bound x M ltac:(lia)).
  pose proof (Z.div_mod y M ltac:(lia)). pose proof (Z.mod_pos_bound y M ltac:(lia)).
  set (qx := x / M) in *. set (qy := y / M) in *. set (rx := x mod M) in *. set (ry := y mod M) in *.
  clearbody qx qy rx ry. rewrite (Z.mod_eq (rx + ry) M) by lia.
  destruct (Z.lt_ge_cases (rx + ry) M) as [Hs|Hs].
  - rewrite (Z.div_small (rx + ry)) by lia. rewrite (proj2 (Z.ltb_ge _ _)) by lia.
    replace ((x + y) / M) with (qx + qy) by (apply Z.div_unique with (rx + ry); lia).
    by rewrite <- Z.add_mod by lia.
  - assert (Eq : (rx + ry) / M = 1) by (symmetry; apply Z.div_unique with (rx + ry - M); lia).
    rewrite Eq, (proj2 (Z.ltb_lt _ _)) by lia.
    replace ((x + y) / M) with (qx + 1 + qy) by (apply Z.div_unique with (rx + ry - M); lia).
    rewrite Zplus_mod_idemp_l, Zplus_mod_idemp_r, <- Z.add_assoc, Zplus_mod_idemp_l. f_equal. lia.
Qed.

(** The bytes in the buffer, from the low word of the count. *)
Lemma buffered m : Z.land (Z.shiftr (u32 (bits_of m)) 3) 0x3f = Z.of_nat (length m mod 64).
Proof.
  change 0x3f with (Z.ones 6). rewrite Z.land_ones, Z.shiftr_div_pow2 by lia. rewrite Nat2Z.inj_mod.
  unfold bits_of. word_lia.
Qed.

Lemma update_blocks_spec fuel v i data :
  (length data <= fuel)%nat -> length i = 64%nat -> Forall is_u8 i -> Forall is_u8 data ->
  exists i', update_blocks fuel v i data = Ret (fst (absorb compress v data), i') /\
    length i' = 64%nat /\ Forall is_u8 i' /\ take (length data mod 64) i' = snd (absorb compress v data).
Proof.
  revert v i data. induction fuel as [|fuel IH]; intros v i data Hf Hi Hb Hd.
  - destruct data; [|cbn in Hf; lia]. exists i. split; [|by repeat split; auto].
    reflexivity.
  - cbn [update_blocks]. destruct (Nat.leb_spec 64 (length data)) as [H|H].
    + assert (Ht : length (take 64 data) = 64%nat) by (rewrite length_take; lia).
      rewrite splice_whole by lia. rewrite transform_in_spec; [|by apply Forall_take|done]. cbn iota beta.
      destruct (IH (compress v (take 64 data)) (take 64 data) (drop 64 data)) as (i' & E & Hl & Hb' & Hr);
        [rewrite length_drop; lia|done|by apply Forall_take|by apply Forall_drop|].
      exists i'. rewrite E, (absorb_split compress v data) by done. repeat split; [done|done|].
      rewrite <- Hr, length_drop. f_equal. replace (length data) with (length data - 64 + 1 * 64)%nat at 1 by lia.
      by rewrite Nat.Div0.mod_add.
    + exists (splice 0 data i). rewrite absorb_small by done. cbn [fst snd].
      repeat split; [by rewrite splice_length by lia|by apply splice_bytes|].
      rewrite Nat.mod_small by done. apply (take_splice 0 data i). lia.
Qed.

Lemma MD5Init_spec ctx : length (in_ ctx) = 64%nat -> Forall is_u8 (in_ ctx) -> represents (MD5Init ctx) [].
Proof. by constructor. Qed.

Lemma MD5Update_spec ctx m data :
  represents ctx m -> Forall is_u8 data -> exists ctx', MD5Update ctx data = Ret ctx' /\ represents ctx' (m ++ data).
Proof.
  intros [Hv H0 H1 Hl Hb Hr] Hd.
  destruct (bits_update (bits_of m) (bits_of data)) as [E0 E1];
    [unfold bits_of; lia|unfold bits_of; lia|unfold bits_of; by rewrite Z.mul_comm, Z.mod_mul|].
  assert (Hlen : bits_of data / 8 = Z.of_nat (length data)) by (unfold bits_of; rewrite Z.mul_comm, Z.div_mul; lia).
  assert (Happ : bits_of (m ++ data) = bits_of m + bits_of data) by (unfold bits_of; rewrite length_app; lia).
  rewrite Hlen, <- Happ in E0, E1. unfold MD5Update. rewrite H0, H1, buffered, E0.
  rewrite E0 in E1. rewrite E1. clear E0 E1.
  set (k := (length m mod 64)%nat) in *. assert (Hk : (k < 64)%nat) by (apply Nat.mod_upper_bound; lia).
  pose proof (absorb_app compress initial m data) as Habs. rewrite <- Hv, <- Hr in Habs.
  assert (Htk : length (take k (in_ ctx)) = k) by (rewrite length_take; lia).
  assert (Hmod : (length (m ++ data) mod 64 = (k + length data) mod 64)%nat).
  { rewrite length_app. unfold k. by rewrite Nat.Div0.add_mod_idemp_l. }
  assert (Hrep : forall b i,
    b = fst (absorb compress initial (m ++ data)) -> length i = 64%nat -> Forall is_u8 i ->
    take ((k + length data) mod 64) i = snd (absorb compress initial (m ++ data)) ->
    represents (mkContext b (u32 (bits_of (m ++ data))) (u32 (bits_of (m ++ data) / 2 ^ 32)) i) (m ++ data)).
  { intros b i ????. constructor; cbn [buf bits0 bits1 in_]; try done. by rewrite Hmod. }
  clearbody k. clear Hv H0 H1 Hr Hmod Happ Hlen.
  destruct (Z.of_nat k =? 0) eqn:Ek; zb2p; cbn [negb].
  - destruct k as [|k]; [|lia]. cbn [firstn app] in Habs.
    destruct (update_blocks_spec (length data) (buf ctx) (in_ ctx) data) as (i & -> & Hi1 & Hi2 & Hi3); try done.
    eexists. split; [reflexivity|]. apply Hrep; [by rewrite Habs|done|done|by rewrite Habs].
  - rewrite Nat2Z.id. destruct (Nat.ltb_spec (length data) (64 - k)) as [H|H].
    + eexists. split; [reflexivity|]. rewrite (absorb_small compress (buf ctx)) in Habs by (rewrite length_app; lia).
      apply Hrep; [by rewrite Habs|by rewrite splice_length by lia|by apply splice_bytes|].
      rewrite Habs, Nat.mod_small by lia. apply take_splice. lia.
    + assert (Hfull : splice k (take (64 - k) data) (in_ ctx) = take k (in_ ctx) ++ take (64 - k) data).
      { unfold splice. rewrite length_take, Nat.min_l, drop_ge by lia. by rewrite app_nil_r. }
      assert (Hfl : length (take k (in_ ctx) ++ take (64 - k) data) = 64%nat) by (rewrite length_app, !length_take; lia).
      assert (Hfb : Forall is_u8 (take k (in_ ctx) ++ take (64 - k) data))
        by (apply Forall_app; split; by apply Forall_take).
      rewrite Hfull, transform_in_spec by done.
      replace (take k (in_ ctx) ++ data) with ((take k (in_ ctx) ++ take (64 - k) data) ++ drop (64 - k) data) in Habs
        by (by rewrite <- app_assoc, take_drop).
      rewrite (absorb_block compress (buf ctx)) in Habs by done.
      destruct (update_blocks_spec (length data) (compress (buf ctx) (take k (in_ ctx) ++ take (64 - k) data))
        (take k (in_ ctx) ++ take (64 - k) data) (drop (64 - k) data)) as (i & -> & Hi1 & Hi2 & Hi3);
        [rewrite length_drop; lia|done|done|by apply Forall_drop|].
      eexists. split; [reflexivity|]. apply Hrep; [by rewrite Habs|done|done|]. rewrite Habs, <- Hi3.
      f_equal. rewrite length_drop. replace (k + length data)%nat with (length data - (64 - k) + 1 * 64)%nat by lia.
      by rewrite Nat.Div0.mod_add.
Qed.

(** The length is stored in the last eight bytes of a buffer. *)
Lemma store_length x b0 b1 :
  length x = 64%nat ->
  splice 60 (le_bytes b1) (splice 56 (le_bytes b0) x) = take 56 x ++ le_bytes b0 ++ le_bytes b1.
Proof.
  intros Hx. rewrite splice_end by (rewrite splice_length; rewrite Hx; cbn; lia).
  change 60%nat with (56 + length (le_bytes b0))%nat at 1. rewrite take_splice by (rewrite Hx; cbn; lia).
  by rewrite <- app_assoc.
Qed.

(** The buffer filled with zeros from [p] on, after its first bytes. *)
Lemma pad_buffer i k n :
  length i = 64%nat -> (k + 1 + n <= 64)%nat ->
  take (k + 1 + n) (splice (k + 1) (repeat 0 n) (splice k [0x80] i)) = take k i ++ [0x80] ++ repeat 0 n.
Proof.
  intros Hi Hk. pose proof (splice_length k [0x80] i ltac:(cbn; lia)) as Hl.
  pose proof (take_splice (k + 1) (repeat 0 n) (splice k [0x80] i)) as E. rewrite repeat_length in E.
  rewrite E by lia. rewrite app_assoc. f_equal. apply (take_splice k [0x80] i). cbn. lia.
Qed.

Lemma append_length_spec b x lo hi :
  length x = 64%nat -> Forall is_u8 x ->
  append_length b x lo hi = digest_of (compress b (take 56 x ++ le_bytes lo ++ le_bytes hi)).
Proof.
  intros Hx Hb. unfold append_length. rewrite (byteReverse_id 14), take_drop, store_length, MD5Transform_loop;
    [|done|by apply Forall_take|rewrite length_take; lia].
  apply byteReverse_id; [|done]. unfold digest_of. rewrite !Forall_app. repeat split; apply le_bytes_u8.
Qed.

Lemma MD5Final_spec ctx m : represents ctx m -> fst (MD5Final ctx) = md5 m.
Proof.
  intros [Hv H0 H1 Hl Hb Hr]. unfold MD5Final, md5.
  assert (Hcount : Z.to_nat (Z.land (Z.shiftr (bits0 ctx) 3) 0x3F) = (length m mod 64)%nat) by (by rewrite H0, buffered, Nat2Z.id).
  rewrite Hcount.
  pose proof (absorb_padded compress initial m (length_field m) eq_refl) as Hp. cbn zeta in Hp.
  rewrite <- Hv, absorb_rest, <- Hr in Hp.
  set (k := (length m mod 64)%nat) in *. assert (Hk : (k < 64)%nat) by (apply Nat.mod_upper_bound; lia).
  assert (Hf : length_field m = le_bytes (bits0 ctx) ++ le_bytes (bits1 ctx)) by (by rewrite H0, H1).
  rewrite Hp, Hf. clearbody k. clear Hv H0 H1 Hr Hp Hf Hcount.
  change (64 - 1 - k)%nat with (63 - k)%nat.
  assert (Hl1 : length (splice k [0x80] (in_ ctx)) = 64%nat) by (rewrite splice_length; cbn; lia).
  assert (Hb1 : Forall is_u8 (splice k [0x80] (in_ ctx))) by (apply splice_bytes; [by repeat constructor|done]).
  destruct (Nat.ltb_spec (63 - k) 8) as [H|H]; destruct (Nat.ltb_spec k 56) as [H'|H']; try lia.
  - pose proof (pad_buffer (in_ ctx) k (63 - k) Hl ltac:(lia)) as Hpad.
    replace (k + 1 + (63 - k))%nat with 64%nat in Hpad by lia.
    rewrite take_ge in Hpad by (rewrite splice_length; [rewrite Hl1|rewrite repeat_length, Hl1]; lia). rewrite Hpad.
    assert (Hlp : length (take k (in_ ctx) ++ [128] ++ repeat 0 (63 - k)) = 64%nat)
      by (rewrite !length_app, length_take, repeat_length; cbn; lia).
    assert (Hbp : Forall is_u8 (take k (in_ ctx) ++ [128] ++ repeat 0 (63 - k))).
    { rewrite !Forall_app. split; [by apply Forall_take|]. split; [by repeat constructor|apply zeros_u8]. }
    rewrite transform_in_spec by done. cbn [fst].
    rewrite append_length_spec; [|by rewrite splice_length by (rewrite repeat_length; lia)|by (apply splice_bytes; [apply zeros_u8|])].
    rewrite (take_splice 0 (repeat 0 56)) by (rewrite repeat_length; lia). done.
  - cbn [fst]. rewrite append_length_spec; [|by rewrite splice_length by (rewrite repeat_length; lia)|by (apply splice_bytes; [apply zeros_u8|])].
    pose proof (pad_buffer (in_ ctx) k (63 - k - 8) Hl ltac:(lia)) as Hpad.
    replace (k + 1 + (63 - k - 8))%nat with 56%nat in Hpad by lia. rewrite Hpad.
    replace (63 - k - 8)%nat with (55 - k)%nat by lia. by rewrite <- !app_assoc.
Qed.

(** ** The theorems *)

(** The calls of [MD5Update] on the pieces of a message. *)
Fixpoint update_all (ctx : Context) (pieces : list (list Z)) : outcome Context :=
  match pieces with
  | [] => Ret ctx
  | data :: pieces => let! ctx := MD5Update ctx data in update_all ctx pieces
  end.

Lemma update_all_spec pieces ctx m :
  represents ctx m -> Forall (Forall is_u8) pieces ->
  exists ctx', update_all ctx pieces = Ret ctx' /\ represents ctx' (m ++ mjoin pieces).
Proof.
  revert ctx m. induction pieces as [|data pieces IH]; intros ctx m Hr Hb.
  - exists ctx. cbn. by rewrite app_nil_r.
  - inversion_clear Hb as [|? ? Hd Hb']. destruct (MD5Update_spec ctx m data Hr Hd) as (ctx1 & E1 & R1).
    destruct (IH ctx1 _ R1 Hb') as (ctx2 & E2 & R2). exists ctx2. cbn [update_all]. rewrite E1. split; [exact E2|].
    change (mjoin (data :: pieces)) with (data ++ mjoin pieces). by rewrite app_assoc.
Qed.

(** C10: The digest of a message given in any pieces, from whatever the context held
    before, is the one RFC 1321 defines for the whole message, of any length. *)
Theorem md5_incremental ctx pieces :
  length (in_ ctx) = 64%nat -> Forall is_u8 (in_ ctx) -> Forall (Forall is_u8) pieces ->
  exists ctx', update_all (MD5Init ctx) pieces = Ret ctx' /\ fst (MD5Final ctx') = md5 (mjoin pieces).
Proof.
  intros Hl Hb Hp. destruct (update_all_spec pieces _ [] (MD5Init_spec ctx Hl Hb) Hp) as (ctx' & E & R).
  exists ctx'. split; [exact E|]. by apply MD5Final_spec.
Qed.

Lemma digest_of_bytes v : Forall is_u8 (digest_of v) /\ length (digest_of v) = 16%nat.
Proof. split; [|done]. unfold digest_of. rewrite !Forall_app. repeat split; apply le_bytes_u8. Qed.

(** [MD5String] is 32 characters that read back as the digest of the string. *)
Theorem md5_string ctx str :
  length (in_ ctx) = 64%nat -> Forall is_u8 (in_ ctx) -> Forall is_u8 str ->
  exists text, MD5String ctx str = Ret text /\ length text = 32%nat /\
    Numbers.HexStringToBytes text [] = Ret (true, md5 str).
Proof.
  intros Hl Hb Hs. destruct (MD5Update_spec _ [] str (MD5Init_spec ctx Hl Hb) Hs) as (ctx' & E & R).
  exists (MD5DigestToBase16 (md5 str)). unfold MD5String, MD5Sum. rewrite E. cbn [obind].
  rewrite (MD5Final_spec _ _ R). split; [done|].
  destruct (digest_of_bytes (fst (absorb compress initial (padded str (length_field str))))) as [Hd Hn].
  fold (md5 str) in Hd, Hn. assert (Ht : length (MD5DigestToBase16 (md5 str)) = 32%nat).
  { clear Hd. unfold MD5DigestToBase16. generalize dependent (md5 str). intros l Hn.
    do 17 (destruct l as [|? l]; [try discriminate Hn|]); [done|discriminate Hn]. }
  split; [done|]. unfold Numbers.HexStringToBytes. rewrite Ht. cbn [length Nat.eqb dcheck obind].
  change (32 mod 2 =? 0)%nat with true. cbn [orb negb]. f_equal. unfold MD5DigestToBase16.
  by rewrite Numbers.hex_pairs_encode; [|vm_compute; reflexivity|].
Qed.

(** ** Sample *)

Module Sample.

(** A context with arbitrary bytes in it. *)
Definition stack : Context := mkContext (mkHash 1 2 3 4) 5 6 (repeat 7 64).

(** The test vector "abc", in two pieces. *)
Example md5_incremental_witness :
  exists ctx', update_all (MD5Init stack) [[97]; [98; 99]] = Ret ctx' /\
    fst (MD5Final ctx') = [144; 1; 80; 152; 60; 210; 79; 176; 214; 150; 63; 125; 40; 225; 127; 114].
Proof.
  destruct (md5_incremental stack [[97]; [98; 99]]) as (ctx' & E & H);
    [reflexivity|apply bytes_u8; reflexivity|repeat constructor; discriminate|].
  exists ctx'. split; [exact E|]. rewrite H. vm_compute. reflexivity.
Defined.

(** The empty string, "d41d8cd9...". *)
Example md5_string_witness :
  exists text, MD5String stack [] = Ret text /\ length text = 32%nat /\
    Numbers.HexStringToBytes text [] =
      Ret (true, [212; 29; 140; 217; 143; 0; 178; 4; 233; 128; 9; 152; 236; 248; 66; 126]).
Proof.
  destruct (md5_string stack []) as (text & E & Hn & H);
    [reflexivity|apply bytes_u8; reflexivity|constructor|].
  exists text. split; [exact E|]. split; [exact Hn|]. rewrite H. vm_compute. reflexivity.
Defined.

End Sample.

End MD5.
