(* ===== verification/BaseSHA1.v ===== *)
(** SHA-1, [base/sha1_portable.cc]: the class as it is written, with the union of its
    block and its schedule, and the algorithm of FIPS 180-3 it computes.  The host is
    little-endian. *)
From S2P Require Import Prelude BaseHash.

Module SHA1.

(** ** The class *)

(** Five words: the working variables, or the hash. *)
Record words := mkWords { A : Z; B : Z; C : Z; D : Z; E : Z }.

(** [W] and [M] are a union; what is above the block is rewritten before it is read. *)
Record t := mkSHA { vars : words; H : words; M : list Z; cursor : Z; l : Z }.

Definition f (t : nat) (B C D : Z) : Z :=
  if (t <? 20)%nat then Z.lor (Z.land B C) (Z.land (Z.lnot B) D)
  else if (t <? 40)%nat then Z.lxor (Z.lxor B C) D
  else if (t <? 60)%nat then Z.lor (Z.lor (Z.land B C) (Z.land B D)) (Z.land C D)
  else Z.lxor (Z.lxor B C) D.

Definition S (n X : Z) : Z := Z.lor (u32 (Z.shiftl X n)) (Z.shiftr X (32 - n)).

Definition K (t : nat) : Z :=
  if (t <? 20)%nat then 0x5a827999
  else if (t <? 40)%nat then 0x6ed9eba1
  else if (t <? 60)%nat then 0x8f1bbcdc
  else 0xca62c1d6.

Definition swapends (t : Z) : Z :=
  Z.lor (Z.lor (Z.lor (Z.shiftr (Z.land t 0xff000000) 24) (Z.shiftr (Z.land t 0xff0000) 8))
    (Z.shiftl (Z.land t 0xff00) 8)) (Z.shiftl (Z.land t 0xff) 24).

Definition initial : words := mkWords 0x67452301 0xefcdab89 0x98badcfe 0x10325476 0xc3d2e1f0.

(** The bytes of the block keep what the memory held. *)
Definition Init (s : t) : t := mkSHA (mkWords 0 0 0 0 0) initial (M s) 0 0.

(** Step b: one more word of the schedule. *)
Definition extend (W : list Z) (t : nat) : list Z :=
  W ++ [S 1 (Z.lxor (Z.lxor (Z.lxor (nth (t - 3) W 0) (nth (t - 8) W 0)) (nth (t - 14) W 0)) (nth (t - 16) W 0))].

(** Step d. *)
Definition round (W : list Z) (v : words) (t : nat) : words :=
  let TEMP := u32 (S 5 (A v) + f t (B v) (C v) (D v) + E v + nth t W 0 + K t) in
  mkWords TEMP (A v) (S 30 (B v)) (C v) (D v).

Definition add_words (x y : words) : words :=
  mkWords (u32 (A x + A y)) (u32 (B x + B y)) (u32 (C x + C y)) (u32 (D x + D y)) (u32 (E x + E y)).

Definition Process (s : t) : t :=
  let block := map swapends (le_words 16 (M s)) in
  let W := foldl extend block (seq 16 64) in
  let v := foldl (round W) (H s) (seq 0 80) in
  mkSHA v (add_words (H s) v) (mjoin (map le_bytes block)) 0 (l s).

(** [M[cursor++] = b]. *)
Definition push (b : Z) (s : t) : t :=
  mkSHA (vars s) (H s) (splice (Z.to_nat (cursor s)) [b] (M s)) (cursor s + 1) (l s).

Definition set_l (n : Z) (s : t) : t := mkSHA (vars s) (H s) (M s) (cursor s) n.

(** The body of the loop of [Update]. *)
Definition update_byte (s : t) (b : Z) : t :=
  let s := push b s in
  let s := if 64 <=? cursor s then Process s else s in
  set_l (u32 (l s + 8)) s.

Definition Update (s : t) (data : list Z) : t := foldl update_byte s data.

(** [while (cursor < limit) M[cursor++] = 0]. *)
Definition zero_to (limit : Z) (s : t) : t := nsteps (push 0) (Z.to_nat (limit - cursor s)) s.

(** The end of [Pad]: zeros from [k] to 60 and the length. *)
Definition store_length (s : t) : t :=
  let s := zero_to (64 - 4) s in
  let n := l s in
  mkSHA (vars s) (H s)
    (splice 60 [Z.shiftr (Z.land n 0xff000000) 24; Z.shiftr (Z.land n 0xff0000) 16;
                Z.shiftr (Z.land n 0xff00) 8; Z.land n 0xff] (M s)) (cursor s) (l s).

Definition Pad (s : t) : t :=
  let s := push 0x80 s in
  let s := if 64 - 8 <? cursor s then Process (zero_to 64 s) else s in
  store_length s.

Definition Final (s : t) : t :=
  let s := Process (Pad s) in
  let h := H s in
  mkSHA (vars s) (mkWords (swapends (A h)) (swapends (B h)) (swapends (C h)) (swapends (D h)) (swapends (E h)))
    (M s) (cursor s) (l s).

Definition bytes_of (v : words) : list Z :=
  le_bytes (A v) ++ le_bytes (B v) ++ le_bytes (C v) ++ le_bytes (D v) ++ le_bytes (E v).

Definition Digest (s : t) : list Z := bytes_of (H s).

(** [s] is what the stack held. *)
Definition SHA1HashBytes (s : t) (data : list Z) : list Z := Digest (Final (Update (Init s) data)).

(** ** The algorithm of FIPS 180-3 *)

(** A big-endian word, and its bytes. *)
Definition be32 (l : list Z) : Z :=
  2 ^ 24 * nth 0 l 0 + 2 ^ 16 * nth 1 l 0 + 2 ^ 8 * nth 2 l 0 + nth 3 l 0.

Definition be_bytes (w : Z) : list Z := rev (le_bytes w).

Fixpoint be_words (n : nat) (l : list Z) : list Z :=
  match n with O => [] | Datatypes.S n => be32 l :: be_words n (drop 4 l) end.

Definition Ch (x y z : Z) : Z := Z.lxor (Z.land x y) (Z.land (Z.lnot x) z).
Definition Parity (x y z : Z) : Z := Z.lxor (Z.lxor x y) z.
Definition Maj (x y z : Z) : Z := Z.lxor (Z.lxor (Z.land x y) (Z.land x z)) (Z.land y z).

Definition f_t (t : nat) : Z -> Z -> Z -> Z :=
  if (t <? 20)%nat then Ch else if (t <? 40)%nat then Parity else if (t <? 60)%nat then Maj else Parity.

(** Word [t] of the message schedule. *)
Fixpoint schedule (fuel : nat) (block : list Z) (t : nat) : Z :=
  match fuel with
  | O => 0
  | Datatypes.S fuel =>
      if (t <? 16)%nat then nth t block 0
      else rotl 1 (Z.lxor (Z.lxor (Z.lxor (schedule fuel block (t - 3)) (schedule fuel block (t - 8)))
                     (schedule fuel block (t - 14))) (schedule fuel block (t - 16)))
  end.

Definition fips_round (W : nat -> Z) (v : words) (t : nat) : words :=
  let '(mkWords a b c d e) := v in
  mkWords (u32 (rotl 5 a + f_t t b c d + e + K t + W t)) a (rotl 30 b) c d.

Definition compress (h : words) (block : list Z) : words :=
  add_words h (foldl (fips_round (fun t => schedule (Datatypes.S t) (be_words 16 block) t)) h (seq 0 80)).

Definition digest_of (v : words) : list Z :=
  be_bytes (A v) ++ be_bytes (B v) ++ be_bytes (C v) ++ be_bytes (D v) ++ be_bytes (E v).

Definition bits_of (m : list Z) : Z := 8 * Z.of_nat (length m).

(** The length of the message in bits, in 64 bits. *)
Definition length_field (bits : Z) : list Z := be_bytes (bits / 2 ^ 32) ++ be_bytes (bits mod 2 ^ 32).

Definition hash_with (bits : Z) (m : list Z) : list Z :=
  digest_of (fst (absorb compress initial (padded m (length_field bits)))).

Definition sha1 (m : list Z) : list Z := hash_with (bits_of m) m.

(** ** Words *)

Lemma swapends_spec w :
  swapends w = 2 ^ 24 * (w mod 2 ^ 8) + 2 ^ 16 * (w / 2 ^ 8 mod 2 ^ 8) + 2 ^ 8 * (w / 2 ^ 16 mod 2 ^ 8) + w / 2 ^ 24 mod 2 ^ 8.
Proof.
  unfold swapends.
  change 0xff000000 with (Z.ones 8 * 2 ^ 24). change 0xff0000 with (Z.ones 8 * 2 ^ 16).
  change 0xff00 with (Z.ones 8 * 2 ^ 8). change 0xff with (Z.ones 8).
  rewrite !land_field, Z.land_ones, !Z.shiftr_div_pow2, !Z.shiftl_mul_pow2 by lia.
  rewrite Z.div_mul by lia.
  replace (w / 2 ^ 16 mod 2 ^ 8 * 2 ^ 16 / 2 ^ 8) with (w / 2 ^ 16 mod 2 ^ 8 * 2 ^ 8)
    by (replace (w / 2 ^ 16 mod 2 ^ 8 * 2 ^ 16) with (w / 2 ^ 16 mod 2 ^ 8 * 2 ^ 8 * 2 ^ 8) by lia; by rewrite Z.div_mul by lia).
  replace (w / 2 ^ 8 mod 2 ^ 8 * 2 ^ 8 * 2 ^ 8) with (w / 2 ^ 8 mod 2 ^ 8 * 2 ^ 16) by lia.
  pose proof (Z.mod_pos_bound w (2 ^ 8) ltac:(lia)). pose proof (Z.mod_pos_bound (w / 2 ^ 8) (2 ^ 8) ltac:(lia)).
  pose proof (Z.mod_pos_bound (w / 2 ^ 16) (2 ^ 8) ltac:(lia)). pose proof (Z.mod_pos_bound (w / 2 ^ 24) (2 ^ 8) ltac:(lia)).
  rewrite (Z.lor_comm (w / 2 ^ 24 mod 2 ^ 8)), (lor_add _ _ 8) by lia.
  rewrite Z.lor_comm, (Z.lor_comm _ (w / 2 ^ 8 mod 2 ^ 8 * 2 ^ 16)), (lor_add _ _ 16) by lia.
  rewrite lor_add by lia. lia.
Qed.

Lemma swapends_le32 a b c d : is_u8 a -> is_u8 b -> is_u8 c -> is_u8 d -> swapends (le32 [a; b; c; d]) = be32 [a; b; c; d].
Proof.
  intros Ha Hb Hc Hd. rewrite swapends_spec. pose proof (le_bytes_le32 a b c d Ha Hb Hc Hd) as E.
  unfold le_bytes in E. generalize dependent (le32 [a; b; c; d]). intros w E.
  pose proof (f_equal (fun x => nth 0 x 0) E) as E0. pose proof (f_equal (fun x => nth 1 x 0) E) as E1.
  pose proof (f_equal (fun x => nth 2 x 0) E) as E2. pose proof (f_equal (fun x => nth 3 x 0) E) as E3.
  cbn [nth] in E0, E1, E2, E3. rewrite E0, E1, E2, E3. unfold be32. cbn [nth]. lia.
Qed.

Lemma le_bytes_swapends w : is_u32 w -> le_bytes (swapends w) = be_bytes w.
Proof.
  intros Hw. unfold be_bytes, le_bytes at 2. cbn [rev app]. rewrite swapends_spec.
  pose proof (le_bytes_le32 (w / 2 ^ 24 mod 2 ^ 8) (w / 2 ^ 16 mod 2 ^ 8) (w / 2 ^ 8 mod 2 ^ 8) (w mod 2 ^ 8)) as E.
  unfold le32 in E. cbn [nth] in E. rewrite <- E by (apply Z.mod_pos_bound; lia). f_equal. lia.
Qed.

Lemma swap_block n m :
  Forall is_u8 m -> (4 * n <= length m)%nat -> map swapends (le_words n m) = be_words n m.
Proof.
  revert m. induction n as [|n IH]; intros m Hm Hn; [done|].
  destruct m as [|x [|y [|z [|t m]]]]; cbn [length] in Hn; try lia.
  inversion_clear Hm as [|? ? Hx Hm1]. inversion_clear Hm1 as [|? ? Hy Hm2].
  inversion_clear Hm2 as [|? ? Hz Hm3]. inversion_clear Hm3 as [|? ? Ht Hm4].
  cbn [le_words be_words map skipn]. rewrite drop_0, IH by (done || lia). f_equal.
  change (le32 (x :: y :: z :: t :: m)) with (le32 [x; y; z; t]). by rewrite swapends_le32.
Qed.

(** ** The functions of the rounds *)

Lemma f_spec t x y z : f t x y z = f_t t x y z.
Proof.
  unfold f, f_t, Ch, Parity, Maj. repeat case_match; try done; apply Z.bits_inj'; intros n Hn;
    rewrite ?Z.lxor_spec, ?Z.lor_spec, ?Z.land_spec, ?Z.lnot_spec by done;
    by destruct (Z.testbit x n), (Z.testbit y n), (Z.testbit z n).
Qed.

Lemma schedule_fuel n block t : (t < n)%nat -> schedule n block t = schedule (Datatypes.S t) block t.
Proof.
  revert n. induction t as [t IH] using lt_wf_ind. intros [|n] Hn; [lia|]. cbn [schedule].
  destruct (Nat.ltb_spec t 16); [done|]. do 2 f_equal; [f_equal; [f_equal|]|].
  all: rewrite IH by lia; symmetry; apply IH; lia.
Qed.

(** Word [t] from the words before it, however much fuel they take. *)
Lemma schedule_step block t :
  (16 <= t)%nat ->
  schedule (Datatypes.S t) block t =
    rotl 1 (Z.lxor (Z.lxor (Z.lxor (schedule (Datatypes.S (t - 3)) block (t - 3)) (schedule (Datatypes.S (t - 8)) block (t - 8)))
      (schedule (Datatypes.S (t - 14)) block (t - 14))) (schedule (Datatypes.S (t - 16)) block (t - 16))).
Proof.
  intros Ht. rewrite <- (schedule_fuel t block (t - 3)), <- (schedule_fuel t block (t - 8)),
    <- (schedule_fuel t block (t - 14)), <- (schedule_fuel t block (t - 16)) by lia. cbn [schedule].
  by destruct (Nat.ltb_spec t 16); [lia|].
Qed.

Lemma extend_schedule block n t :
  length block = 16%nat -> (t < 16 + n)%nat ->
  length (foldl extend block (seq 16 n)) = (16 + n)%nat /\
  nth t (foldl extend block (seq 16 n)) 0 = schedule (Datatypes.S t) block t.
Proof.
  intros Hb. revert t. induction n as [|n IH]; intros t Ht.
  - cbn [seq foldl]. split; [lia|]. cbn [schedule]. destruct (Nat.ltb_spec t 16); [done|lia].
  - rewrite seq_S, foldl_app. cbn [foldl]. set (W := foldl extend block (seq 16 n)) in *.
    assert (HW : length W = (16 + n)%nat) by (by destruct (IH 0%nat ltac:(lia))).
    unfold extend. rewrite length_app, HW. split; [cbn; lia|].
    destruct (Nat.lt_ge_cases t (16 + n)) as [Hlt|Hge].
    + rewrite app_nth1 by lia. by apply IH.
    + rewrite app_nth2, HW by lia. replace (t - (16 + n))%nat with 0%nat by lia. cbn [nth].
      rewrite schedule_step by lia. change (S 1) with (rotl 1). replace (16 + n)%nat with t by lia.
      rewrite (proj2 (IH (t - 3)%nat ltac:(lia))), (proj2 (IH (t - 8)%nat ltac:(lia))),
        (proj2 (IH (t - 14)%nat ltac:(lia))), (proj2 (IH (t - 16)%nat ltac:(lia))). done.
Qed.

Lemma foldl_ext_in {X Y} (g h : X -> Y -> X) (xs : list Y) :
  forall v, (forall u x, In x xs -> g u x = h u x) -> foldl g v xs = foldl h v xs.
Proof.
  induction xs as [|x xs IH]; intros v Hgh; [done|]. cbn. rewrite Hgh by (by left). apply IH.
  intros u y Hy. apply Hgh. by right.
Qed.

Lemma length_be_words n m : length (be_words n m) = n.
Proof. revert m. induction n as [|n IH]; intros m; [done|]. cbn. by rewrite IH. Qed.

(** A block is processed as the standard says; the memory of the block is left full of
    bytes. *)
Lemma Process_spec s :
  length (M s) = 64%nat -> Forall is_u8 (M s) ->
  H (Process s) = compress (H s) (M s) /\ cursor (Process s) = 0 /\ l (Process s) = l s /\
  length (M (Process s)) = 64%nat /\ Forall is_u8 (M (Process s)).
Proof.
  intros Hl Hb. unfold Process. cbn [H cursor l M]. rewrite swap_block by (done || lia).
  split; [|split; [done|split; [done|]]].
  - unfold compress. f_equal. apply foldl_ext_in. intros v t Ht%in_seq. destruct v as [a b c d e].
    unfold round, fips_round. cbn [A B C D E].
    destruct (extend_schedule (be_words 16 (M s)) 64 t (length_be_words _ _) ltac:(lia)) as [_ ->].
    rewrite f_spec. unfold S, rotl. f_equal. f_equal. lia.
  - assert (G : forall ws, length (mjoin (map le_bytes ws)) = (4 * length ws)%nat /\ Forall is_u8 (mjoin (map le_bytes ws))).
    { induction ws as [|w ws [IH1 IH2]]; [by split|].
      change (mjoin (map le_bytes (w :: ws))) with (le_bytes w ++ mjoin (map le_bytes ws)).
      rewrite length_app, IH1, Forall_app. split; [cbn; lia|]. split; [apply le_bytes_u8|done]. }
    destruct (G (be_words 16 (M s))) as [-> ?]. by rewrite length_be_words.
Qed.

(** ** The object stands for the bytes it was given *)

Record represents (s : t) (m : list Z) : Prop := {
  repr_H : H s = fst (absorb compress initial m);
  repr_l : l s = u32 (bits_of m);
  repr_cursor : cursor s = Z.of_nat (length m mod 64);
  repr_length : length (M s) = 64%nat;
  repr_bytes : Forall is_u8 (M s);
  repr_M : take (length m mod 64) (M s) = snd (absorb compress initial m)
}.

Lemma sha1_init_spec s : length (M s) = 64%nat -> Forall is_u8 (M s) -> represents (Init s) [].
Proof. by constructor. Qed.

Lemma bits_snoc m b : u32 (u32 (bits_of m) + 8) = u32 (bits_of (m ++ [b])).
Proof. unfold bits_of. rewrite length_app. cbn [length]. rewrite Nat2Z.inj_add. word_lia. Qed.

Lemma mod_snoc n : ((n + 1) mod 64 = if (n mod 64 =? 63)%nat then 0 else n mod 64 + 1)%nat.
Proof.
  rewrite <- Nat.Div0.add_mod_idemp_l. pose proof (Nat.mod_upper_bound n 64 ltac:(lia)) as Hb.
  destruct (Nat.eqb_spec (n mod 64) 63) as [->|Hne]; [done|]. apply Nat.mod_small. lia.
Qed.

(** A byte written at the cursor. *)
Lemma push_spec b s k :
  cursor s = Z.of_nat k -> (k < 64)%nat -> length (M s) = 64%nat -> Forall is_u8 (M s) -> is_u8 b ->
  length (M (push b s)) = 64%nat /\ Forall is_u8 (M (push b s)) /\
  take (k + 1) (M (push b s)) = take k (M s) ++ [b] /\ cursor (push b s) = Z.of_nat (k + 1).
Proof.
  intros Hc Hk Hl Hb Hu. unfold push. cbn [M cursor]. rewrite Hc, Nat2Z.id.
  split; [rewrite splice_length; cbn; lia|]. split; [apply splice_bytes; [by apply Forall_singleton|done]|].
  split; [apply (take_splice k [b] (M s)); cbn; lia|lia].
Qed.

Lemma update_byte_spec s m b : represents s m -> is_u8 b -> represents (update_byte s b) (m ++ [b]).
Proof.
  intros [HH Hl Hc Hlen Hb HM] Hu. set (k := (length m mod 64)%nat) in *.
  assert (Hk : (k < 64)%nat) by (apply Nat.mod_upper_bound; lia).
  destruct (push_spec b s k Hc Hk Hlen Hb Hu) as (P1 & P2 & P3 & P4).
  pose proof (absorb_app compress initial m [b]) as Habs. rewrite <- HH, <- HM, <- P3 in Habs.
  assert (Hmod : (length (m ++ [b]) mod 64 = if (k =? 63)%nat then 0 else k + 1)%nat)
    by (rewrite length_app; apply mod_snoc).
  unfold update_byte. rewrite P4. destruct (Nat.eqb_spec k 63) as [E|E].
  - rewrite E in Habs |- *. change (64 <=? Z.of_nat (63 + 1)) with true. cbn iota.
    destruct (Process_spec (push b s) P1 P2) as (Q1 & Q2 & Q3 & Q4 & Q5).
    rewrite take_ge in Habs by (rewrite P1; lia). rewrite (absorb_one compress (H s)) in Habs by done.
    constructor; cbn [set_l H l cursor M]; rewrite ?Hmod; try done.
    + rewrite Q1, Habs. done.
    + rewrite Q3. change (l (push b s)) with (l s). rewrite Hl. apply bits_snoc.
    + by rewrite Habs.
  - rewrite (proj2 (Z.leb_gt _ _)) by lia. rewrite (absorb_small compress (H s)) in Habs by (rewrite length_take; lia).
    constructor; cbn [set_l H l cursor M]; rewrite ?Hmod; try done.
    + by rewrite Habs.
    + change (l (push b s)) with (l s). rewrite Hl. apply bits_snoc.
    + by rewrite Habs.
Qed.

Lemma Update_spec data s m : represents s m -> Forall is_u8 data -> represents (Update s data) (m ++ data).
Proof.
  revert s m. induction data as [|b data IH]; intros s m Hr Hd; [by rewrite app_nil_r|].
  inversion_clear Hd as [|? ? Hb Hd']. cbn [Update foldl].
  replace (m ++ b :: data) with ((m ++ [b]) ++ data) by (by rewrite <- app_assoc).
  apply IH; [by apply update_byte_spec|done].
Qed.

(** ** Padding *)

Lemma zero_to_spec n s k :
  cursor s = Z.of_nat k -> (k + n <= 64)%nat -> length (M s) = 64%nat -> Forall is_u8 (M s) ->
  let s' := nsteps (push 0) n s in
  length (M s') = 64%nat /\ Forall is_u8 (M s') /\ H s' = H s /\ l s' = l s /\
  take (k + n) (M s') = take k (M s) ++ repeat 0 n.
Proof.
  revert s k. induction n as [|n IH]; intros s k Hc Hk Hl Hb.
  - cbn. by rewrite Nat.add_0_r, app_nil_r.
  - cbn [nsteps]. destruct (push_spec 0 s k Hc ltac:(lia) Hl Hb ltac:(done)) as (P1 & P2 & P3 & P4).
    destruct (IH (push 0 s) (k + 1)%nat P4 ltac:(lia) P1 P2) as (Q1 & Q2 & Q3 & Q4 & Q5).
    repeat split; [done|done|done|done|]. replace (k + Datatypes.S n)%nat with (k + 1 + n)%nat by lia.
    by rewrite Q5, P3, <- app_assoc.
Qed.

Lemma length_bytes n :
  is_u32 n -> [Z.shiftr (Z.land n 0xff000000) 24; Z.shiftr (Z.land n 0xff0000) 16; Z.shiftr (Z.land n 0xff00) 8; Z.land n 0xff] = be_bytes n.
Proof.
  intros Hn. unfold be_bytes, le_bytes. cbn [rev app].
  change 0xff000000 with (Z.ones 8 * 2 ^ 24). change 0xff0000 with (Z.ones 8 * 2 ^ 16).
  change 0xff00 with (Z.ones 8 * 2 ^ 8). change 0xff with (Z.ones 8).
  rewrite !land_field, Z.land_ones, !Z.shiftr_div_pow2, !Z.div_mul by lia. done.
Qed.

Lemma store_length_spec s k :
  cursor s = Z.of_nat k -> (k <= 60)%nat -> length (M s) = 64%nat -> Forall is_u8 (M s) -> is_u32 (l s) ->
  H (store_length s) = H s /\ l (store_length s) = l s /\
  M (store_length s) = take k (M s) ++ repeat 0 (60 - k) ++ be_bytes (l s) /\ Forall is_u8 (M (store_length s)).
Proof.
  intros Hc Hk Hl Hb Hn. unfold store_length, zero_to. rewrite Hc.
  replace (Z.to_nat (64 - 4 - Z.of_nat k)) with (60 - k)%nat by lia.
  destruct (zero_to_spec (60 - k) s k Hc ltac:(lia) Hl Hb) as (Q1 & Q2 & Q3 & Q4 & Q5).
  replace (k + (60 - k))%nat with 60%nat in Q5 by lia. cbv zeta in *. cbn [H l M].
  rewrite Q4, length_bytes by done. split; [done|]. split; [done|]. split.
  - rewrite splice_end by (rewrite Q1; done). by rewrite Q5, <- app_assoc.
  - apply splice_bytes; [|done]. unfold be_bytes. apply Forall_rev, le_bytes_u8.
Qed.

Lemma Pad_spec s m :
  represents s m ->
  length (M (Pad s)) = 64%nat /\ Forall is_u8 (M (Pad s)) /\
  compress (H (Pad s)) (M (Pad s)) =
    fst (absorb compress initial (padded m (length_field (u32 (bits_of m))))).
Proof.
  intros [HH Hl Hc Hlen Hb HM].
  pose proof (absorb_padded compress initial m (length_field (u32 (bits_of m))) eq_refl) as Hp. cbn zeta in Hp.
  rewrite <- HH, absorb_rest, <- HM in Hp. set (k := (length m mod 64)%nat) in *.
  assert (Hk : (k < 64)%nat) by (apply Nat.mod_upper_bound; lia).
  assert (Hf : length_field (u32 (bits_of m)) = repeat 0 4 ++ be_bytes (l s)).
  { unfold length_field. pose proof (u32_range (bits_of m)) as Hr. unfold is_u32 in Hr.
    rewrite Z.div_small, Z.mod_small, <- Hl by done. done. }
  assert (Hlr : is_u32 (l s)) by (rewrite Hl; apply u32_range).
  rewrite Hp, Hf. clearbody k. clear Hp Hf HH HM Hl.
  destruct (push_spec 0x80 s k Hc Hk Hlen Hb ltac:(done)) as (P1 & P2 & P3 & P4).
  change (Pad s) with (store_length (if 64 - 8 <? cursor (push 0x80 s) then Process (zero_to 64 (push 0x80 s)) else push 0x80 s)).
  rewrite P4. destruct (Nat.ltb_spec k 56) as [H'|H'].
  - rewrite (proj2 (Z.ltb_ge _ _)) by lia.
    destruct (store_length_spec (push 0x80 s) (k + 1) P4 ltac:(lia) P1 P2 Hlr) as (E1 & _ & E2 & E3).
    rewrite E2, P3 in E3 |- *. rewrite E1. split; [|split; [done|]].
    + rewrite !length_app, length_take, repeat_length. cbn. lia.
    + f_equal. rewrite <- app_assoc. do 2 f_equal. rewrite app_assoc. f_equal.
      rewrite <- repeat_app. f_equal. lia.
  - rewrite (proj2 (Z.ltb_lt _ _)) by lia.
    destruct (zero_to_spec (63 - k) (push 0x80 s) (k + 1) P4 ltac:(lia) P1 P2) as (Q1 & Q2 & Q3 & Q4 & Q5).
    unfold zero_to. rewrite P4. replace (Z.to_nat (64 - Z.of_nat (k + 1))) with (63 - k)%nat by lia.
    set (s1 := nsteps (push 0) (63 - k) (push 0x80 s)) in *. clearbody s1.
    rewrite take_ge, P3, <- app_assoc in Q5 by lia.
    destruct (Process_spec s1 Q1 Q2) as (R1 & R2 & R3 & R4 & R5).
    rewrite Q4 in R3. change (l (push 0x80 s)) with (l s) in R3.
    destruct (store_length_spec (Process s1) 0 R2 ltac:(lia) R4 R5 ltac:(by rewrite R3)) as (E1 & _ & E2 & E3).
    rewrite E2, R3 in E3 |- *. rewrite E1, R1, Q3, Q5. split; [done|]. by split.
Qed.

(** ** The theorem *)

Definition is_words (v : words) : Prop := is_u32 (A v) /\ is_u32 (B v) /\ is_u32 (C v) /\ is_u32 (D v) /\ is_u32 (E v).

Lemma compress_words h block : is_words (compress h block).
Proof. unfold is_words, compress, add_words. cbn [A B C D E]. split_and!; apply u32_range. Qed.

Lemma Final_spec s m : represents s m -> Digest (Final s) = hash_with (u32 (bits_of m)) m.
Proof.
  intros Hr. destruct (Pad_spec s m Hr) as (P1 & P2 & P3).
  destruct (Process_spec (Pad s) P1 P2) as (Q1 & _). unfold Digest, Final, hash_with. cbn [H].
  rewrite Q1, <- P3. destruct (compress_words (H (Pad s)) (M (Pad s))) as (? & ? & ? & ? & ?).
  unfold bytes_of, digest_of. cbn [A B C D E]. by rewrite !le_bytes_swapends.
Qed.

(** C24: The digest of a message given in any pieces, from whatever the object held
    before, pads the message with its length in bits modulo 2^32; below 2^29 bytes
    that is SHA-1. *)
Theorem sha1_incremental s pieces :
  length (M s) = 64%nat -> Forall is_u8 (M s) -> Forall (Forall is_u8) pieces ->
  let m := mjoin pieces in
  Digest (Final (foldl Update (Init s) pieces)) = hash_with (bits_of m mod 2 ^ 32) m /\
  (Z.of_nat (length m) < 2 ^ 29 -> Digest (Final (foldl Update (Init s) pieces)) = sha1 m).
Proof.
  intros Hl Hb Hp m.
  assert (G : forall ps s0 m0, represents s0 m0 -> Forall (Forall is_u8) ps -> represents (foldl Update s0 ps) (m0 ++ mjoin ps)).
  { induction ps as [|p ps IH]; intros s0 m0 Hr Hps; [by rewrite app_nil_r|]. inversion_clear Hps.
    change (mjoin (p :: ps)) with (p ++ mjoin ps). rewrite app_assoc. cbn [foldl]. apply IH; [by apply Update_spec|done]. }
  pose proof (Final_spec _ _ (G pieces _ [] (sha1_init_spec s Hl Hb) Hp)) as E. cbn [app] in E. fold m in E.
  split; [exact E|]. intros Hm. rewrite E. unfold sha1. f_equal. apply u32_small. unfold bits_of. lia.
Qed.

(** ** Sample *)

Module Sample.

Definition stack : t := mkSHA (mkWords 1 2 3 4 5) (mkWords 6 7 8 9 10) (repeat 7 64) 11 12.

(** The test vector "abc", in two pieces. *)
Example sha1_incremental_witness :
  Digest (Final (foldl Update (Init stack) [[97]; [98; 99]])) =
    [169; 153; 62; 54; 71; 6; 129; 106; 186; 62; 37; 113; 120; 80; 194; 108; 156; 208; 216; 157] /\
  Digest (Final (foldl Update (Init stack) [[97]; [98; 99]])) = sha1 [97; 98; 99].
Proof.
  split; [vm_compute; reflexivity|].
  apply (sha1_incremental stack [[97]; [98; 99]]); [reflexivity|apply bytes_u8; reflexivity| |reflexivity].
  repeat constructor; (discriminate || reflexivity).
Defined.

End Sample.

End SHA1.
