(* ===== verification/NetChunkedDecoder.v ===== *)
(** The decoder of the chunked transfer coding, [net/http/http_chunked_decoder.cc], as
    it filters a response read in arbitrary segments, and the grammar it decodes as an
    automaton over single bytes. *)
From S2P Require Import Prelude BaseNumbers.
Import Numbers.

Module ChunkedDecoder.

Definition zlen {A} (l : list A) : Z := Z.of_nat (length l).

(** ** The decoder *)

Record t := mkDecoder {
  chunk_remaining_ : Z;
  line_buf_ : list Z;
  chunk_terminator_remaining_ : bool;
  reached_last_chunk_ : bool;
  reached_eof_ : bool;
  bytes_after_eof_ : Z
}.

Definition init : t := mkDecoder 0 [] false false false 0.

Definition set_line_buf (l : list Z) (d : t) : t :=
  mkDecoder (chunk_remaining_ d) l (chunk_terminator_remaining_ d) (reached_last_chunk_ d)
    (reached_eof_ d) (bytes_after_eof_ d).

Definition set_remaining (n : Z) (d : t) : t :=
  mkDecoder n (line_buf_ d) (chunk_terminator_remaining_ d) (reached_last_chunk_ d)
    (reached_eof_ d) (bytes_after_eof_ d).

Definition set_terminator (b : bool) (d : t) : t :=
  mkDecoder (chunk_remaining_ d) (line_buf_ d) b (reached_last_chunk_ d) (reached_eof_ d) (bytes_after_eof_ d).

Definition set_last (d : t) : t :=
  mkDecoder (chunk_remaining_ d) (line_buf_ d) (chunk_terminator_remaining_ d) true (reached_eof_ d)
    (bytes_after_eof_ d).

Definition set_eof (d : t) : t :=
  mkDecoder (chunk_remaining_ d) (line_buf_ d) (chunk_terminator_remaining_ d) (reached_last_chunk_ d) true
    (bytes_after_eof_ d).

Definition add_after_eof (n : Z) (d : t) : t :=
  mkDecoder (chunk_remaining_ d) (line_buf_ d) (chunk_terminator_remaining_ d) (reached_last_chunk_ d)
    (reached_eof_ d) (i32 (bytes_after_eof_ d + n)).

Definition ERR_INVALID_CHUNKED_ENCODING : Z := -321.

(** [StringPiece::find] of a character: the bytes before it, if it is there. *)
Fixpoint find (c : Z) (l : list Z) : option nat :=
  match l with
  | x :: l => if x =? c then Some O else option_map S (find c l)
  | [] => None
  end.

(** The text without its last byte when that byte is [c]. *)
Definition drop_last (c : Z) (l : list Z) : list Z :=
  match last l with Some x => if x =? c then removelast l else l | None => l end.

(** [while (len && start[len - 1] == ' ') len--]. *)
Fixpoint strip_trailing (c : Z) (l : list Z) : list Z :=
  match l with
  | x :: l => match strip_trailing c l with [] => if x =? c then [] else [x] | l => x :: l end
  | [] => []
  end.

(** The characters "0123456789abcdefABCDEF". *)
Definition hex_characters : list Z :=
  [48; 49; 50; 51; 52; 53; 54; 55; 56; 57; 97; 98; 99; 100; 101; 102; 65; 66; 67; 68; 69; 70].

(** [find_first_not_of(hex_characters) != npos]. *)
Definition other_character (l : list Z) : bool :=
  existsb (fun c => negb (existsb (Z.eqb c) hex_characters)) l.

Definition ParseChunkSize (start : list Z) : option Z :=
  let chunk_size := strip_trailing 32 start in
  if other_character chunk_size then None
  else
    let '(ok, parsed_number) := HexStringToInt chunk_size in
    if ok && (0 <=? parsed_number) then Some parsed_number else None.

(** The scan of [buf] for a line; the result is the number of bytes consumed or an
    error, and the decoder.  The size of [line_buf_] is converted to int. *)
Definition ScanForChunkRemaining (d : t) (buf : list Z) : outcome (Z * t) :=
  check! chunk_remaining_ d =? 0;
  check! 0 <? zlen buf;
  match find 10 buf with
  | Some index_of_lf =>
      let text := drop_last 13 (take index_of_lf buf) in
      let bytes_consumed := Z.of_nat index_of_lf + 1 in
      let joined := negb (length (line_buf_ d) =? 0)%nat in
      let d := if joined then set_line_buf (line_buf_ d ++ text) d else d in
      let line := if joined then line_buf_ d else text in
      check! negb joined || (zlen line <? 2 ^ 31);
      if reached_last_chunk_ d then
        Ret (bytes_consumed, set_line_buf [] (if (length line =? 0)%nat then set_eof d else d))
      else if chunk_terminator_remaining_ d then
        if negb (length line =? 0)%nat then Ret (ERR_INVALID_CHUNKED_ENCODING, d)
        else Ret (bytes_consumed, set_line_buf [] (set_terminator false d))
      else if negb (length line =? 0)%nat then
        let line := match find 59 line with Some index_of_semicolon => take index_of_semicolon line | None => line end in
        match ParseChunkSize line with
        | None => Ret (ERR_INVALID_CHUNKED_ENCODING, d)
        | Some n =>
            let d := set_remaining n d in
            Ret (bytes_consumed, set_line_buf [] (if n =? 0 then set_last d else d))
        end
      else Ret (ERR_INVALID_CHUNKED_ENCODING, d)
  | None =>
      (* Save the partial line; a trailing CR is ignored. *)
      Ret (zlen buf, set_line_buf (line_buf_ d ++ drop_last 13 buf) d)
  end.

(** [memmove(dst, src, n)] within one buffer. *)
Definition memmove (dst src n : Z) (mem : list Z) : list Z :=
  take (Z.to_nat dst) mem ++ take (Z.to_nat n) (drop (Z.to_nat src) mem) ++ drop (Z.to_nat (dst + n)) mem.

(** The loop of [FilterBuf]: [buf] is the offset of the pointer in the buffer [mem].
    It takes a byte off the buffer in each round, so its length is fuel enough. *)
Fixpoint filter_loop (fuel : nat) (d : t) (mem : list Z) (buf buf_len result : Z) : outcome (Z * list Z * t) :=
  if buf_len =? 0 then Ret (result, mem, d)
  else
    match fuel with
    | O => Timeout
    | S fuel =>
        if negb (chunk_remaining_ d =? 0) then
          let num := Z.min (chunk_remaining_ d) buf_len in
          let d := set_remaining (chunk_remaining_ d - num) d in
          let d := if chunk_remaining_ d =? 0 then set_terminator true d else d in
          filter_loop fuel d mem (buf + num) (buf_len - num) (result + num)
        else if reached_eof_ d then Ret (result, mem, add_after_eof buf_len d)
        else
          let! '(bytes_consumed, d) :=
            ScanForChunkRemaining d (take (Z.to_nat buf_len) (drop (Z.to_nat buf) mem)) in
          if bytes_consumed <? 0 then Ret (bytes_consumed, mem, d)
          else
            let buf_len := buf_len - bytes_consumed in
            let mem := if negb (buf_len =? 0) then memmove buf (buf + bytes_consumed) buf_len mem else mem in
            filter_loop fuel d mem buf buf_len result
    end.

(** [FilterBuf] on a buffer of [zlen mem] bytes: the size of the decoded data at its
    front or an error, the buffer and the decoder. *)
Definition FilterBuf (d : t) (mem : list Z) : outcome (Z * list Z * t) :=
  filter_loop (length mem) d mem 0 (zlen mem) 0.

(** A response read in segments: the decoded data of all of them, or an error that
    ends the response. *)
Fixpoint filter_all (d : t) (segments : list (list Z)) : outcome (option (list Z * t)) :=
  match segments with
  | [] => Ret (Some ([], d))
  | buf :: segments =>
      let! '(result, mem, d) := FilterBuf d buf in
      if result <? 0 then Ret None
      else
        let! rest := filter_all d segments in
        Ret (option_map (fun '(data, d) => (take (Z.to_nat result) mem ++ data, d)) rest)
  end.

(** ** The grammar, a byte at a time *)

Inductive phase := InSize | InData (remaining : Z) | InTerminator | InTrailer | AfterEnd (bytes : Z).

(** The text of the line so far, and whether a CR is pending after it: it is the end of
    the line when LF follows, and text of the line otherwise. *)
Record spec := mkSpec { phase_of : phase; line : list Z; cr : bool }.

Definition start (p : phase) : spec := mkSpec p [] false.

Definition before (c : Z) (l : list Z) : list Z :=
  match find c l with Some i => take i l | None => l end.

(** The text of the size on a chunk's line: what comes before extensions and padding. *)
Definition size_text (line : list Z) : list Z := strip_trailing 32 (before 59 line).

Definition size_value (line : list Z) : Z := value 16 0 (digit_prefix 16 (size_text line)).

(** The size: hexadecimal digits, at least one, with a value that is a size; [None] is an
    error. *)
Definition size_of (line : list Z) : option Z :=
  if all_digits 16 (size_text line) && negb (length (size_text line) =? 0)%nat && (size_value line <? 2 ^ 31) then Some (size_value line) else None.

Definition end_line (p : phase) (line : list Z) : option spec :=
  match p with
  | InSize => n ← size_of line; Some (start (if n =? 0 then InTrailer else InData n))
  | InTerminator => if (length line =? 0)%nat then Some (start InSize) else None
  | InTrailer => Some (start (if (length line =? 0)%nat then AfterEnd 0 else InTrailer))
  | p => Some (start p)
  end.

(** The line with the CR that turned out to be text. *)
Definition text_so_far (s : spec) : list Z := if cr s then line s ++ [13] else line s.

(** The next state and the byte decoded; [None] is an error. *)
Definition step (s : spec) (c : Z) : option (spec * list Z) :=
  match phase_of s with
  | InData n => Some (start (if n - 1 =? 0 then InTerminator else InData (n - 1)), [c])
  | AfterEnd n => Some (start (AfterEnd (n + 1)), [])
  | p =>
      if c =? 10 then s ← end_line p (line s); Some (s, [])
      else if c =? 13 then Some (mkSpec p (text_so_far s) true, [])
      else Some (mkSpec p (text_so_far s ++ [c]) false, [])
  end.

Fixpoint run (s : spec) (l : list Z) : option (spec * list Z) :=
  match l with
  | [] => Some (s, [])
  | c :: l => '(s, out) ← step s c; '(s, out') ← run s l; Some (s, out ++ out')
  end.

(** ** The responses decoded by the grammar

    Two things set the decoder apart from it: a CR at the end of a segment is forgotten,
    and sizes of 2^32 and more may wrap. *)

(** No line that ends in [l] has a size of 2^32 or more. *)
Fixpoint sizes_short (s : spec) (l : list Z) : bool :=
  match l with
  | [] => true
  | c :: l =>
      match phase_of s with InSize => negb (c =? 10) || negb (all_digits 16 (size_text (line s))) || (size_value (line s) <? 2 ^ 32) | _ => true end &&
      match step s c with Some (s, _) => sizes_short s l | None => true end
  end.

(** After a CR pending in a line the next byte is LF. *)
Definition joins (s : spec) (l : list Z) : bool := negb (cr s) || match l with c :: _ => c =? 10 | [] => true end.

(** No segment ends between a CR and another byte of its line, and sizes are short. *)
Fixpoint regular (s : spec) (segments : list (list Z)) : bool :=
  match segments with
  | [] => true
  | l :: segments => joins s l && sizes_short s l && match run s l with Some (s, _) => regular s segments | None => true end
  end.

(** The decoder that stands for a state of the grammar: a CR at the end of what was
    read so far is forgotten. *)
Definition concrete (s : spec) : t :=
  mkDecoder (match phase_of s with InData n => n | _ => 0 end) (line s)
    (match phase_of s with InTerminator => true | _ => false end)
    (match phase_of s with InTrailer | AfterEnd _ => true | _ => false end)
    (match phase_of s with AfterEnd _ => true | _ => false end)
    (match phase_of s with AfterEnd n => i32 n | _ => 0 end).

(** ** Text *)

Lemma find_Some c l i :
  find c l = Some i -> take (S i) l = take i l ++ [c] /\ Forall (fun x => x <> c) (take i l) /\ (i < length l)%nat.
Proof.
  revert i. induction l as [|x l IH]; intros i; [done|]. cbn [find].
  destruct (x =? c) eqn:E; zb2p.
  - intros [= <-]. subst. cbn. repeat split; [constructor|lia].
  - destruct (find c l) as [j|]; [|done]. intros [= <-]. destruct (IH j eq_refl) as (E1 & E2 & E3).
    cbn [take app length]. repeat split; [|by constructor|lia].
    change (take (S (S j)) (x :: l)) with (x :: take (S j) l). by rewrite E1.
Qed.

Lemma find_None c l : find c l = None -> Forall (fun x => x <> c) l.
Proof.
  induction l as [|x l IH]; [constructor|]. cbn. destruct (x =? c) eqn:E; zb2p; [done|].
  destruct (find c l); [done|]. constructor; auto.
Qed.

Lemma drop_last_cons c x l : x <> c \/ l <> [] -> drop_last c (x :: l) = x :: drop_last c l.
Proof.
  unfold drop_last. destruct l as [|y l]; cbn [last removelast].
  - intros [H|]; [|done]. by rewrite (proj2 (Z.eqb_neq _ _) H).
  - intros _. destruct (last (y :: l)) as [z|] eqn:E; [|done]. by destruct (z =? c).
Qed.

Lemma length_drop_last c l : (length (drop_last c l) <= length l)%nat.
Proof.
  induction l as [|x l IH]; [done|]. destruct l as [|y l].
  - unfold drop_last. cbn. destruct (x =? c); cbn; lia.
  - rewrite drop_last_cons by (by right). cbn in *. lia.
Qed.

Lemma zlen_app {A} (l k : list A) : zlen (l ++ k) = zlen l + zlen k.
Proof. unfold zlen. rewrite length_app. lia. Qed.

Lemma zlen_nonneg {A} (l : list A) : 0 <= zlen l.
Proof. unfold zlen. lia. Qed.

Lemma zlen_take {A} n (l : list A) : 0 <= n <= zlen l -> zlen (take (Z.to_nat n) l) = n.
Proof. unfold zlen. intros H. rewrite length_take. lia. Qed.

(** The character set of [ParseChunkSize] is the set of digits of base 16. *)
Lemma hex_character c : existsb (Z.eqb c) hex_characters = bool_decide (is_Some (CharToDigit 16 c)).
Proof.
  assert (Hd : forall b : bool, (if b then is_Some (CharToDigit 16 c) else CharToDigit 16 c = None) ->
                bool_decide (is_Some (CharToDigit 16 c)) = b).
  { intros [] H; [by rewrite bool_decide_eq_true_2|rewrite bool_decide_eq_false_2; [done|]].
    rewrite H. by intros []. }
  symmetry. apply Hd. unfold hex_characters. cbn [existsb]. unfold CharToDigit.
  destruct (existsb (Z.eqb c) hex_characters) eqn:E; unfold hex_characters in E; cbn [existsb] in E; rewrite E;
    cbn [Z.leb Z.ltb Z.add Z.sub].
  - rewrite !orb_true_iff, !Z.eqb_eq in E.
    repeat destruct E as [->|E]; first [discriminate | cbn; eexists; reflexivity].
  - rewrite !orb_false_iff, !Z.eqb_neq in E. repeat case_if; zb2p; try done; lia.
Qed.

Lemma other_character_digits l : other_character l = negb (all_digits 16 l).
Proof.
  induction l as [|c l IH]; [done|]. cbn [other_character existsb all_digits forallb].
  rewrite hex_character, negb_andb. f_equal. exact IH.
Qed.

(** ** Lines *)

Definition in_line (p : phase) : Prop :=
  match p with InSize | InTerminator | InTrailer => True | _ => False end.

Lemma step_line p ln b c : in_line p -> c <> 10 ->
  step (mkSpec p ln b) c =
    Some (if c =? 13 then mkSpec p (text_so_far (mkSpec p ln b)) true else mkSpec p (text_so_far (mkSpec p ln b) ++ [c]) false, []).
Proof.
  intros Hp Hc. unfold step. cbn [phase_of line]. destruct p; try done; rewrite (proj2 (Z.eqb_neq _ _) Hc); by destruct (c =? 13).
Qed.

Fixpoint ends_cr (b : bool) (l : list Z) : bool := match l with c :: l => ends_cr (c =? 13) l | [] => b end.

Lemma run_line p ln b l :
  in_line p -> Forall (fun x => x <> 10) l ->
  run (mkSpec p ln b) l = Some (mkSpec p ((if (length l =? 0)%nat then ln else text_so_far (mkSpec p ln b)) ++ drop_last 13 l) (ends_cr b l), []).
Proof.
  intros Hp Hl. revert ln b. induction Hl as [|c l Hc Hl IH]; intros ln b.
  - cbn. by rewrite app_nil_r.
  - cbn [run ends_cr]. rewrite step_line by done. cbn [mbind option_bind]. set (tx := text_so_far (mkSpec p ln b)).
    change ((length (c :: l) =? 0)%nat) with false. cbv iota. destruct (c =? 13) eqn:E; zb2p; rewrite IH; cbn [mbind option_bind app]; do 3 f_equal.
    + subst c. destruct l as [|c' l]; [done|]. change ((length (c' :: l) =? 0)%nat) with false. cbv iota.
      rewrite (drop_last_cons 13 13) by (by right). change (text_so_far (mkSpec p tx true)) with (tx ++ [13]). by rewrite <- app_assoc.
    + rewrite (drop_last_cons 13 c) by (by left). change (text_so_far (mkSpec p (tx ++ [c]) false)) with (tx ++ [c]).
      case_if; by rewrite <- app_assoc.
Qed.

Lemma run_app s l k : run s (l ++ k) = '(s, out) ← run s l; '(s, out') ← run s k; Some (s, out ++ out').
Proof.
  revert s. induction l as [|c l IH]; intros s; cbn [app run].
  - cbn. by destruct (run s k) as [[]|].
  - destruct (step s c) as [[s' out]|]; [|done]. cbn. rewrite IH. destruct (run s' l) as [[s'' out']|]; [|done]. cbn.
    destruct (run s'' k) as [[s3 out3]|]; [|done]. cbn. by rewrite app_assoc.
Qed.

Lemma sizes_short_app s l k :
  sizes_short s (l ++ k) = sizes_short s l && match run s l with Some (s, _) => sizes_short s k | None => true end.
Proof.
  revert s. induction l as [|c l IH]; intros s; cbn [app run sizes_short]; [done|]. rewrite <- andb_assoc. f_equal.
  destruct (step s c) as [[s' out]|]; [|done]. cbn. rewrite IH. by destruct (run s' l) as [[]|].
Qed.

(** The size on a line is what the decoder parses, when it is short. *)
Lemma ParseChunkSize_spec ln :
  negb (all_digits 16 (size_text ln)) || (size_value ln <? 2 ^ 32) = true ->
  ParseChunkSize (before 59 ln) = size_of ln /\ forall n, size_of ln = Some n -> 0 <= n < 2 ^ 31.
Proof.
  unfold size_of, ParseChunkSize, size_value. fold (size_text ln). set (text := size_text ln). intros Hshort.
  pose proof (value_mono 16 0 _ ltac:(lia) ltac:(lia) (digit_prefix_range 16 text ltac:(lia))) as Hv.
  rewrite other_character_digits. destruct (all_digits 16 text) eqn:Ha; cbn [negb andb orb] in *; [|done].
  destruct text as [|c text]; [done|]. set (l := c :: text) in *. cbn [length Nat.eqb negb andb].
  set (v := value 16 0 (digit_prefix 16 l)) in *. zb2p. rewrite hex_exact by (done || (fold v; lia)). fold v.
  destruct (v <? 2 ^ 31) eqn:E1; zb2p.
  - rewrite i32_small, (proj2 (Z.leb_le _ _)) by lia. cbn [andb negb length Nat.eqb l]. split; [done|]. intros n [= E]. lia.
  - by rewrite (proj2 (Z.leb_gt _ _)) by word_lia.
Qed.

(** The end of a line in the decoder: the line is complete, whether it was partly in
    [line_buf_] or not. *)
Definition finish_line (d : t) (ln : list Z) (consumed : Z) : outcome (Z * t) :=
  if reached_last_chunk_ d then
    Ret (consumed, set_line_buf [] (if (length ln =? 0)%nat then set_eof d else d))
  else if chunk_terminator_remaining_ d then
    if negb (length ln =? 0)%nat then Ret (ERR_INVALID_CHUNKED_ENCODING, d)
    else Ret (consumed, set_line_buf [] (set_terminator false d))
  else if negb (length ln =? 0)%nat then
    match ParseChunkSize (before 59 ln) with
    | None => Ret (ERR_INVALID_CHUNKED_ENCODING, d)
    | Some n => Ret (consumed, set_line_buf [] (if n =? 0 then set_last (set_remaining n d) else set_remaining n d))
    end
  else Ret (ERR_INVALID_CHUNKED_ENCODING, d).

Lemma scan_at_lf s buf i :
  in_line (phase_of s) -> find 10 buf = Some i -> zlen (line s) + zlen buf < 2 ^ 31 ->
  exists d, ScanForChunkRemaining (concrete s) buf =
      finish_line d (line s ++ drop_last 13 (take i buf)) (Z.of_nat (S i)) /\
    set_line_buf [] d = set_line_buf [] (concrete s).
Proof.
  intros Hp E Hlen. pose proof (find_Some _ _ _ E) as (_ & _ & Hi). unfold ScanForChunkRemaining.
  assert (Hz : chunk_remaining_ (concrete s) = 0) by (destruct s as [[] ? ?]; cbn in *; done).
  rewrite Hz, E, (proj2 (Z.ltb_lt 0 (zlen buf))) by (unfold zlen; lia). cbn [Z.eqb dcheck obind].
  set (text := drop_last 13 (take i buf)).
  assert (Htext : zlen text <= zlen buf).
  { unfold zlen. pose proof (length_drop_last 13 (take i buf)) as H. rewrite length_take in H. fold text in H. lia. }
  rewrite Nat2Z.inj_succ. change (line_buf_ (concrete s)) with (line s).
  destruct (line s) as [|x ln] eqn:El; cbn [length Nat.eqb negb orb dcheck obind app].
  - by exists (concrete s).
  - change (line_buf_ (set_line_buf ?l _)) with l. rewrite (proj2 (Z.ltb_lt _ _)).
    + by exists (set_line_buf ((x :: ln) ++ text) (concrete s)).
    + change (x :: ln ++ text) with ((x :: ln) ++ text). rewrite zlen_app. lia.
Qed.

Lemma finish_line_spec p ln0 b d ln consumed :
  in_line p -> set_line_buf [] d = set_line_buf [] (concrete (mkSpec p ln0 b)) ->
  (p = InSize -> negb (all_digits 16 (size_text ln)) || (size_value ln <? 2 ^ 32) = true) ->
  match end_line p ln with
  | Some s => finish_line d ln consumed = Ret (consumed, concrete s)
  | None => exists d', finish_line d ln consumed = Ret (ERR_INVALID_CHUNKED_ENCODING, d')
  end.
Proof.
  intros Hp Hd Hshort. destruct d as [n l te la eo af]. unfold set_line_buf, concrete in Hd. cbn in Hd.
  injection Hd as -> -> -> -> ->. unfold finish_line.
  destruct p; cbn [end_line reached_last_chunk_ chunk_terminator_remaining_]; try done.
  - destruct ln as [|c ln]; [by eexists|]. destruct (ParseChunkSize_spec (c :: ln)) as [H _]; [auto|].
    cbn [length Nat.eqb negb]. rewrite H. destruct (size_of (c :: ln)) as [n|]; [|by eexists]. by destruct n.
  - destruct ln as [|c ln]; [done|by eexists].
  - by destruct ln.
Qed.

Lemma end_line_fresh p ln s : in_line p -> end_line p ln = Some s -> cr s = false /\ line s = [].
Proof.
  destruct p; try done; cbn [end_line]; intros _.
  - destruct (size_of ln); [|done]. by intros [= <-].
  - case_if; [|done]. by intros [= <-].
  - by intros [= <-].
Qed.

(** One scan follows the grammar through the bytes it consumes. *)
Definition scan_follows (s : spec) (buf : list Z) (k : nat) : Prop :=
  (0 < k <= length buf)%nat /\
  match run s (take k buf) with
  | Some (s', out) => out = [] /\ ScanForChunkRemaining (concrete s) buf = Ret (Z.of_nat k, concrete s') /\ joins s' (drop k buf) = true
  | None => exists d, ScanForChunkRemaining (concrete s) buf = Ret (ERR_INVALID_CHUNKED_ENCODING, d)
  end.

(** The text of a line that a buffer continues. *)
Lemma joins_text p ln b l k : joins (mkSpec p ln b) (l ++ 10 :: k) = true -> Forall (fun x => x <> 10) l ->
  (if (length l =? 0)%nat then ln else text_so_far (mkSpec p ln b)) = ln.
Proof. unfold joins, text_so_far. cbn. destruct b; [|by destruct l]. destruct l as [|c l]; [done|]. cbn. intros H Hl. apply Z.eqb_eq in H. by inversion_clear Hl. Qed.

Lemma scan_refines s buf :
  in_line (phase_of s) -> buf <> [] -> zlen (line s) + zlen buf < 2 ^ 31 -> joins s buf = true -> sizes_short s buf = true ->
  exists k, scan_follows s buf k.
Proof.
  intros Hp Hn Hlen Hj Hz. unfold scan_follows. assert (Hb : (0 < length buf)%nat) by (destruct buf; cbn; [done|lia]).
  destruct (find 10 buf) as [i|] eqn:E.
  - destruct (find_Some _ _ _ E) as (E1 & E2 & E3). exists (S i). split; [lia|].
    destruct (scan_at_lf s buf i Hp E Hlen) as (d & -> & Hd). destruct s as [p ln b]. cbn [phase_of line] in *.
    assert (Ebuf : buf = take i buf ++ 10 :: drop (S i) buf).
    { rewrite <- (take_drop (S i) buf) at 1. rewrite E1. by rewrite <- app_assoc. }
    rewrite Ebuf in Hj. pose proof (joins_text _ _ _ _ _ Hj E2) as Ht.
    rewrite E1, run_app, run_line, Ht by done. cbn [mbind option_bind run]. unfold step. cbn [phase_of line cr Z.eqb Pos.eqb].
    assert (Hshort : p = InSize -> negb (all_digits 16 (size_text (ln ++ drop_last 13 (take i buf)))) || (size_value (ln ++ drop_last 13 (take i buf)) <? 2 ^ 32) = true).
    { intros ->. rewrite Ebuf, sizes_short_app, run_line, Ht in Hz by done. apply andb_true_iff in Hz as [_ Hz].
      cbn [sizes_short phase_of line Z.eqb Pos.eqb negb orb] in Hz. by apply andb_true_iff in Hz as [Hz _]. }
    pose proof (finish_line_spec p ln b d (ln ++ drop_last 13 (take i buf)) (Z.of_nat (S i)) Hp Hd Hshort) as Hf.
    destruct p; try done; destruct (end_line _ _) as [s'|] eqn:He; try done; cbn [mbind option_bind app]; (split; [done|]; split; [done|]);
      unfold joins; by rewrite (proj1 (end_line_fresh _ _ _ Hp He)).
  - exists (length buf). split; [lia|]. rewrite firstn_all, skipn_all. destruct s as [p ln b]. cbn [phase_of line] in *.
    pose proof (find_None _ _ E) as Hno. rewrite run_line by done. split; [done|].
    assert (Hbf : b = false).
    { unfold joins in Hj. cbn [cr] in Hj. destruct b; [|done]. destruct buf as [|c buf]; [done|]. cbn in Hj. apply Z.eqb_eq in Hj. by inversion_clear Hno. }
    subst b. split; [|unfold joins; by rewrite orb_true_r].
    unfold ScanForChunkRemaining. rewrite E, (proj2 (Z.ltb_lt 0 (zlen buf))), (proj2 (Nat.eqb_neq _ _)) by (unfold zlen; lia).
    unfold text_so_far. cbn [cr line]. by destruct p.
Qed.

(** ** The loop *)

(** A chunk's data is passed through; the byte count stays positive in a chunk. *)
Definition well_formed (s : spec) : Prop :=
  match phase_of s with
  | InData n => 0 < n < 2 ^ 31 /\ line s = []
  | AfterEnd _ => line s = []
  | _ => True
  end.

Lemma run_data n ln b l :
  l <> [] -> zlen l <= n ->
  run (mkSpec (InData n) ln b) l = Some (start (if n - zlen l =? 0 then InTerminator else InData (n - zlen l)), l).
Proof.
  revert n ln b. induction l as [|c l IH]; intros n ln b Hn Hl; [done|]. cbn [run step phase_of mbind option_bind].
  assert (Hz : zlen (c :: l) = zlen l + 1) by (unfold zlen; cbn [length]; lia). rewrite Hz in Hl |- *.
  destruct l as [|c' l].
  - cbn [run]. unfold zlen. cbn. by rewrite app_nil_r || done.
  - rewrite (proj2 (Z.eqb_neq _ _)) by (unfold zlen in *; cbn [length] in *; lia). unfold start at 1.
    rewrite IH by (done || lia). cbn [app mbind option_bind]. replace (n - 1 - zlen (c' :: l)) with (n - (zlen (c' :: l) + 1)) by lia. done.
Qed.

Lemma run_after_end n ln b l :
  run (mkSpec (AfterEnd n) ln b) l = Some (if (length l =? 0)%nat then mkSpec (AfterEnd n) ln b else start (AfterEnd (n + zlen l)), []).
Proof.
  revert n ln b. induction l as [|c l IH]; intros n ln b; [done|]. cbn [run step phase_of mbind option_bind]. unfold start at 1. rewrite IH.
  cbn [length Nat.eqb app mbind option_bind]. f_equal. f_equal. unfold zlen. cbn [length].
  destruct l as [|c' l]; cbn [length Nat.eqb]; unfold start; do 2 f_equal; lia.
Qed.

Lemma end_line_wf p ln s : in_line p -> end_line p ln = Some s -> well_formed s /\ line s = [].
Proof.
  intros Hp He. split; [|by apply (end_line_fresh p ln)]. destruct p; try done; cbn [end_line] in He.
  - destruct (size_of ln) as [n|] eqn:E; [|done]. injection He as <-. unfold size_of in E. case_match eqn:Ec; [|done]. injection E as <-.
    apply andb_true_iff in Ec as [_ Hlt]. zb2p. unfold well_formed, start, size_value in *. cbn.
    pose proof (value_mono 16 0 _ ltac:(lia) ltac:(lia) (digit_prefix_range 16 (size_text ln) ltac:(lia))).
    destruct (_ =? 0) eqn:E0; zb2p; cbn; [done|]. split; [lia|done].
  - destruct (_ =? _)%nat; [|done]. by injection He as <-.
  - injection He as <-. by destruct (_ =? _)%nat.
Qed.

Lemma byte_step_wf s c s' out :
  well_formed s -> step s c = Some (s', out) ->
  well_formed s' /\ zlen (text_so_far s') <= zlen (text_so_far s) + 1 /\ zlen out <= 1.
Proof.
  intros Hw H. pose proof (zlen_nonneg (text_so_far s)) as Hz. destruct s as [p ln b].
  assert (Hcase : in_line p \/ (exists n, p = InData n) \/ exists n, p = AfterEnd n) by (destruct p; cbn; eauto).
  destruct Hcase as [Hp|[[n ->]|[n ->]]].
  - destruct (Z.eq_dec c 10) as [->|Hc].
    + unfold step in H. cbn [phase_of line cr Z.eqb] in *.
      assert (He : exists s1, end_line p ln = Some s1 /\ s' = s1 /\ out = []).
      { destruct p; try done; cbn [Pos.eqb] in H; destruct (end_line _ ln) as [s1|]; try done; injection H as <- <-; by exists s1. }
      destruct He as (s1 & He & -> & ->). destruct (end_line_wf _ _ _ Hp He) as [Hw' Hln]. destruct (end_line_fresh _ _ _ Hp He) as [Hcr _].
      split; [done|]. unfold text_so_far at 1. rewrite Hcr, Hln. unfold zlen in *. cbn. lia.
    + rewrite step_line in H by done. set (tx := text_so_far (mkSpec p ln b)) in *. destruct (c =? 13); injection H as <- <-; unfold text_so_far; cbn [line cr].
      * rewrite zlen_app. unfold zlen in *. cbn [length]. split; [by destruct p|lia].
      * rewrite zlen_app. unfold zlen in *. cbn [length]. split; [by destruct p|lia].
  - unfold step in H. cbn in *. destruct Hw as [Hn ->]. injection H as <- <-. unfold text_so_far, zlen in *. cbn. repeat split; [|lia|lia].
    unfold well_formed, start. destruct (n - 1 =? 0) eqn:E; zb2p; cbn; [done|]. split; [lia|done].
  - unfold step in H. cbn in *. injection H as <- <-. unfold text_so_far, zlen in *. cbn. repeat split; lia.
Qed.

Lemma run_wf l s s' out :
  well_formed s -> run s l = Some (s', out) ->
  well_formed s' /\ zlen (text_so_far s') <= zlen (text_so_far s) + zlen l /\ zlen out <= zlen l.
Proof.
  revert s out. induction l as [|c l IH]; intros s out Hw H; cbn [run] in H.
  - injection H as <- <-. unfold zlen. cbn. repeat split; [done|lia|lia].
  - destruct (step s c) as [[s1 o1]|] eqn:E1; [|done]. cbn in H. destruct (run s1 l) as [[s2 o2]|] eqn:E2; [|done].
    injection H as <- <-. destruct (byte_step_wf _ _ _ _ Hw E1) as (Hw1 & Hl1 & Ho1).
    destruct (IH _ _ Hw1 E2) as (Hw2 & Hl2 & Ho2). rewrite zlen_app. unfold zlen in *. cbn [length].
    repeat split; [done|lia|lia].
Qed.

Lemma zlen_line s : zlen (line s) <= zlen (text_so_far s).
Proof. unfold text_so_far, zlen. destruct (cr s); rewrite ?length_app; lia. Qed.

(** What is left of the buffer from [buf] on. *)
Definition window (mem : list Z) (buf len : Z) : list Z := take (Z.to_nat len) (drop (Z.to_nat buf) mem).

Lemma zlen_window mem buf len : 0 <= buf -> 0 <= len -> buf + len <= zlen mem -> zlen (window mem buf len) = len.
Proof. unfold zlen, window. intros. rewrite length_take, length_drop. lia. Qed.

Lemma window_split mem buf len k : 0 <= buf -> 0 <= k <= len ->
  take (Z.to_nat k) (window mem buf len) = window mem buf k /\
  drop (Z.to_nat k) (window mem buf len) = window mem (buf + k) (len - k).
Proof.
  intros Hb Hk. unfold window. split.
  - rewrite take_take. f_equal. lia.
  - rewrite skipn_firstn_comm, drop_drop. f_equal; [lia|]. f_equal. lia.
Qed.

Lemma window_take mem buf len : 0 <= buf -> 0 <= len ->
  take (Z.to_nat (buf + len)) mem = take (Z.to_nat buf) mem ++ window mem buf len.
Proof. intros Hb Hl. unfold window. rewrite Z2Nat.inj_add by lia. by rewrite <- take_take_drop. Qed.

(** After the move the rest of the buffer is at the front of the window. *)
Lemma memmove_window mem buf k len :
  0 <= buf -> 0 <= k -> 0 <= len -> buf + k + len <= zlen mem ->
  let mem' := memmove buf (buf + k) len mem in
  take (Z.to_nat buf) mem' = take (Z.to_nat buf) mem /\ window mem' buf len = window mem (buf + k) len /\
  length mem' = length mem.
Proof.
  intros Hb Hk Hl Hm. unfold memmove, window, zlen in *. cbn zeta.
  assert (E1 : length (take (Z.to_nat buf) mem) = Z.to_nat buf) by (rewrite length_take; lia).
  assert (E2 : length (take (Z.to_nat len) (drop (Z.to_nat (buf + k)) mem)) = Z.to_nat len)
    by (rewrite length_take, length_drop; lia).
  repeat split.
  - rewrite take_app_le by lia. rewrite take_take. f_equal. lia.
  - rewrite drop_app_ge, E1, Nat.sub_diag, drop_0 by lia. rewrite take_app_le, take_take by lia. f_equal. lia.
  - rewrite !length_app, E1, E2, length_drop. lia.
Qed.

(** The decoder at the end of a window, against the grammar. *)
Definition loop_follows (fuel : nat) (s : spec) (mem : list Z) (buf len : Z) : Prop :=
  joins s (window mem buf len) = true -> sizes_short s (window mem buf len) = true ->
  match run s (window mem buf len) with
  | Some (s', out) => exists mem',
      filter_loop fuel (concrete s) mem buf len buf = Ret (buf + zlen out, mem', concrete s') /\
      take (Z.to_nat (buf + zlen out)) mem' = take (Z.to_nat buf) mem ++ out /\ length mem' = length mem
  | None => exists mem' d, filter_loop fuel (concrete s) mem buf len buf = Ret (ERR_INVALID_CHUNKED_ENCODING, mem', d)
  end.

Lemma loop_data fuel n ln b mem buf len :
  well_formed (mkSpec (InData n) ln b) -> 0 <= buf -> 0 < len -> buf + len <= zlen mem ->
  (forall s, well_formed s -> text_so_far s = [] -> loop_follows fuel s mem (buf + Z.min n len) (len - Z.min n len)) ->
  loop_follows (S fuel) (mkSpec (InData n) ln b) mem buf len.
Proof.
  intros [Hn Hln] Hb Hlen Hm IH _ Hz. cbn [line] in Hln. subst ln. cbn [filter_loop].
  rewrite (proj2 (Z.eqb_neq len 0)) by lia. cbn [concrete chunk_remaining_ phase_of].
  rewrite (proj2 (Z.eqb_neq n 0)) by lia. cbn [negb]. set (num := Z.min n len) in *.
  destruct (window_split mem buf len num Hb ltac:(lia)) as [W1 W2].
  pose proof (zlen_window mem buf num Hb ltac:(lia) ltac:(lia)) as Wl.
  rewrite <- (take_drop (Z.to_nat num) (window mem buf len)) in Hz |- *. rewrite sizes_short_app in Hz. rewrite run_app.
  rewrite W1, W2 in *.
  assert (Hne : window mem buf num <> []) by (intros E; rewrite E in Wl; unfold zlen in Wl; cbn in Wl; lia).
  pose proof (run_data n [] b (window mem buf num) Hne ltac:(lia)) as Hrun. rewrite Wl in Hrun.
  rewrite Hrun in *.
  cbn [mbind option_bind]. apply andb_true_iff in Hz as [_ Hz].
  set (p := if n - num =? 0 then InTerminator else InData (n - num)) in *.
  match goal with |- context [filter_loop fuel ?d] => replace d with (concrete (start p)) end.
  2:{ unfold p. cbn [chunk_remaining_ set_remaining]. destruct (n - num =? 0) eqn:E; zb2p; [by rewrite E|done]. }
  assert (Hwf : well_formed (start p)).
  { unfold p, well_formed, start. destruct (n - num =? 0) eqn:E; zb2p; cbn; [done|]. split; [lia|done]. }
  specialize (IH (start p) Hwf eq_refl eq_refl Hz).
  destruct (run (start p) _) as [[s' out]|]; [|destruct IH as (mem' & d & ->); cbn; eauto].
  destruct IH as (mem' & -> & Ht & Hml). cbn. exists mem'. rewrite zlen_app, Wl, !Z.add_assoc. split; [done|]. split; [|done].
  rewrite Ht, window_take, <- app_assoc by lia. done.
Qed.

Lemma loop_line fuel s mem buf len :
  in_line (phase_of s) -> well_formed s -> 0 <= buf -> 0 < len -> buf + len <= zlen mem ->
  zlen (text_so_far s) + len < 2 ^ 31 ->
  (forall s' mem' len', well_formed s' -> length mem' = length mem -> 0 <= len' < len ->
     zlen (text_so_far s') + len' < 2 ^ 31 -> loop_follows fuel s' mem' buf len') ->
  loop_follows (S fuel) s mem buf len.
Proof.
  intros Hp Hw Hb Hlen Hm Hline IH Hj Hz. cbn [filter_loop].
  rewrite (proj2 (Z.eqb_neq len 0)) by lia.
  assert (Hz0 : chunk_remaining_ (concrete s) = 0 /\ reached_eof_ (concrete s) = false) by (by destruct s as [[] ? ?]).
  destruct Hz0 as [-> ->]. cbn [Z.eqb negb]. change (take (Z.to_nat len) (drop (Z.to_nat buf) mem)) with (window mem buf len).
  pose proof (zlen_window mem buf len Hb ltac:(lia) Hm) as Wl. pose proof (zlen_line s).
  destruct (scan_refines s (window mem buf len) Hp) as (k & Hk & Hscan);
    [intros E; rewrite E in Wl; unfold zlen in Wl; cbn in Wl; lia|lia|done|done|].
  assert (Hk' : 0 < Z.of_nat k <= len) by (unfold zlen in Wl; lia).
  destruct (window_split mem buf len (Z.of_nat k) Hb ltac:(lia)) as [W1 W2]. rewrite Nat2Z.id in W1, W2.
  rewrite <- (take_drop k (window mem buf len)), sizes_short_app in Hz. apply andb_true_iff in Hz as [_ Hz].
  rewrite <- (take_drop k (window mem buf len)), run_app, (take_drop k (window mem buf len)).
  destruct (run s (take k (window mem buf len))) as [[s1 o1]|] eqn:Er; [|destruct Hscan as [d ->]; cbn; eauto].
  destruct Hscan as (-> & -> & Hj1). cbn [obind mbind option_bind]. rewrite (proj2 (Z.ltb_ge _ _)) by lia. rewrite W2 in *.
  destruct (run_wf _ _ _ _ Hw Er) as (Hw1 & Hl1 & _).
  rewrite W1, zlen_window in Hl1 by lia.
  set (mem1 := if negb (len - Z.of_nat k =? 0) then memmove buf (buf + Z.of_nat k) (len - Z.of_nat k) mem else mem).
  assert (Hmem1 : take (Z.to_nat buf) mem1 = take (Z.to_nat buf) mem /\
    window mem1 buf (len - Z.of_nat k) = window mem (buf + Z.of_nat k) (len - Z.of_nat k) /\ length mem1 = length mem).
  { unfold mem1. destruct (len - Z.of_nat k =? 0) eqn:E; zb2p; cbn [negb].
    - rewrite E. by unfold window.
    - apply memmove_window; lia. }
  destruct Hmem1 as (M1 & M2 & M3).
  pose proof (IH s1 mem1 (len - Z.of_nat k) Hw1 M3 ltac:(lia) ltac:(lia)) as Hf. unfold loop_follows in Hf. rewrite M2 in Hf.
  specialize (Hf Hj1 Hz). destruct (run s1 _) as [[s2 o2]|]; [|exact Hf].
  destruct Hf as (mem2 & -> & Ht & Hl2). exists mem2. cbn [app]. rewrite Ht, M1, Hl2. done.
Qed.

Lemma loop_refines fuel s mem buf len :
  well_formed s -> 0 <= buf -> 0 <= len -> buf + len <= zlen mem -> (Z.to_nat len <= fuel)%nat ->
  zlen (text_so_far s) + len < 2 ^ 31 -> loop_follows fuel s mem buf len.
Proof.
  revert s mem buf len. induction fuel as [|fuel IH]; intros s mem buf len Hw Hb Hl Hm Hf Hline.
  all: destruct (Z.eq_dec len 0) as [->|Hne];
    [intros _ _; unfold window; cbn; exists mem; rewrite Z.add_0_r, app_nil_r; done|].
  - lia.
  - destruct s as [p ln b].
    assert (Hcase : in_line p \/ (exists n, p = InData n) \/ exists n, p = AfterEnd n) by (destruct p; cbn; eauto).
    destruct Hcase as [Hp|[[n ->]|[n ->]]].
    + apply loop_line; [done|done|done|lia|done|done|]. intros s' mem' len' Hw' Hm' Hl' Hli'.
      apply IH; unfold zlen in *; try done; try lia.
    + pose proof Hw as [Hn Hln]. apply loop_data; [done|done|lia|done|]. intros s' Hw' Hln'.
      pose proof (zlen_nonneg (text_so_far (mkSpec (InData n) ln b))). apply IH; try done; try lia. rewrite Hln'. change (zlen (@nil Z)) with 0. lia.
    + cbn in Hw. subst ln. intros _ _. rewrite run_after_end. cbn [filter_loop concrete chunk_remaining_ phase_of reached_eof_].
      rewrite (proj2 (Z.eqb_neq len 0)) by lia. cbn [Z.eqb negb].
      pose proof (zlen_window mem buf len Hb Hl Hm) as Wl.
      rewrite (proj2 (Nat.eqb_neq _ _)) by (unfold zlen in Wl; lia). exists mem. rewrite Wl.
      unfold zlen. cbn [length]. rewrite Z.add_0_r, app_nil_r. split; [|done].
      assert (Ei : i32 (i32 n + len) = i32 (n + len)) by word_lia.
      unfold add_after_eof, concrete, start. cbn [phase_of line chunk_remaining_ line_buf_ chunk_terminator_remaining_ reached_last_chunk_ reached_eof_ bytes_after_eof_].
      by rewrite Ei.
Qed.

Lemma FilterBuf_refines s buf :
  well_formed s -> zlen (text_so_far s) + zlen buf < 2 ^ 31 -> joins s buf = true -> sizes_short s buf = true ->
  match run s buf with
  | Some (s', out) => exists mem, FilterBuf (concrete s) buf = Ret (zlen out, mem, concrete s') /\
      take (Z.to_nat (zlen out)) mem = out
  | None => exists mem d, FilterBuf (concrete s) buf = Ret (ERR_INVALID_CHUNKED_ENCODING, mem, d)
  end.
Proof.
  intros Hw Hl Hj Hz. pose proof (loop_refines (length buf) s buf 0 (zlen buf) Hw) as H. unfold loop_follows in H.
  replace (window buf 0 (zlen buf)) with buf in H.
  2:{ unfold window, zlen. by rewrite Nat2Z.id, drop_0, firstn_all. }
  pose proof (zlen_nonneg buf). unfold FilterBuf.
  specialize (H ltac:(lia) ltac:(lia) ltac:(lia) ltac:(unfold zlen; lia) Hl Hj Hz).
  destruct (run s buf) as [[s' out]|]; [|done]. destruct H as (mem & E & Ht & _). by exists mem.
Qed.

Lemma filter_all_refines s segments :
  well_formed s -> zlen (text_so_far s) + zlen (mjoin segments) < 2 ^ 31 -> regular s segments = true ->
  match run s (mjoin segments) with
  | Some (s', out) => filter_all (concrete s) segments = Ret (Some (out, concrete s'))
  | None => filter_all (concrete s) segments = Ret None
  end.
Proof.
  revert s. induction segments as [|buf segments IH]; intros s Hw Hl Hr; [done|].
  change (mjoin (buf :: segments)) with (buf ++ mjoin segments) in *. rewrite zlen_app in Hl.
  cbn [regular] in Hr. apply andb_true_iff in Hr as [[Hj Hz]%andb_true_iff Hr].
  pose proof (zlen_nonneg (mjoin segments)). pose proof (FilterBuf_refines s buf Hw ltac:(lia) Hj Hz) as H1.
  rewrite run_app. cbn [filter_all]. destruct (run s buf) as [[s1 o1]|] eqn:E1; [|by destruct H1 as (? & ? & ->)].
  destruct H1 as (mem & -> & Ht). cbn [obind mbind option_bind]. rewrite (proj2 (Z.ltb_ge _ _)), Ht by apply zlen_nonneg.
  destruct (run_wf _ _ _ _ Hw E1) as (Hw1 & Hl1 & _). specialize (IH s1 Hw1 ltac:(lia) Hr).
  destruct (run s1 (mjoin segments)) as [[s2 o2]|]; by rewrite IH.
Qed.

(** C5: A response of less than 2^31 bytes in which no segment ends between a CR and another
    byte of its line, and no size is 2^32 or more, is decoded as the grammar says, byte by
    byte, however else it is split into segments: the same data, and a state that stands
    for the grammar's; or the error for the encoding when the grammar calls it invalid.
    Without the two conditions it is not (bare_cr_depends_on_segments, chunk_size_wraps). *)
Theorem decoder_refines_grammar segments :
  zlen (mjoin segments) < 2 ^ 31 -> regular (start InSize) segments = true ->
  filter_all init segments = Ret (option_map (fun '(s, data) => (data, concrete s)) (run (start InSize) (mjoin segments))).
Proof.
  intros Hl Hr. pose proof (filter_all_refines (start InSize) segments I Hl Hr) as H. change (concrete (start InSize)) with init in H.
  by destruct (run _ _) as [[]|].
Qed.

(** ** Encoding and decoding *)

Definition crlf : list Z := [13; 10].

(** A chunk: its line and its data. *)
Definition encode_chunk (chunk : list Z * list Z) : list Z := chunk.1 ++ crlf ++ chunk.2 ++ crlf.

Definition encode (chunks : list (list Z * list Z)) (last : list Z) (trailers : list (list Z)) : list Z :=
  mjoin (map encode_chunk chunks) ++ last ++ crlf ++ mjoin (map (fun l => l ++ crlf) trailers) ++ crlf.

Definition plain (l : list Z) : Prop := Forall (fun c => c <> 10 /\ c <> 13) l.

(** A line for a chunk of this size. *)
Definition size_line (l : list Z) (n : Z) : Prop := plain l /\ size_of l = Some n.

Lemma run_plain p ln l : in_line p -> plain l -> run (mkSpec p ln false) l = Some (mkSpec p (ln ++ l) false, []).
Proof.
  intros Hp Hl. revert ln. induction Hl as [|c l [H10 H13] Hl IH]; intros ln; cbn [run]; [by rewrite app_nil_r|].
  rewrite step_line, (proj2 (Z.eqb_neq _ _) H13) by done. cbn [mbind option_bind].
  change (text_so_far (mkSpec p ln false)) with ln. rewrite IH, <- app_assoc. done.
Qed.

Lemma run_full_line p l k : in_line p -> plain l -> run (start p) (l ++ crlf ++ k) = s ← end_line p l; run s k.
Proof.
  intros Hp Hl. rewrite run_app. unfold start at 1. rewrite run_plain by done. cbn [app crlf run mbind option_bind].
  rewrite step_line by done. cbn [Z.eqb Pos.eqb mbind option_bind]. change (text_so_far (mkSpec p l false)) with l. unfold step at 1. cbn [phase_of line cr Z.eqb Pos.eqb].
  destruct p; try done; destruct (end_line _ l); try done; cbn; by destruct (run _ k) as [[]|].
Qed.

(** ** Responses that are regular however they are split *)

(** Every CR in a line of [l] is followed by LF, or ends it. *)
Fixpoint crlf_only (s : spec) (l : list Z) : bool :=
  match l with
  | [] => true
  | c :: l => joins s (c :: l) && match step s c with Some (s, _) => crlf_only s l | None => true end
  end.

Lemma crlf_only_app s l k :
  crlf_only s (l ++ k) = crlf_only s l && match run s l with Some (s, _) => crlf_only s k | None => true end.
Proof.
  revert s. induction l as [|c l IH]; intros s; [done|]. cbn [app run crlf_only]. change (joins s (c :: l ++ k)) with (joins s (c :: l)).
  rewrite <- andb_assoc. f_equal. destruct (step s c) as [[s' out]|]; [|done]. cbn. rewrite IH. by destruct (run s' l) as [[]|].
Qed.

Lemma crlf_only_regular s segments :
  crlf_only s (mjoin segments) = true -> sizes_short s (mjoin segments) = true -> regular s segments = true.
Proof.
  revert s. induction segments as [|l segments IH]; intros s; [done|]. change (mjoin (l :: segments)) with (l ++ mjoin segments).
  rewrite crlf_only_app, sizes_short_app, !andb_true_iff. intros [Hc Hc'] [Hs Hs']. cbn [regular]. rewrite !andb_true_iff.
  split; [split; [destruct l as [|c l]; [unfold joins; by rewrite orb_true_r|cbn [crlf_only] in Hc; by apply andb_true_iff in Hc as [? _]]|done]|].
  destruct (run s l) as [[s' out]|]; [|done]. by apply IH.
Qed.

(** What the decoder and the grammar agree on: [regular] in one piece. *)
Definition good (s : spec) (l : list Z) : Prop := crlf_only s l = true /\ sizes_short s l = true.

Lemma good_app s l k s' out : run s l = Some (s', out) -> good s l -> good s' k -> good s (l ++ k).
Proof. intros E [H1 H2] [H3 H4]. split; [by rewrite crlf_only_app, E, H1, H3|by rewrite sizes_short_app, E, H2, H4]. Qed.

Lemma good_data n l : 0 < n -> zlen l <= n -> good (start (InData n)) l.
Proof.
  revert n. induction l as [|c l IH]; intros n Hn Hl; [by split|]. change (c :: l) with ([c] ++ l).
  assert (Hz : zlen (c :: l) = zlen l + 1) by (unfold zlen; cbn [length]; lia). pose proof (zlen_nonneg l).
  eapply good_app; [reflexivity|by split|]. destruct (n - 1 =? 0) eqn:E; zb2p; [|apply IH; lia].
  destruct l; [by split|]. unfold zlen in *. cbn [length] in *. lia.
Qed.

Lemma good_after_end n ln l : good (mkSpec (AfterEnd n) ln false) l.
Proof.
  revert n ln. induction l as [|c l IH]; intros n ln; [by split|]. change (c :: l) with ([c] ++ l). eapply good_app; [reflexivity|by split|apply IH].
Qed.

Lemma good_plain p ln l : in_line p -> plain l -> good (mkSpec p ln false) l.
Proof.
  intros Hp Hl. revert ln. induction Hl as [|c l [H10 H13] Hl IH]; intros ln; [by split|]. change (c :: l) with ([c] ++ l).
  eapply good_app; [apply (run_plain p ln [c] Hp); by repeat constructor| |apply IH]. split; cbn [crlf_only sizes_short phase_of];
    rewrite ?step_line by done; rewrite ?(proj2 (Z.eqb_neq _ _) H10), ?(proj2 (Z.eqb_neq _ _) H13); [done|by destruct p].
Qed.

Lemma good_full_line p l k s : in_line p -> plain l -> end_line p l = Some s ->
  (p = InSize -> size_value l < 2 ^ 32) -> good s k -> good (start p) (l ++ crlf ++ k).
Proof.
  intros Hp Hl He Hsz Hk. eapply good_app; [apply run_plain; done|by apply good_plain|]. rewrite app_nil_l.
  eapply (good_app _ crlf k s []); [| |done].
  - cbn [crlf run]. rewrite step_line by done. cbn [Z.eqb Pos.eqb mbind option_bind]. change (text_so_far (mkSpec p l false)) with l.
    unfold step. cbn [phase_of line Z.eqb Pos.eqb]. destruct p; try done; by rewrite He.
  - split; cbn [crlf crlf_only sizes_short]; rewrite step_line by done; cbn [Z.eqb Pos.eqb]; change (text_so_far (mkSpec p l false)) with l;
      cbn [joins cr negb orb andb phase_of line Z.eqb Pos.eqb]; unfold step; cbn [phase_of line Z.eqb Pos.eqb]; destruct p; try done; rewrite He; try done.
    cbn. by rewrite (proj2 (Z.ltb_lt _ _) (Hsz eq_refl)), orb_true_r.
Qed.

Lemma size_of_value l n : size_of l = Some n -> n = size_value l /\ size_value l < 2 ^ 32.
Proof. unfold size_of. destruct (_ && _) eqn:E; [|done]. intros [= <-]. apply andb_true_iff in E as [_ E]. zb2p. lia. Qed.

Lemma run_chunk ln data k :
  size_line ln (zlen data) -> data <> [] -> good (start InSize) k ->
  run (start InSize) (encode_chunk (ln, data) ++ k) = ('(s, out) ← run (start InSize) k; Some (s, data ++ out)) /\
  good (start InSize) (encode_chunk (ln, data) ++ k).
Proof.
  intros [Hp Hs] Hd Hk. unfold encode_chunk. cbn [fst snd]. rewrite <- !app_assoc.
  assert (Hn : 0 < zlen data) by (unfold zlen; destruct data; cbn; [done|lia]).
  assert (He : end_line InSize ln = Some (start (InData (zlen data)))) by (cbn [end_line]; rewrite Hs; cbn; by rewrite (proj2 (Z.eqb_neq _ _)) by lia).
  assert (Hdata : run (start (InData (zlen data))) data = Some (start InTerminator, data)) by (unfold start at 1; by rewrite run_data, Z.sub_diag by (done || lia)).
  split.
  - rewrite run_full_line, He by done. cbn [mbind option_bind]. rewrite run_app, Hdata. cbn [mbind option_bind].
    change (crlf ++ k) with ([] ++ crlf ++ k). by rewrite run_full_line by (done || constructor).
  - eapply good_full_line; [done|done|exact He|intros _; by apply (size_of_value _ _ Hs)|].
    eapply good_app; [exact Hdata|by apply good_data|]. change (crlf ++ k) with ([] ++ crlf ++ k).
    eapply good_full_line; [done|constructor|reflexivity|done|done].
Qed.

Lemma run_trailers trailers extra :
  Forall (fun l => plain l /\ l <> []) trailers ->
  let l := mjoin (map (fun l => l ++ crlf) trailers) ++ crlf ++ extra in
  run (start InTrailer) l = Some (start (AfterEnd (zlen extra)), []) /\ good (start InTrailer) l.
Proof.
  cbn zeta. induction 1 as [|l trailers [Hp Hn] _ [IH IHg]].
  - change (mjoin _ ++ crlf ++ extra) with ([] ++ crlf ++ extra). split.
    + rewrite run_full_line by (done || constructor). cbn [end_line length Nat.eqb mbind option_bind]. unfold start at 1. rewrite run_after_end. by destruct extra.
    + eapply good_full_line; [done|constructor|reflexivity|done|apply good_after_end].
  - change (mjoin (map ?f (l :: trailers))) with ((l ++ crlf) ++ mjoin (map f trailers)). rewrite <- !app_assoc.
    assert (He : end_line InTrailer l = Some (start InTrailer)) by (cbn; by destruct l).
    split; [by rewrite run_full_line, He by done|]. by eapply good_full_line.
Qed.

Lemma run_encode chunks last trailers extra :
  Forall (fun chunk => size_line chunk.1 (zlen chunk.2) /\ chunk.2 <> []) chunks ->
  size_line last 0 -> Forall (fun l => plain l /\ l <> []) trailers ->
  run (start InSize) (encode chunks last trailers ++ extra) = Some (start (AfterEnd (zlen extra)), mjoin (map snd chunks)) /\
  good (start InSize) (encode chunks last trailers ++ extra).
Proof.
  intros Hc [Hp Hs] Ht. unfold encode. induction Hc as [|[ln data] chunks [Hl Hd] _ [IH IHg]].
  - change (mjoin (map encode_chunk [])) with (@nil Z). cbn [app]. rewrite <- !app_assoc.
    assert (He : end_line InSize last = Some (start InTrailer)) by (cbn [end_line]; by rewrite Hs).
    destruct (run_trailers trailers extra Ht) as [H1 H2]. split; [by rewrite run_full_line, He by done|].
    eapply good_full_line; [done|done|exact He|intros _; by apply (size_of_value _ _ Hs)|done].
  - change (mjoin (map encode_chunk ((ln, data) :: chunks))) with (encode_chunk (ln, data) ++ mjoin (map encode_chunk chunks)).
    rewrite <- (app_assoc (encode_chunk _)), <- (app_assoc (encode_chunk _)).
    destruct (run_chunk ln data _ Hl Hd IHg) as [H1 H2]. split; [by rewrite H1, IH|done].
Qed.

(** C22: Whatever chunks a response is sent in, and however it is split into segments
    when it arrives, the decoder returns the data, sees the end, and counts the bytes
    that follow it; chunk extensions, padding and trailers included. *)
Theorem chunked_round_trip chunks last trailers extra segments :
  Forall (fun chunk => size_line chunk.1 (zlen chunk.2) /\ chunk.2 <> []) chunks ->
  size_line last 0 -> Forall (fun l => plain l /\ l <> []) trailers ->
  mjoin segments = encode chunks last trailers ++ extra -> zlen (mjoin segments) < 2 ^ 31 ->
  exists d, filter_all init segments = Ret (Some (mjoin (map snd chunks), d)) /\
    reached_eof_ d = true /\ bytes_after_eof_ d = zlen extra.
Proof.
  intros Hc Hlast Ht Hs Hl. destruct (run_encode chunks last trailers extra Hc Hlast Ht) as [Hrun [Hg1 Hg2]]. rewrite <- Hs in Hrun, Hg1, Hg2.
  pose proof (filter_all_refines (start InSize) segments I Hl (crlf_only_regular _ _ Hg1 Hg2)) as H.
  rewrite Hrun in H. exists (concrete (start (AfterEnd (zlen extra)))).
  split; [exact H|]. split; [done|]. rewrite Hs, zlen_app in Hl. pose proof (zlen_nonneg extra).
  pose proof (zlen_nonneg (encode chunks last trailers)). cbn. apply i32_small. lia.
Qed.

(** ** Arbitrary input *)

(** The decoder is between two reads: no negative count, and room for [n] bytes. *)
Definition steady (d : t) (n : Z) : Prop := 0 <= chunk_remaining_ d /\ zlen (line_buf_ d) + n < 2 ^ 31.

Lemma finish_line_total d ln consumed n :
  0 <= chunk_remaining_ d -> n < 2 ^ 31 ->
  exists r d', finish_line d ln consumed = Ret (r, d') /\
    (r = ERR_INVALID_CHUNKED_ENCODING \/ (r = consumed /\ steady d' n)).
Proof.
  intros Hd Hn. unfold finish_line, ParseChunkSize, steady.
  repeat (case_match; try destruct (HexStringToInt _) as [ok v]); simplify_eq;
    do 2 eexists; (split; [reflexivity|]); try (by left); right;
    (split; [done|split; [|unfold zlen; cbn; lia]]); cbn; zb2p; lia.
Qed.

Lemma scan_total d buf m :
  chunk_remaining_ d = 0 -> buf <> [] -> 0 <= m -> steady d (zlen buf + m) ->
  exists r d', ScanForChunkRemaining d buf = Ret (r, d') /\
    (r = ERR_INVALID_CHUNKED_ENCODING \/ (0 < r <= zlen buf /\ steady d' (zlen buf - r + m))).
Proof.
  intros Hd Hn Hm [_ Hl]. assert (Hb : 0 < zlen buf) by (unfold zlen; destruct buf; cbn; [done|lia]).
  pose proof (zlen_nonneg (line_buf_ d)) as H0.
  unfold ScanForChunkRemaining. rewrite Hd, (proj2 (Z.ltb_lt _ _) Hb). cbn [Z.eqb dcheck obind].
  destruct (find 10 buf) as [i|] eqn:E.
  - destruct (find_Some _ _ _ E) as (_ & _ & Hi). set (text := drop_last 13 (take i buf)).
    assert (Htext : zlen text <= zlen buf).
    { unfold zlen. pose proof (length_drop_last 13 (take i buf)) as H. rewrite length_take in H. fold text in H. lia. }
    set (joined := negb (length (line_buf_ d) =? 0)%nat).
    set (d1 := if joined then _ else d). set (ln := if joined then line_buf_ d1 else text).
    assert (Hln : zlen ln < 2 ^ 31) by (unfold ln, d1; destruct joined; cbn; rewrite ?zlen_app; lia).
    rewrite (proj2 (Z.ltb_lt _ _) Hln), orb_true_r. cbn [dcheck obind].
    destruct (finish_line_total d1 ln (Z.of_nat i + 1) (zlen buf - (Z.of_nat i + 1) + m)) as (r & d' & Hf & Hr);
      [unfold d1; destruct joined; cbn; lia|lia|].
    unfold finish_line, before in Hf. exists r, d'. split; [exact Hf|].
    destruct Hr as [->|[-> Hs]]; [by left|right]. unfold zlen in *. split; [lia|done].
  - do 2 eexists. split; [reflexivity|]. right. split; [lia|]. unfold steady. cbn. rewrite Hd, zlen_app.
    pose proof (length_drop_last 13 buf). unfold zlen in *. lia.
Qed.

Lemma loop_total fuel d mem buf len result m :
  0 <= buf -> 0 <= len -> buf + len <= zlen mem -> (Z.to_nat len <= fuel)%nat -> 0 <= m -> steady d (len + m) ->
  exists r mem' d', filter_loop fuel d mem buf len result = Ret (r, mem', d') /\ length mem' = length mem /\
    (r = ERR_INVALID_CHUNKED_ENCODING \/ (result <= r <= result + len /\ steady d' m)).
Proof.
  revert d mem buf len result. induction fuel as [|fuel IH]; intros d mem buf len result Hb Hl Hm Hf Hm0 Hs.
  all: destruct (Z.eq_dec len 0) as [->|Hne]; [exists result, mem, d; repeat split; right; (split; [lia|done])|].
  { lia. }
  cbn [filter_loop]. rewrite (proj2 (Z.eqb_neq _ _) Hne).
  destruct (chunk_remaining_ d =? 0) eqn:E0; zb2p; cbn [negb].
  - destruct (reached_eof_ d).
    { do 3 eexists. split; [reflexivity|]. split; [done|]. right. destruct Hs. unfold steady. cbn. lia. }
    pose proof (zlen_window mem buf len Hb Hl Hm) as Wl. unfold window in Wl.
    set (w := take (Z.to_nat len) (drop (Z.to_nat buf) mem)) in *.
    destruct (scan_total d w m E0) as (r & d' & -> & Hr);
      [intros E; rewrite E in Wl; unfold zlen in Wl; cbn in Wl; lia|done|by rewrite Wl|]. cbn [obind]. rewrite Wl in Hr.
    destruct Hr as [->|[Hr Hs']]; [exists ERR_INVALID_CHUNKED_ENCODING, mem, d'; split; [done|split; [done|by left]]|].
    rewrite (proj2 (Z.ltb_ge _ _)) by lia.
    set (mem1 := if negb (len - r =? 0) then memmove buf (buf + r) (len - r) mem else mem).
    assert (Hm1 : length mem1 = length mem) by (unfold mem1; case_if; [apply memmove_window; lia|done]).
    destruct (IH d' mem1 buf (len - r) result) as (r' & mem' & d'' & -> & Hm' & Hr');
      [done|lia|unfold zlen in *; lia|lia|done|done|].
    exists r', mem', d''. split; [done|]. split; [lia|]. destruct Hr' as [|[H1 H2]]; [by left|right; split; [lia|done]].
  - set (num := Z.min (chunk_remaining_ d) len). destruct Hs as [Hc Hlb].
    match goal with |- context [filter_loop fuel ?d'] => set (d1 := d') end.
    destruct (IH d1 mem (buf + num) (len - num) (result + num)) as (r' & mem' & d'' & -> & Hm' & Hr');
      [lia|lia|lia|lia|done| |].
    { unfold d1. split; case_if; cbn; lia. }
    exists r', mem', d''. split; [done|]. split; [done|]. destruct Hr' as [|[H1 H2]]; [by left|right; split; [lia|done]].
Qed.

(** What the reads of a response return: for every segment up to an error [FilterBuf]
    returns the error, or the size of decoded data that the segment has room for and a
    decoder with a count and a buffer that fit. *)
Fixpoint returns (d : t) (segments : list (list Z)) : Prop :=
  match segments with
  | [] => True
  | buf :: segments => exists result mem d', FilterBuf d buf = Ret (result, mem, d') /\ length mem = length buf /\
      (result = ERR_INVALID_CHUNKED_ENCODING \/ 0 <= result <= zlen buf /\ steady d' (zlen (mjoin segments)) /\ returns d' segments)
  end.

(** C26: Whatever bytes arrive, in whatever segments of less than 2^31 bytes together, the
    decoder returns for every segment: the loop takes a byte off the buffer in every round,
    no assertion fires, the result is the error for the encoding or the size of data that
    is within the segment's buffer, and the count of a chunk stays positive. *)
Theorem filter_terminates d segments : steady d (zlen (mjoin segments)) -> returns d segments.
Proof.
  revert d. induction segments as [|buf segments IH]; intros d Hs; [done|].
  change (mjoin (buf :: segments)) with (buf ++ mjoin segments) in *. rewrite zlen_app in *. cbn [returns]. unfold FilterBuf.
  pose proof (zlen_nonneg (mjoin segments)).
  destruct (loop_total (length buf) d buf 0 (zlen buf) 0 (zlen (mjoin segments)))
    as (r & mem & d1 & -> & Hm & Hr); [lia|apply zlen_nonneg|lia|unfold zlen; lia|done|done|].
  exists r, mem, d1. split; [done|]. split; [done|]. destruct Hr as [->|[Hr Hs1]]; [by left|right].
  split; [lia|]. split; [done|]. by apply IH.
Qed.

(** ** Where the segments matter, and sizes that wrap *)

Lemma hex_digit_plain l : all_digits 16 l = true -> plain l /\ find 59 l = None /\ strip_trailing 32 l = l.
Proof.
  induction l as [|c l IH]; [intros _; repeat split; constructor|]. cbn [all_digits forallb]. intros [Hc Hl]%andb_prop.
  destruct (IH Hl) as (H1 & H2 & H3). rewrite <- hex_character in Hc.
  assert (Hr : c <> 10 /\ c <> 13 /\ c <> 59 /\ c <> 32).
  { unfold hex_characters in Hc. cbn [existsb] in Hc. rewrite !orb_true_iff, !Z.eqb_eq in Hc. lia. }
  destruct Hr as (? & ? & ? & ?). split; [by constructor|]. cbn [find strip_trailing].
  rewrite (proj2 (Z.eqb_neq _ _)), H2, H3 by done. split; [done|].
  destruct l; [|done]. by rewrite (proj2 (Z.eqb_neq _ _)).
Qed.

Lemma size_of_digits l :
  l <> [] -> all_digits 16 l = true -> value 16 0 (digit_prefix 16 l) < 2 ^ 31 ->
  size_line l (value 16 0 (digit_prefix 16 l)).
Proof.
  intros Hn Ha Hv. destruct (hex_digit_plain l Ha) as (Hp & Hf & Hs). split; [done|].
  unfold size_of, size_value, size_text, before. rewrite Hf, Hs, Ha, (proj2 (Z.ltb_lt _ _) Hv). by destruct l.
Qed.

Lemma find_here l k : Forall (fun c => c <> 10) l -> find 10 (l ++ 10 :: k) = Some (length l).
Proof.
  induction 1 as [|c l Hc _ IH]; [done|]. cbn [app find length]. by rewrite (proj2 (Z.eqb_neq _ _) Hc), IH.
Qed.

Lemma plain_no_lf l : plain l -> Forall (fun c => c <> 10) l.
Proof. induction 1 as [|c l [H _] _ IH]; by constructor. Qed.

Lemma drop_last_app c l k : k <> [] -> drop_last c (l ++ k) = l ++ drop_last c k.
Proof.
  intros Hk. induction l as [|x l IH]; [done|]. cbn [app]. rewrite drop_last_cons, IH; [done|].
  right. by destruct l.
Qed.

Lemma drop_last_plain l : plain l -> drop_last 13 l = l.
Proof. induction 1 as [|c l [_ H] _ IH]; [done|]. by rewrite drop_last_cons, IH by (by left). Qed.

(** A first segment that is one line. *)
Lemma filter_first_line ln :
  Forall (fun c => c <> 10) ln -> zlen ln < 2 ^ 31 - 1 ->
  exists d, set_line_buf [] d = init /\
    filter_all init [ln ++ [10]] =
      let! '(r, d) := finish_line d (drop_last 13 ln) (zlen ln + 1) in
      Ret (if r <? 0 then None else Some ([], d)).
Proof.
  intros Hln Hl. destruct (scan_at_lf (start InSize) (ln ++ [10]) (length ln) I) as (d & Hs & Hd);
    [by apply find_here|rewrite zlen_app; unfold zlen in *; cbn; lia|].
  exists d. split; [exact Hd|]. change init with (concrete (start InSize)). cbn [filter_all]. unfold FilterBuf.
  rewrite take_app_length in Hs. cbn [start line app] in Hs.
  assert (Hlen : length (ln ++ [10]) = S (length ln)) by (rewrite length_app; cbn; lia).
  rewrite Hlen. cbn [filter_loop].
  rewrite (proj2 (Z.eqb_neq (zlen (ln ++ [10])) 0)) by (unfold zlen; lia).
  change (chunk_remaining_ (concrete (start InSize))) with 0. change (reached_eof_ (concrete (start InSize))) with false.
  cbn [Z.eqb negb]. change (Z.to_nat 0) with 0%nat. rewrite drop_0.
  replace (Z.to_nat (zlen (ln ++ [10]))) with (length (ln ++ [10])) by (unfold zlen; lia). rewrite firstn_all, Hs.
  replace (Z.of_nat (S (length ln))) with (zlen ln + 1) by (unfold zlen; lia).
  destruct (finish_line d (drop_last 13 ln) (zlen ln + 1)) as [[r d']| |] eqn:E; [|done|done]. cbn [obind].
  assert (Hr : r = ERR_INVALID_CHUNKED_ENCODING \/ r = zlen ln + 1).
  { unfold finish_line in E. repeat case_match; simplify_eq; auto. }
  destruct Hr as [->| ->]; [done|]. pose proof (zlen_nonneg ln). rewrite (proj2 (Z.ltb_ge _ _)) by lia.
  replace (zlen (ln ++ [10]) - (zlen ln + 1)) with 0 by (unfold zlen; rewrite Hlen; lia).
  by destruct (length ln).
Qed.

Lemma find_app c l k : find c l = None -> find c (l ++ k) = option_map (fun i => (length l + i)%nat) (find c k).
Proof.
  induction l as [|x l IH]; [intros _; cbn; by destruct (find c k)|]. cbn [app find]. destruct (x =? c); [done|].
  destruct (find c l); [done|]. intros _. rewrite IH by done. by destruct (find c k).
Qed.

Lemma strip_trailing_app c l k : strip_trailing c k <> [] -> strip_trailing c (l ++ k) = l ++ strip_trailing c k.
Proof.
  intros Hk. induction l as [|x l IH]; [done|]. cbn [app strip_trailing]. rewrite IH.
  by destruct (l ++ strip_trailing c k) eqn:E; [apply app_nil in E as [_ E]|].
Qed.

Lemma size_of_bare_cr a b :
  b <> [] -> all_digits 16 a = true -> all_digits 16 b = true ->
  all_digits 16 (size_text (drop_last 13 (a ++ [13] ++ b))) = false.
Proof.
  intros Hnb Ha Hb. destruct (hex_digit_plain a Ha) as (Pa & Fa & _).
  destruct (hex_digit_plain b Hb) as (Pb & Fb & Sb).
  rewrite app_assoc, drop_last_app, drop_last_plain, <- app_assoc by done. unfold size_text, before.
  rewrite find_app by done. cbn [app find Z.eqb Pos.eqb]. rewrite Fb. cbn [option_map].
  rewrite strip_trailing_app; cbn [strip_trailing]; rewrite Sb; [|by destruct b].
  destruct b as [|y b]; [done|]. unfold all_digits. rewrite forallb_app. cbn [forallb].
  replace (bool_decide (is_Some (CharToDigit 16 13))) with false by reflexivity. cbn [andb].
  by rewrite andb_false_r.
Qed.

(** A CR inside a chunk's line is an error when the line arrives in one segment, and
    silently dropped when a segment ends with it: the same bytes are then a line with
    the digits on both sides joined. *)
Theorem bare_cr_depends_on_segments a b :
  a <> [] -> b <> [] -> all_digits 16 a = true -> all_digits 16 b = true ->
  value 16 0 (digit_prefix 16 (a ++ b)) < 2 ^ 31 -> zlen (a ++ b) < 2 ^ 31 - 2 ->
  filter_all init [(a ++ [13] ++ b) ++ [10]] = Ret None /\
  exists d, filter_all init [a ++ [13]; b ++ [10]] = Ret (Some ([], d)) /\
    chunk_remaining_ d = value 16 0 (digit_prefix 16 (a ++ b)).
Proof.
  intros Hna Hnb Ha Hb Hv Hl. destruct (hex_digit_plain a Ha) as (Pa & Fa & _).
  destruct (hex_digit_plain b Hb) as (Pb & Fb & Sb). rewrite zlen_app in Hl. split.
  - destruct (filter_first_line (a ++ [13] ++ b)) as (d & Hd & ->).
    { rewrite !Forall_app. split; [by apply plain_no_lf|]. split; [by repeat constructor|by apply plain_no_lf]. }
    { rewrite !zlen_app. unfold zlen at 2. cbn [length]. lia. }
    pose proof (size_of_bare_cr a b Hnb Ha Hb) as Hbad. set (ln := drop_last 13 (a ++ [13] ++ b)) in *.
    pose proof (finish_line_spec InSize [] false d ln (zlen (a ++ [13] ++ b) + 1) I Hd) as H. rewrite Hbad in H. specialize (H (fun _ => eq_refl)).
    cbn [end_line] in H. unfold size_of in H. rewrite Hbad in H. destruct H as [d' ->]. done.
  - assert (Hrun : run (start InSize) (a ++ [13]) = Some (mkSpec InSize a true, [])).
    { rewrite run_app. unfold start. by rewrite run_plain by done. }
    assert (Hg : good (start InSize) (a ++ [13])).
    { eapply good_app; [by apply run_plain|by apply good_plain|by split]. }
    pose proof (FilterBuf_refines (start InSize) (a ++ [13]) I) as H1. rewrite Hrun in H1.
    destruct H1 as (mem & H1 & _); [rewrite zlen_app; change (zlen (text_so_far (start InSize))) with 0; unfold zlen in *; cbn [length] in *; lia|done|apply Hg|].
    destruct (size_of_digits (a ++ b)) as [_ Hs]; [by destruct a|unfold all_digits in *; by rewrite forallb_app, Ha|done|].
    set (n := value 16 0 (digit_prefix 16 (a ++ b))) in *.
    set (s2 := start (if n =? 0 then InTrailer else InData n)).
    assert (Hstep : step (mkSpec InSize (a ++ b) false) 10 = Some (s2, [])).
    { unfold step. cbn [phase_of line Z.eqb Pos.eqb end_line]. by rewrite Hs. }
    assert (Hrun2 : run (mkSpec InSize a false) (b ++ [10]) = Some (s2, [])).
    { rewrite run_app, run_plain by done. cbn [mbind option_bind run]. by rewrite Hstep. }
    assert (Hg2 : good (mkSpec InSize a false) (b ++ [10])).
    { eapply good_app; [by apply run_plain|by apply good_plain|]. split; cbn [crlf_only sizes_short]; rewrite Hstep; [done|].
      cbn [phase_of line Z.eqb Pos.eqb negb orb]. destruct (size_of_value _ _ Hs) as [_ Hv2]. by rewrite (proj2 (Z.ltb_lt _ _) Hv2), orb_true_r. }
    pose proof (filter_all_refines (mkSpec InSize a false) [b ++ [10]] I) as H2.
    change (mjoin [b ++ [10]]) with ((b ++ [10]) ++ []) in H2. rewrite app_nil_r, Hrun2 in H2.
    exists (concrete s2). split.
    + change (filter_all init [a ++ [13]; b ++ [10]]) with
        (let! '(result, mem, d) := FilterBuf (concrete (start InSize)) (a ++ [13]) in
         if result <? 0 then Ret None
         else let! rest := filter_all d [b ++ [10]] in
              Ret (option_map (fun '(data, d) => (take (Z.to_nat result) mem ++ data, d)) rest)).
      rewrite H1. cbn [obind]. change (concrete (mkSpec InSize a true)) with (concrete (mkSpec InSize a false)).
      rewrite H2; [done| |apply crlf_only_regular; change (mjoin [b ++ [10]]) with ((b ++ [10]) ++ []); rewrite app_nil_r; apply Hg2].
      rewrite zlen_app. change (text_so_far (mkSpec InSize a false)) with a. unfold zlen in *. cbn. lia.
    + unfold s2. destruct (n =? 0) eqn:E; zb2p; [by rewrite E|done].
Qed.

(** A chunk's size that does not fit is accepted when it wraps to a positive int:
    the first digits have the high bit of 32 set, and the last one makes the decoder
    take a size modulo 2^32. *)
Theorem chunk_size_wraps l c d :
  all_digits 16 l = true -> 2 ^ 31 <= value 16 0 (digit_prefix 16 l) < 2 ^ 32 -> CharToDigit 16 c = Some d ->
  zlen l < 2 ^ 31 - 3 ->
  let size := value 16 0 (digit_prefix 16 (l ++ [c])) in
  0 < i32 size ->
  2 ^ 35 <= size /\
  exists dec, filter_all init [((l ++ [c]) ++ [13]) ++ [10]] = Ret (Some ([], dec)) /\ chunk_remaining_ dec = i32 size.
Proof.
  intros Ha Hv Hc Hl size Hpos. pose proof (CharToDigit_range 16 _ _ ltac:(lia) Hc) as Hd.
  assert (Hsize : size = value 16 0 (digit_prefix 16 l) * 16 + d).
  { unfold size. rewrite digit_prefix_app, value_app by done. cbn [digit_prefix]. by rewrite Hc. }
  assert (Hac : all_digits 16 (l ++ [c]) = true).
  { unfold all_digits in *. rewrite forallb_app, Ha. cbn [forallb andb]. by rewrite Hc. }
  destruct (hex_digit_plain _ Hac) as (Pl & Fl & Sl). split; [lia|].
  destruct (filter_first_line ((l ++ [c]) ++ [13])) as (dd & Hdd & ->).
  { rewrite Forall_app. split; [by apply plain_no_lf|by repeat constructor]. }
  { rewrite !zlen_app. unfold zlen in *. cbn. lia. }
  rewrite drop_last_app by done. change (drop_last 13 [13]) with (@nil Z). rewrite app_nil_r.
  destruct dd as [n1 l1 te la eo af]. unfold set_line_buf, init in Hdd. cbn in Hdd. injection Hdd as -> -> -> -> ->.
  unfold finish_line, before, ParseChunkSize. cbn [reached_last_chunk_ chunk_terminator_remaining_].
  rewrite Fl, Sl, other_character_digits, Hac, (hex_wraps l c d Ha Hc Hv), <- Hsize. cbn [negb andb].
  rewrite (proj2 (Z.leb_le _ _)), (proj2 (Z.eqb_neq (i32 size) 0)) by lia.
  assert (Hz : (length (l ++ [c]) =? 0)%nat = false) by (by destruct l). rewrite Hz. cbn [negb obind].
  rewrite (proj2 (Z.ltb_ge _ _)) by (pose proof (zlen_nonneg ((l ++ [c]) ++ [13])); lia).
  eexists. split; [reflexivity|done].
Qed.

(** ** Sample responses *)

Module Sample.

(** "3;x" CRLF "abc" CRLF "0" CRLF CRLF in three segments that split the size's line and
    the CRLF after the data. *)
Definition response : list (list Z) := [[51; 59]; [120; 13; 10; 97; 98; 99; 13]; [10; 48; 13; 10; 13; 10]].

Example decoder_refines_grammar_witness :
  zlen (mjoin response) = 15 /\ regular (start InSize) response = true /\
  filter_all init response = Ret (Some ([97; 98; 99], concrete (start (AfterEnd 0)))).
Proof.
  split; [reflexivity|]. split; [reflexivity|]. exact (decoder_refines_grammar response ltac:(reflexivity) ltac:(reflexivity)).
Defined.

(** The same chunk, the padded last line "0 ", a trailer "t" and a byte after the end,
    in one segment. *)
Example chunked_round_trip_witness :
  exists d, filter_all init [encode [([51; 59; 120], [97; 98; 99])] [48; 32] [[116]] ++ [72]] =
      Ret (Some ([97; 98; 99], d)) /\ reached_eof_ d = true /\ bytes_after_eof_ d = 1.
Proof.
  assert (P : forall l, forallb (fun c => negb (c =? 10) && negb (c =? 13)) l = true -> plain l).
  { induction l as [|c l IH]; [constructor|]. cbn. intros [Hc Hl]%andb_prop. apply andb_prop in Hc as [H1 H2].
    constructor; [|exact (IH Hl)]. apply negb_true_iff in H1, H2. by rewrite !Z.eqb_neq in *. }
  refine (chunked_round_trip [([51; 59; 120], [97; 98; 99])] [48; 32] [[116]] [72] _ _ _ _ _ _).
  - constructor; [|constructor]. split; [split; [apply P; reflexivity|reflexivity]|discriminate].
  - split; [apply P; reflexivity|reflexivity].
  - constructor; [|constructor]. split; [apply P; reflexivity|discriminate].
  - apply app_nil_r.
  - reflexivity.
Defined.

(** Bytes that are not a response. *)
Example filter_terminates_witness : returns init [[255; 13]; []; [10]].
Proof. apply filter_terminates. split; [discriminate|reflexivity]. Defined.

(** "1" CR "2" LF: an error in one segment, a chunk of 18 bytes in two. *)
Example bare_cr_depends_on_segments_witness :
  filter_all init [[49; 13; 50; 10]] = Ret None /\
  exists d, filter_all init [[49; 13]; [50; 10]] = Ret (Some ([], d)) /\ chunk_remaining_ d = 18.
Proof.
  exact (bare_cr_depends_on_segments [49] [50] ltac:(discriminate) ltac:(discriminate) eq_refl eq_refl
    ltac:(reflexivity) ltac:(reflexivity)).
Defined.

(** "800000001" is a chunk of one byte. *)
Example chunk_size_wraps_witness :
  2 ^ 35 <= 34359738369 /\
  exists dec, filter_all init [[56; 48; 48; 48; 48; 48; 48; 48; 49; 13; 10]] = Ret (Some ([], dec)) /\
    chunk_remaining_ dec = 1.
Proof.
  refine (chunk_size_wraps (56 :: repeat 48 7) 49 1 eq_refl _ eq_refl _ _); [|reflexivity|reflexivity].
  split; [discriminate|reflexivity].
Defined.

End Sample.

End ChunkedDecoder.
