(* ===== verification/NetBigEndian.v ===== *)
(** Big-endian integers in memory, [net/base/big_endian.h] and [net/base/big_endian.cc]:
    [ReadBigEndian], [WriteBigEndian], and the bounded reader and writer built on them.
    A memory object is a list of bytes and pointers are offsets into it; the type [T] of
    the templates is its size in bytes. *)
From S2P Require Import Prelude.

(** Value of a [char], which is signed. *)
Definition char_value (b : Z) : Z := if 128 <=? b then b - 2 ^ 8 else b.

(** Bytes of memory; reading past the object is undefined. *)
Definition bytes_at (mem : list Z) (p n : nat) : outcome (list Z) :=
  check! (p + n <=? length mem)%nat; Ret (take n (drop p mem)).

Module BigEndian.

(** ** Integers *)

Fixpoint read_loop (size : nat) (out : Z) (buf : list Z) : Z :=
  match buf with
  | [] => out
  | b :: buf => read_loop size (Z.lor (wrap (8 * Z.of_nat size) (Z.shiftl out 8)) b) buf
  end.

Definition ReadBigEndian (size : nat) (mem : list Z) (p : nat) : outcome Z :=
  let! buf := bytes_at mem p size in
  match buf with
  | [] => Crash
  | b :: buf => Ret (read_loop size (wrap (8 * Z.of_nat size) (char_value b)) buf)
  end.

(** The bytes stored, the last one first. *)
Fixpoint write_loop (i : nat) (val : Z) : list Z :=
  match i with
  | O => []
  | S i => write_loop i (Z.shiftr val 8) ++ [Z.land val 0xff]
  end.

Definition WriteBigEndian (size : nat) (mem : list Z) (p : nat) (val : Z) : outcome (list Z) :=
  check! (p + size <=? length mem)%nat; Ret (splice p (write_loop size val) mem).

(** ** Reader *)

Record reader := Reader { r_mem : list Z; r_ptr : nat; r_end : nat }.

Definition BigEndianReader (mem : list Z) (buf len : nat) : reader := Reader mem buf (buf + len).

Definition r_remaining (r : reader) : Z := Z.of_nat (r_end r) - Z.of_nat (r_ptr r).

Definition r_advance (len : nat) (r : reader) : reader := Reader (r_mem r) (r_ptr r + len) (r_end r).

(** [None] is [false]: the reader and the output are as they were. *)
Definition r_Skip (len : nat) (r : reader) : option reader :=
  if (r_end r <? r_ptr r + len)%nat then None else Some (r_advance len r).

Definition ReadBytes (len : nat) (r : reader) : outcome (option (list Z * reader)) :=
  if (r_end r <? r_ptr r + len)%nat then Ret None
  else let! out := bytes_at (r_mem r) (r_ptr r) len in Ret (Some (out, r_advance len r)).

(** The piece points into the memory of the reader. *)
Definition ReadPiece (len : nat) (r : reader) : option (nat * nat * reader) :=
  if (r_end r <? r_ptr r + len)%nat then None else Some (r_ptr r, len, r_advance len r).

Definition Read (size : nat) (r : reader) : outcome (option (Z * reader)) :=
  if (r_end r <? r_ptr r + size)%nat then Ret None
  else let! v := ReadBigEndian size (r_mem r) (r_ptr r) in Ret (Some (v, r_advance size r)).

Definition ReadU8 := Read 1.
Definition ReadU16 := Read 2.
Definition ReadU32 := Read 4.

(** ** Writer *)

Record writer := Writer { w_mem : list Z; w_ptr : nat; w_end : nat }.

Definition BigEndianWriter (mem : list Z) (buf len : nat) : writer := Writer mem buf (buf + len).

Definition w_remaining (w : writer) : Z := Z.of_nat (w_end w) - Z.of_nat (w_ptr w).

Definition w_Skip (len : nat) (w : writer) : option writer :=
  if (w_end w <? w_ptr w + len)%nat then None else Some (Writer (w_mem w) (w_ptr w + len) (w_end w)).

Definition WriteBytes (buf : list Z) (w : writer) : outcome (option writer) :=
  if (w_end w <? w_ptr w + length buf)%nat then Ret None
  else
    check! (w_ptr w + length buf <=? length (w_mem w))%nat;
    Ret (Some (Writer (splice (w_ptr w) buf (w_mem w)) (w_ptr w + length buf) (w_end w))).

Definition Write (size : nat) (val : Z) (w : writer) : outcome (option writer) :=
  if (w_end w <? w_ptr w + size)%nat then Ret None
  else
    let! mem := WriteBigEndian size (w_mem w) (w_ptr w) val in
    Ret (Some (Writer mem (w_ptr w + size) (w_end w))).

Definition WriteU8 := Write 1.
Definition WriteU16 := Write 2.
Definition WriteU32 := Write 4.

(** ** The value of bytes *)

Definition be_value (bytes : list Z) : Z := foldl (fun v b => v * 2 ^ 8 + b) 0 bytes.

Lemma be_value_snoc l b : be_value (l ++ [b]) = be_value l * 2 ^ 8 + b.
Proof. unfold be_value. by rewrite foldl_app. Qed.

Lemma be_value_range l : Forall is_u8 l -> 0 <= be_value l < 2 ^ (8 * Z.of_nat (length l)).
Proof.
  induction l as [|b l IH] using rev_ind; [by cbn|]. intros [Hl Hb]%Forall_app.
  inversion Hb as [|? ? Hb' _]; subst. specialize (IH Hl). rewrite be_value_snoc, length_app. cbn [length].
  replace (8 * Z.of_nat (length l + 1)) with (8 * Z.of_nat (length l) + 8) by lia.
  rewrite Z.pow_add_r by lia. unfold is_u8 in Hb'. nia.
Qed.

Lemma write_loop_length n v : length (write_loop n v) = n.
Proof. revert v. induction n as [|n IH]; intros v; [done|]. cbn [write_loop]. rewrite length_app, IH. cbn. lia. Qed.

Lemma write_loop_u8 n v : Forall is_u8 (write_loop n v).
Proof.
  revert v. induction n as [|n IH]; intros v; [constructor|]. cbn [write_loop]. apply Forall_app. split; [apply IH|].
  repeat constructor; change 0xff with (Z.ones 8); rewrite Z.land_ones by lia; apply Z.mod_pos_bound; lia.
Qed.

Lemma be_value_write n v : be_value (write_loop n v) = wrap (8 * Z.of_nat n) v.
Proof.
  unfold wrap. revert v. induction n as [|n IH]; intros v; [by rewrite Z.mod_1_r|]. cbn [write_loop].
  rewrite be_value_snoc, IH. change 0xff with (Z.ones 8). rewrite Z.land_ones, Z.shiftr_div_pow2 by lia.
  replace (8 * Z.of_nat (S n)) with (8 + 8 * Z.of_nat n) by lia. rewrite Z.pow_add_r by lia.
  rewrite Z.rem_mul_r by lia. lia.
Qed.

Lemma write_loop_value l : Forall is_u8 l -> write_loop (length l) (be_value l) = l.
Proof.
  induction l as [|b l IH] using rev_ind; [done|]. intros [Hl Hb]%Forall_app. inversion Hb as [|? ? Hb' _]; subst.
  rewrite length_app, Nat.add_comm. cbn [length Nat.add write_loop]. rewrite be_value_snoc, Z.shiftr_div_pow2 by lia.
  change 0xff with (Z.ones 8). rewrite Z.land_ones by lia. unfold is_u8 in Hb'.
  rewrite Z.div_add_l, Z.div_small, Z.add_0_r, IH by (done || lia). do 2 f_equal.
  rewrite Z.add_comm, Z.mod_add, Z.mod_small by lia. done.
Qed.

Lemma be_value_cons b l : be_value (b :: l) = b * 2 ^ (8 * Z.of_nat (length l)) + be_value l.
Proof.
  induction l as [|c l IH] using rev_ind; [cbn; lia|]. change (b :: l ++ [c]) with ((b :: l) ++ [c]).
  rewrite !be_value_snoc, IH, length_app. cbn [length].
  replace (8 * Z.of_nat (length l + 1)) with (8 * Z.of_nat (length l) + 8) by lia. rewrite Z.pow_add_r by lia. ring.
Qed.

Lemma shift_in size x b :
  (0 < size)%nat -> is_u8 b ->
  Z.lor (wrap (8 * Z.of_nat size) (Z.shiftl (wrap (8 * Z.of_nat size) x) 8)) b = wrap (8 * Z.of_nat size) (x * 2 ^ 8 + b).
Proof.
  unfold wrap, is_u8. intros Hs Hb. rewrite Z.shiftl_mul_pow2 by lia.
  replace (8 * Z.of_nat size) with (8 * Z.of_nat (size - 1) + 8) by lia. rewrite Z.pow_add_r by lia.
  set (m := 2 ^ (8 * Z.of_nat (size - 1))). assert (Hm : 0 < m) by (apply Z.pow_pos_nonneg; lia).
  rewrite Z.mul_mod_distr_r, lor_add by lia.
  rewrite Z.mod_mod_divide by (exists (2 ^ 8); ring).
  pose proof (Z.mod_pos_bound x m Hm). apply (Z.mod_unique _ _ (x / m)); [left; nia|].
  pose proof (Z.div_mod x m ltac:(lia)). nia.
Qed.

Lemma wrap_add_l w x y : 0 <= w -> wrap w (wrap w x + y) = wrap w (x + y).
Proof. intros Hw. unfold wrap. by rewrite Zplus_mod_idemp_l. Qed.

(** The sign extension of the first byte is shifted out. *)
Lemma read_loop_value size x l :
  (0 < size)%nat -> Forall is_u8 l ->
  read_loop size (wrap (8 * Z.of_nat size) x) l = wrap (8 * Z.of_nat size) (x * 2 ^ (8 * Z.of_nat (length l)) + be_value l).
Proof.
  intros Hs Hl. revert x. induction Hl as [|b l Hb Hl IH]; intros x; cbn [read_loop].
  - cbn [length be_value foldl]. f_equal. cbn. lia.
  - rewrite shift_in, IH by done. f_equal. rewrite be_value_cons. cbn [length].
    replace (8 * Z.of_nat (S (length l))) with (8 + 8 * Z.of_nat (length l)) by lia. rewrite Z.pow_add_r by lia. ring.
Qed.

Lemma bytes_at_in mem p n : (p + n <= length mem)%nat -> bytes_at mem p n = Ret (take n (drop p mem)).
Proof. intros H. unfold bytes_at. by rewrite (proj2 (Nat.leb_le _ _) H). Qed.

Lemma bytes_at_middle pre l post : bytes_at (pre ++ l ++ post) (length pre) (length l) = Ret l.
Proof.
  rewrite bytes_at_in by (rewrite !length_app; lia). by rewrite drop_app_length, take_app_length.
Qed.

Lemma bytes_u8_at mem p n l : Forall is_u8 mem -> bytes_at mem p n = Ret l -> Forall is_u8 l /\ length l = n.
Proof.
  unfold bytes_at. intros Hm H. inv_outcome. zb2p. apply Nat.leb_le in H0. split.
  - by apply Forall_take, Forall_drop.
  - rewrite length_take, length_drop. lia.
Qed.

Lemma ReadBigEndian_spec size mem p :
  (0 < size)%nat -> Forall is_u8 mem -> (p + size <= length mem)%nat ->
  ReadBigEndian size mem p = Ret (be_value (take size (drop p mem))).
Proof.
  intros Hs Hm Hp. unfold ReadBigEndian. pose proof (bytes_at_in mem p size Hp) as E. rewrite E. cbn [obind].
  destruct (bytes_u8_at _ _ _ _ Hm E) as [Hb Hl]. destruct (take size (drop p mem)) as [|b l]; [cbn in Hl; lia|].
  pose proof (be_value_range _ Hb) as Hr. rewrite Hl in Hr. cbn [length] in Hl. inversion Hb as [|? ? Hb' Hbl]; subst.
  rewrite read_loop_value by (done || lia). f_equal. rewrite be_value_cons in Hr |- *. unfold wrap.
  unfold char_value. destruct (128 <=? b); [|by rewrite Z.mod_small].
  rewrite <- (Z.mod_small _ _ Hr). symmetry. apply (Z.mod_unique _ _ (-1)).
  - left. apply Z.mod_pos_bound. lia.
  - rewrite Z.mod_small by done. replace (8 * Z.of_nat (S (length l))) with (8 + 8 * Z.of_nat (length l)) by lia.
    rewrite Z.pow_add_r by lia. ring.
Qed.

Lemma splice_middle pre old new post :
  length new = length old -> splice (length pre) new (pre ++ old ++ post) = pre ++ new ++ post.
Proof.
  intros H. unfold splice. rewrite take_app_length, H. do 2 f_equal.
  by rewrite app_assoc, <- length_app, drop_app_length.
Qed.

(** ** The reader and the writer stay inside their range *)

Lemma Read_spec size r :
  (0 < size)%nat -> Forall is_u8 (r_mem r) -> (r_end r <= length (r_mem r))%nat ->
  Read size r = Ret (if (r_end r <? r_ptr r + size)%nat then None
                     else Some (be_value (take size (drop (r_ptr r) (r_mem r))), r_advance size r)).
Proof.
  intros Hs Hm He. unfold Read. destruct (Nat.ltb_spec (r_end r) (r_ptr r + size)); [done|].
  by rewrite ReadBigEndian_spec by (done || lia).
Qed.

Lemma Read_middle size v pre post e :
  (0 < size)%nat -> 0 <= v < 2 ^ (8 * Z.of_nat size) -> Forall is_u8 pre -> Forall is_u8 post ->
  (length pre + size <= e <= length pre + size + length post)%nat ->
  Read size (Reader (pre ++ write_loop size v ++ post) (length pre) e) =
  Ret (Some (v, Reader (pre ++ write_loop size v ++ post) (length pre + size) e)).
Proof.
  intros Hs Hv Hp Hq He. rewrite Read_spec; cbn [r_end r_ptr r_mem]; [|done| |].
  - rewrite (proj2 (Nat.ltb_ge _ _)) by lia. rewrite drop_app_length.
    rewrite take_app_length' by (by rewrite write_loop_length). rewrite be_value_write. unfold wrap. by rewrite Z.mod_small.
  - apply Forall_app; split; [done|]. apply Forall_app; split; [apply write_loop_u8|done].
  - rewrite !length_app, write_loop_length. lia.
Qed.

Lemma WriteBytes_middle pre old new post e :
  length new = length old -> (length pre + length old <= e)%nat ->
  WriteBytes new (Writer (pre ++ old ++ post) (length pre) e) =
  Ret (Some (Writer (pre ++ new ++ post) (length pre + length new) e)).
Proof.
  intros Hl He. unfold WriteBytes. cbn [w_end w_ptr w_mem]. rewrite (proj2 (Nat.ltb_ge _ _)) by lia.
  rewrite (proj2 (Nat.leb_le _ _)) by (rewrite !length_app; lia). cbn [dcheck obind]. by rewrite splice_middle.
Qed.

Lemma Write_middle size v pre old post e :
  length old = size -> (length pre + size <= e)%nat ->
  Write size v (Writer (pre ++ old ++ post) (length pre) e) =
  Ret (Some (Writer (pre ++ write_loop size v ++ post) (length pre + size) e)).
Proof.
  intros Hl He. unfold Write, WriteBigEndian. cbn [w_end w_ptr w_mem]. rewrite (proj2 (Nat.ltb_ge _ _)) by lia.
  rewrite (proj2 (Nat.leb_le _ _)) by (rewrite !length_app; lia). cbn [dcheck obind].
  rewrite splice_middle by (by rewrite write_loop_length). done.
Qed.

(** ** Sequences of fields, as the clients write and read them *)

Fixpoint write_all (fs : list (nat * Z)) (w : writer) : outcome (option writer) :=
  match fs with
  | [] => Ret (Some w)
  | (size, val) :: fs =>
      let! w := Write size val w in
      match w with Some w => write_all fs w | None => Ret None end
  end.

Fixpoint read_all (sizes : list nat) (r : reader) : outcome (option (list Z * reader)) :=
  match sizes with
  | [] => Ret (Some ([], r))
  | size :: sizes =>
      let! o := Read size r in
      match o with
      | None => Ret None
      | Some (v, r) =>
          let! o := read_all sizes r in
          Ret (option_map (fun '(vs, r) => (v :: vs, r)) o)
      end
  end.

Definition field_ok (f : nat * Z) : Prop := (0 < fst f)%nat /\ 0 <= snd f < 2 ^ (8 * Z.of_nat (fst f)).
Definition encode (fs : list (nat * Z)) : list Z := mjoin (map (fun f => write_loop (fst f) (snd f)) fs).

Lemma encode_cons f fs : encode (f :: fs) = write_loop (fst f) (snd f) ++ encode fs.
Proof. done. Qed.

Lemma encode_u8 fs : Forall is_u8 (encode fs).
Proof. induction fs as [|f fs IH]; [constructor|]. rewrite encode_cons. apply Forall_app. split; [apply write_loop_u8|done]. Qed.

Lemma write_all_spec fs pre old post e :
  length old = length (encode fs) -> (length pre + length old <= e)%nat ->
  write_all fs (Writer (pre ++ old ++ post) (length pre) e) =
  Ret (Some (Writer (pre ++ encode fs ++ post) (length pre + length old) e)).
Proof.
  revert pre old. induction fs as [|[size v] fs IH]; intros pre old Hl He.
  - destruct old; [|done]. cbn. by rewrite Nat.add_0_r.
  - rewrite encode_cons in Hl |- *. cbn [fst snd] in *. rewrite length_app, write_loop_length in Hl.
    rewrite <- (firstn_skipn size old). set (o1 := take size old) in *. set (o2 := drop size old).
    assert (H1 : length o1 = size) by (apply firstn_length_le; lia).
    assert (H2 : length o2 = length (encode fs)) by (unfold o2; rewrite length_drop; lia).
    cbn [write_all]. rewrite <- app_assoc, Write_middle by (done || lia). cbn [obind].
    specialize (IH (pre ++ write_loop size v) o2 H2). rewrite length_app, write_loop_length, <- !app_assoc in IH.
    rewrite IH by lia. rewrite length_app, H1, <- app_assoc, Nat.add_assoc. done.
Qed.

Lemma read_all_spec fs pre post e :
  Forall field_ok fs -> Forall is_u8 pre -> Forall is_u8 post ->
  (length pre + length (encode fs) <= e <= length pre + length (encode fs) + length post)%nat ->
  read_all (map fst fs) (Reader (pre ++ encode fs ++ post) (length pre) e) =
  Ret (Some (map snd fs, Reader (pre ++ encode fs ++ post) (length pre + length (encode fs)) e)).
Proof.
  intros Hf. revert pre. induction Hf as [|[size v] fs [Hs Hv] Hf IH]; intros pre Hp Hq He.
  - cbn. by rewrite Nat.add_0_r.
  - rewrite encode_cons in *. cbn [fst snd map read_all] in *. rewrite length_app, write_loop_length in *.
    pose proof (encode_u8 fs). rewrite <- app_assoc. rewrite Read_middle; try done; [|by apply Forall_app|rewrite length_app; lia].
    cbn [obind]. specialize (IH (pre ++ write_loop size v)). rewrite length_app, write_loop_length, <- !app_assoc in IH.
    rewrite IH; [|apply Forall_app; split; [done|apply write_loop_u8]|done|lia]. cbn [obind option_map].
    by rewrite Nat.add_assoc.
Qed.

(** ** Property *)

(** unsigned integers of any widths written one after another by a writer over a range
    of memory of exactly their size are all accepted, change that range only, and are read
    back in order by a reader over the same range, the sign of the platform's [char]
    notwithstanding; at the end both have nothing left and refuse one byte more. *)
Theorem fields_round_trip fs pre old post :
  Forall field_ok fs -> Forall is_u8 pre -> Forall is_u8 post -> length old = length (encode fs) ->
  exists mem w r,
    write_all fs (BigEndianWriter (pre ++ old ++ post) (length pre) (length old)) = Ret (Some w) /\
    w_mem w = mem /\ mem = pre ++ encode fs ++ post /\ length (encode fs) = length old /\
    read_all (map fst fs) (BigEndianReader mem (length pre) (length old)) = Ret (Some (map snd fs, r)) /\
    w_remaining w = 0 /\ r_remaining r = 0 /\
    (forall v, WriteU8 v w = Ret None) /\ ReadU8 r = Ret None.
Proof.
  intros Hf Hp Hq Hl. unfold BigEndianWriter, BigEndianReader.
  rewrite write_all_spec, Hl by lia. exists (pre ++ encode fs ++ post). do 2 eexists. do 4 (split; [done|]).
  rewrite read_all_spec by (done || lia). split; [done|].
  unfold w_remaining, r_remaining, WriteU8, ReadU8, Write, Read. cbn [w_end w_ptr r_end r_ptr].
  repeat split; [lia|lia|intros v|]; by rewrite (proj2 (Nat.ltb_lt _ _)) by lia.
Qed.

Example fields_round_trip_witness :
  write_all [(2%nat, 0xfedc); (4%nat, 0x80000001)] (BigEndianWriter [9; 0; 0; 0; 0; 0; 0; 9] 1 6) =
    Ret (Some (Writer [9; 0xfe; 0xdc; 0x80; 0; 0; 1; 9] 7 7)) /\
  exists mem w r,
    write_all [(2%nat, 0xfedc); (4%nat, 0x80000001)] (BigEndianWriter ([9] ++ [0; 0; 0; 0; 0; 0] ++ [9]) 1 6) = Ret (Some w) /\
    w_mem w = mem /\ read_all [2%nat; 4%nat] (BigEndianReader mem 1 6) = Ret (Some ([0xfedc; 0x80000001], r)).
Proof.
  split; [by vm_compute|].
  destruct (fields_round_trip [(2%nat, 0xfedc); (4%nat, 0x80000001)] [9] [0; 0; 0; 0; 0; 0] [9])
    as (mem & w & r & H1 & H2 & _ & _ & H3 & _).
  - repeat constructor; cbn; lia.
  - repeat constructor; unfold is_u8; lia.
  - repeat constructor; unfold is_u8; lia.
  - done.
  - by exists mem, w, r.
Defined.

End BigEndian.
