(* ===== verification/NetDnsName.v ===== *)
(** Domain names, [net/base/dns_util.cc] and the name parser of
    [net/dns/dns_response.cc]: dotted text, labels on the wire, and compressed names in
    a packet.  Characters are bytes. *)
From S2P Require Import Prelude NetBigEndian.

Import BigEndian.

Module DnsName.

(** ** Dotted text and the wire format *)

(** Both arrays are filled from the front: [char label[63]] and [char name[255]]. *)
Definition flush (label name : list Z) : option (list Z * list Z) :=
  if (length label =? 0)%nat then Some (label, name)
  else if (255 <? length name + length label + 1)%nat then None
  else Some ([], name ++ [Z.of_nat (length label)] ++ label).

Fixpoint from_dot_loop (buf label name : list Z) : option (list Z * list Z) :=
  match buf with
  | [] => Some (label, name)
  | ch :: buf =>
      if ch =? 46 then '(label, name) ← flush label name; from_dot_loop buf label name
      else if (63 <=? length label)%nat then None
      else from_dot_loop buf (label ++ [ch]) name
  end.

Definition DNSDomainFromDot (dotted : list Z) : option (list Z) :=
  '(label, name) ← from_dot_loop dotted [] [];
  '(_, name) ← flush label name;
  if (255 <? length name + 1)%nat then None else Some (name ++ [0]).

(** [char] is signed: a byte from 128 up is negative. *)
Fixpoint to_string_loop (fuel : nat) (domain : list Z) (i : nat) (ret : list Z) : outcome (list Z) :=
  match domain !! i with
  | None => Ret ret
  | Some n =>
      if n =? 0 then Ret ret
      else
        match fuel with
        | O => Timeout
        | S fuel =>
            if 128 <=? n then Ret []
            else if 63 <? n then Ret []
            else
              let ret := if (i =? 0)%nat then ret else ret ++ [46] in
              if (length domain <? Z.to_nat n + i + 1)%nat then Ret []
              else to_string_loop fuel domain (i + (Z.to_nat n + 1)) (ret ++ take (Z.to_nat n) (drop (i + 1) domain))
        end
  end.

Definition DNSDomainToString (domain : list Z) : outcome (list Z) := to_string_loop (length domain) domain 0 [].

(** Letters, digits and the hyphen: [c <= 0x2c], ... are tested one range at a time, on a
    signed [char]. *)
Definition IsSTD3ASCIIValidCharacter (b : Z) : bool :=
  let c := char_value b in
  if c <=? 0x2c then false
  else if 0x7b <=? c then false
  else if (0x2e <=? c) && (c <=? 0x2f) then false
  else if (0x3a <=? c) && (c <=? 0x40) then false
  else if (0x5b <=? c) && (c <=? 0x60) then false
  else true.

Definition TrimEndingDot (host : list Z) : list Z :=
  if (1 <? length host)%nat && (default 0 (last host) =? 46) then take (length host - 1) host else host.

(** ** Names in a packet *)

Definition kLabelMask : Z := 0xc0.
Definition kLabelPointer : Z := 0xc0.
Definition kLabelDirect : Z := 0.
Definition kOffsetMask : Z := 0x3fff.

(** A label after the ones already stored. *)
Definition append_label (out label : list Z) : list Z :=
  (if (length out =? 0)%nat then out else out ++ [46]) ++ label.

(** The loop of [ParseName]; [out] is [None] when the name is not stored. *)
Fixpoint name_loop (fuel : nat) (packet : list Z) (pos p seen consumed : nat) (out : option (list Z)) :
    outcome (nat * option (list Z)) :=
  match fuel with
  | O => Timeout
  | S fuel =>
      let! b := must (packet !! p) in
      let kind := Z.land b kLabelMask in
      if kind =? kLabelPointer then
        if (length packet <? p + 2)%nat then Ret (0%nat, out)
        else
          let first := (consumed =? 0)%nat in
          let consumed := if first then (p - pos + 2)%nat else consumed in
          match first, out with
          | true, None => Ret (consumed, out)
          | _, _ =>
              let seen := (seen + 2)%nat in
              if (length packet <? seen)%nat then Ret (0%nat, out)
              else
                let! offset := ReadBigEndian 2 packet p in
                let p := Z.to_nat (Z.land offset kOffsetMask) in
                if (length packet <=? p)%nat then Ret (0%nat, out)
                else name_loop fuel packet pos p seen consumed out
          end
      else if kind =? kLabelDirect then
        let label_len := Z.to_nat b in
        let p := (p + 1)%nat in
        if (label_len =? 0)%nat then Ret (if (consumed =? 0)%nat then (p - pos)%nat else consumed, out)
        else if (length packet <=? p + label_len)%nat then Ret (0%nat, out)
        else
          let out := option_map (fun out => append_label out (take label_len (drop p packet))) out in
          name_loop fuel packet pos (p + label_len) (seen + 1 + label_len) consumed out
      else Ret (0%nat, out)
  end.

(** Twice the packet is fuel enough: once until everything was seen, and once for the
    labels after the last pointer. *)
Definition ParseName (packet : list Z) (pos : nat) (out : option (list Z)) : outcome (nat * option (list Z)) :=
  check! (pos <=? length packet)%nat;
  if (length packet <=? pos)%nat then Ret (0%nat, out)
  else name_loop (2 * length packet + 2) packet pos pos 0 0 (option_map (fun _ => []) out).

(** ** What names are *)

Definition is_label (l : list Z) : Prop := l <> [] /\ (length l <= 63)%nat.

(** Labels on the wire, and as text. *)
Definition wire (labels : list (list Z)) : list Z :=
  mjoin (map (fun l => Z.of_nat (length l) :: l) labels) ++ [0].

Fixpoint join (labels : list (list Z)) : list Z :=
  match labels with
  | [] => []
  | [l] => l
  | l :: labels => l ++ 46 :: join labels
  end.

(** The text between the dots. *)
Fixpoint split (label buf : list Z) : list (list Z) :=
  match buf with
  | [] => [label]
  | ch :: buf => if ch =? 46 then label :: split [] buf else split (label ++ [ch]) buf
  end.

(** Empty labels are dropped. *)
Definition nonempty (l : list Z) : bool := negb (length l =? 0)%nat.
Definition labels_of (dotted : list Z) : list (list Z) := List.filter nonempty (split [] dotted).

Section Packet.
Context (packet : list Z).

(** A label of [n] bytes at [p], with room for what follows. *)
Definition label_at (p : nat) (l : list Z) : Prop :=
  packet !! p = Some (Z.of_nat (length l)) /\ is_label l /\
  take (length l) (drop (p + 1) packet) = l /\ (p + 1 + length l < length packet)%nat.

Definition pointer_at (p target : nat) : Prop :=
  exists hi lo, packet !! p = Some hi /\ packet !! (p + 1)%nat = Some lo /\
    Z.land hi 0xc0 = 0xc0 /\ target = Z.to_nat (Z.land hi 0x3f * 2 ^ 8 + lo) /\ (target < length packet)%nat.

(** RFC 1035, 4.1.4: labels, ended by the root or by a pointer to the rest.  The last
    argument counts the bytes of the labels and pointers. *)
Inductive name_at : nat -> list (list Z) -> nat -> Prop :=
| name_root p : packet !! p = Some 0 -> name_at p [] 0
| name_label p l ls n : label_at p l -> name_at (p + 1 + length l) ls n -> name_at p (l :: ls) (1 + length l + n)
| name_pointer p q ls n : pointer_at p q -> name_at q ls n -> name_at p ls (2 + n).

(** The bytes of the name at [p] itself, a pointer not followed. *)
Inductive extent_at : nat -> nat -> Prop :=
| extent_root p : packet !! p = Some 0 -> extent_at p 1
| extent_pointer p b : packet !! p = Some b -> Z.land b 0xc0 = 0xc0 -> (p + 2 <= length packet)%nat -> extent_at p 2
| extent_label p l n : label_at p l -> extent_at (p + 1 + length l) n -> extent_at p (1 + length l + n).

End Packet.

(** ** From dotted text *)

Definition flat (labels : list (list Z)) : list Z := mjoin (map (fun l => Z.of_nat (length l) :: l) labels).

Lemma wire_flat labels : wire labels = flat labels ++ [0].
Proof. done. Qed.

Lemma flat_cons l labels : flat (l :: labels) = Z.of_nat (length l) :: l ++ flat labels.
Proof. done. Qed.

Lemma wire_cons l labels : wire (l :: labels) = Z.of_nat (length l) :: l ++ wire labels.
Proof. rewrite !wire_flat, flat_cons. cbn [app]. by rewrite app_assoc. Qed.

Lemma flat_length labels : (length labels <= length (flat labels))%nat.
Proof. induction labels as [|l labels IH]; [done|]. rewrite flat_cons. cbn [length]. rewrite length_app. lia. Qed.

Lemma split_head label buf : exists x rest, split label buf = (label ++ x) :: rest.
Proof.
  revert label. induction buf as [|ch buf IH]; intros label; cbn [split].
  - exists [], []. by rewrite app_nil_r.
  - destruct (ch =? 46); [exists [], (split [] buf); by rewrite app_nil_r|].
    destruct (IH (label ++ [ch])) as (x & rest & ->). exists (ch :: x), rest. by rewrite <- app_assoc.
Qed.

(** Labels fit when each has at most 63 bytes and the name, the root included, 255. *)
Definition fits (labels : list (list Z)) : bool :=
  forallb (fun l => (length l <=? 63)%nat) labels && (length (wire labels) <=? 255)%nat.

Lemma flush_spec label name :
  flush label name =
    if nonempty label then
      if (255 <? length name + length label + 1)%nat then None else Some ([], name ++ Z.of_nat (length label) :: label)
    else Some ([], name).
Proof. unfold flush, nonempty. by destruct label. Qed.

Lemma from_dot_loop_spec buf label name :
  (length label <= 63)%nat ->
  ('(label, name) ← from_dot_loop buf label name;
   '(_, name) ← flush label name;
   if (255 <? length name + 1)%nat then None else Some (name ++ [0])) =
  let labels := List.filter nonempty (split label buf) in
  if forallb (fun l => (length l <=? 63)%nat) labels && (length name + length (flat labels) + 1 <=? 255)%nat
  then Some (name ++ flat labels ++ [0]) else None.
Proof.
  revert label name. induction buf as [|ch buf IH]; intros label name Hl; cbn [from_dot_loop split].
  - cbn [mbind option_bind List.filter]. rewrite flush_spec. destruct (nonempty label).
    + cbn [forallb]. rewrite (proj2 (Nat.leb_le _ _) Hl), flat_cons. cbn [andb length app]. rewrite !length_app.
      destruct (Nat.ltb_spec 255 (length name + length label + 1)); cbn [mbind option_bind].
      * match goal with |- context [(?a <=? 255)%nat] => destruct (Nat.leb_spec a 255); [lia|done] end.
      * rewrite !length_app. cbn [length flat map mjoin list_join].
        match goal with |- context [(255 <? ?a)%nat] => destruct (Nat.ltb_spec 255 a) end;
          match goal with |- context [(?a <=? 255)%nat] => destruct (Nat.leb_spec a 255) end; try lia; [done|].
        by rewrite app_nil_r, <- !app_assoc.
    + cbn [mbind option_bind forallb andb flat map mjoin list_join length app]. rewrite Nat.add_0_r.
      destruct (Nat.ltb_spec 255 (length name + 1)), (Nat.leb_spec (length name + 1) 255); (done || lia).
  - destruct (ch =? 46).
    + cbn [List.filter]. rewrite flush_spec. destruct (nonempty label); [|by apply IH; cbn; lia].
      cbn [forallb]. rewrite (proj2 (Nat.leb_le _ _) Hl), flat_cons. cbn [andb length].
      rewrite length_app. set (rest := List.filter nonempty (split [] buf)) in *.
      destruct (Nat.ltb_spec 255 (length name + length label + 1)); cbn [mbind option_bind].
      * match goal with |- context [(?a <=? 255)%nat] => destruct (Nat.leb_spec a 255); [lia|] end. by rewrite andb_false_r.
      * etransitivity; [apply (IH []); cbn; lia|]. fold rest. rewrite length_app. cbn [length].
        replace (length name + S (length label) + length (flat rest) + 1)%nat
          with (length name + S (length label + length (flat rest)) + 1)%nat by lia.
        rewrite <- !app_assoc. cbn [app]. by rewrite <- !app_assoc.
    + destruct (Nat.leb_spec 63 (length label)) as [H|H].
      * cbn [mbind option_bind]. destruct (split_head (label ++ [ch]) buf) as (x & rest & ->). cbn [List.filter].
        assert (Hlen : (63 < length ((label ++ [ch]) ++ x))%nat) by (rewrite !length_app; cbn; lia).
        assert (nonempty ((label ++ [ch]) ++ x) = true) as -> by (unfold nonempty; destruct ((label ++ [ch]) ++ x); cbn in Hlen; (lia || done)).
        cbn [forallb]. by rewrite (proj2 (Nat.leb_gt _ _) Hlen).
      * apply IH. rewrite length_app. cbn. lia.
Qed.

Lemma DNSDomainFromDot_spec dotted :
  DNSDomainFromDot dotted = if fits (labels_of dotted) then Some (wire (labels_of dotted)) else None.
Proof.
  unfold DNSDomainFromDot. rewrite from_dot_loop_spec by (cbn; lia). cbv zeta. unfold fits.
  rewrite wire_flat, length_app. cbn [length]. done.
Qed.

(** ** To dotted text *)

Lemma join_append a l labels : join ((a ++ 46 :: l) :: labels) = a ++ 46 :: join (l :: labels).
Proof. destruct labels; cbn [join]; [done|]. by rewrite <- app_assoc. Qed.

Lemma foldl_append acc labels : acc <> [] -> foldl append_label acc labels = join (acc :: labels).
Proof.
  revert acc. induction labels as [|l labels IH]; intros acc Ha; [done|]. cbn [foldl].
  unfold append_label at 2. destruct (Nat.eqb_spec (length acc) 0); [by destruct acc|].
  rewrite <- app_assoc. cbn [app]. rewrite IH by (by destruct acc). by rewrite join_append.
Qed.

Lemma foldl_join labels : Forall is_label labels -> foldl append_label [] labels = join labels.
Proof. destruct 1 as [|l labels [Hl _] _]; [done|]. cbn [foldl]. by apply foldl_append. Qed.

Lemma nonempty_labels dotted : fits (labels_of dotted) = true -> Forall is_label (labels_of dotted).
Proof.
  unfold fits. intros [H _]%andb_prop. rewrite forallb_forall in H. apply List.Forall_forall. intros l Hl.
  split.
  - unfold labels_of in Hl. apply List.filter_In in Hl as [_ Hn]. by intros ->.
  - specialize (H l Hl). by apply Nat.leb_le in H.
Qed.

Lemma lookup_middle {A} (pre : list A) x post : (pre ++ x :: post) !! length pre = Some x.
Proof. rewrite lookup_app_r, Nat.sub_diag by lia. done. Qed.

Lemma to_string_loop_spec fuel pre labels post ret :
  Forall is_label labels -> (length pre = 0 <-> ret = [])%nat -> (length labels <= fuel)%nat ->
  to_string_loop fuel (pre ++ wire labels ++ post) (length pre) ret = Ret (foldl append_label ret labels).
Proof.
  intros Hl. revert fuel pre ret. induction Hl as [|l labels [Hn Hs] Hl IH]; intros fuel pre ret Hret Hf.
  - cbn [wire map mjoin list_join app]. destruct fuel; cbn [to_string_loop]; by rewrite lookup_middle.
  - destruct fuel as [|fuel]; [cbn in Hf; lia|]. rewrite wire_flat, flat_cons. cbn [app to_string_loop].
    rewrite lookup_middle. assert (H0 : (0 < length l)%nat) by (destruct l; cbn; [done|lia]).
    rewrite (proj2 (Z.eqb_neq _ _)), (proj2 (Z.leb_gt _ _)), (proj2 (Z.ltb_ge _ _)) by lia. rewrite Nat2Z.id.
    destruct (Nat.ltb_spec (length (pre ++ Z.of_nat (length l) :: ((l ++ flat labels) ++ [0]) ++ post)) (length l + length pre + 1)) as [H|H].
    { rewrite !length_app in H. cbn [length] in H. rewrite !length_app in H. lia. }
    replace (pre ++ Z.of_nat (length l) :: ((l ++ flat labels) ++ [0]) ++ post)
      with ((pre ++ Z.of_nat (length l) :: l) ++ wire labels ++ post) by (rewrite wire_flat, <- !app_assoc; done).
    replace (length pre + (length l + 1))%nat with (length (pre ++ Z.of_nat (length l) :: l))
      by (rewrite length_app; cbn [length]; lia).
    replace (take (length l) (drop (length pre + 1) ((pre ++ Z.of_nat (length l) :: l) ++ wire labels ++ post))) with l.
    2:{ rewrite <- app_assoc, drop_app_add'; [|done]. cbn [app skipn]. by rewrite drop_0, take_app_length. }
    cbn [foldl]. unfold append_label at 2.
    assert (Er : (length ret =? 0)%nat = (length pre =? 0)%nat).
    { destruct ret as [|r ret]; [by rewrite (proj2 Hret eq_refl)|]. cbn. destruct (Nat.eqb_spec (length pre) 0) as [E|]; [|done].
      discriminate (proj1 Hret E). }
    rewrite Er. apply IH; [|cbn in Hf; lia]. split; intros E.
    + rewrite length_app in E. cbn in E. lia.
    + destruct l; [done|]. by destruct (if (length pre =? 0)%nat then ret else ret ++ [46]).
Qed.

Lemma IsSTD3ASCIIValidCharacter_spec b :
  is_u8 b ->
  IsSTD3ASCIIValidCharacter b = true <-> b = 45 \/ 48 <= b <= 57 \/ 65 <= b <= 90 \/ 97 <= b <= 122.
Proof.
  unfold is_u8, IsSTD3ASCIIValidCharacter, char_value. cbv zeta. intros Hb. destruct (Z.leb_spec 128 b).
  - rewrite (proj2 (Z.leb_le _ _)) by lia. split; [done|lia].
  - repeat case_if; split; intros; (done || lia).
Qed.

Lemma split_app label a b : split label (a ++ 46 :: b) = split label a ++ split [] b.
Proof. revert label. induction a as [|ch a IH]; intros label; cbn [app split]; [done|]. destruct (ch =? 46); by rewrite IH. Qed.

(** Two names with a dot between them. *)
Lemma labels_of_app a b : labels_of (a ++ 46 :: b) = labels_of a ++ labels_of b.
Proof. unfold labels_of. by rewrite split_app, List.filter_app. Qed.

Lemma TrimEndingDot_labels host : labels_of (TrimEndingDot host) = labels_of host.
Proof.
  unfold TrimEndingDot. destruct host as [|c host _] using rev_ind; [done|]. rewrite last_snoc.
  destruct (_ && _) eqn:E; [|done]. apply andb_prop in E as [_ E%Z.eqb_eq]. cbn in E. subst c.
  by rewrite length_app, Nat.add_sub, take_app_length, labels_of_app, app_nil_r.
Qed.

(** ** Names in a packet *)

Lemma kind_cases b :
  is_u8 b ->
  (b < 64 /\ Z.land b 0xc0 = 0) \/ (192 <= b /\ Z.land b 0xc0 = 0xc0) \/ (64 <= b < 192 /\ Z.land b 0xc0 <> 0 /\ Z.land b 0xc0 <> 0xc0).
Proof.
  unfold is_u8. intros H. assert (E : Z.land b 0xc0 = b / 2 ^ 6 mod 2 ^ 2 * 2 ^ 6) by (by apply (land_field b 2 6)).
  rewrite E. div_lia.
Qed.

Lemma offset_spec hi lo :
  is_u8 hi -> is_u8 lo -> Z.land (hi * 2 ^ 8 + lo) kOffsetMask = Z.land hi 0x3f * 2 ^ 8 + lo.
Proof.
  unfold is_u8. intros Hh Hl. change kOffsetMask with (Z.ones 14). change 0x3f with (Z.ones 6).
  rewrite !Z.land_ones by lia. div_lia.
Qed.

Lemma take_two (l : list Z) p a b : l !! p = Some a -> l !! (p + 1)%nat = Some b -> take 2 (drop p l) = [a; b].
Proof.
  intros Ha Hb. rewrite (drop_S l a p Ha). cbn. rewrite Nat.add_1_r in Hb. by rewrite (drop_S l b (S p) Hb).
Qed.

Section Parse.
Context (packet : list Z) (Hbytes : Forall is_u8 packet).

Lemma byte_at p b : packet !! p = Some b -> is_u8 b.
Proof. intros H. by eapply Forall_lookup_1. Qed.

Lemma pointer_target p hi lo :
  packet !! p = Some hi -> packet !! (p + 1)%nat = Some lo -> Z.land hi 0xc0 = 0xc0 ->
  ReadBigEndian 2 packet p = Ret (hi * 2 ^ 8 + lo) /\
  forall q, pointer_at packet p q <->
    q = Z.to_nat (Z.land (hi * 2 ^ 8 + lo) kOffsetMask) /\ (q < length packet)%nat.
Proof.
  intros Hh Hl Hk. split.
  { pose proof (lookup_lt_Some _ _ _ Hl). rewrite ReadBigEndian_spec by (done || lia).
    by rewrite (take_two _ _ _ _ Hh Hl). }
  intros q.
  rewrite (offset_spec hi lo) by (by eapply byte_at). unfold pointer_at. split.
  - intros (hi' & lo' & Hh' & Hl' & _ & -> & Hq). simplify_eq. done.
  - intros [-> Hq]. by exists hi, lo.
Qed.

(** A direct label is one the code copies. *)
Lemma label_taken p b :
  packet !! p = Some b -> 0 < b < 64 -> (p + 1 + Z.to_nat b < length packet)%nat ->
  label_at packet p (take (Z.to_nat b) (drop (p + 1) packet)).
Proof.
  intros Hb Hr Hp. assert (E : length (take (Z.to_nat b) (drop (p + 1) packet)) = Z.to_nat b)
    by (rewrite length_take, length_drop; lia).
  unfold label_at, is_label. rewrite E, Z2Nat.id by lia. repeat split; try done; try lia.
  intros H. rewrite H in E. cbn in E. lia.
Qed.

Lemma label_at_byte p b l :
  packet !! p = Some b -> label_at packet p l ->
  0 < b < 64 /\ l = take (Z.to_nat b) (drop (p + 1) packet) /\ length l = Z.to_nat b.
Proof.
  intros Hb (Hp & [Hn Hs] & Ht & _). assert (E : b = Z.of_nat (length l)) by congruence. rewrite E, Nat2Z.id.
  assert (0 < length l)%nat by (destruct l; cbn; [done|lia]). repeat split; (lia || done).
Qed.

Lemma name_labels p ls n : name_at packet p ls n -> Forall is_label ls.
Proof. induction 1 as [| ? ? ? ? (_ & ? & _) |]; [by constructor | by constructor | done]. Qed.

(** What a name starts with. *)
Lemma name_at_inv p b ls n :
  packet !! p = Some b -> name_at packet p ls n ->
  (b = 0 /\ ls = [] /\ n = 0%nat) \/
  (exists l ls' n', 0 < b < 64 /\ label_at packet p l /\ l = take (Z.to_nat b) (drop (p + 1) packet) /\
     length l = Z.to_nat b /\ ls = l :: ls' /\ n = (1 + length l + n')%nat /\ name_at packet (p + 1 + length l) ls' n') \/
  (exists q n', Z.land b 0xc0 = 0xc0 /\ pointer_at packet p q /\ name_at packet q ls n' /\ n = (2 + n')%nat).
Proof.
  intros Hb H. inversion H; subst.
  - left. by simplify_eq.
  - right; left. edestruct label_at_byte as (? & ? & ?); [done..|]. by do 3 eexists.
  - right; right. pose proof H0 as (hi & ? & ? & _ & ? & _). simplify_eq. by do 2 eexists.
Qed.

Lemma extent_at_inv p b e :
  packet !! p = Some b -> extent_at packet p e ->
  (b = 0 /\ e = 1%nat) \/
  (Z.land b 0xc0 = 0xc0 /\ (p + 2 <= length packet)%nat /\ e = 2%nat) \/
  (exists l e', 0 < b < 64 /\ label_at packet p l /\ length l = Z.to_nat b /\ e = (1 + length l + e')%nat /\
     extent_at packet (p + 1 + length l) e').
Proof.
  intros Hb H. inversion H; subst.
  - left. by simplify_eq.
  - right; left. by simplify_eq.
  - right; right. edestruct label_at_byte as (? & ? & ?); [done..|]. by do 2 eexists.
Qed.

(** What the loop gives from [p] when the name is stored: nothing only when the name is
    too long for the packet, and otherwise the labels and the bytes before the first pointer,
    [consumed] of them when a pointer was already followed. *)
Definition stored (pos p seen consumed : nat) (o : list Z) (r : nat * option (list Z)) : Prop :=
  (fst r = 0%nat -> forall ls n, name_at packet p ls n -> (length packet < seen + n)%nat) /\
  (fst r <> 0%nat -> exists ls n, name_at packet p ls n /\ snd r = Some (foldl append_label o ls) /\
     if (consumed =? 0)%nat then exists e, extent_at packet p e /\ fst r = (p - pos + e)%nat else fst r = consumed).

Lemma stored_fail pos p seen consumed o o' :
  (forall ls n, name_at packet p ls n -> (length packet < seen + n)%nat) -> stored pos p seen consumed o (0%nat, o').
Proof. intros H. by split. Qed.

Lemma stored_root pos p seen consumed o :
  packet !! p = Some 0 -> (consumed = 0 -> pos <= p)%nat ->
  stored pos p seen consumed o (if (consumed =? 0)%nat then p + 1 - pos else consumed, Some o)%nat.
Proof.
  intros Hb Hpos. unfold stored. cbn [fst snd]. destruct (Nat.eqb_spec consumed 0) as [->|Hc]; split; try lia.
  - intros _. exists [], 0%nat. repeat split; [by constructor|]. exists 1%nat. split; [by constructor|lia].
  - intros _. exists [], 0%nat. repeat split. by constructor.
Qed.

Lemma stored_label pos p seen consumed o l r :
  label_at packet p l -> (consumed = 0 -> pos <= p)%nat ->
  stored pos (p + 1 + length l) (seen + 1 + length l) consumed (append_label o l) r ->
  stored pos p seen consumed o r.
Proof.
  intros Hl Hpos [H0 H1]. pose proof Hl as [Hb _]. destruct (label_at_byte p _ l Hb Hl) as (Hr & El & _).
  split; intros Hc.
  - intros ls n Hn. destruct (name_at_inv p _ ls n Hb Hn) as [? | [(l' & ls' & n' & _ & _ & El' & _ & -> & -> & Hn') | (? & ? & Hk & _)]].
    + lia.
    + rewrite <- El in El'. subst l'. specialize (H0 Hc _ _ Hn'). lia.
    + destruct (kind_cases _ (byte_at p _ Hb)) as [|[|]]; lia.
  - destruct (H1 Hc) as (ls & n & Hn & -> & He). exists (l :: ls), (1 + length l + n)%nat.
    split; [by constructor|]. split; [done|]. destruct (Nat.eqb_spec consumed 0); [|done].
    destruct He as (e' & He & ->). eexists. split; [by apply extent_label|]. lia.
Qed.

Lemma stored_pointer pos p q seen consumed o r :
  pointer_at packet p q -> (consumed = 0 -> pos <= p)%nat ->
  stored pos q (seen + 2) (if (consumed =? 0)%nat then p - pos + 2 else consumed)%nat o r ->
  stored pos p seen consumed o r.
Proof.
  intros Hq Hpos [H0 H1]. pose proof Hq as (hi & lo & Hh & Hl & Hk & Eq & Hlt). pose proof (lookup_lt_Some _ _ _ Hl).
  split; intros Hc.
  - intros ls n Hn. destruct (name_at_inv p _ ls n Hh Hn) as [(-> & _) | [(l' & _ & _ & Hr & _) | (q' & n' & _ & Hq' & Hn' & ->)]].
    + done.
    + destruct (kind_cases _ (byte_at p _ Hh)) as [|[|]]; lia.
    + destruct Hq' as (hi' & lo' & Hh' & Hl' & _ & Eq' & _). assert (q' = q) as -> by (rewrite Eq, Eq'; congruence).
      specialize (H0 Hc _ _ Hn'). lia.
  - destruct (H1 Hc) as (ls & n & Hn & -> & He). exists ls, (2 + n)%nat.
    split; [by eapply name_pointer|]. split; [done|]. destruct (Nat.eqb_spec consumed 0).
    + rewrite (proj2 (Nat.eqb_neq _ _)) in He by lia. exists 2%nat. split; [|lia]. eapply extent_pointer; [done..|lia].
    + by rewrite (proj2 (Nat.eqb_neq _ _)) in He by lia.
Qed.

Lemma if_same {A} (b : bool) (x : A) : (if b then x else x) = x.
Proof. by destruct b. Qed.

Lemma name_loop_stored fuel pos p seen consumed o :
  (p < length packet)%nat -> (consumed = 0 -> pos <= p)%nat ->
  ((if (seen <=? length packet)%nat then 2 * length packet + 1 - seen else length packet - p) < fuel)%nat ->
  exists r, name_loop fuel packet pos p seen consumed (Some o) = Ret r /\ stored pos p seen consumed o r.
Proof.
  revert p seen consumed o. induction fuel as [|fuel IH]; intros p seen consumed o Hp Hpos Hf; [lia|].
  destruct (lookup_lt_is_Some_2 packet p Hp) as [b Hb]. pose proof (byte_at p b Hb) as Hr. unfold is_u8 in Hr.
  cbn [name_loop]. rewrite Hb. cbn [must obind]. cbv zeta. unfold kLabelMask.
  destruct (kind_cases b Hr) as [[Hs Hk] | [[Hs Hk] | (Hs & Hk0 & Hk1)]].
  - rewrite Hk. cbn [Z.eqb kLabelPointer kLabelDirect]. destruct (Nat.eqb_spec (Z.to_nat b) 0) as [E|E].
    { assert (b = 0) as -> by lia. eexists. split; [done|]. by apply stored_root. }
    destruct (Nat.leb_spec (length packet) (p + 1 + Z.to_nat b)).
    + eexists. split; [done|]. apply stored_fail. intros ls n Hn.
      destruct (name_at_inv p b ls n Hb Hn) as [? | [(l & ? & ? & ? & (_ & _ & _ & ?) & _ & ? & _) | (? & ? & ? & _)]]; lia.
    + pose proof (label_taken p b Hb ltac:(lia) ltac:(lia)) as Ht.
      destruct (label_at_byte p b _ Hb Ht) as (_ & _ & El). cbn [option_map].
      edestruct IH as (r & -> & Hst); cycle 3.
      { exists r. split; [done|]. eapply stored_label; [done..|]. rewrite El. exact Hst. }
      all: try lia. destruct (Nat.leb_spec seen (length packet)), (Nat.leb_spec (seen + 1 + Z.to_nat b) (length packet)); lia.
  - rewrite Hk. cbn [Z.eqb Pos.eqb kLabelPointer]. rewrite if_same.
    destruct (Nat.ltb_spec (length packet) (p + 2)).
    { eexists. split; [done|]. apply stored_fail. intros ls n Hn.
      destruct (name_at_inv p b ls n Hb Hn) as [? | [(l & ? & ? & ? & _) | (? & ? & _ & (_ & ? & _ & Hl & _) & _)]];
        [lia..|]. apply lookup_lt_Some in Hl. lia. }
    destruct (lookup_lt_is_Some_2 packet (p + 1)) as [lo Hl]; [lia|].
    destruct (pointer_target p b lo Hb Hl Hk) as [Hrd Ht].
    destruct (Nat.ltb_spec (length packet) (seen + 2)).
    { eexists. split; [done|]. apply stored_fail. intros ls n Hn.
      destruct (name_at_inv p b ls n Hb Hn) as [? | [(l & ? & ? & ? & _) | (? & ? & _ & _ & _ & ->)]]; lia. }
    rewrite Hrd. cbn [obind]. set (q := Z.to_nat (Z.land (b * _ + lo) _)) in *.
    destruct (Nat.leb_spec (length packet) q).
    { eexists. split; [done|]. apply stored_fail. intros ls n Hn.
      destruct (name_at_inv p b ls n Hb Hn) as [? | [(l & ? & ? & ? & _) | (q' & ? & _ & Hq' & _)]]; [lia..|].
      apply Ht in Hq'. lia. }
    edestruct IH as (r & -> & Hst); cycle 3.
    { exists r. split; [done|]. eapply stored_pointer; [by apply Ht|done..]. }
    { done. } { destruct (Nat.eqb_spec consumed 0); lia. }
    destruct (Nat.leb_spec seen (length packet)), (Nat.leb_spec (seen + 2) (length packet)); lia.
  - rewrite !(proj2 (Z.eqb_neq _ _)) by done. eexists. split; [done|]. apply stored_fail. intros ls n Hn.
    destruct (name_at_inv p b ls n Hb Hn) as [? | [(l & ? & ? & ? & _) | (? & ? & ? & _)]]; lia.
Qed.

(** ... and when it is not. *)
Definition skipped (pos p : nat) (r : nat * option (list Z)) : Prop :=
  snd r = None /\ (fst r = 0%nat -> forall e, ~ extent_at packet p e) /\
  (fst r <> 0%nat -> exists e, extent_at packet p e /\ fst r = (p - pos + e)%nat).

Lemma skipped_fail pos p : (forall e, ~ extent_at packet p e) -> skipped pos p (0%nat, None).
Proof. intros H. by repeat split. Qed.

Lemma skipped_found pos p e : (0 < e)%nat -> extent_at packet p e -> skipped pos p ((p - pos + e)%nat, None).
Proof. intros H0 H. split; [done|]. cbn [fst]. split; intros ?; [lia|]. by exists e. Qed.

Lemma name_loop_skipped fuel pos p seen :
  (pos <= p < length packet)%nat -> (length packet - p < fuel)%nat ->
  exists r, name_loop fuel packet pos p seen 0 None = Ret r /\ skipped pos p r.
Proof.
  revert p seen. induction fuel as [|fuel IH]; intros p seen Hp Hf; [lia|].
  destruct (lookup_lt_is_Some_2 packet p) as [b Hb]; [lia|]. pose proof (byte_at p b Hb) as Hr. unfold is_u8 in Hr.
  cbn [name_loop]. rewrite Hb. cbn [must obind Nat.eqb]. cbv zeta. unfold kLabelMask.
  destruct (kind_cases b Hr) as [[Hs Hk] | [[Hs Hk] | (Hs & Hk0 & Hk1)]].
  - rewrite Hk. cbn [Z.eqb kLabelPointer kLabelDirect]. destruct (Nat.eqb_spec (Z.to_nat b) 0) as [E|E].
    { assert (b = 0) as -> by lia. eexists. split; [done|]. replace (p + 1 - pos)%nat with (p - pos + 1)%nat by lia.
      apply skipped_found; [lia|by constructor]. }
    destruct (Nat.leb_spec (length packet) (p + 1 + Z.to_nat b)).
    + eexists. split; [done|]. apply skipped_fail. intros e He.
      destruct (extent_at_inv p b e Hb He) as [? | [(? & _) | (l & ? & ? & (_ & _ & _ & ?) & ? & _)]]; lia.
    + pose proof (label_taken p b Hb ltac:(lia) ltac:(lia)) as Ht.
      destruct (label_at_byte p b _ Hb Ht) as (_ & _ & El). cbn [option_map].
      edestruct IH as (r & -> & Hn & H0 & H1); cycle 2; [exists r; split; [done|]; split; [done|]|lia..]. split; intros Hc.
      * intros e He. destruct (extent_at_inv p b e Hb He) as [? | [(? & _) | (l & e' & _ & _ & Hl & _ & He')]]; [lia..|].
        rewrite Hl in He'. by destruct (H0 Hc e').
      * destruct (H1 Hc) as (e & He & ->). eexists. split; [apply extent_label; [done|by rewrite El]|]. lia.
  - rewrite Hk. cbn [Z.eqb Pos.eqb kLabelPointer]. destruct (Nat.ltb_spec (length packet) (p + 2)).
    + eexists. split; [done|]. apply skipped_fail. intros e He.
      destruct (extent_at_inv p b e Hb He) as [? | [(_ & ? & _) | (l & ? & ? & _)]]; lia.
    + eexists. split; [done|]. apply skipped_found; [lia|]. by eapply extent_pointer.
  - rewrite !(proj2 (Z.eqb_neq _ _)) by done. eexists. split; [done|]. apply skipped_fail. intros e He.
    destruct (extent_at_inv p b e Hb He) as [? | [(? & _) | (l & ? & ? & _)]]; lia.
Qed.

(** Nothing starts at the end of the packet. *)
Lemma nothing_at_end p : (length packet <= p)%nat -> (forall ls n, ~ name_at packet p ls n) /\ forall e, ~ extent_at packet p e.
Proof.
  intros E%lookup_ge_None. split.
  - intros ls n Hn. inversion Hn as [| ? ? ? ? [] | ? ? ? ? (? & ? & ? & _)]; congruence.
  - intros e He. inversion He as [| | ? ? ? []]; congruence.
Qed.

Lemma ParseName_stored pos o :
  (pos <= length packet)%nat ->
  exists c o', ParseName packet pos (Some o) = Ret (c, o') /\
    (c = 0%nat -> forall ls n, name_at packet pos ls n -> (length packet < n)%nat) /\
    (c <> 0%nat -> exists ls n, name_at packet pos ls n /\ o' = Some (join ls) /\ extent_at packet pos c).
Proof.
  intros Hp. unfold ParseName. rewrite (proj2 (Nat.leb_le _ _) Hp). cbn [dcheck obind].
  destruct (Nat.leb_spec (length packet) pos) as [Hp'|Hp'].
  { do 2 eexists. split; [done|]. split; [|done]. intros _ ls n Hn. by apply nothing_at_end in Hn. }
  destruct (name_loop_stored (2 * length packet + 2) pos pos 0 0 []) as ([c o'] & E & H0 & H1);
    [done|done|cbn [Nat.leb]; lia|]. exists c, o'. split; [done|]. split; [done|].
  intros Hc. destruct (H1 Hc) as (ls & n & Hn & Ho & e & He & E'). cbn [fst snd] in *. exists ls, n.
  rewrite foldl_join in Ho by by eapply name_labels. split; [done|]. split; [done|].
  replace c with e by lia. done.
Qed.

Lemma ParseName_skipped pos :
  (pos <= length packet)%nat ->
  exists c, ParseName packet pos None = Ret (c, None) /\
    (c = 0%nat -> forall e, ~ extent_at packet pos e) /\ (c <> 0%nat -> extent_at packet pos c).
Proof.
  intros Hp. unfold ParseName. rewrite (proj2 (Nat.leb_le _ _) Hp). cbn [dcheck obind].
  destruct (Nat.leb_spec (length packet) pos) as [Hp'|Hp'].
  { eexists. split; [done|]. split; [|done]. intros _. by apply nothing_at_end. }
  destruct (name_loop_skipped (2 * length packet + 2) pos pos 0) as ([c o'] & E & Ho & H0 & H1); [lia..|].
  cbn [fst snd] in *. subst o'. exists c. split; [done|]. split; [done|].
  intros Hc. destruct (H1 Hc) as (e & He & E'). replace c with e by lia. done.
Qed.

Lemma extent_in_packet p e : extent_at packet p e -> (p + e <= length packet)%nat.
Proof. induction 1 as [p H%lookup_lt_Some | |]; lia. Qed.

Lemma extent_unique p e e' : extent_at packet p e -> extent_at packet p e' -> e = e'.
Proof.
  intros H. revert e'. induction H as [p Hb | p b Hb Hk Hp | p l n Hl He IH]; intros e' He'.
  - destruct (extent_at_inv p 0 e' Hb He') as [[_ ->] | [(Hk & _) | (? & ? & ? & _)]]; [done|discriminate|lia].
  - destruct (extent_at_inv p b e' Hb He') as [[-> _] | [(_ & _ & ->) | (? & ? & ? & _)]]; [discriminate|done|].
    destruct (kind_cases b (byte_at p b Hb)) as [|[|]]; lia.
  - pose proof Hl as [Hb _]. destruct (label_at_byte p _ l Hb Hl) as (Hr & _ & _).
    destruct (extent_at_inv p _ e' Hb He') as [? | [(Hk & _) | (l' & n' & _ & _ & Hl' & -> & He'')]]; [lia| |].
    + destruct (kind_cases _ (byte_at p _ Hb)) as [|[|]]; lia.
    + rewrite Nat2Z.id in Hl'. rewrite Hl' in *. f_equal. by apply IH.
Qed.

Lemma name_unique p ls n ls' n' : name_at packet p ls n -> name_at packet p ls' n' -> ls = ls' /\ n = n'.
Proof.
  intros H. revert ls' n'. induction H as [p Hb | p l ls n Hl Hn IH | p q ls n Hq Hn IH]; intros ls' n' H'.
  - destruct (name_at_inv p 0 ls' n' Hb H') as [(_ & -> & ->) | [(? & ? & ? & ? & _) | (? & ? & Hk & _)]]; [done|lia|discriminate].
  - pose proof Hl as [Hb _]. destruct (label_at_byte p _ l Hb Hl) as (Hr & El & _).
    destruct (name_at_inv p _ ls' n' Hb H') as [? | [(l' & ls0 & n0 & _ & _ & El' & _ & -> & -> & Hn') | (? & ? & Hk & _)]]; [lia| |].
    + rewrite <- El in El'. subst l'. destruct (IH _ _ Hn') as [-> ->]. done.
    + destruct (kind_cases _ (byte_at p _ Hb)) as [|[|]]; lia.
  - pose proof Hq as (hi & lo & Hh & Hl & Hk & Eq & _).
    destruct (name_at_inv p _ ls' n' Hh H') as [(-> & _) | [(? & ? & ? & ? & _) | (q' & n0 & _ & Hq' & Hn' & ->)]]; [done| |].
    + destruct (kind_cases _ (byte_at p _ Hh)) as [|[|]]; lia.
    + destruct Hq' as (hi' & lo' & Hh' & Hl' & _ & Eq' & _). assert (q' = q) as -> by (rewrite Eq, Eq'; congruence).
      destruct (IH _ _ Hn') as [-> ->]. done.
Qed.

End Parse.

(** ** Names written by [DNSDomainFromDot] *)

Lemma wire_name_at pre labels post :
  Forall is_label labels ->
  name_at (pre ++ wire labels ++ post) (length pre) labels (length (flat labels)) /\
  extent_at (pre ++ wire labels ++ post) (length pre) (length (wire labels)).
Proof.
  intros Hl. revert pre. induction Hl as [|l labels Hl _ IH]; intros pre.
  - cbn [wire flat map mjoin list_join app length]. split; constructor; apply lookup_middle.
  - destruct (IH (pre ++ Z.of_nat (length l) :: l)) as [H1 H2].
    replace (pre ++ wire (l :: labels) ++ post)
      with ((pre ++ Z.of_nat (length l) :: l) ++ wire labels ++ post) by (rewrite wire_cons, <- !app_assoc; cbn [app]; by rewrite <- !app_assoc).
    assert (Hla : label_at ((pre ++ Z.of_nat (length l) :: l) ++ wire labels ++ post) (length pre) l).
    { repeat split; try apply Hl.
      - rewrite <- app_assoc. apply lookup_middle.
      - rewrite <- app_assoc, drop_app_add'; [|done]. cbn [app skipn]. by rewrite drop_0, take_app_length.
      - rewrite !length_app, wire_flat, length_app. cbn [length]. lia. }
    rewrite length_app in H1, H2. cbn [length] in H1, H2.
    replace (length pre + S (length l))%nat with (length pre + 1 + length l)%nat in H1, H2 by lia.
    rewrite wire_cons, flat_cons. cbn [length]. rewrite !length_app. split.
    + by apply (name_label _ _ l).
    + by apply (extent_label _ _ l).
Qed.

Lemma join_split label buf : join (split label buf) = label ++ buf.
Proof.
  revert label. induction buf as [|ch buf IH]; intros label; cbn [split]; [by rewrite app_nil_r|].
  destruct (Z.eqb_spec ch 46) as [->|Hc].
  - specialize (IH []). cbn [join]. destruct (split [] buf) eqn:E; [|by rewrite IH].
    destruct (split_head [] buf) as (? & ? & E'). congruence.
  - by rewrite IH, <- app_assoc.
Qed.

(** Text without an empty label is the text of its labels. *)
Lemma join_labels_of dotted :
  forallb nonempty (split [] dotted) = true -> join (labels_of dotted) = dotted.
Proof.
  intros H. unfold labels_of. replace (List.filter nonempty (split [] dotted)) with (split [] dotted) by
    (revert H; induction (split [] dotted) as [|l ls IH]; cbn; [done|]; intros [-> ?]%andb_prop; f_equal; by apply IH).
  by rewrite join_split.
Qed.

(** ** Properties *)

(** C7: the name parser of DNS records refines the grammar of compressed names, on every
    packet and position: it returns without reading outside the packet and without
    looping, whatever pointers the packet has; a positive result is the number of bytes
    of the name where it stands, all of them in the packet, and the stored text is the
    labels of the one name that starts there, joined by dots; it gives 0 for a stored
    name only when no name starts there or its labels and pointers count more bytes than
    the packet; when the name is not stored the result is positive exactly when a name's
    bytes start there, and equal to their number. *)
Theorem parse_name_refines packet pos out :
  Forall is_u8 packet -> (pos <= length packet)%nat ->
  exists consumed out',
    ParseName packet pos out = Ret (consumed, out') /\ (pos + consumed <= length packet)%nat /\
    match out with
    | Some _ =>
        (consumed = 0%nat -> forall ls n, name_at packet pos ls n -> (length packet < n)%nat) /\
        (consumed <> 0%nat -> extent_at packet pos consumed /\
           exists ls n, name_at packet pos ls n /\ Forall is_label ls /\ out' = Some (join ls) /\
             forall ls' n', name_at packet pos ls' n' -> ls' = ls)
    | None => out' = None /\ forall e, extent_at packet pos e <-> e = consumed /\ e <> 0%nat
    end.
Proof.
  intros Hb Hp. destruct out as [o|].
  - destruct (ParseName_stored packet Hb pos o Hp) as (c & o' & E & H0 & H1). exists c, o'. split; [done|].
    destruct (Nat.eq_dec c 0%nat) as [->|Hc]; [split; [lia|]; by split|].
    destruct (H1 Hc) as (ls & n & Hn & -> & He). split; [by apply extent_in_packet|]. split; [done|]. intros _.
    split; [done|]. exists ls, n. split; [done|]. split; [by eapply name_labels|]. split; [done|]. intros ls' n' Hn'.
    by destruct (name_unique packet Hb pos ls n ls' n' Hn Hn').
  - destruct (ParseName_skipped packet Hb pos Hp) as (c & E & H0 & H1). exists c, None. split; [done|].
    destruct (Nat.eq_dec c 0%nat) as [->|Hc].
    + split; [lia|]. split; [done|]. intros e. split; [by intros ?%H0|by intros [-> ?]].
    + specialize (H1 Hc). split; [by apply extent_in_packet|]. split; [done|]. intros e. split; [|by intros [-> _]].
      intros He. rewrite (extent_unique packet Hb pos e c He H1). by split.
Qed.

(** Two labels, then a pointer back to the second; and a pointer to itself. *)
Lemma parse_name_refines_witness :
  ParseName [1; 97; 1; 98; 0; 1; 99; 0xc0; 2; 0] 5 (Some []) = Ret (4%nat, Some [99; 46; 98]) /\
  exists out', ParseName [0xc0; 0] 0 (Some []) = Ret (0%nat, out') /\
    forall ls n, name_at [0xc0; 0] 0 ls n -> (2 < n)%nat.
Proof.
  split; [by vm_compute|].
  destruct (parse_name_refines [0xc0; 0] 0 (Some [])) as (c & out' & E & _ & H & _);
    [repeat constructor; by vm_compute|cbn; lia|].
  vm_compute in E. injection E as <- <-. eexists. split; [by vm_compute|]. by apply H.
Defined.

(** a dotted name is put on the wire exactly when its nonempty labels have at most 63
    bytes each and at most 255 with the root and the length bytes; what is written is
    those labels; and both readers, [DNSDomainToString] on the bytes (whatever follows
    them) and [ParseName] on any packet that holds them, stored or only skipped, return
    the text of the labels, which is the original text when no label was empty. *)
Theorem domain_round_trip dotted :
  match DNSDomainFromDot dotted with
  | Some name =>
      fits (labels_of dotted) = true /\ name = wire (labels_of dotted) /\
      (forall post, DNSDomainToString (name ++ post) = Ret (join (labels_of dotted))) /\
      (forall pre post o, Forall is_u8 (pre ++ name ++ post) ->
         ParseName (pre ++ name ++ post) (length pre) (Some o) = Ret (length name, Some (join (labels_of dotted))) /\
         ParseName (pre ++ name ++ post) (length pre) None = Ret (length name, None)) /\
      (forallb nonempty (split [] dotted) = true -> join (labels_of dotted) = dotted)
  | None => fits (labels_of dotted) = false
  end.
Proof.
  rewrite DNSDomainFromDot_spec. destruct (fits (labels_of dotted)) eqn:Hfit; [|done].
  pose proof (nonempty_labels dotted Hfit) as Hl. do 2 (split; [done|]). split; [|split; [|apply join_labels_of]].
  - intros post. unfold DNSDomainToString. pose proof (to_string_loop_spec (length (wire (labels_of dotted) ++ post)) [] (labels_of dotted) post []) as H.
    cbn [app length] in H. rewrite H, foldl_join; [done|done|done|done|].
    rewrite length_app, wire_flat, length_app. pose proof (flat_length (labels_of dotted)). lia.
  - intros pre post o Hb. destruct (wire_name_at pre (labels_of dotted) post Hl) as [Hn He].
    set (packet := pre ++ wire (labels_of dotted) ++ post) in *.
    assert (Hp : (length pre <= length packet)%nat) by (unfold packet; rewrite !length_app; lia). split.
    + destruct (ParseName_stored packet Hb (length pre) o Hp) as (c & o' & -> & H0 & H1).
      destruct (Nat.eq_dec c 0%nat) as [->|Hz].
      { specialize (H0 eq_refl _ _ Hn). unfold packet in H0. rewrite !length_app, wire_flat, length_app in H0. lia. }
      destruct (H1 Hz) as (ls & n & Hn' & -> & He'). destruct (name_unique packet Hb _ _ _ _ _ Hn' Hn) as [-> _].
      by rewrite (extent_unique packet Hb _ _ _ He' He).
    + destruct (ParseName_skipped packet Hb (length pre) Hp) as (c & -> & H0 & H1).
      destruct (Nat.eq_dec c 0%nat) as [->|Hz]; [by destruct (H0 eq_refl _ He)|].
      by rewrite (extent_unique packet Hb _ _ _ (H1 Hz) He).
Qed.

End DnsName.
