(* ===== verification/NetDnsMessage.v ===== *)
(** DNS messages, [net/dns/dns_query.cc] and [net/dns/dns_response.cc]: the query that is
    sent, the response matched against it, and the parser of its resource records.  The
    content of a fresh [IOBufferWithSize] is arbitrary ([junk]). *)
From S2P Require Import Prelude NetBigEndian NetDnsName.
Import BigEndian DnsName.

Module DnsMessage.

(** ** Layout *)

Definition header_size : nat := 12.
Definition id_offset : nat := 0.
Definition flags_offset : nat := 2.
Definition qdcount_offset : nat := 4.
Definition ancount_offset : nat := 6.

Definition kMaxUDPSize : nat := 512.
Definition kClassIN : Z := 1.
Definition kRcodeMask : Z := 0xf.
Definition kRcodeNOERROR : Z := 0.
Definition kRcodeNXDOMAIN : Z := 3.
Definition kFlagRD : Z := 0x100.
Definition kFlagTC : Z := 0x200.

Definition IOBufferWithSize (junk : list Z) (size : nat) : list Z := resize size 0 junk.

(** [htons] of a value stored in a header field, and [ntohs] of a field: two bytes, the
    high one first. *)
Definition put_net16 (mem : list Z) (offset : nat) (val : Z) : outcome (list Z) := WriteBigEndian 2 mem offset val.
Definition get_net16 (mem : list Z) (offset : nat) : outcome Z := ReadBigEndian 2 mem offset.

(** ** Query *)

Record DnsQuery := Query { qname_size_ : nat; query_io_buffer : list Z }.

(** A write whose result is not looked at. *)
Definition ignoring (write : writer -> outcome (option writer)) (w : writer) : outcome writer :=
  let! o := write w in Ret (default w o).

Definition new_DnsQuery (junk : list Z) (id : Z) (qname : list Z) (qtype : Z) : outcome DnsQuery :=
  let! text := DNSDomainToString qname in
  check! negb (length text =? 0)%nat;
  let question_size := (length qname + 2 + 2)%nat in
  let mem := IOBufferWithSize junk (header_size + question_size) in
  let mem := splice 0 (repeat 0 header_size) mem in
  let! mem := put_net16 mem id_offset id in
  let! mem := put_net16 mem flags_offset kFlagRD in
  let! mem := put_net16 mem qdcount_offset 1 in
  let w := BigEndianWriter mem header_size question_size in
  let! w := ignoring (WriteBytes qname) w in
  let! w := ignoring (WriteU16 qtype) w in
  let! w := ignoring (WriteU16 kClassIN) w in
  Ret (Query (length qname) (w_mem w)).

Definition CloneWithNewId (junk : list Z) (orig : DnsQuery) (id : Z) : outcome DnsQuery :=
  let mem := IOBufferWithSize junk (length (query_io_buffer orig)) in
  let mem := splice 0 (query_io_buffer orig) mem in
  let! mem := put_net16 mem id_offset id in
  Ret (Query (qname_size_ orig) mem).

Definition query_id (q : DnsQuery) : outcome Z := get_net16 (query_io_buffer q) id_offset.
Definition query_qname (q : DnsQuery) : outcome (list Z) := bytes_at (query_io_buffer q) header_size (qname_size_ q).
Definition query_qtype (q : DnsQuery) : outcome Z := ReadBigEndian 2 (query_io_buffer q) (header_size + qname_size_ q).
Definition question (q : DnsQuery) : outcome (list Z) := bytes_at (query_io_buffer q) header_size (qname_size_ q + 2 + 2).

(** ** Records *)

(** [rdata] is a piece of the packet: where it starts and its length. *)
Record DnsResourceRecord := RR { rr_name : list Z; rr_type : Z; rr_klass : Z; rr_ttl : Z; rr_rdata : nat * nat }.

(** The parser sees the first [length_] bytes of the buffer; a read past them is undefined
    here, although the buffer may be larger. *)
Record DnsRecordParser := Parser { packet_ : list Z; cur_ : nat }.

Definition new_DnsRecordParser (packet : list Z) (offset : nat) : outcome DnsRecordParser :=
  check! (offset <=? length packet)%nat; Ret (Parser packet offset).

Definition AtEnd (p : DnsRecordParser) : bool := (cur_ p =? length (packet_ p))%nat.
Definition GetOffset (p : DnsRecordParser) : nat := cur_ p.

(** The conjunction of the reads: each stores its field when it succeeds and the rest is
    only tried then. *)
Definition read_fields (r : reader) (out : DnsResourceRecord) : outcome (option reader * DnsResourceRecord) :=
  let! o := ReadU16 r in
  match o with None => Ret (None, out) | Some (v, r) =>
  let out := RR (rr_name out) v (rr_klass out) (rr_ttl out) (rr_rdata out) in
  let! o := ReadU16 r in
  match o with None => Ret (None, out) | Some (v, r) =>
  let out := RR (rr_name out) (rr_type out) v (rr_ttl out) (rr_rdata out) in
  let! o := ReadU32 r in
  match o with None => Ret (None, out) | Some (v, r) =>
  let out := RR (rr_name out) (rr_type out) (rr_klass out) v (rr_rdata out) in
  let! o := ReadU16 r in
  match o with None => Ret (None, out) | Some (rdlen, r) =>
  match ReadPiece (Z.to_nat rdlen) r with None => Ret (None, out) | Some (start, len, r) =>
  Ret (Some r, RR (rr_name out) (rr_type out) (rr_klass out) (rr_ttl out) (start, len))
  end end end end end.

Definition ParseRecord (p : DnsRecordParser) (out : DnsResourceRecord) :
    outcome (bool * DnsRecordParser * DnsResourceRecord) :=
  let! '(consumed, name) := ParseName (packet_ p) (cur_ p) (Some (rr_name out)) in
  let out := RR (default [] name) (rr_type out) (rr_klass out) (rr_ttl out) (rr_rdata out) in
  if (consumed =? 0)%nat then Ret (false, p, out)
  else
    let cur := (cur_ p + consumed)%nat in
    let! '(r, out) := read_fields (BigEndianReader (packet_ p) cur (length (packet_ p) - cur)) out in
    match r with
    | Some r => Ret (true, Parser (packet_ p) (r_ptr r), out)
    | None => Ret (false, p, out)
    end.

(** ** Response *)

(** No parser before [InitParse] accepts. *)
Record DnsResponse := Response { io_buffer_ : list Z; parser_ : option DnsRecordParser }.

Definition new_DnsResponse (junk : list Z) : DnsResponse := Response (IOBufferWithSize junk (kMaxUDPSize + 1)) None.

(** What the socket reads into the buffer. *)
Definition receive (data : list Z) (r : DnsResponse) : DnsResponse := Response (splice 0 data (io_buffer_ r)) (parser_ r).

Definition InitParse (nbytes : Z) (query : DnsQuery) (r : DnsResponse) : outcome (bool * DnsResponse) :=
  if (nbytes <? Z.of_nat (length (query_io_buffer query))) || (Z.of_nat kMaxUDPSize <? nbytes) then Ret (false, r)
  else
    let! id := get_net16 (io_buffer_ r) id_offset in
    let! qid := query_id query in
    if negb (id =? qid) then Ret (false, r)
    else
      let! qdcount := get_net16 (io_buffer_ r) qdcount_offset in
      if negb (qdcount =? 1) then Ret (false, r)
      else
        let! question := question query in
        let! own := bytes_at (io_buffer_ r) header_size (length question) in
        if negb (bool_decide (question = own)) then Ret (false, r)
        else
          let! packet := bytes_at (io_buffer_ r) 0 (Z.to_nat nbytes) in
          let! parser := new_DnsRecordParser packet (header_size + length question) in
          Ret (true, Response (io_buffer_ r) (Some parser)).

Definition IsValid (r : DnsResponse) : bool := bool_decide (is_Some (parser_ r)).

Definition flags (r : DnsResponse) : outcome Z :=
  check! IsValid r; let! f := get_net16 (io_buffer_ r) flags_offset in Ret (u16 (Z.land f (Z.lnot kRcodeMask))).

Definition rcode (r : DnsResponse) : outcome Z :=
  check! IsValid r; let! f := get_net16 (io_buffer_ r) flags_offset in Ret (u8 (Z.land f kRcodeMask)).

Definition answer_count (r : DnsResponse) : outcome Z :=
  check! IsValid r; get_net16 (io_buffer_ r) ancount_offset.

(** The unsigned subtractions must not wrap: no buffer has that many bytes. *)
Definition qname (r : DnsResponse) : outcome (list Z) :=
  let! p := must (parser_ r) in
  check! (2 * 2 + header_size <=? GetOffset p)%nat;
  bytes_at (io_buffer_ r) header_size (GetOffset p - 2 * 2 - header_size).

Definition qtype (r : DnsResponse) : outcome Z :=
  let! p := must (parser_ r) in
  check! (2 * 2 <=? GetOffset p)%nat;
  ReadBigEndian 2 (io_buffer_ r) (GetOffset p - 2 * 2).

Definition GetDottedName (r : DnsResponse) : outcome (list Z) :=
  let! name := qname r in DNSDomainToString name.

Definition ResponseParser (r : DnsResponse) : outcome DnsRecordParser := must (parser_ r).

(** ** The address list, from [AsyncHostResolver::OnDnsTransactionComplete] *)

(** Records are read until one cannot be; those of the type asked for, of the size of an
    address, are kept. *)
Fixpoint collect (fuel : nat) (type : Z) (p : DnsRecordParser) (record : DnsResourceRecord)
    (ip_addresses : list (list Z)) (ttl : Z) : outcome (list (list Z) * Z) :=
  match fuel with
  | O => Timeout
  | S fuel =>
      let! '(ok, p, record) := ParseRecord p record in
      if ok then
        let '(start, len) := rr_rdata record in
        if (rr_type record =? type) && ((len =? 4)%nat || (len =? 16)%nat) then
          let! address := bytes_at (packet_ p) start len in
          collect fuel type p record (ip_addresses ++ [address]) (Z.min ttl (rr_ttl record))
        else collect fuel type p record ip_addresses ttl
      else Ret (ip_addresses, ttl)
  end.

Definition kuint32max : Z := 2 ^ 32 - 1.

(** The addresses of a response and their time to live; [None] is ERR_NAME_NOT_RESOLVED. *)
Definition response_addresses (type : Z) (r : DnsResponse) : outcome (option (list (list Z) * Z)) :=
  let! p := ResponseParser r in
  let! '(ip_addresses, ttl) := collect (length (packet_ p) + 1) type p (RR [] 0 0 0 (0, 0)%nat) [] kuint32max in
  Ret (if (length ip_addresses =? 0)%nat then None else Some (ip_addresses, ttl)).

(** ** Queries *)

(** Header and question on the wire. *)
Definition header_bytes (id flags qd an ns ar : Z) : list Z :=
  encode [(2%nat, id); (2%nat, flags); (2%nat, qd); (2%nat, an); (2%nat, ns); (2%nat, ar)].
Definition question_bytes (qname : list Z) (qtype : Z) : list Z := qname ++ encode [(2%nat, qtype); (2%nat, kClassIN)].
Definition query_bytes (id : Z) (qname : list Z) (qtype : Z) : list Z :=
  header_bytes id kFlagRD 1 0 0 0 ++ question_bytes qname qtype.

Lemma header_length id flags qd an ns ar : length (header_bytes id flags qd an ns ar) = header_size.
Proof. done. Qed.

Lemma question_length qname qtype : length (question_bytes qname qtype) = (length qname + 2 + 2)%nat.
Proof. unfold question_bytes. rewrite length_app. cbn. lia. Qed.

Lemma put_net16_middle pre old post v off :
  length pre = off -> length old = 2%nat -> put_net16 (pre ++ old ++ post) off v = Ret (pre ++ write_loop 2 v ++ post).
Proof.
  intros <- Hl. unfold put_net16, WriteBigEndian.
  rewrite (proj2 (Nat.leb_le _ _)) by (rewrite !length_app; lia). cbn [dcheck obind].
  by rewrite splice_middle by (by rewrite write_loop_length).
Qed.

Lemma read16_middle pre v post off :
  length pre = off -> Forall is_u8 pre -> Forall is_u8 post -> is_u16 v ->
  ReadBigEndian 2 (pre ++ write_loop 2 v ++ post) off = Ret v.
Proof.
  intros <- Hp Hq Hv. rewrite ReadBigEndian_spec; [|lia| |rewrite !length_app, write_loop_length; lia].
  - rewrite drop_app_length, take_app_length' by (by rewrite write_loop_length).
    rewrite be_value_write. unfold wrap. by rewrite Z.mod_small.
  - apply Forall_app; split; [done|]. apply Forall_app; split; [apply write_loop_u8|done].
Qed.

Lemma cut_length {A} (n m : nat) (l : list A) :
  length l = (n + m)%nat -> exists l1 l2, l = l1 ++ l2 /\ length l1 = n /\ length l2 = m.
Proof.
  intros H. exists (take n l), (drop n l). rewrite length_take, length_drop. split; [by rewrite firstn_skipn|lia].
Qed.

Lemma new_DnsQuery_spec junk id qname qtype text :
  DNSDomainToString qname = Ret text -> text <> [] ->
  new_DnsQuery junk id qname qtype = Ret (Query (length qname) (query_bytes id qname qtype)).
Proof.
  intros Ht Hn. unfold new_DnsQuery. rewrite Ht. cbn [obind]. destruct text as [|c text]; [done|]. cbn [length Nat.eqb negb dcheck obind].
  cbv zeta. set (n := (length qname + 2 + 2)%nat). set (mem := IOBufferWithSize junk (header_size + n)).
  assert (Hm : length mem = (header_size + n)%nat) by apply length_resize.
  assert (Hr : splice 0 (repeat 0 header_size) mem = repeat 0 header_size ++ drop header_size mem) by done. rewrite Hr.
  assert (Hd : length (drop header_size mem) = n) by (rewrite length_drop; lia).
  set (rest := drop header_size mem) in *. clearbody rest mem.
  rewrite (put_net16_middle [] [0; 0] (repeat 0 10 ++ rest) id) by done. cbn [obind].
  rewrite (put_net16_middle (write_loop 2 id) [0; 0] (repeat 0 8 ++ rest) kFlagRD) by done. cbn [obind].
  rewrite (put_net16_middle (write_loop 2 id ++ write_loop 2 kFlagRD) [0; 0] (repeat 0 6 ++ rest) 1) by done. cbn [obind].
  unfold BigEndianWriter, ignoring, WriteU16.
  change ((write_loop 2 id ++ write_loop 2 kFlagRD) ++ write_loop 2 1 ++ repeat 0 6 ++ rest) with (header_bytes id kFlagRD 1 0 0 0 ++ rest).
  set (h := header_bytes id kFlagRD 1 0 0 0). change header_size with (length h).
  destruct (cut_length (length qname) 4 rest) as (r1 & r' & -> & H1 & H'); [unfold n in Hd; lia|].
  rewrite WriteBytes_middle by (done || lia). cbn [obind from_option Datatypes.id].
  destruct (cut_length 2 2 r' H') as (r2 & r3 & -> & H2 & H3).
  rewrite app_assoc, <- length_app. rewrite Write_middle by (rewrite ?length_app; lia). cbn [obind from_option Datatypes.id].
  rewrite app_assoc. rewrite <- (app_nil_r r3).
  replace (length (h ++ qname) + 2)%nat with (length ((h ++ qname) ++ write_loop 2 qtype))
    by (rewrite (length_app (h ++ qname)), write_loop_length; done).
  rewrite Write_middle by (done || (rewrite !length_app, write_loop_length; lia)). cbn [obind from_option Datatypes.id w_mem].
  unfold query_bytes, question_bytes. fold h. rewrite app_nil_r, <- !app_assoc. done.
Qed.

Lemma CloneWithNewId_spec junk id id' qname qtype n :
  CloneWithNewId junk (Query n (query_bytes id qname qtype)) id' = Ret (Query n (query_bytes id' qname qtype)).
Proof.
  unfold CloneWithNewId. cbn [query_io_buffer qname_size_]. cbv zeta.
  rewrite splice_whole by (symmetry; apply length_resize).
  assert (put_net16 (query_bytes id qname qtype) id_offset id' = Ret (query_bytes id' qname qtype)) as E
    by exact (put_net16_middle [] (write_loop 2 id) (drop 2 (query_bytes id qname qtype)) id' 0 eq_refl eq_refl).
  by rewrite E.
Qed.

Lemma query_u8 id qname qtype : Forall is_u8 qname -> Forall is_u8 (query_bytes id qname qtype).
Proof. intros Hq. apply Forall_app. split; [apply encode_u8|]. apply Forall_app. split; [done|apply encode_u8]. Qed.

Lemma query_accessors id qname qtype :
  is_u16 id -> is_u16 qtype -> Forall is_u8 qname ->
  let q := Query (length qname) (query_bytes id qname qtype) in
  query_id q = Ret id /\ query_qname q = Ret qname /\ query_qtype q = Ret qtype /\
  question q = Ret (question_bytes qname qtype).
Proof.
  intros Hi Ht Hq q. pose proof (query_u8 id qname qtype Hq) as Hb. unfold query_id, query_qname, query_qtype, question, q. cbn [query_io_buffer qname_size_].
  set (h := header_bytes id kFlagRD 1 0 0 0). assert (Hh : header_size = length h) by done.
  assert (Hh8 : Forall is_u8 h) by apply encode_u8. split; [|split; [|split]].
  - apply (read16_middle []); [done|constructor| |done].
    apply (Forall_drop _ 2) in Hb. exact Hb.
  - rewrite Hh. apply bytes_at_middle.
  - unfold query_bytes, question_bytes. fold h. rewrite app_assoc.
    apply (read16_middle (h ++ qname) qtype (write_loop 2 kClassIN)); [by rewrite length_app|by apply Forall_app|apply write_loop_u8|done].
  - pose proof (bytes_at_middle h (question_bytes qname qtype) []) as E. rewrite app_nil_r, question_length in E. exact E.
Qed.

(** ** Responses *)

Lemma field16 l : Forall is_u8 l -> length l = 2%nat -> exists v, is_u16 v /\ l = write_loop 2 v.
Proof.
  intros Hl Hn. exists (be_value l). split; [|by rewrite <- Hn, write_loop_value].
  pose proof (be_value_range l Hl) as H. by rewrite Hn in H.
Qed.

(** Twelve bytes are a header. *)
Lemma header_of_bytes l :
  Forall is_u8 l -> length l = header_size ->
  exists id f qd an ns ar, l = header_bytes id f qd an ns ar /\
    is_u16 id /\ is_u16 f /\ is_u16 qd /\ is_u16 an /\ is_u16 ns /\ is_u16 ar.
Proof.
  intros Hl Hn. unfold header_size in Hn.
  destruct (cut_length 2 10 l Hn) as (l1 & l' & -> & H1 & H'). apply Forall_app in Hl as [U1 Hl].
  destruct (cut_length 2 8 l' H') as (l2 & l'' & -> & H2 & H''). apply Forall_app in Hl as [U2 Hl].
  destruct (cut_length 2 6 l'' H'') as (l3 & k & -> & H3 & K). apply Forall_app in Hl as [U3 Hl].
  destruct (cut_length 2 4 k K) as (l4 & k' & -> & H4 & K'). apply Forall_app in Hl as [U4 Hl].
  destruct (cut_length 2 2 k' K') as (l5 & l6 & -> & H5 & H6). apply Forall_app in Hl as [U5 U6].
  destruct (field16 l1) as (v1 & ? & ->), (field16 l2) as (v2 & ? & ->), (field16 l3) as (v3 & ? & ->),
    (field16 l4) as (v4 & ? & ->), (field16 l5) as (v5 & ? & ->), (field16 l6) as (v6 & ? & ->); try done.
  by exists v1, v2, v3, v4, v5, v6.
Qed.

Lemma write_loop_inj n v v' :
  0 <= v < 2 ^ (8 * Z.of_nat n) -> 0 <= v' < 2 ^ (8 * Z.of_nat n) -> write_loop n v = write_loop n v' -> v = v'.
Proof. intros H H' E%(f_equal be_value). rewrite !be_value_write in E. unfold wrap in E. by rewrite !Z.mod_small in E. Qed.

(** The parts of a datagram with room for a header and a question of [n] bytes. *)
Lemma datagram_parts n data :
  Forall is_u8 data -> (header_size + n <= length data)%nat ->
  exists id f qd an ns ar own answers,
    data = header_bytes id f qd an ns ar ++ own ++ answers /\ length own = n /\
    is_u16 id /\ is_u16 f /\ is_u16 qd /\ is_u16 an /\ Forall is_u8 (own ++ answers).
Proof.
  intros Hd Hl. destruct (cut_length header_size (length data - header_size) data) as (h & rest & -> & Hh & Hr); [lia|].
  destruct (cut_length n (length rest - n) rest) as (own & answers & -> & Ho & _); [rewrite length_app in *; lia|].
  apply Forall_app in Hd as [Uh Uo]. destruct (header_of_bytes h Uh Hh) as (id & f & qd & an & ns & ar & -> & ? & ? & ? & ? & _).
  by exists id, f, qd, an, ns, ar, own, answers.
Qed.

Lemma header_inj id f qd an ns ar id' f' qd' an' ns' ar' :
  is_u16 id -> is_u16 id' -> is_u16 qd -> is_u16 qd' ->
  header_bytes id f qd an ns ar = header_bytes id' f' qd' an' ns' ar' -> id = id' /\ qd = qd'.
Proof.
  intros Hi Hi' Hq Hq' E. split; apply (write_loop_inj 2); try done.
  - by apply (f_equal (take 2)) in E.
  - by apply (f_equal (fun l => take 2 (drop 4 l))) in E.
Qed.

Section Header.
Context (id f qd an ns ar : Z) (tail : list Z).
Context (Hid : is_u16 id) (Hf : is_u16 f) (Hqd : is_u16 qd) (Han : is_u16 an) (Htail : Forall is_u8 tail).

Let mem := header_bytes id f qd an ns ar ++ tail.

Lemma get_field pre v post off :
  mem = pre ++ write_loop 2 v ++ post -> length pre = off -> is_u16 v -> get_net16 mem off = Ret v.
Proof.
  intros E Hp Hv. assert (H : Forall is_u8 mem) by (apply Forall_app; split; [apply encode_u8|done]).
  rewrite E in *. apply Forall_app in H as [? H]. apply Forall_app in H as [_ ?]. by apply read16_middle.
Qed.

Lemma header_fields :
  get_net16 mem id_offset = Ret id /\ get_net16 mem flags_offset = Ret f /\
  get_net16 mem qdcount_offset = Ret qd /\ get_net16 mem ancount_offset = Ret an.
Proof.
  split; [|split; [|split]].
  - by apply (get_field [] id (drop 2 mem)).
  - by apply (get_field (take 2 mem) f (drop 4 mem)).
  - by apply (get_field (take 4 mem) qd (drop 6 mem)).
  - by apply (get_field (take 6 mem) an (drop 8 mem)).
Qed.

End Header.

Section Response.
Context (id : Z) (qname_ : list Z) (qtype_ : Z) (text : list Z).
Context (Hid : is_u16 id) (Htype : is_u16 qtype_) (Hname : Forall is_u8 qname_).

Let query := Query (length qname_) (query_bytes id qname_ qtype_).

Lemma query_length : length (query_io_buffer query) = (header_size + (length qname_ + 2 + 2))%nat.
Proof. cbn [query query_io_buffer]. unfold query_bytes. by rewrite length_app, header_length, question_length. Qed.

(** What the parser accepts, for a response whose question is as long as the query's. *)
Lemma InitParse_fields id' f qd an ns ar own answers tail :
  let data := header_bytes id' f qd an ns ar ++ own ++ answers in
  let r := Response (data ++ tail) None in
  is_u16 id' -> is_u16 f -> is_u16 qd -> is_u16 an -> Forall is_u8 (own ++ answers ++ tail) ->
  length own = (length qname_ + 2 + 2)%nat -> (length data <= kMaxUDPSize)%nat ->
  InitParse (Z.of_nat (length data)) query r =
    Ret (if (id' =? id) && (qd =? 1) && bool_decide (own = question_bytes qname_ qtype_)
         then (true, Response (data ++ tail) (Some (Parser data (header_size + length own)))) else (false, r)).
Proof.
  intros data r Hi' Hf Hqd Han Hu Ho Hm. destruct (query_accessors id qname_ qtype_ Hid Htype Hname) as (Eid & _ & _ & Eq).
  fold query in Eid, Eq. assert (Hd : length data = (header_size + length own + length answers)%nat)
    by (unfold data; rewrite !length_app, header_length; lia).
  destruct (header_fields id' f qd an ns ar (own ++ answers ++ tail) Hi' Hf Hqd Han Hu) as (E1 & _ & E3 & _).
  assert (Er : data ++ tail = header_bytes id' f qd an ns ar ++ own ++ answers ++ tail) by (unfold data; by rewrite <- !app_assoc).
  unfold InitParse. rewrite query_length, (proj2 (Z.ltb_ge _ _)), (proj2 (Z.ltb_ge _ _)) by lia. cbn [orb r io_buffer_].
  rewrite Er, E1, Eid. cbn [obind]. destruct (id' =? id); [|done]. cbn [negb]. rewrite E3. cbn [obind].
  destruct (qd =? 1); [|done]. cbn [negb]. rewrite Eq. cbn [obind]. rewrite question_length, <- Ho.
  pose proof (bytes_at_middle (header_bytes id' f qd an ns ar) own (answers ++ tail)) as Eo.
  change (length (header_bytes id' f qd an ns ar)) with header_size in Eo. rewrite Eo. cbn [obind andb].
  destruct (decide (own = question_bytes qname_ qtype_)) as [->|Hne].
  - rewrite !bool_decide_true by done. cbn [negb]. pose proof (bytes_at_middle [] data tail) as Ed. cbn [app length] in Ed.
    rewrite Er in Ed. rewrite Nat2Z.id, Ed. cbn [obind]. unfold new_DnsRecordParser.
    by rewrite (proj2 (Nat.leb_le _ _)) by lia.
  - by rewrite !bool_decide_false by congruence.
Qed.

(** The accessors of an accepted response. *)
Lemma response_accessors f an ns ar answers tail :
  let data := header_bytes id f 1 an ns ar ++ question_bytes qname_ qtype_ ++ answers in
  let r := Response (data ++ tail) (Some (Parser data (header_size + (length qname_ + 2 + 2)))) in
  is_u16 f -> is_u16 an -> Forall is_u8 (answers ++ tail) ->
  flags r = Ret (f / 2 ^ 4 * 2 ^ 4) /\ rcode r = Ret (f mod 2 ^ 4) /\ answer_count r = Ret an /\
  qname r = Ret qname_ /\ qtype r = Ret qtype_ /\ GetDottedName r = DNSDomainToString qname_.
Proof.
  intros data r Hf Han Hu. assert (Hq : Forall is_u8 (question_bytes qname_ qtype_))
    by (apply Forall_app; split; [done|apply encode_u8]).
  assert (Hu' : Forall is_u8 (question_bytes qname_ qtype_ ++ answers ++ tail)) by (apply Forall_app; by split).
  destruct (header_fields id f 1 an ns ar _ Hid Hf ltac:(by unfold is_u16) Han Hu') as (_ & E2 & _ & E4).
  assert (Er : data ++ tail = header_bytes id f 1 an ns ar ++ question_bytes qname_ qtype_ ++ answers ++ tail)
    by (unfold data; by rewrite <- !app_assoc).
  assert (En : qname r = Ret qname_).
  { unfold qname, r. cbn [parser_ must obind GetOffset cur_ io_buffer_]. rewrite (proj2 (Nat.leb_le _ _)) by lia.
    cbn [dcheck obind]. replace (header_size + (length qname_ + 2 + 2) - 2 * 2 - header_size)%nat with (length qname_) by lia.
    rewrite Er. unfold question_bytes. rewrite <- app_assoc.
    exact (bytes_at_middle (header_bytes id f 1 an ns ar) qname_ _). }
  assert (Ev : IsValid r = true) by done. unfold flags, rcode, answer_count, GetDottedName. rewrite En, Ev.
  cbn [r io_buffer_ dcheck obind]. rewrite Er, E2. cbn [obind]. unfold is_u16 in Hf. split; [|split; [|split; [done|split; [done|split; [|done]]]]].
  - change kRcodeMask with (Z.ones 4). rewrite <- Z.ldiff_land, Z.ldiff_ones_r, Z.shiftr_div_pow2, Z.shiftl_mul_pow2 by lia.
    f_equal. unfold u16. apply Z.mod_small. div_lia.
  - change kRcodeMask with (Z.ones 4). rewrite Z.land_ones by lia. f_equal. unfold u8. apply Z.mod_small. div_lia.
  - unfold qtype, r. cbn [parser_ must obind GetOffset cur_ io_buffer_]. rewrite (proj2 (Nat.leb_le _ _)) by lia.
    cbn [dcheck obind]. replace (header_size + (length qname_ + 2 + 2) - 2 * 2)%nat with (header_size + length qname_)%nat by lia.
    rewrite Er. unfold question_bytes. rewrite <- app_assoc, app_assoc.
    apply (read16_middle (header_bytes id f 1 an ns ar ++ qname_) qtype_ (write_loop 2 kClassIN ++ answers ++ tail)).
    + by rewrite length_app.
    + apply Forall_app. split; [apply encode_u8|done].
    + apply Forall_app. split; [apply write_loop_u8|done].
    + done.
Qed.

(** A response that answers the query: its buffer starts with a datagram of a header with
    the identifier, the question and any answers. *)
Definition matching (r : DnsResponse) : Prop :=
  exists f an ns ar answers tail,
    let data := header_bytes id f 1 an ns ar ++ question_bytes qname_ qtype_ ++ answers in
    r = Response (data ++ tail) (Some (Parser data (header_size + (length qname_ + 2 + 2)))) /\
    is_u16 f /\ is_u16 an /\ Forall is_u8 (answers ++ tail) /\ (length data <= kMaxUDPSize)%nat.

Lemma InitParse_refused nbytes io :
  nbytes < Z.of_nat (length (query_io_buffer query)) \/ Z.of_nat kMaxUDPSize < nbytes ->
  InitParse nbytes query (Response io None) = Ret (false, Response io None).
Proof. intros H. unfold InitParse. assert (_ || _ = true) as -> by lia. done. Qed.

(** The datagram at the front of the buffer is accepted when it matches, and nothing else
    happens. *)
Lemma InitParse_cases data tail :
  Forall is_u8 (data ++ tail) ->
  let r0 := Response (data ++ tail) None in
  let accepted f an ns ar answers :=
    data = header_bytes id f 1 an ns ar ++ question_bytes qname_ qtype_ ++ answers /\
    is_u16 f /\ is_u16 an /\ (length data <= kMaxUDPSize)%nat in
  (InitParse (Z.of_nat (length data)) query r0 = Ret (false, r0) /\ forall f an ns ar answers, ~ accepted f an ns ar answers) \/
  (exists f an ns ar answers, accepted f an ns ar answers /\ Forall is_u8 (answers ++ tail) /\
     InitParse (Z.of_nat (length data)) query r0 =
       Ret (true, Response (data ++ tail) (Some (Parser data (header_size + (length qname_ + 2 + 2)))))).
Proof.
  intros [Hd Htail]%Forall_app r0 accepted.
  assert (Hlen : forall f an ns ar answers, accepted f an ns ar answers ->
    (header_size + (length qname_ + 2 + 2) + length answers = length data)%nat).
  { intros f an ns ar answers [-> _]. rewrite !length_app, header_length, question_length. lia. }
  destruct (decide (length data < length (query_io_buffer query) \/ kMaxUDPSize < length data)%nat) as [Hs|Hs].
  { left. split; [apply InitParse_refused; lia|]. intros f an ns ar answers H. pose proof (Hlen _ _ _ _ _ H).
    destruct H as (_ & _ & _ & ?). rewrite query_length in Hs. lia. }
  rewrite query_length in Hs.
  destruct (datagram_parts (length qname_ + 2 + 2) data Hd) as (id' & f & qd & an & ns & ar & own & answers & E & Ho & Hi' & Hf & Hqd & Han & Uo); [lia|].
  pose proof (InitParse_fields id' f qd an ns ar own answers tail Hi' Hf Hqd Han) as H. rewrite <- E in H.
  specialize (H ltac:(rewrite app_assoc; apply Forall_app; by split) Ho ltac:(lia)). fold r0 in H.
  destruct (_ && _) eqn:Ec in H.
  - right. apply andb_prop in Ec as [[->%Z.eqb_eq ->%Z.eqb_eq]%andb_prop ->%bool_decide_eq_true].
    exists f, an, ns, ar, answers. split; [split; [done|split; [done|split; [done|lia]]]|].
    split; [apply Forall_app in Uo as [_ ?]; apply Forall_app; by split|]. by rewrite <- Ho.
  - left. split; [exact H|]. intros f' an' ns' ar' answers' (E' & _). rewrite E in E'.
    apply app_inj_1 in E' as [Eh E']; [|done]. apply app_inj_1 in E' as [Eo _]; [|by rewrite question_length].
    assert (U1 : is_u16 1) by by unfold is_u16.
    destruct (header_inj _ _ _ _ _ _ _ _ _ _ _ _ Hi' Hid Hqd U1 Eh) as [-> ->].
    by rewrite Z.eqb_refl, bool_decide_true in Ec.
Qed.

End Response.

(** ** Records *)

Definition rr_fields (rr : DnsResourceRecord) (rdlen : Z) : list (nat * Z) :=
  [(2%nat, rr_type rr); (2%nat, rr_klass rr); (4%nat, rr_ttl rr); (2%nat, rdlen)].

(** A record at [p], with a name of the given cost; the next one is at [p']. *)
Definition record_at (packet : list Z) (p : nat) (rr : DnsResourceRecord) (cost p' : nat) : Prop :=
  exists ls e rdlen,
    name_at packet p ls cost /\ extent_at packet p e /\ rr_name rr = join ls /\
    Forall field_ok (rr_fields rr rdlen) /\
    take 10 (drop (p + e) packet) = encode (rr_fields rr rdlen) /\
    rr_rdata rr = (p + e + 10, Z.to_nat rdlen)%nat /\
    p' = (p + e + 10 + Z.to_nat rdlen)%nat /\ (p' <= length packet)%nat.

Lemma field_of l : Forall is_u8 l -> l <> [] -> exists v, field_ok (length l, v) /\ l = write_loop (length l) v.
Proof.
  intros Hl Hn. exists (be_value l). split; [|by rewrite write_loop_value]. split; [|by apply be_value_range].
  destruct l; cbn; [done|lia].
Qed.

Section Fields.
Context (packet : list Z) (Hbytes : Forall is_u8 packet).

Lemma take_take_drop_add {A} (l : list A) n m : take (n + m) l = take n l ++ take m (drop n l).
Proof. revert l. induction n as [|n IH]; intros [|x l]; cbn; try done; [by destruct m|]. by rewrite IH. Qed.

Lemma field_there q size :
  (0 < size)%nat -> (q + size <= length packet)%nat ->
  exists v, field_ok (size, v) /\ take size (drop q packet) = write_loop size v /\
    Read size (Reader packet q (length packet)) = Ret (Some (v, Reader packet (q + size) (length packet))).
Proof.
  intros Hs Hq. assert (Hl : length (take size (drop q packet)) = size) by (rewrite length_take, length_drop; lia).
  destruct (field_of (take size (drop q packet))) as (v & Hv & E);
    [by apply Forall_take, Forall_drop|intros E; rewrite E in Hl; cbn in Hl; lia|].
  rewrite Hl in Hv, E. exists v. split; [done|]. split; [done|].
  rewrite Read_spec by done. cbn [r_end r_ptr r_mem]. rewrite (proj2 (Nat.ltb_ge _ _)) by lia.
  rewrite E, be_value_write. unfold wrap. rewrite Z.mod_small by apply Hv. done.
Qed.

(** Ten bytes are there: the fields are read, and the data when it fits. *)
Lemma read_fields_there q out :
  (q + 10 <= length packet)%nat ->
  exists t k ttl rdlen,
    Forall field_ok [(2%nat, t); (2%nat, k); (4%nat, ttl); (2%nat, rdlen)] /\
    take 10 (drop q packet) = encode [(2%nat, t); (2%nat, k); (4%nat, ttl); (2%nat, rdlen)] /\
    read_fields (Reader packet q (length packet)) out =
      let next := (q + 10 + Z.to_nat rdlen)%nat in
      Ret (if (length packet <? next)%nat then (None, RR (rr_name out) t k ttl (rr_rdata out))
           else (Some (Reader packet next (length packet)), RR (rr_name out) t k ttl (q + 10, Z.to_nat rdlen)%nat)).
Proof.
  intros Hq. destruct (field_there q 2) as (t & Ft & Et & Rt); [lia..|].
  destruct (field_there (q + 2) 2) as (k & Fk & Ek & Rk); [lia..|].
  destruct (field_there (q + 4) 4) as (ttl & Fl & El & Rl); [lia..|].
  destruct (field_there (q + 8) 2) as (d & Fd & Ed & Rd); [lia..|].
  exists t, k, ttl, d. split; [do 4 (apply List.Forall_cons; [done|]); done|]. split.
  - change 10%nat with (2 + (2 + (4 + 2)))%nat. rewrite !take_take_drop_add, !drop_drop.
    replace (q + 2 + 2)%nat with (q + 4)%nat by lia. replace (q + 4 + 4)%nat with (q + 8)%nat by lia.
    by rewrite Et, Ek, El, Ed.
  - unfold read_fields, ReadU16, ReadU32. rewrite Rt. cbn [obind]. rewrite Rk. cbn [obind].
    replace (q + 2 + 2)%nat with (q + 4)%nat by lia. rewrite Rl. cbn [obind].
    replace (q + 4 + 4)%nat with (q + 8)%nat by lia. rewrite Rd. cbn [obind].
    replace (q + 8 + 2)%nat with (q + 10)%nat by lia. unfold ReadPiece. cbn [r_end r_ptr].
    by destruct (Nat.ltb_spec (length packet) (q + 10 + Z.to_nat d)).
Qed.

(** Fewer bytes: nothing is accepted. *)
Lemma read_fields_short q out :
  (length packet < q + 10)%nat ->
  exists out', read_fields (Reader packet q (length packet)) out = Ret (None, out').
Proof.
  intros Hq. unfold read_fields, ReadU16, ReadU32, ReadPiece.
  repeat (rewrite Read_spec by (done || (cbn; lia)); cbn [r_end r_ptr r_mem r_advance obind];
    match goal with |- context [(length packet <? ?n)%nat] => destruct (Nat.ltb_spec (length packet) n); [by eexists|] end).
  lia.
Qed.

Lemma encode_fields rr d rr' d' :
  Forall field_ok (rr_fields rr d) -> Forall field_ok (rr_fields rr' d') ->
  encode (rr_fields rr d) = encode (rr_fields rr' d') ->
  rr_type rr = rr_type rr' /\ rr_klass rr = rr_klass rr' /\ rr_ttl rr = rr_ttl rr' /\ d = d'.
Proof.
  unfold rr_fields. rewrite !Forall_cons. cbn [fst snd]. intros (F1 & F2 & F3 & F4 & _) (G1 & G2 & G3 & G4 & _) E.
  split; [|split; [|split]].
  - apply (write_loop_inj 2); [apply F1|apply G1|]. by apply (f_equal (take 2)) in E.
  - apply (write_loop_inj 2); [apply F2|apply G2|]. by apply (f_equal (fun l => take 2 (drop 2 l))) in E.
  - apply (write_loop_inj 4); [apply F3|apply G3|]. by apply (f_equal (fun l => take 4 (drop 4 l))) in E.
  - apply (write_loop_inj 2); [apply F4|apply G4|]. by apply (f_equal (drop 8)) in E.
Qed.

Lemma record_unique p rr cost next rr' cost' next' :
  record_at packet p rr cost next -> record_at packet p rr' cost' next' -> rr = rr' /\ cost = cost' /\ next = next'.
Proof.
  intros (ls & e & d & Hn & He & En & Hf & Ef & Er & -> & _) (ls' & e' & d' & Hn' & He' & En' & Hf' & Ef' & Er' & -> & _).
  destruct (name_unique packet Hbytes p ls cost ls' cost' Hn Hn') as [-> ->].
  rewrite (extent_unique packet Hbytes p e e' He He') in *.
  destruct (encode_fields rr d rr' d' Hf Hf') as (? & ? & ? & ->); [congruence|].
  destruct rr, rr'; cbn in *; split; [congruence|done].
Qed.

Lemma ParseRecord_spec cur out :
  (cur <= length packet)%nat ->
  exists ok p' out', ParseRecord (Parser packet cur) out = Ret (ok, p', out') /\ packet_ p' = packet /\
    if ok : bool then (exists cost, record_at packet cur out' cost (cur_ p')) /\ (cur < cur_ p' <= length packet)%nat
    else p' = Parser packet cur /\ forall rr cost next, record_at packet cur rr cost next -> (length packet < cost)%nat.
Proof.
  intros Hc. unfold ParseRecord. cbn [packet_ cur_].
  destruct (ParseName_stored packet Hbytes cur (rr_name out) Hc) as (c & name & -> & H0 & H1). cbn [obind].
  destruct (Nat.eqb_spec c 0) as [->|Hz].
  { do 3 eexists. split; [done|]. split; [done|]. split; [done|]. intros rr cost next (ls & e & d & Hn & _). by eapply H0. }
  destruct (H1 Hz) as (ls & n & Hn & -> & He). pose proof (extent_in_packet packet cur c He) as Hin.
  unfold BigEndianReader. replace (cur + c + (length packet - (cur + c)))%nat with (length packet) by lia.
  cbn [from_option Datatypes.id]. set (out1 := RR (join ls) _ _ _ _).
  destruct (Nat.le_gt_cases (cur + c + 10) (length packet)) as [Hq|Hq].
  - destruct (read_fields_there (cur + c) out1 Hq) as (t & k & ttl & d & Hf & Ef & ->). cbv zeta. cbn [obind].
    destruct (Nat.ltb_spec (length packet) (cur + c + 10 + Z.to_nat d)) as [Hd|Hd]; cbn [obind].
    + do 3 eexists. split; [done|]. split; [done|]. split; [done|].
      intros rr cost next (ls' & e' & d' & _ & He' & _ & Hf' & Ef' & _ & -> & Hle).
      rewrite (extent_unique packet Hbytes cur e' c He' He) in *.
      destruct (encode_fields rr d' (RR [] t k ttl (0, 0)%nat) d Hf' Hf) as (_ & _ & _ & ->); [rewrite <- Ef'; exact Ef|].
      lia.
    + do 3 eexists. split; [done|]. split; [done|]. cbn [cur_ r_ptr]. split; [|lia]. exists n, ls, c, d. by repeat split.
  - destruct (read_fields_short (cur + c) out1 Hq) as (out' & ->). cbn [obind]. do 3 eexists. split; [done|].
    split; [done|]. split; [done|]. intros rr cost next (ls' & e' & d' & _ & He' & _ & _ & _ & _ & -> & Hle).
    rewrite (extent_unique packet Hbytes cur e' c He' He) in *. lia.
Qed.

End Fields.

(** The records of an answer section, up to the first place where there is none. *)
Inductive answers_at (packet : list Z) : nat -> list DnsResourceRecord -> Prop :=
| answers_end p : (forall rr cost next, ~ record_at packet p rr cost next) -> answers_at packet p []
| answers_next p rr cost next rrs :
    record_at packet p rr cost next -> (cost <= length packet)%nat -> answers_at packet next rrs ->
    answers_at packet p (rr :: rrs).

(** The records of the type asked for whose data is an address, and what is kept of them. *)
Definition is_address (type : Z) (rr : DnsResourceRecord) : bool :=
  (rr_type rr =? type) && ((snd (rr_rdata rr) =? 4)%nat || (snd (rr_rdata rr) =? 16)%nat).
Definition piece (packet : list Z) (rr : DnsResourceRecord) : list Z :=
  take (snd (rr_rdata rr)) (drop (fst (rr_rdata rr)) packet).
Definition addresses_of (packet : list Z) (type : Z) (rrs : list DnsResourceRecord) : list (list Z) :=
  map (piece packet) (List.filter (is_address type) rrs).
Definition min_ttl (type : Z) (ttl : Z) (rrs : list DnsResourceRecord) : Z :=
  foldl (fun ttl rr => Z.min ttl (rr_ttl rr)) ttl (List.filter (is_address type) rrs).

Lemma record_piece packet p rr cost next :
  record_at packet p rr cost next ->
  bytes_at packet (fst (rr_rdata rr)) (snd (rr_rdata rr)) = Ret (piece packet rr) /\ (p < next)%nat.
Proof.
  unfold piece. intros (ls & e & d & _ & _ & _ & _ & _ & -> & -> & Hle). cbn [fst snd]. split; [|lia]. apply bytes_at_in. lia.
Qed.

Section Collect.
Context (packet : list Z) (Hbytes : Forall is_u8 packet) (type : Z).

Lemma collect_step fuel p cur record acc ttl :
  (cur <= length packet)%nat -> p = Parser packet cur ->
  exists record',
    (collect (S fuel) type p record acc ttl = Ret (acc, ttl) /\
     forall rr cost next, record_at packet cur rr cost next -> (length packet < cost)%nat) \/
    (exists cost next, record_at packet cur record' cost next /\ (cur < next <= length packet)%nat /\
     collect (S fuel) type p record acc ttl =
       collect fuel type (Parser packet next) record' (acc ++ addresses_of packet type [record'])
         (min_ttl type ttl [record'])).
Proof.
  intros Hc ->. cbn [collect]. destruct (ParseRecord_spec packet Hbytes cur record Hc) as (ok & [pk next] & out & -> & Hp & H).
  cbn [packet_ cur_] in *. subst pk. exists out. cbn [obind]. destruct ok; [right|left; split; [done|apply H]].
  destruct H as [(cost & Hr) Hn]. exists cost, next. split; [done|]. split; [done|].
  destruct (record_piece packet cur out cost next Hr) as [Hb _]. destruct out as [nm t k l [start len]].
  unfold addresses_of, min_ttl, is_address. cbn [List.filter rr_rdata rr_type rr_ttl fst snd packet_] in *.
  destruct (_ && _); cbn [map foldl rr_ttl]; [by rewrite Hb|by rewrite app_nil_r].
Qed.

Lemma collect_total fuel cur record acc ttl :
  (cur <= length packet)%nat -> (length packet - cur < fuel)%nat ->
  exists res, collect fuel type (Parser packet cur) record acc ttl = Ret res.
Proof.
  revert cur record acc ttl. induction fuel as [|fuel IH]; intros cur record acc ttl Hc Hf; [lia|].
  destruct (collect_step fuel _ cur record acc ttl Hc eq_refl) as (out & [[-> _] | (cost & next & _ & Hn & ->)]); [by eexists|].
  apply IH; lia.
Qed.

Lemma collect_spec rrs cur fuel record acc ttl :
  answers_at packet cur rrs -> (cur <= length packet)%nat -> (length packet - cur < fuel)%nat ->
  collect fuel type (Parser packet cur) record acc ttl = Ret (acc ++ addresses_of packet type rrs, min_ttl type ttl rrs).
Proof.
  intros H. revert fuel record acc ttl. induction H as [cur Hno | cur rr cost next rrs Hr Hcost _ IH]; intros fuel record acc ttl Hc Hf;
    (destruct fuel as [|fuel]; [lia|]);
    destruct (collect_step fuel _ cur record acc ttl Hc eq_refl) as (out & [[-> Hmax] | (cost' & next' & Hr' & Hn & ->)]).
  - by rewrite app_nil_r.
  - by apply Hno in Hr'.
  - apply Hmax in Hr. lia.
  - destruct (record_unique packet Hbytes _ _ _ _ _ _ _ Hr Hr') as (<- & <- & <-). rewrite IH by lia.
    unfold addresses_of, min_ttl. cbn [List.filter]. destruct (is_address type rr); cbn [map foldl]; by rewrite <- ?app_assoc, ?app_nil_r.
Qed.

End Collect.

(** ** Properties *)

(** a query built for a name, a type and an identifier is, whatever the fresh buffer
    held, the header with these and one question, and the question; its accessors return
    the identifier, the name, the type and the question; a clone differs in the
    identifier only and equals a query built afresh; a name with no text is refused. *)
Theorem dns_query_round_trip junk id id' qname_ qtype_ text :
  is_u16 id -> is_u16 id' -> is_u16 qtype_ -> Forall is_u8 qname_ -> DNSDomainToString qname_ = Ret text ->
  if bool_decide (text = []) then new_DnsQuery junk id qname_ qtype_ = Crash
  else exists q q',
    new_DnsQuery junk id qname_ qtype_ = Ret q /\ query_io_buffer q = query_bytes id qname_ qtype_ /\
    query_id q = Ret id /\ query_qname q = Ret qname_ /\ query_qtype q = Ret qtype_ /\
    question q = Ret (question_bytes qname_ qtype_) /\
    CloneWithNewId junk q id' = Ret q' /\ new_DnsQuery junk id' qname_ qtype_ = Ret q' /\
    query_id q' = Ret id' /\ drop 2 (query_io_buffer q') = drop 2 (query_io_buffer q).
Proof.
  intros Hi Hi' Ht Hq Htext. destruct (decide (text = [])) as [->|Hn].
  - rewrite bool_decide_true by done. unfold new_DnsQuery. by rewrite Htext.
  - rewrite bool_decide_false by done. do 2 eexists.
    split; [by eapply new_DnsQuery_spec|]. split; [done|].
    destruct (query_accessors id qname_ qtype_ Hi Ht Hq) as (H1 & H2 & H3 & H4). do 4 (split; [done|]).
    split; [apply CloneWithNewId_spec|]. split; [by eapply new_DnsQuery_spec|]. split; [|done].
    by destruct (query_accessors id' qname_ qtype_ Hi' Ht Hq).
Qed.

Example dns_query_round_trip_witness :
  exists q q',
    new_DnsQuery [7; 7; 7] 0xbeef [1; 97; 0] 1 = Ret q /\
    query_io_buffer q = [0xbe; 0xef; 1; 0; 0; 1; 0; 0; 0; 0; 0; 0; 1; 97; 0; 0; 1; 0; 1] /\
    CloneWithNewId [7; 7; 7] q 0x1234 = Ret q' /\ query_id q' = Ret 0x1234.
Proof.
  pose proof (dns_query_round_trip [7; 7; 7] 0xbeef 0x1234 [1; 97; 0] 1 [97]) as H.
  destruct H as (q & q' & H1 & H2 & _ & _ & _ & _ & H3 & _ & H4 & _);
    [by unfold is_u16|by unfold is_u16|by unfold is_u16|by apply bytes_u8|by vm_compute|].
  by exists q, q'.
Defined.

(** C39: a received datagram is accepted as the response to a query exactly when it has at
    most 512 bytes and consists of a header with the query's identifier and one question,
    the query's question, and anything after it; every read is inside the buffer.  Then
    the accessors return the header's flags without the response code, the code and the
    count of answers, the query's name and type and its dotted text, and the record parser
    stands after the question; otherwise the response stays invalid. *)
Theorem response_matches_query junk junk' id qname_ qtype_ text data :
  is_u16 id -> is_u16 qtype_ -> Forall is_u8 qname_ -> DNSDomainToString qname_ = Ret text -> text <> [] ->
  Forall is_u8 junk' -> Forall is_u8 data -> (length data <= kMaxUDPSize + 1)%nat ->
  let accepted f an ns ar answers :=
    data = header_bytes id f 1 an ns ar ++ question_bytes qname_ qtype_ ++ answers /\
    is_u16 f /\ is_u16 an /\ (length data <= kMaxUDPSize)%nat in
  exists q ok r,
    new_DnsQuery junk id qname_ qtype_ = Ret q /\
    InitParse (Z.of_nat (length data)) q (receive data (new_DnsResponse junk')) = Ret (ok, r) /\ IsValid r = ok /\
    if ok : bool then
      exists f an ns ar answers, accepted f an ns ar answers /\
        flags r = Ret (f / 2 ^ 4 * 2 ^ 4) /\ rcode r = Ret (f mod 2 ^ 4) /\ answer_count r = Ret an /\
        qname r = Ret qname_ /\ qtype r = Ret qtype_ /\ GetDottedName r = Ret text /\
        ResponseParser r = Ret (Parser data (length data - length answers))
    else r = receive data (new_DnsResponse junk') /\ forall f an ns ar answers, ~ accepted f an ns ar answers.
Proof.
  intros Hi Ht Hq Htext Hn Hj Hd Hm accepted. exists (Query (length qname_) (query_bytes id qname_ qtype_)).
  set (q := Query _ _). set (tail := drop (length data) (IOBufferWithSize junk' (kMaxUDPSize + 1))).
  assert (Er : receive data (new_DnsResponse junk') = Response (data ++ tail) None) by done. rewrite Er.
  assert (Hu : Forall is_u8 (data ++ tail))
    by (apply Forall_app; split; [done|apply Forall_drop, Forall_resize; [by unfold is_u8|done]]).
  destruct (InitParse_cases id qname_ qtype_ Hi Ht Hq data tail Hu) as [[H Hno] | (f & an & ns & ar & answers & Hacc & Ua & H)].
  - exists false. eexists. split; [by eapply new_DnsQuery_spec|]. by split; [exact H|].
  - do 2 eexists. split; [by eapply new_DnsQuery_spec|]. split; [exact H|]. split; [done|].
    exists f, an, ns, ar, answers. split; [exact Hacc|]. destruct Hacc as (E & Hf & Han & _).
    pose proof (response_accessors id qname_ qtype_ Hi Ht Hq f an ns ar answers tail Hf Han Ua) as (A1 & A2 & A3 & A4 & A5 & A6).
    rewrite <- E, Htext in *. do 6 (split; [done|]).
    unfold ResponseParser. cbn [parser_ must]. do 2 f_equal. rewrite E, !length_app, header_length, question_length. lia.
Qed.

(** Query for the name "a", and a response with one address for it. *)
Definition sample_response : list Z :=
  header_bytes 0xbeef 0x8180 1 1 0 0 ++ question_bytes [1; 97; 0] 1 ++
  [0xc0; 12; 0; 1; 0; 1; 0; 0; 0; 60; 0; 4; 10; 0; 0; 1].

Example response_matches_query_witness :
  exists q r,
    new_DnsQuery [] 0xbeef [1; 97; 0] 1 = Ret q /\
    InitParse (Z.of_nat (length sample_response)) q (receive sample_response (new_DnsResponse [])) = Ret (true, r) /\
    qtype r = Ret 1 /\ GetDottedName r = Ret [97] /\ answer_count r = Ret 1.
Proof.
  pose proof (response_matches_query [] [] 0xbeef [1; 97; 0] 1 [97] sample_response) as H.
  destruct H as (q & ok & r & Hq & Hp & Hv & H);
    [by unfold is_u16|by unfold is_u16|by apply bytes_u8|by vm_compute|done|constructor|by apply bytes_u8|by apply Nat.leb_le|].
  vm_compute in Hq. injection Hq as <-. vm_compute in Hp. injection Hp as <- <-. do 2 eexists. split; [done|].
  split; [by vm_compute|]. destruct H as (f & an & ns & ar & answers & _ & _ & _ & H1 & _ & H2 & H3 & _).
  split; [exact H2|]. split; [exact H3|by vm_compute].
Defined.

(** C40: the addresses of an accepted response are computed for every packet, whatever
    its records: no read is outside the packet and the walk ends; when the answers up to
    the first unreadable one are given by the grammar of records, the addresses are the
    data of those of the type asked for with 4 or 16 bytes, in order, with the least time
    to live among them, and the name is unresolved when there is none. *)
Theorem address_list_refines type packet io cur :
  Forall is_u8 packet -> (cur <= length packet)%nat ->
  (exists result, response_addresses type (Response io (Some (Parser packet cur))) = Ret result) /\
  forall rrs, answers_at packet cur rrs ->
    response_addresses type (Response io (Some (Parser packet cur))) =
      Ret (if bool_decide (addresses_of packet type rrs = []) then None
           else Some (addresses_of packet type rrs, min_ttl type kuint32max rrs)).
Proof.
  intros Hb Hc. unfold response_addresses, ResponseParser. cbn [parser_ must obind packet_]. split.
  - destruct (collect_total packet Hb type (length packet + 1) cur (RR [] 0 0 0 (0, 0)%nat) [] kuint32max Hc) as [[l t] ->]; [lia|].
    by eexists.
  - intros rrs Hr. rewrite (collect_spec packet Hb type rrs) by (done || lia). cbn [obind app]. f_equal.
    destruct (addresses_of packet type rrs); [done|]. by rewrite bool_decide_false.
Qed.

Example address_list_refines_witness :
  response_addresses 1 (Response sample_response (Some (Parser sample_response 19))) = Ret (Some ([[10; 0; 0; 1]], 60)).
Proof.
  assert (Hb : Forall is_u8 sample_response) by by apply bytes_u8.
  destruct (address_list_refines 1 sample_response sample_response 19 Hb) as [_ H]; [by apply Nat.leb_le|].
  specialize (H [RR [97] 1 1 60 (31, 4)%nat]). rewrite H; [done|].
  assert (Hn : name_at sample_response 19 [[97]] (2 + 2)).
  { apply (name_pointer _ _ 12); [exists 0xc0, 12; do 4 (split; [done|]); by apply Nat.ltb_lt|]. apply (name_label _ _ [97] [] 0).
    - split; [done|]. split; [split; [done|cbn; lia]|]. split; [done|]. by apply Nat.ltb_lt.
    - by constructor. }
  eapply answers_next with (cost := 4%nat) (next := 35%nat).
  - exists [[97]], 2%nat, 4. split; [exact Hn|]. split; [by eapply (extent_pointer _ _ 0xc0); [| |apply Nat.leb_le]|].
    split; [done|]. split; [do 4 (apply List.Forall_cons; [unfold field_ok; cbn; lia|]); constructor|]. repeat split. cbn. lia.
  - cbn. lia.
  - constructor. intros rr cost next (ls & e & d & Hn' & _). eapply nothing_at_end in Hn'; [done|by apply Nat.leb_le].
Defined.

End DnsMessage.
