(* ===== verification/NetDnsTransaction.v ===== *)
(** DNS transactions, [net/dns/dns_transaction.cc] and [net/dns/dns_session.cc]: the search
    list of a name, one exchange over UDP ([DnsUDPAttempt]), and the transaction that makes
    the attempts, rotates over the servers, tries the names of the search list and calls
    back once.  Sockets, random numbers and fresh buffers are the [Network]. *)
From S2P Require Import Prelude NetBigEndian NetDnsName NetDnsMessage.
Import BigEndian DnsName DnsMessage.

(** What the operations of the k-th use of the network return at once: a result, for a read
    with the bytes put in the buffer; a random number; and the content of a new buffer. *)
Class Network := {
  connect_result : nat -> Z;
  write_result : nat -> Z;
  read_result : nat -> Z * list Z;
  rand_result : nat -> Z;
  fresh : nat -> list Z;
}.

Module DnsTransaction.

Definition OK : Z := 0.
Definition ERR_IO_PENDING : Z := -1.
Definition ERR_INVALID_ARGUMENT : Z := -4.
Definition ERR_NAME_NOT_RESOLVED : Z := -105.
Definition ERR_MSG_TOO_BIG : Z := -142.
Definition ERR_DNS_MALFORMED_RESPONSE : Z := -800.
Definition ERR_DNS_SERVER_REQUIRES_TCP : Z := -801.
Definition ERR_DNS_SERVER_FAILED : Z := -802.
Definition ERR_DNS_TIMED_OUT : Z := -803.

(** ** Configuration and session *)

(** A name server is a number here; [timeout] is in microseconds. *)
Record DnsConfig := Config {
  nameservers : list Z; search : list (list Z); ndots : Z; timeout : Z; attempts : Z; rotate : bool }.

(** The session's [server_index_] is its only state. *)
Definition NextFirstServerIndex (config : DnsConfig) (server_index : Z) : outcome (Z * Z) :=
  if rotate config then
    check! negb (length (nameservers config) =? 0)%nat;
    Ret (server_index, (server_index + 1) mod Z.of_nat (length (nameservers config)))
  else Ret (server_index, server_index).

(** Shifting 1 by 31 or more has no defined value. *)
Definition NextTimeout (config : DnsConfig) (attempt : Z) : outcome Z :=
  check! negb (length (nameservers config) =? 0)%nat;
  let round := attempt / Z.of_nat (length (nameservers config)) in
  check! (round <? 31);
  Ret (i64 (timeout config * Z.shiftl 1 round)).

(** [attempts * nameservers.size()], unsigned. *)
Definition max_attempts (config : DnsConfig) : Z := u64 (attempts config * Z.of_nat (length (nameservers config))).

(** ** The search list *)

(** The length byte is a signed [char]; the names are the output of [DNSDomainFromDot]. *)
Fixpoint count_loop (fuel : nat) (name : list Z) (i : nat) (count : Z) : outcome Z :=
  match name !! i with
  | None => Ret count
  | Some n =>
      if n =? 0 then Ret count
      else
        match fuel with
        | O => Timeout
        | S fuel => check! (n <? 128); count_loop fuel name (i + (Z.to_nat n + 1)) (count + 1)
        end
  end.

Definition CountLabels (name : list Z) : outcome Z := count_loop (length name) name 0 0.

Fixpoint search_loop (suffixes : list (list Z)) (hostname labelled_hostname : list Z) (had_hostname : bool)
    (qnames : list (list Z)) : bool * list (list Z) :=
  match suffixes with
  | [] => (had_hostname, qnames)
  | suffix :: suffixes =>
      match DNSDomainFromDot (hostname ++ [46] ++ suffix) with
      | None => search_loop suffixes hostname labelled_hostname had_hostname qnames
      | Some qname =>
          if (length qname =? length labelled_hostname)%nat then
            if had_hostname then search_loop suffixes hostname labelled_hostname had_hostname qnames
            else search_loop suffixes hostname labelled_hostname true (qnames ++ [qname])
          else search_loop suffixes hostname labelled_hostname had_hostname (qnames ++ [qname])
      end
  end.

(** The result and [qnames_]. *)
Definition PrepareSearch (config : DnsConfig) (hostname : list Z) : outcome (Z * list (list Z)) :=
  match DNSDomainFromDot hostname with
  | None => Ret (ERR_INVALID_ARGUMENT, [])
  | Some labelled_hostname =>
      let! c := must (last hostname) in
      if c =? 46 then Ret (OK, [labelled_hostname])
      else
        let! count := CountLabels labelled_hostname in
        let first := ndots config <=? count - 1 in
        let '(had_hostname, qnames) := search_loop (search config) hostname labelled_hostname first
                                          (if first then [labelled_hostname] else []) in
        Ret (OK, if had_hostname then qnames else qnames ++ [labelled_hostname])
  end.

(** ** One exchange *)

Inductive State :=
| STATE_CONNECT
| STATE_SEND_QUERY
| STATE_SEND_QUERY_COMPLETE
| STATE_READ_RESPONSE
| STATE_READ_RESPONSE_COMPLETE
| STATE_NONE.

#[global] Instance State_eq_dec : EqDecision State.
Proof. solve_decision. Defined.

Record attempt := Attempt { next_state_ : State; server_ : Z; query_ : DnsQuery; response_ : option DnsResponse }.

Definition go (s : State) (a : attempt) : attempt := Attempt s (server_ a) (query_ a) (response_ a).

(** [DnsUDPAttempt::response]: the response when it is valid. *)
Definition response (a : attempt) : option DnsResponse :=
  match response_ a with
  | Some r => if IsValid r then Some r else None
  | None => None
  end.

Section Attempt.
Context {net : Network}.

Definition DoConnect (k : nat) (a : attempt) : attempt * Z := (go STATE_SEND_QUERY a, connect_result k).

Definition DoSendQuery (k : nat) (a : attempt) : attempt * Z := (go STATE_SEND_QUERY_COMPLETE a, write_result k).

Definition DoSendQueryComplete (rv : Z) (a : attempt) : outcome (attempt * Z) :=
  check! negb (rv =? ERR_IO_PENDING);
  if rv <? 0 then Ret (a, rv)
  else if negb (rv =? Z.of_nat (length (query_io_buffer (query_ a)))) then Ret (a, ERR_MSG_TOO_BIG)
  else Ret (go STATE_READ_RESPONSE a, OK).

(** The bytes a read puts in the buffer of the response. *)
Definition deliver (data : list Z) (a : attempt) : attempt :=
  Attempt (next_state_ a) (server_ a) (query_ a) (receive data <$> response_ a).

Definition DoReadResponse (k : nat) (a : attempt) : attempt * Z :=
  let a := Attempt STATE_READ_RESPONSE_COMPLETE (server_ a) (query_ a) (Some (new_DnsResponse (fresh k))) in
  (deliver (snd (read_result k)) a, fst (read_result k)).

Definition DoReadResponseComplete (rv : Z) (a : attempt) : outcome (attempt * Z) :=
  check! negb (rv =? ERR_IO_PENDING);
  if rv <? 0 then Ret (a, rv)
  else
    check! negb (rv =? 0);
    let! r := must (response_ a) in
    let! '(ok, r) := InitParse rv (query_ a) r in
    let a := Attempt (next_state_ a) (server_ a) (query_ a) (Some r) in
    if negb ok then Ret (a, ERR_DNS_MALFORMED_RESPONSE)
    else
      let! flags := flags r in
      if negb (Z.land flags kFlagTC =? 0) then Ret (a, ERR_DNS_SERVER_REQUIRES_TCP)
      else
        let! code := rcode r in
        if negb (code =? kRcodeNOERROR) && negb (code =? kRcodeNXDOMAIN) then Ret (a, ERR_DNS_SERVER_FAILED)
        else
          let! count := answer_count r in
          Ret (a, if count =? 0 then ERR_NAME_NOT_RESOLVED else OK).

(** One state of the loop; [k] counts the uses of the network. *)
Definition do_state (k : nat) (rv : Z) (a : attempt) : outcome (nat * attempt * Z) :=
  let state := next_state_ a in
  let a := go STATE_NONE a in
  match state with
  | STATE_CONNECT => let '(a, rv) := DoConnect k a in Ret (S k, a, rv)
  | STATE_SEND_QUERY => let '(a, rv) := DoSendQuery k a in Ret (S k, a, rv)
  | STATE_SEND_QUERY_COMPLETE => let! '(a, rv) := DoSendQueryComplete rv a in Ret (k, a, rv)
  | STATE_READ_RESPONSE => let '(a, rv) := DoReadResponse k a in Ret (S k, a, rv)
  | STATE_READ_RESPONSE_COMPLETE => let! '(a, rv) := DoReadResponseComplete rv a in Ret (k, a, rv)
  | STATE_NONE => Crash
  end.

Fixpoint do_loop (fuel : nat) (k : nat) (rv : Z) (a : attempt) : outcome (nat * attempt * Z) :=
  match fuel with
  | O => Timeout
  | S fuel =>
      let! '(k, a, rv) := do_state k rv a in
      if negb (rv =? ERR_IO_PENDING) && negb (bool_decide (next_state_ a = STATE_NONE)) then do_loop fuel k rv a
      else Ret (k, a, rv)
  end.

(** Each state is passed once. *)
Definition DoLoop (k : nat) (rv : Z) (a : attempt) : outcome (nat * attempt * Z) := do_loop 5 k rv a.

Definition AttemptStart (k : nat) (a : attempt) : outcome (nat * attempt * Z) :=
  check! bool_decide (next_state_ a = STATE_NONE); DoLoop k OK (go STATE_CONNECT a).

End Attempt.

(** ** The transaction *)

(** [callback_] tells whether the callback is still set, [timer_] holds the delay of the
    running timer; [results_] are the calls of the callback, [server_index_] is the
    session's and [uses_] counts the uses of the network. *)
Record transaction := Transaction {
  hostname_ : list Z; qtype_ : Z; callback_ : bool; qnames_ : list (list Z);
  attempts_ : list attempt; first_server_index_ : Z; timer_ : option Z;
  results_ : list (Z * option DnsResponse); server_index_ : Z; uses_ : nat }.

Definition set_search (qnames : list (list Z)) (t : transaction) : transaction :=
  Transaction (hostname_ t) (qtype_ t) (callback_ t) qnames (attempts_ t) (first_server_index_ t) (timer_ t)
    (results_ t) (server_index_ t) (uses_ t).

Definition set_attempts (l : list attempt) (t : transaction) : transaction :=
  Transaction (hostname_ t) (qtype_ t) (callback_ t) (qnames_ t) l (first_server_index_ t) (timer_ t)
    (results_ t) (server_index_ t) (uses_ t).

Definition set_servers (first index : Z) (t : transaction) : transaction :=
  Transaction (hostname_ t) (qtype_ t) (callback_ t) (qnames_ t) (attempts_ t) first (timer_ t)
    (results_ t) index (uses_ t).

Definition set_timer (delay : option Z) (t : transaction) : transaction :=
  Transaction (hostname_ t) (qtype_ t) (callback_ t) (qnames_ t) (attempts_ t) (first_server_index_ t) delay
    (results_ t) (server_index_ t) (uses_ t).

Definition set_uses (k : nat) (t : transaction) : transaction :=
  Transaction (hostname_ t) (qtype_ t) (callback_ t) (qnames_ t) (attempts_ t) (first_server_index_ t) (timer_ t)
    (results_ t) (server_index_ t) k.

(** That the host name is no IP literal is asserted too; parsing those is not modelled. *)
Definition new_transaction (hostname : list Z) (qtype server_index : Z) : outcome transaction :=
  check! negb (length hostname =? 0)%nat;
  Ret (Transaction hostname qtype true [] [] 0 None [] server_index 0).

(** The callback is reset before it is run. *)
Definition DoCallback (rv : Z) (successful_attempt : option attempt) (t : transaction) : outcome transaction :=
  if negb (callback_ t) then Ret t
  else
    check! negb (rv =? ERR_IO_PENDING);
    check! negb (rv =? OK) || bool_decide (is_Some successful_attempt);
    Ret (Transaction (hostname_ t) (qtype_ t) false (qnames_ t) (attempts_ t) (first_server_index_ t) (timer_ t)
           (results_ t ++ [(rv, successful_attempt ≫= response)]) (server_index_ t) (uses_ t)).

Section Transaction.
Context {net : Network} (config : DnsConfig).

(** The query of an attempt: the first is built, the others are clones of it. *)
Definition next_query (t : transaction) : outcome DnsQuery :=
  let id := u16 (rand_result (uses_ t)) in
  match attempts_ t with
  | [] => let! qname := must (head (qnames_ t)) in new_DnsQuery (fresh (uses_ t)) id qname (qtype_ t)
  | a :: _ => CloneWithNewId (fresh (uses_ t)) (query_ a) id
  end.

(** The attempt is stored when it is started; what the start does to it is stored after. *)
Definition MakeAttempt (t : transaction) : outcome (transaction * Z) :=
  let attempt_number := Z.of_nat (length (attempts_ t)) in
  let! query := next_query t in
  let t := set_uses (S (uses_ t)) t in
  check! negb (length (nameservers config) =? 0)%nat;
  let server_index := u32 (first_server_index_ t + attempt_number mod Z.of_nat (length (nameservers config))) in
  let! server := must (nameservers config !! Z.to_nat server_index) in
  let! delay := NextTimeout config attempt_number in
  let t := set_timer (Some delay) t in
  let! '(k, a, rv) := AttemptStart (uses_ t) (Attempt STATE_NONE server query None) in
  Ret (set_uses k (set_attempts (attempts_ t ++ [a]) t), rv).

Definition StartQuery (t : transaction) : outcome (transaction * Z) :=
  let! qname := must (head (qnames_ t)) in
  let! dotted := DNSDomainToString qname in
  let! '(first, index) := NextFirstServerIndex config (server_index_ t) in
  MakeAttempt (set_attempts [] (set_servers first index t)).

Definition Start (t : transaction) : outcome (transaction * Z) :=
  let! '(rv, qnames) := PrepareSearch config (hostname_ t) in
  let t := set_search (qnames_ t ++ qnames) t in
  let! '(t, rv) := if rv =? OK then StartQuery t else Ret (t, rv) in
  check! negb (rv =? OK);
  Ret (t, rv).

(** Run the callback unless the result is pending. *)
Definition callback_unless_pending (t : transaction) (rv : Z) : outcome transaction :=
  if negb (rv =? ERR_IO_PENDING) then DoCallback rv None t else Ret t.

Definition OnAttemptComplete (attempt_number : nat) (rv : Z) (t : transaction) : outcome transaction :=
  check! (attempt_number <? length (attempts_ t))%nat;
  let t := set_timer None t in
  let! a := must (attempts_ t !! attempt_number) in
  let! logged := match response a with
                 | Some r => let! code := rcode r in let! count := answer_count r in Ret (Some (code, count))
                 | None => Ret None
                 end in
  if rv =? ERR_NAME_NOT_RESOLVED then
    check! negb (length (qnames_ t) =? 0)%nat;
    let t := set_search (tail (qnames_ t)) t in
    if (length (qnames_ t) =? 0)%nat then callback_unless_pending t ERR_NAME_NOT_RESOLVED
    else let! '(t, rv) := StartQuery t in callback_unless_pending t rv
  else if rv =? OK then DoCallback rv (Some a) t
  else if Z.of_nat (length (attempts_ t)) <? max_attempts config then
    let! '(t, rv) := MakeAttempt t in callback_unless_pending t rv
  else callback_unless_pending t ERR_DNS_SERVER_FAILED.

Definition OnTimeout (t : transaction) : outcome transaction :=
  let t := set_timer None t in
  if Z.of_nat (length (attempts_ t)) =? max_attempts config then DoCallback ERR_DNS_TIMED_OUT None t
  else let! '(t, rv) := MakeAttempt t in callback_unless_pending t rv.

(** [OnIOComplete] of an attempt; a completed read has put its bytes in the buffer. *)
Definition OnIOComplete (attempt_number : nat) (rv : Z) (data : list Z) (t : transaction) : outcome transaction :=
  let! a := must (attempts_ t !! attempt_number) in
  let a := if bool_decide (next_state_ a = STATE_READ_RESPONSE_COMPLETE) then deliver data a else a in
  let! '(k, a, rv) := DoLoop (uses_ t) rv a in
  let t := set_uses k (set_attempts (<[attempt_number := a]> (attempts_ t)) t) in
  if negb (rv =? ERR_IO_PENDING) then OnAttemptComplete attempt_number rv t else Ret t.

(** ** Events *)

Inductive event :=
| IOComplete (attempt_number : nat) (rv : Z) (data : list Z)
| TimerFired.

Definition handle (t : transaction) (ev : event) : outcome transaction :=
  match ev with
  | IOComplete n rv data => OnIOComplete n rv data t
  | TimerFired => OnTimeout t
  end.

End Transaction.

(** ** One exchange: every state returns, and the states only go forward *)

Definition rank (s : State) : nat :=
  match s with
  | STATE_CONNECT => 5
  | STATE_SEND_QUERY => 4
  | STATE_SEND_QUERY_COMPLETE => 3
  | STATE_READ_RESPONSE => 2
  | STATE_READ_RESPONSE_COMPLETE => 1
  | STATE_NONE => 0
  end.

(** The states an attempt can be left in while an operation of its socket is pending. *)
Definition waiting (a : attempt) : Prop :=
  next_state_ a = STATE_SEND_QUERY \/ next_state_ a = STATE_SEND_QUERY_COMPLETE \/
  next_state_ a = STATE_READ_RESPONSE_COMPLETE.

(** A buffer of the size the code allocates. *)
Definition is_buffer (io : list Z) : Prop := Forall is_u8 io /\ length io = (kMaxUDPSize + 1)%nat.

(** What a datagram socket delivers: no more than the buffer holds. *)
Definition is_datagram (data : list Z) : Prop := Forall is_u8 data /\ (length data <= kMaxUDPSize + 1)%nat.

(** No read completes at once with a datagram; it is pending or fails. *)
Class QuietNetwork (net : Network) : Prop := {
  read_quiet k : fst (read_result k) < 0;
  read_datagram k : is_datagram (snd (read_result k));
  fresh_bytes k : Forall is_u8 (fresh k);
}.

Lemma new_DnsResponse_buffer junk : Forall is_u8 junk -> is_buffer (io_buffer_ (new_DnsResponse junk)).
Proof. intros H. split; [apply Forall_resize; [by unfold is_u8|done]|apply length_resize]. Qed.

Lemma receive_buffer data r :
  is_datagram data -> is_buffer (io_buffer_ r) -> is_buffer (io_buffer_ (receive data r)).
Proof.
  intros [Hd Hl] [Hb Hn]. split; cbn [receive io_buffer_]; [by apply splice_bytes|]. rewrite splice_length; lia.
Qed.

Section Exchange.
Context {net : Network} {quiet : QuietNetwork net} (qname : list Z) (qtype : Z).
Context (Hname : Forall is_u8 qname) (Htype : is_u16 qtype).

(** Either no response was accepted or it matches the attempt's own query. *)
Definition response_ok (id : Z) (a : attempt) : Prop :=
  match response_ a with
  | None => True
  | Some r => parser_ r = None \/ matching id qname qtype r
  end.

(** An unaccepted response whose buffer a read is filling. *)
Definition reading (a : attempt) : Prop :=
  exists io, response_ a = Some (Response io None) /\ is_buffer io.

Definition attempt_ok (a : attempt) : Prop :=
  exists id, is_u16 id /\ query_ a = Query (length qname) (query_bytes id qname qtype) /\ response_ok id a /\
    (next_state_ a = STATE_READ_RESPONSE_COMPLETE -> reading a).

(** The results a state may be entered with. *)
Definition result_ok (rv : Z) (s : State) : Prop :=
  match s with
  | STATE_SEND_QUERY_COMPLETE => rv <> ERR_IO_PENDING
  | STATE_READ_RESPONSE_COMPLETE => rv <> ERR_IO_PENDING /\ rv <> 0 /\ rv <= Z.of_nat (kMaxUDPSize + 1)
  | _ => True
  end.

(** An answer: it matches a query of the attempt's and has records. *)
Definition answered (a : attempt) : Prop :=
  exists id r count, response a = Some r /\ matching id qname qtype r /\ answer_count r = Ret count /\ count <> 0.

(** The end of an exchange. *)
Definition finished (rv : Z) (a : attempt) : Prop :=
  next_state_ a = STATE_NONE /\ rv <> ERR_IO_PENDING /\ (rv = OK -> answered a).

Definition continues (rv : Z) (a : attempt) : Prop :=
  next_state_ a <> STATE_NONE /\ (if rv =? ERR_IO_PENDING then waiting a else result_ok rv (next_state_ a)).

Lemma matching_accessors id r :
  is_u16 id -> matching id qname qtype r ->
  IsValid r = true /\ exists f code count, flags r = Ret f /\ rcode r = Ret code /\ answer_count r = Ret count.
Proof.
  intros Hi (f & an & ns & ar & answers & tail & -> & Hf & Han & Hu & _). split; [done|].
  destruct (response_accessors id qname qtype Hi Htype Hname f an ns ar answers tail Hf Han Hu) as (H1 & H2 & H3 & _).
  by do 3 eexists.
Qed.

Lemma response_matching id a r :
  is_u16 id -> response_ok id a -> response a = Some r -> matching id qname qtype r.
Proof.
  unfold response_ok, response. intros Hi Hr H. destruct (response_ a) as [r'|]; [|done].
  destruct (IsValid r') eqn:Ev; [|done]. injection H as ->. destruct Hr as [Hn|]; [|done].
  unfold IsValid in Ev. by rewrite Hn in Ev.
Qed.

Lemma read_complete rv a id :
  is_u16 id -> query_ a = Query (length qname) (query_bytes id qname qtype) -> reading a ->
  result_ok rv STATE_READ_RESPONSE_COMPLETE ->
  exists a' rv', DoReadResponseComplete rv a = Ret (a', rv') /\ next_state_ a' = next_state_ a /\
    server_ a' = server_ a /\ query_ a' = query_ a /\ response_ok id a' /\ rv' <> ERR_IO_PENDING /\
    (rv' = OK -> answered a').
Proof.
  intros Hi Eq (io & Er & Hu & Hl) (Hp & H0 & Hle). unfold DoReadResponseComplete.
  rewrite (proj2 (Z.eqb_neq _ _) Hp). cbn [negb dcheck obind].
  destruct (Z.ltb_spec rv 0); [exists a, rv; unfold response_ok; rewrite Er; repeat split; [by left|done|unfold OK; lia]|].
  rewrite (proj2 (Z.eqb_neq _ _) H0), Er. cbn [negb dcheck obind must]. rewrite Eq.
  assert (Es : io = take (Z.to_nat rv) io ++ drop (Z.to_nat rv) io) by (by rewrite firstn_skipn).
  assert (En : length (take (Z.to_nat rv) io) = Z.to_nat rv) by (rewrite length_take; lia).
  set (data := take _ io) in *. set (tail := drop _ io) in *. rewrite Es in Hu |- *.
  destruct (InitParse_cases id qname qtype Hi Htype Hname data tail Hu) as [[H' _] | (f & an & ns & ar & answers & (E & Hf & Han & Hd) & Ua & H')];
    rewrite En, Z2Nat.id in H' by lia; rewrite H'; cbn [obind negb].
  - do 2 eexists. split; [done|]. repeat split; [by left|done|done].
  - set (r := Response _ _). assert (Hm : matching id qname qtype r) by (exists f, an, ns, ar, answers, tail; cbv zeta; by rewrite <- E).
    destruct (matching_accessors id r Hi Hm) as (_ & fl & code & count & -> & -> & Ec). cbn [obind].
    assert (Hok : forall rv', rv' <> ERR_IO_PENDING -> (rv' = OK -> count <> 0) ->
      exists a' rv1, Ret (Attempt (next_state_ a) (server_ a) (query_ a) (Some r), rv') = Ret (a', rv1) /\
        next_state_ a' = next_state_ a /\ server_ a' = server_ a /\ query_ a' = query_ a /\ response_ok id a' /\
        rv1 <> ERR_IO_PENDING /\ (rv1 = OK -> answered a')).
    { intros rv' Hp' Hc. do 2 eexists. split; [done|]. repeat split; [by right|done|]. intros Hk.
      exists id, r, count. repeat split; [done|done|by apply Hc]. }
    rewrite Eq in Hok. destruct (negb (Z.land fl kFlagTC =? 0)); [by apply Hok|].
    destruct (_ && _); [by apply Hok|]. rewrite Ec. cbn [obind]. apply Hok; destruct (Z.eqb_spec count 0); done.
Qed.


(** What one state leaves. *)
Definition state_step (a a' : attempt) (rv' : Z) : Prop :=
  attempt_ok a' /\ server_ a' = server_ a /\ query_ a' = query_ a /\
  (rank (next_state_ a') < rank (next_state_ a))%nat /\ (finished rv' a' \/ continues rv' a').

Lemma do_state_spec k rv a :
  attempt_ok a -> result_ok rv (next_state_ a) -> next_state_ a <> STATE_NONE ->
  exists k' a' rv', do_state k rv a = Ret (k', a', rv') /\ state_step a a' rv'.
Proof.
  intros (id & Hi & Eq & Hr & Hrd) Hrv Hs. unfold do_state, state_step. destruct (next_state_ a) eqn:Es; [| | | | |done].
  - do 3 eexists. split; [done|]. repeat split; [by exists id|cbn; lia|]. right. split; [done|].
    destruct (_ =? _); [by left|done].
  - do 3 eexists. split; [done|]. repeat split; [by exists id|cbn; lia|]. right. split; [done|].
    destruct (Z.eqb_spec (write_result k) ERR_IO_PENDING); [by right; left|done].
  - unfold DoSendQueryComplete. cbn in Hrv. rewrite (proj2 (Z.eqb_neq _ _) Hrv). cbn [negb dcheck obind].
    destruct (Z.ltb_spec rv 0); [|destruct (negb _)]; cbn [obind]; do 3 eexists; (split; [done|]);
      (repeat split; [by exists id|cbn; lia|]).
    + left. split; [done|]. split; [done|]. unfold OK. lia.
    + by left.
    + by right.
  - pose proof (read_quiet k) as Hq. do 3 eexists. split; [done|]. repeat split; [|cbn; lia|].
    + exists id. split; [done|]. split; [done|]. split; [by left|]. intros _. eexists. split; [done|].
      apply receive_buffer; [apply read_datagram|apply new_DnsResponse_buffer, fresh_bytes].
    + right. split; [done|]. cbn [snd fst]. destruct (Z.eqb_spec (fst (read_result k)) ERR_IO_PENDING); [by right; right|].
      cbn. lia.
  - destruct (read_complete rv (go STATE_NONE a) id Hi Eq (Hrd eq_refl) Hrv) as (a' & rv' & -> & En & Ev & Eq' & Hr' & Hp & Hk).
    cbn [obind]. do 3 eexists. split; [done|]. cbn [go next_state_] in En. split; [|split; [done|split; [done|split; [rewrite En; cbn; lia|by left]]]].
    exists id. split; [done|]. split; [by rewrite Eq'|]. split; [done|]. by rewrite En.
Qed.

(** What an exchange leaves when control returns: pending, or at its end. *)
Definition loop_result (a a' : attempt) (rv' : Z) : Prop :=
  attempt_ok a' /\ server_ a' = server_ a /\ query_ a' = query_ a /\
  (rank (next_state_ a') < rank (next_state_ a))%nat /\
  if rv' =? ERR_IO_PENDING then waiting a' else finished rv' a'.

Lemma do_loop_spec fuel k rv a :
  (rank (next_state_ a) <= fuel)%nat -> attempt_ok a -> result_ok rv (next_state_ a) -> next_state_ a <> STATE_NONE ->
  exists k' a' rv', do_loop fuel k rv a = Ret (k', a', rv') /\ loop_result a a' rv'.
Proof.
  revert k rv a. induction fuel as [|fuel IH]; intros k rv a Hf Ha Hrv Hs; [destruct (next_state_ a); cbn in Hf; (done || lia)|].
  cbn [do_loop]. destruct (do_state_spec k rv a Ha Hrv Hs) as (k1 & a1 & rv1 & -> & Ha1 & Ev & Eq & Hlt & Hc). cbn [obind].
  destruct Hc as [(Hn & Hp & Hk) | [Hn Hc]].
  - rewrite (bool_decide_true _ Hn), andb_false_r. do 3 eexists. split; [done|]. do 4 (split; [done|]).
    by rewrite (proj2 (Z.eqb_neq _ _) Hp).
  - rewrite (bool_decide_false _ Hn). destruct (Z.eqb_spec rv1 ERR_IO_PENDING) as [->|Hp]; cbn [negb andb].
    + do 3 eexists. split; [done|]. by do 4 (split; [done|]).
    + destruct (IH k1 rv1 a1) as (k2 & a2 & rv2 & -> & Ha2 & Ev2 & Eq2 & Hlt2 & H2); [lia|done..|].
      do 3 eexists. split; [done|]. split; [done|]. split; [congruence|]. split; [congruence|]. split; [lia|done].
Qed.

Lemma DoLoop_spec k rv a :
  attempt_ok a -> result_ok rv (next_state_ a) -> next_state_ a <> STATE_NONE ->
  exists k' a' rv', DoLoop k rv a = Ret (k', a', rv') /\ loop_result a a' rv'.
Proof. apply do_loop_spec. destruct (next_state_ a); cbn; lia. Qed.

(** Unless a read completed with a datagram, no answer comes of it. *)
Lemma do_state_quiet k rv a k' a' rv' :
  (next_state_ a = STATE_READ_RESPONSE_COMPLETE -> rv < 0) -> do_state k rv a = Ret (k', a', rv') ->
  (next_state_ a' = STATE_NONE -> rv' <> OK) /\ (next_state_ a' = STATE_READ_RESPONSE_COMPLETE -> rv' < 0).
Proof.
  unfold do_state. destruct (next_state_ a); intros Hq H; cbn [obind] in H; try discriminate H.
  - by injection H as <- <- <-.
  - by injection H as <- <- <-.
  - unfold DoSendQueryComplete in H. inv_outcome. repeat match goal with H : context [if ?b then _ else _] |- _ => destruct b eqn:?E; zb2p end; inv_outcome;
      cbn [go next_state_] in *; split; intros; (done || unfold OK; lia).
  - injection H as <- <- <-. split; [done|]. intros _. apply read_quiet.
  - specialize (Hq eq_refl). unfold DoReadResponseComplete in H. rewrite (proj2 (Z.ltb_lt _ _) Hq) in H. inv_outcome.
    split; [unfold OK; lia|done].
Qed.

Lemma do_loop_quiet fuel k rv a k' a' rv' :
  (next_state_ a = STATE_READ_RESPONSE_COMPLETE -> rv < 0) -> do_loop fuel k rv a = Ret (k', a', rv') -> rv' <> OK.
Proof.
  revert k rv a. induction fuel as [|fuel IH]; intros k rv a Hq H; [done|]. cbn [do_loop] in H.
  destruct (do_state k rv a) as [[[k1 a1] rv1]| |] eqn:E; try done. cbn [obind] in H.
  destruct (do_state_quiet k rv a k1 a1 rv1 Hq E) as [Hn Hr].
  destruct (Z.eqb_spec rv1 ERR_IO_PENDING) as [->|Hp]; cbn [negb andb] in H; [by injection H as <- <- <-|].
  destruct (decide (next_state_ a1 = STATE_NONE)) as [E1|E1].
  - rewrite (bool_decide_true _ E1) in H. cbn in H. injection H as <- <- <-. by apply Hn.
  - rewrite (bool_decide_false _ E1) in H. cbn in H. by apply IH in H.
Qed.

End Exchange.

(** ** The transaction *)

Section Handle.
Context {net : Network} {quiet : QuietNetwork net} (config : DnsConfig) (qtype : Z) (Htype : is_u16 qtype).
Context (Hservers : (0 < length (nameservers config))%nat) (Hn : Z.of_nat (length (nameservers config)) < 2 ^ 31).
Context (Hattempts : 1 <= attempts config <= 31) (Hrotate : rotate config = false).

Definition limit : nat := Z.to_nat (attempts config) * length (nameservers config).

Lemma max_attempts_limit : max_attempts config = Z.of_nat limit.
Proof. unfold max_attempts, limit, u64. rewrite Z.mod_small; nia. Qed.

(** A name that can be asked for. *)
Definition good_name (qname : list Z) : Prop :=
  Forall is_u8 qname /\ exists text, DNSDomainToString qname = Ret text /\ text <> [].

(** Attempt i goes to server i, round and round, and asks for the name. *)
Definition attempts_ok (qname : list Z) (l : list attempt) : Prop :=
  forall i a, l !! i = Some a -> attempt_ok qname qtype a /\ nameservers config !! (i mod length (nameservers config))%nat = Some (server_ a).

(** The transaction while its callback is due: it asks for [qname] and then for [rest]. *)
Record asking (qname : list Z) (rest : list (list Z)) (t : transaction) : Prop := {
  ask_callback : callback_ t = true;
  ask_results : results_ t = [];
  ask_qtype : qtype_ t = qtype;
  ask_first : first_server_index_ t = 0;
  ask_index : server_index_ t = 0;
  ask_names : qnames_ t = qname :: rest;
  ask_good : Forall good_name (qname :: rest);
  ask_attempts : attempts_ok qname (attempts_ t);
  ask_count : (length (attempts_ t) <= limit)%nat }.

Lemma attempts_ok_snoc qname l a :
  attempts_ok qname l -> attempt_ok qname qtype a ->
  nameservers config !! (length l mod length (nameservers config))%nat = Some (server_ a) -> attempts_ok qname (l ++ [a]).
Proof.
  intros Hl Ha Hs i b Hi. apply lookup_app_Some in Hi as [Hi|[Hge Hi]]; [by apply Hl|].
  apply list_lookup_singleton_Some in Hi as [E <-]. by replace i with (length l) by lia.
Qed.

Lemma next_query_spec qname rest t :
  asking qname rest t ->
  exists id, is_u16 id /\ next_query t = Ret (Query (length qname) (query_bytes id qname qtype)).
Proof.
  intros A. unfold next_query. exists (u16 (rand_result (uses_ t))).
  split; [apply Z.mod_pos_bound; lia|]. destruct (attempts_ t) as [|a l] eqn:E.
  - rewrite (ask_names _ _ _ A). cbn [head must obind]. pose proof (ask_good _ _ _ A) as G. inversion G as [|? ? (_ & text & Ht & Hne) _]; subst.
    rewrite (ask_qtype _ _ _ A). by eapply new_DnsQuery_spec.
  - destruct (ask_attempts _ _ _ A 0%nat a) as [(id & _ & -> & _) _]; [by rewrite E|]. apply CloneWithNewId_spec.
Qed.

Lemma NextTimeout_spec t qname rest :
  asking qname rest t -> (length (attempts_ t) < limit)%nat ->
  exists delay, NextTimeout config (Z.of_nat (length (attempts_ t))) = Ret delay.
Proof.
  intros A Hl. unfold NextTimeout. rewrite (proj2 (Nat.eqb_neq _ _)) by lia. cbn [negb dcheck obind]. cbv zeta.
  unfold limit in Hl. rewrite (proj2 (Z.ltb_lt _ _)); [by eexists|]. apply Z.div_lt_upper_bound; nia.
Qed.

(** The state after an attempt was made: it is the last, and the timer runs. *)
Record attempted (qname : list Z) (rest : list (list Z)) (old : list attempt) (t : transaction) : Prop := {
  att_asking : asking qname rest t;
  att_timer : timer_ t <> None;
  att_last : exists a, attempts_ t = old ++ [a] /\ (rank (next_state_ a) <= 4)%nat }.

Lemma MakeAttempt_spec qname rest t :
  asking qname rest t -> (length (attempts_ t) < limit)%nat ->
  exists t' rv, MakeAttempt config t = Ret (t', rv) /\ attempted qname rest (attempts_ t) t' /\ rv <> OK.
Proof.
  intros A Hl. unfold MakeAttempt. destruct (next_query_spec qname rest t A) as (id & Hi & ->). cbn [obind].
  rewrite (proj2 (Nat.eqb_neq _ _)) by lia. cbn [negb dcheck obind set_uses first_server_index_ attempts_].
  rewrite (ask_first _ _ _ A), Z.add_0_l, <- Nat2Z.inj_mod.
  pose proof (Nat.mod_upper_bound (length (attempts_ t)) (length (nameservers config)) ltac:(lia)) as Hm.
  rewrite u32_small, Nat2Z.id by (unfold is_u32; lia).
  destruct (lookup_lt_is_Some_2 _ _ Hm) as [server Hs]. rewrite Hs. cbn [must obind].
  destruct (NextTimeout_spec t qname rest A Hl) as [delay ->]. cbn [obind set_timer uses_].
  unfold AttemptStart. cbn [next_state_ go server_ query_ response_]. rewrite bool_decide_true by done. cbn [dcheck obind].
  set (a0 := go STATE_CONNECT _). pose proof (ask_good _ _ _ A) as G. inversion G as [|? ? [Hq _] _]; subst.
  assert (Ha0 : attempt_ok qname qtype a0) by (exists id; by do 3 (split; [done|])).
  destruct (DoLoop_spec qname qtype Hq Htype (uses_ (set_uses (S (uses_ t)) t)) OK a0 Ha0) as (k & a & rv & E & Ha & Ev & _ & Hr & _); [done|done|].
  rewrite E. cbn [obind]. do 2 eexists. split; [done|].
  split; [|by eapply do_loop_quiet in E].
  split; [|done|exists a; split; [done|cbn in Hr; lia]].
  destruct A. split; try done; cbn [set_uses set_attempts set_timer attempts_].
  - apply attempts_ok_snoc; [done|done|by rewrite Ev].
  - rewrite length_app. cbn. lia.
Qed.

Lemma limit_positive : (0 < limit)%nat.
Proof. unfold limit. nia. Qed.

Lemma StartQuery_spec qname rest t :
  asking qname rest (set_attempts [] (set_servers 0 0 t)) -> server_index_ t = 0 ->
  exists t' rv, StartQuery config t = Ret (t', rv) /\ attempted qname rest [] t' /\ rv <> OK.
Proof.
  intros A Hi. unfold StartQuery. pose proof (ask_names _ _ _ A) as En. cbn [set_attempts set_servers qnames_] in En.
  rewrite En. cbn [head must obind]. pose proof (ask_good _ _ _ A) as G. apply Forall_cons in G as [(_ & text & Ht & _) _]. rewrite Ht.
  cbn [obind]. unfold NextFirstServerIndex. rewrite Hrotate, Hi. cbn [obind].
  apply (MakeAttempt_spec qname rest _ A limit_positive).
Qed.

(** The callback was run, once; with a response that answers a query for one of the names
    when the result is OK, and with none otherwise. *)
Definition called_back (names : list (list Z)) (t : transaction) : Prop :=
  callback_ t = false /\ exists rv resp, results_ t = [(rv, resp)] /\ rv <> ERR_IO_PENDING /\
    if rv =? OK then exists qname id r count, qname ∈ names /\ resp = Some r /\
                       matching id qname qtype r /\ answer_count r = Ret count /\ count <> 0
    else resp = None.

Lemma DoCallback_spec names rv t :
  callback_ t = true -> results_ t = [] -> rv <> ERR_IO_PENDING -> rv <> OK ->
  exists t', DoCallback rv None t = Ret t' /\ called_back names t'.
Proof.
  intros Hc Hr Hp Hk. unfold DoCallback. rewrite Hc, (proj2 (Z.eqb_neq _ _) Hp), (proj2 (Z.eqb_neq _ _) Hk).
  eexists. split; [done|]. split; [done|]. exists rv, None. cbn [results_]. rewrite Hr. repeat split; [done|].
  by rewrite (proj2 (Z.eqb_neq _ _) Hk).
Qed.

Lemma callback_unless_pending_spec names rv t :
  callback_ t = true -> results_ t = [] -> rv <> OK ->
  exists t', callback_unless_pending t rv = Ret t' /\ ((rv = ERR_IO_PENDING /\ t' = t) \/ called_back names t').
Proof.
  intros Hc Hr Hk. unfold callback_unless_pending. destruct (Z.eqb_spec rv ERR_IO_PENDING) as [->|Hp]; cbn [negb].
  - eexists. split; [done|]. by left.
  - destruct (DoCallback_spec names rv t Hc Hr Hp Hk) as (t' & -> & H). eexists. split; [done|]. by right.
Qed.

(** What is left to do: states of the attempts, attempts for this name, names. *)
Definition work (rest : list (list Z)) (l : list attempt) : nat :=
  list_sum (map (fun a => rank (next_state_ a)) l) + 5 * (limit - length l) + 5 * limit * length rest.

(** The callback is due, the timer runs and an attempt was made; [names] are all the names. *)
Definition running (names : list (list Z)) (w : nat) (t : transaction) : Prop :=
  exists qname rest, asking qname rest t /\ timer_ t <> None /\ (0 < length (attempts_ t))%nat /\
    (exists before, names = before ++ qname :: rest) /\ w = work rest (attempts_ t).

(** What the handling of an event leaves. *)
Definition outcome_of (names : list (list Z)) (w : nat) (t : transaction) : Prop :=
  (exists w', (w' < w)%nat /\ running names w' t) \/ called_back names t.

Lemma attempted_running names w qname rest old t rv :
  attempted qname rest old t -> rv <> OK -> (exists before, names = before ++ qname :: rest) ->
  (forall a, (rank (next_state_ a) <= 4)%nat -> (work rest (old ++ [a]) < w)%nat) ->
  exists t', callback_unless_pending t rv = Ret t' /\ outcome_of names w t'.
Proof.
  intros [A Ht (a & Ea & Hr)] Hk Hb Hw.
  destruct (callback_unless_pending_spec names rv t (ask_callback _ _ _ A) (ask_results _ _ _ A) Hk) as (t' & -> & [[_ ->]|H]);
    (eexists; split; [done|]); [left|by right].
  eexists. split; [by apply (Hw a)|]. exists qname, rest. rewrite Ea. split; [done|]. split; [done|].
  split; [rewrite length_app; cbn; lia|]. by split.
Qed.

Lemma work_snoc rest l a :
  (length l < limit)%nat -> (rank (next_state_ a) <= 4)%nat -> (work rest (l ++ [a]) < work rest l)%nat.
Proof. intros Hl Ha. unfold work. rewrite map_app, list_sum_app, length_app. cbn [map list_sum foldr length]. lia. Qed.

Lemma work_next rest qname l a :
  (rank (next_state_ a) <= 4)%nat -> (work rest [a] < work (qname :: rest) l)%nat.
Proof. intros Ha. pose proof limit_positive. unfold work. cbn. lia. Qed.

Lemma asking_next qname qname' rest t :
  asking qname (qname' :: rest) t ->
  asking qname' rest (set_attempts [] (set_servers 0 0 (set_search (tail (qnames_ t)) t))).
Proof.
  intros [H1 H2 H3 H4 H5 H6 H7 H8 H9]. split; try done.
  - cbn [set_attempts set_servers set_search qnames_]. by rewrite H6.
  - by apply Forall_cons in H7 as [_ ?].
  - cbn. lia.
Qed.

(** Logging a valid response needs nothing else. *)
Lemma logging_spec qname n a t :
  attempts_ok qname (attempts_ t) -> Forall is_u8 qname -> attempts_ t !! n = Some a ->
  exists logged, match response a with
                 | Some r => let! code := rcode r in let! count := answer_count r in Ret (Some (code, count))
                 | None => Ret None
                 end = Ret logged.
Proof.
  intros Ha Hq Hn'. destruct (response a) as [r|] eqn:E; [|by eexists].
  destruct (Ha n a Hn') as [(id & Hi & _ & Hr & _) _].
  destruct (matching_accessors qname qtype Hq Htype id r Hi (response_matching qname qtype id a r Hi Hr E)) as (_ & ? & code & count & _ & -> & ->).
  by eexists.
Qed.

Lemma OnAttemptComplete_spec names qname rest n a rv t :
  asking qname rest t -> (exists before, names = before ++ qname :: rest) ->
  attempts_ t !! n = Some a -> finished qname qtype rv a ->
  exists t', OnAttemptComplete config n rv t = Ret t' /\ outcome_of names (work rest (attempts_ t)) t'.
Proof.
  intros A Hb Hi (_ & Hp & Hk). unfold OnAttemptComplete. cbv zeta. set (t0 := set_timer None t).
  assert (A0 : asking qname rest t0) by (destruct A; by split). change (attempts_ t) with (attempts_ t0) in *.
  clearbody t0. clear A t. rename A0 into A. rewrite (proj2 (Nat.ltb_lt _ _)) by (by apply lookup_lt_Some in Hi).
  cbn [dcheck obind]. rewrite Hi. cbn [must obind].
  pose proof (ask_good _ _ _ A) as G. pose proof G as [[Hq _] G']%Forall_cons.
  destruct (logging_spec qname n a t0 (ask_attempts _ _ _ A) Hq Hi) as [logged ->]. cbn [obind].
  destruct (Z.eqb_spec rv ERR_NAME_NOT_RESOLVED) as [->|Hnr]; [|destruct (Z.eqb_spec rv OK) as [->|Hok]].
  - rewrite (ask_names _ _ _ A). cbn [length Nat.eqb negb dcheck obind tail].
    change (qnames_ (set_search rest t0)) with rest. destruct rest as [|qname' rest]; cbn [length Nat.eqb].
    + destruct (DoCallback_spec names ERR_NAME_NOT_RESOLVED (set_search [] t0) (ask_callback _ _ _ A) (ask_results _ _ _ A)) as (t' & E & H);
        [done|done|]. exists t'. split; [exact E|by right].
    + pose proof (asking_next qname qname' rest t0 A) as A'. rewrite (ask_names _ _ _ A) in A'. cbn [tail] in A'.
      destruct (StartQuery_spec qname' rest (set_search (qname' :: rest) t0) A' (ask_index _ _ _ A)) as (t' & rv & -> & Hatt & Hne).
      cbn [obind]. eapply attempted_running; [done|done| |].
      * destruct Hb as [before ->]. exists (before ++ [qname]). by rewrite <- app_assoc.
      * intros a' Ha'. by apply work_next.
  - unfold DoCallback. rewrite (ask_callback _ _ _ A). cbn [negb Z.eqb OK ERR_IO_PENDING dcheck obind orb].
    rewrite bool_decide_true by by eexists. cbn [dcheck obind]. eexists. split; [done|]. right. split; [done|].
    exists OK, (response a). cbn [results_]. rewrite (ask_results _ _ _ A). split; [done|]. split; [done|].
    cbn. destruct (Hk eq_refl) as (id & r & count & Er & Hm & Hc & Hz). exists qname, id, r, count.
    destruct Hb as [before ->]. split; [set_solver|done].
  - rewrite max_attempts_limit. destruct (Z.ltb_spec (Z.of_nat (length (attempts_ t0))) (Z.of_nat limit)) as [Hl|Hl].
    + destruct (MakeAttempt_spec qname rest t0 A) as (t' & rv' & -> & Hatt & Hne); [lia|].
      cbn [obind]. eapply attempted_running; [done|done|done|]. intros a' Ha'. apply work_snoc; [lia|done].
    + destruct (DoCallback_spec names ERR_DNS_SERVER_FAILED t0 (ask_callback _ _ _ A) (ask_results _ _ _ A)) as (t' & E & H);
        [done|done|]. exists t'. split; [exact E|by right].
Qed.

(** The events that can happen while the callback is due: the timer fires, or the pending
    operation of an attempt's socket completes; a completed read has put a datagram, not
    empty, in the buffer. *)
Definition enabled (t : transaction) (ev : event) : Prop :=
  callback_ t = true /\
  match ev with
  | TimerFired => timer_ t <> None
  | IOComplete n rv data =>
      exists a, attempts_ t !! n = Some a /\ waiting a /\ rv <> ERR_IO_PENDING /\
        (next_state_ a = STATE_READ_RESPONSE_COMPLETE ->
         is_datagram data /\ rv <> 0 /\ (0 < rv -> rv = Z.of_nat (length data)))
  end.

Lemma deliver_ok qname a data : attempt_ok qname qtype a -> is_datagram data ->
  next_state_ a = STATE_READ_RESPONSE_COMPLETE -> attempt_ok qname qtype (deliver data a).
Proof.
  intros (id & Hi & Eq & _ & Hrd) Hd Hs. destruct (Hrd Hs) as (io & Er & Hb). exists id.
  unfold deliver, response_ok, reading. cbn [query_ response_ next_state_]. rewrite Er. cbn.
  split; [done|]. split; [done|]. split; [by left|]. intros _. eexists. split; [done|]. by apply (receive_buffer data (Response io None)).
Qed.

Lemma sum_insert n a a' l :
  l !! n = Some a -> (rank (next_state_ a') < rank (next_state_ a))%nat ->
  (list_sum (map (fun a => rank (next_state_ a)) (<[n:=a']> l)) < list_sum (map (fun a => rank (next_state_ a)) l))%nat.
Proof.
  revert n. induction l as [|b l IH]; intros [|n] H Hr; try done.
  - injection H as ->. change (<[0%nat:=a']> (a :: l)) with (a' :: l). cbn [map list_sum foldr]. lia.
  - specialize (IH n H Hr). change (<[S n:=a']> (b :: l)) with (b :: <[n:=a']> l).
    change (list_sum ?x) with (foldr Nat.add 0%nat x) in *. cbn [map foldr]. lia.
Qed.

Lemma OnIOComplete_spec names n rv data t w :
  running names w t -> enabled t (IOComplete n rv data) ->
  exists t', OnIOComplete config n rv data t = Ret t' /\ outcome_of names w t'.
Proof.
  intros (qname & rest & A & Ht & Hl & Hb & ->) [_ (a & Ha & Hw & Hp & Hd)]. unfold OnIOComplete. rewrite Ha. cbn [must obind].
  pose proof (ask_good _ _ _ A) as [[Hq _] _]%Forall_cons. destruct (ask_attempts _ _ _ A n a Ha) as [Hok Hserver].
  set (a0 := if bool_decide _ then _ else _).
  assert (H0 : attempt_ok qname qtype a0 /\ server_ a0 = server_ a /\ next_state_ a0 = next_state_ a).
  { unfold a0. case_bool_decide; [|done]. destruct (Hd H) as [Hdata _]; split; [by apply deliver_ok|done]. }
  destruct H0 as (Hok0 & Ev & Es). assert (Hn0 : next_state_ a0 <> STATE_NONE) by (rewrite Es; by destruct Hw as [->|[->| ->]]).
  assert (Hrv : result_ok rv (next_state_ a0)).
  { rewrite Es. destruct Hw as [E|[E|E]]; rewrite E; [done|done|]. destruct (Hd E) as ([_ ?] & ? & H0). split; [done|]. split; [done|]. destruct (Z.lt_ge_cases 0 rv) as [Hpos|]; [rewrite (H0 Hpos)|]; lia. }
  destruct (DoLoop_spec qname qtype Hq Htype (uses_ t) rv a0 Hok0 Hrv Hn0) as (k & a' & rv' & -> & Hok' & Ev' & _ & Hr & Hend).
  cbn [obind]. set (t1 := set_uses k _).
  assert (A1 : asking qname rest t1).
  { destruct A as [H1 H2 H3 H4 H5 H6 H7 H8 H9]. split; try done; cbn [t1 set_uses set_attempts attempts_]; [|by rewrite length_insert].
    intros i b Hi. destruct (decide (i = n)) as [->|Hne]; [|rewrite list_lookup_insert_ne in Hi by done; by apply H8].
    rewrite list_lookup_insert_eq in Hi by (by apply lookup_lt_Some in Ha). injection Hi as <-. split; [done|]. by rewrite Ev', Ev. }
  assert (Hlt : (work rest (attempts_ t1) < work rest (attempts_ t))%nat).
  { unfold work. cbn [t1 set_uses set_attempts attempts_]. rewrite length_insert.
    pose proof (sum_insert n a a' (attempts_ t) Ha ltac:(by rewrite <- Es)). lia. }
  destruct (Z.eqb_spec rv' ERR_IO_PENDING) as [->|Hp']; cbn [negb].
  - eexists. split; [done|]. left. eexists. split; [exact Hlt|]. exists qname, rest. split; [done|]. split; [exact Ht|].
    split; [|by split]. cbn [t1 set_uses set_attempts attempts_]. by rewrite length_insert.
  - destruct (OnAttemptComplete_spec names qname rest n a' rv' t1 A1 Hb) as (t' & -> & H).
    + cbn [t1 set_uses set_attempts attempts_]. apply list_lookup_insert_eq. by apply lookup_lt_Some in Ha.
    + done.
    + eexists. split; [done|]. destruct H as [(w' & Hw' & H)|H]; [left; exists w'; split; [lia|done]|by right].
Qed.

Lemma OnTimeout_spec names t w :
  running names w t -> exists t', OnTimeout config t = Ret t' /\ outcome_of names w t'.
Proof.
  intros (qname & rest & A & _ & Hl & Hb & ->). unfold OnTimeout. cbv zeta. set (t0 := set_timer None t).
  assert (A0 : asking qname rest t0) by (destruct A; by split). change (attempts_ t) with (attempts_ t0) in *.
  clearbody t0. clear A t. rename A0 into A. rewrite max_attempts_limit.
  destruct (Z.eqb_spec (Z.of_nat (length (attempts_ t0))) (Z.of_nat limit)) as [E|E].
  - destruct (DoCallback_spec names ERR_DNS_TIMED_OUT t0 (ask_callback _ _ _ A) (ask_results _ _ _ A)) as (t' & E' & H);
      [done|done|]. exists t'. split; [exact E'|by right].
  - pose proof (ask_count _ _ _ A). destruct (MakeAttempt_spec qname rest t0 A) as (t' & rv' & -> & Hatt & Hne); [lia|].
    cbn [obind]. eapply attempted_running; [done|done|done|]. intros a' Ha'. apply work_snoc; [lia|done].
Qed.

Lemma handle_spec names t ev w :
  running names w t -> enabled t ev -> exists t', handle config t ev = Ret t' /\ outcome_of names w t'.
Proof. destruct ev; cbn [handle]; intros; [by apply OnIOComplete_spec|by apply OnTimeout_spec]. Qed.

End Handle.

(** ** The search list *)

Lemma count_loop_spec fuel pre labels post count :
  Forall is_label labels -> (length labels <= fuel)%nat ->
  count_loop fuel (pre ++ wire labels ++ post) (length pre) count = Ret (count + Z.of_nat (length labels)).
Proof.
  intros Hl. revert fuel pre count. induction Hl as [|l labels [Hn Hs] Hl IH]; intros fuel pre count Hf.
  - cbn [wire map mjoin list_join app]. destruct fuel; cbn [count_loop]; rewrite lookup_middle; cbn; by rewrite Z.add_0_r.
  - destruct fuel as [|fuel]; [cbn in Hf; lia|]. rewrite wire_cons. cbn [app count_loop]. rewrite lookup_middle.
    assert (0 < length l)%nat by (destruct l; cbn; [done|lia]).
    rewrite (proj2 (Z.eqb_neq _ _)), (proj2 (Z.ltb_lt _ _)) by lia. cbn [dcheck obind]. rewrite Nat2Z.id.
    replace (pre ++ Z.of_nat (length l) :: (l ++ wire labels) ++ post)
      with ((pre ++ Z.of_nat (length l) :: l) ++ wire labels ++ post) by (rewrite <- !app_assoc; cbn [app]; by rewrite <- ?app_assoc).
    replace (length pre + (length l + 1))%nat with (length (pre ++ Z.of_nat (length l) :: l)) by (rewrite length_app; cbn [length]; lia).
    rewrite IH by (cbn in Hf; lia). f_equal. cbn [length]. lia.
Qed.

Lemma CountLabels_wire labels : Forall is_label labels -> CountLabels (wire labels) = Ret (Z.of_nat (length labels)).
Proof.
  intros Hl. unfold CountLabels. pose proof (count_loop_spec (length (wire labels)) [] labels [] 0 Hl) as H.
  cbn [app length] in H. rewrite app_nil_r in H. apply H. rewrite wire_flat, length_app. pose proof (flat_length labels). lia.
Qed.

Definition has_labels (s : list Z) : bool := negb (length (labels_of s) =? 0)%nat.

(** The names that extend the host name by the labels of a suffix, those that fit. *)
Definition longer_names (hostname : list Z) (suffixes : list (list Z)) : list (list Z) :=
  omap (fun s => let labels := labels_of hostname ++ labels_of s in
                 if has_labels s && fits labels then Some (wire labels) else None) suffixes.

Lemma wire_app_length h ls : length (wire (h ++ ls)) = (length (wire h) + length (flat ls))%nat.
Proof.
  rewrite !wire_flat, !length_app. induction h as [|l h IH]; cbn [app]; [cbn; lia|].
  rewrite !flat_cons. cbn [length]. rewrite !length_app. lia.
Qed.

Lemma flat_empty ls : length (flat ls) = 0%nat <-> ls = [].
Proof. split; [destruct ls; [done|]; by rewrite flat_cons|by intros ->]. Qed.

Section SearchLoop.
Context (hostname : list Z) (Hfits : fits (labels_of hostname) = true).

Let name := wire (labels_of hostname).

(** One suffix: dropped when too long, the host name itself when it has no labels. *)
Lemma suffix_cases s :
  (has_labels s = false /\ DNSDomainFromDot (hostname ++ [46] ++ s) = Some name) \/
  (has_labels s = true /\ longer_names hostname [s] = [] /\ DNSDomainFromDot (hostname ++ [46] ++ s) = None) \/
  (has_labels s = true /\ exists q, longer_names hostname [s] = [q] /\ DNSDomainFromDot (hostname ++ [46] ++ s) = Some q /\
     length q <> length name).
Proof.
  unfold longer_names. cbn [omap list_omap]. cbv zeta. rewrite DNSDomainFromDot_spec. cbn [app]. rewrite labels_of_app. unfold has_labels.
  destruct (Nat.eqb_spec (length (labels_of s)) 0) as [E|E]; cbn [negb andb].
  - left. apply length_zero_iff_nil in E. by rewrite E, app_nil_r, Hfits.
  - right. destruct (fits (labels_of hostname ++ labels_of s)); [right|by left].
    split; [done|]. eexists. split; [done|]. split; [done|]. unfold name. rewrite wire_app_length.
    assert (length (flat (labels_of s)) <> 0%nat) by (rewrite flat_empty; by intros H; rewrite H in E). lia.
Qed.

Lemma longer_cons s suffixes : longer_names hostname (s :: suffixes) = longer_names hostname [s] ++ longer_names hostname suffixes.
Proof. unfold longer_names. cbn [omap list_omap]. by case_match. Qed.

Lemma longer_nothing s : has_labels s = false -> longer_names hostname [s] = [].
Proof. unfold longer_names. cbn [omap list_omap]. cbv zeta. by intros ->. Qed.

(** The loop appends the longer names, and the host name's own at most once. *)
Lemma search_loop_had suffixes qnames :
  search_loop suffixes hostname name true qnames = (true, qnames ++ longer_names hostname suffixes).
Proof.
  revert qnames. induction suffixes as [|s suffixes IH]; intros qnames; [cbn; by rewrite app_nil_r|].
  rewrite longer_cons. cbn [search_loop].
  destruct (suffix_cases s) as [[Hs ->] | [(_ & -> & ->) | (_ & q & -> & -> & Hq)]].
  - by rewrite Nat.eqb_refl, IH, longer_nothing.
  - by rewrite IH.
  - by rewrite (proj2 (Nat.eqb_neq _ _) Hq), IH, <- app_assoc.
Qed.

Lemma search_loop_not suffixes qnames :
  (forallb has_labels suffixes = true /\
   search_loop suffixes hostname name false qnames = (false, qnames ++ longer_names hostname suffixes)) \/
  (forallb has_labels suffixes = false /\ exists before after, longer_names hostname suffixes = before ++ after /\
   search_loop suffixes hostname name false qnames = (true, qnames ++ before ++ name :: after)).
Proof.
  revert qnames. induction suffixes as [|s suffixes IH]; intros qnames; [left; cbn; by rewrite app_nil_r|].
  rewrite longer_cons. cbn [search_loop forallb].
  destruct (suffix_cases s) as [[Hs ->] | [(Hs & -> & ->) | (Hs & q & -> & -> & Hq)]]; rewrite Hs; cbn [andb].
  - right. split; [done|]. exists [], (longer_names hostname suffixes). rewrite Nat.eqb_refl, search_loop_had, longer_nothing by done.
    by rewrite <- app_assoc.
  - apply IH.
  - rewrite (proj2 (Nat.eqb_neq _ _) Hq). destruct (IH (qnames ++ [q])) as [[H ->] | (H & before & after & -> & ->)].
    + left. split; [done|]. by rewrite <- app_assoc.
    + right. split; [done|]. exists (q :: before), after. by rewrite <- app_assoc.
Qed.

Lemma longer_not_name suffixes : name ∉ longer_names hostname suffixes.
Proof.
  induction suffixes as [|s suffixes IH]; [by intros ?%not_elem_of_nil|]. rewrite longer_cons, elem_of_app. intros [H|H]; [|done].
  destruct (suffix_cases s) as [[Hs _] | [(_ & E & _) | (_ & q & E & _ & Hq)]].
  - rewrite (longer_nothing s Hs) in H. by apply not_elem_of_nil in H.
  - rewrite E in H. by apply not_elem_of_nil in H.
  - rewrite E in H. apply list_elem_of_singleton in H as ->. done.
Qed.

End SearchLoop.

(** Where the host name's own entry is among the longer names. *)
Definition search_result (config : DnsConfig) (hostname : list Z) (before after : list (list Z)) : Prop :=
  (last hostname = Some 46 -> before ++ after = []) /\
  (last hostname <> Some 46 ->
    before ++ after = longer_names hostname (search config) /\
    (ndots config < Z.of_nat (length (labels_of hostname)) -> before = []) /\
    (Z.of_nat (length (labels_of hostname)) <= ndots config -> forallb has_labels (search config) = true -> after = [])).

Lemma PrepareSearch_spec config hostname :
  hostname <> [] -> fits (labels_of hostname) = true ->
  exists before after,
    PrepareSearch config hostname = Ret (OK, before ++ wire (labels_of hostname) :: after) /\
    search_result config hostname before after.
Proof.
  intros Hne Hfits. unfold PrepareSearch, search_result. rewrite DNSDomainFromDot_spec, Hfits.
  destruct (last hostname) as [c|] eqn:Ec; [|by apply last_None in Ec]. cbn [must obind].
  destruct (Z.eqb_spec c 46) as [->|Hc]; [exists [], []; by split|].
  rewrite CountLabels_wire by by apply nonempty_labels. cbn [obind].
  destruct (Z.leb_spec (ndots config) (Z.of_nat (length (labels_of hostname)) - 1)).
  - rewrite search_loop_had by done. exists [], (longer_names hostname (search config)).
    split; [done|]. split; [by intros [= ->]|]. intros _. split; [done|]. split; [done|lia].
  - destruct (search_loop_not hostname Hfits (search config) []) as [[Hall ->] | (Hall & before & after & El & ->)]; cbn [app].
    + exists (longer_names hostname (search config)), []. rewrite app_nil_r. split; [done|].
      split; [by intros [= ->]|]. intros _. split; [done|]. split; [lia|done].
    + exists before, after. split; [done|]. split; [by intros [= ->]|]. intros _. split; [done|]. split; [lia|].
      intros _ H'. congruence.
Qed.

Lemma split_bytes label buf : Forall is_u8 label -> Forall is_u8 buf -> Forall (Forall is_u8) (split label buf).
Proof.
  intros Hl Hb. revert label Hl. induction Hb as [|ch buf Hc Hb IH]; intros label Hl; cbn [split]; [by constructor|].
  destruct (ch =? 46); [constructor; [done|by apply IH]|]. apply IH, Forall_app. split; [done|by constructor].
Qed.

Lemma labels_bytes buf : Forall is_u8 buf -> Forall (Forall is_u8) (labels_of buf).
Proof.
  intros Hb. apply List.Forall_forall. intros l [Hl _]%List.filter_In. revert l Hl. apply List.Forall_forall.
  by apply split_bytes.
Qed.

Lemma wire_bytes ls : Forall is_label ls -> Forall (Forall is_u8) ls -> Forall is_u8 (wire ls).
Proof.
  intros Hl. induction Hl as [|l ls [_ Hs] _ IH]; intros Hu; [by repeat constructor|].
  apply Forall_cons in Hu as [Hu Hus]. rewrite wire_cons. constructor; [unfold is_u8; lia|]. apply Forall_app. split; [done|by apply IH].
Qed.

Lemma good_wire ls : fits ls = true -> Forall is_label ls -> Forall (Forall is_u8) ls -> ls <> [] -> good_name (wire ls).
Proof.
  intros Hf Hl Hu Hn. split; [by apply wire_bytes|]. exists (join ls). split.
  - unfold DNSDomainToString. pose proof (to_string_loop_spec (length (wire ls)) [] ls [] []) as H.
    cbn [app length] in H. rewrite app_nil_r in H. rewrite H, foldl_join; [done|done|done|done|].
    rewrite wire_flat, length_app. pose proof (flat_length ls). lia.
  - destruct Hl as [|l ls [Hln _] _]; [done|]. destruct ls; cbn [join]; [done|]. by destruct l.
Qed.

(** Every name of the search list can be asked for. *)
Lemma search_good config hostname before after :
  Forall is_u8 hostname -> Forall (Forall is_u8) (search config) -> fits (labels_of hostname) = true ->
  labels_of hostname <> [] -> search_result config hostname before after ->
  Forall good_name (before ++ wire (labels_of hostname) :: after).
Proof.
  intros Hh Hs Hf Hn [H46 Hno]. assert (Hown : good_name (wire (labels_of hostname)))
    by (apply good_wire; [done|by apply nonempty_labels|by apply labels_bytes|done]).
  assert (Hall : Forall good_name (before ++ after)).
  { destruct (decide (last hostname = Some 46)) as [E|E]; [by rewrite (H46 E)|].
    destruct (Hno E) as [-> _]. unfold longer_names. apply List.Forall_forall. intros q Hq%list_elem_of_In%list_elem_of_omap.
    destruct Hq as (s & Hin & Hq). rewrite List.Forall_forall in Hs. specialize (Hs s (proj1 (list_elem_of_In _ _) Hin)).
    cbv zeta in Hq. destruct (has_labels s && _) eqn:Eb; [|done]. injection Hq as <-. apply andb_prop in Eb as [_ Hfs].
    rewrite <- labels_of_app in Hfs |- *. apply good_wire; [done|by apply nonempty_labels| |].
    - apply labels_bytes, Forall_app. split; [done|]. constructor; [by unfold is_u8|done].
    - rewrite labels_of_app. by destruct (labels_of hostname). }
  apply Forall_app in Hall as [? ?]. apply Forall_app. split; [done|by constructor].
Qed.

(** ** Properties *)

(** Runs of a started transaction. *)
Inductive steps {net : Network} (config : DnsConfig) : transaction -> list event -> transaction -> Prop :=
| steps_nil t : steps config t [] t
| steps_cons t ev t1 evs t' :
    enabled t ev -> handle config t ev = Ret t1 -> steps config t1 evs t' -> steps config t (ev :: evs) t'.

Section Run.
Context {net : Network} {quiet : QuietNetwork net} (config : DnsConfig) (qtype : Z) (Htype : is_u16 qtype).
Context (Hservers : (0 < length (nameservers config))%nat) (Hn : Z.of_nat (length (nameservers config)) < 2 ^ 31).
Context (Hattempts : 1 <= attempts config <= 31) (Hrotate : rotate config = false).

Lemma Start_spec hostname t0 names :
  new_transaction hostname qtype 0 = Ret t0 -> PrepareSearch config hostname = Ret (OK, names) ->
  Forall good_name names -> names <> [] ->
  exists t rv, Start config t0 = Ret (t, rv) /\ rv <> OK /\
    (rv = ERR_IO_PENDING -> exists w, (w < 5 * limit config * length names)%nat /\ running config qtype names w t).
Proof.
  intros H0 Hp Hg Hne. unfold new_transaction in H0. inv_outcome. unfold Start. cbn [hostname_ qnames_]. rewrite Hp. cbn [obind app].
  rewrite Z.eqb_refl. destruct names as [|qname rest]; [done|]. set (t1 := set_search _ _).
  pose proof (limit_positive config Hservers Hattempts) as Hlim.
  assert (A1 : asking config qtype qname rest (set_attempts [] (set_servers 0 0 t1)))
    by (split; try done; cbn; lia).
  destruct (StartQuery_spec config qtype Htype Hservers Hn Hattempts Hrotate qname rest t1 A1 eq_refl) as (t & rv & -> & [A Ht (a & Ea & Hr)] & Hk).
  cbn [obind]. rewrite (proj2 (Z.eqb_neq _ _) Hk). cbn [negb dcheck obind]. do 2 eexists. split; [done|]. split; [done|].
  intros _. cbn [app] in Ea. exists (work config rest [a]). split; [unfold work; cbn; lia|]. exists qname, rest. rewrite Ea.
  split; [done|]. split; [done|]. split; [cbn; lia|]. split; [by exists []|done].
Qed.

Lemma steps_spec names t evs t' w :
  steps config t evs t' -> outcome_of config qtype names w t ->
  (length evs <= w)%nat /\ outcome_of config qtype names (w - length evs) t'.
Proof.
  intros H. revert w. induction H as [t | t ev t1 evs t' He Eh _ IH]; intros w Ho.
  - split; [cbn; lia|]. by rewrite Nat.sub_0_r.
  - destruct Ho as [(w' & Hw & Hrun)|[Hc _]]; [|destruct He as [Hc' _]; congruence].
    destruct (handle_spec config qtype Htype Hservers Hn Hattempts Hrotate names t ev w' Hrun He) as (t2 & E & Ho).
    rewrite Eh in E. injection E as <-. destruct (IH w' Ho) as [Hl H']. cbn [length]. split; [lia|].
    destruct H' as [(w2 & Hw2 & Hr2)|H']; [left; exists w2; split; [lia|done]|by right].
Qed.

End Run.

(** a host name is searched for under the names a resolver tries: an invalid one under
    none; a fully qualified one (ending in a dot) under its own name only; any other under
    its own name, exactly once, and under its extensions by the configured suffixes that
    have labels and fit in a name, in the configured order.  Its own name comes first when
    it has more than [ndots] labels (that is, at least [ndots] dots), and otherwise last,
    unless a suffix without labels puts it in that suffix's place. *)
Theorem search_list_spec config hostname :
  hostname <> [] ->
  match DNSDomainFromDot hostname with
  | None => PrepareSearch config hostname = Ret (ERR_INVALID_ARGUMENT, [])
  | Some name =>
      exists before after,
        PrepareSearch config hostname = Ret (OK, before ++ name :: after) /\ name ∉ before ++ after /\
        search_result config hostname before after
  end.
Proof.
  intros Hne. pose proof (DNSDomainFromDot_spec hostname) as E. destruct (fits (labels_of hostname)) eqn:Hf; rewrite E.
  - destruct (PrepareSearch_spec config hostname Hne Hf) as (before & after & Hp & Hr). exists before, after.
    split; [done|]. split; [|done]. destruct Hr as [H46 Hno]. destruct (decide (last hostname = Some 46)) as [Hl|Hl].
    + rewrite (H46 Hl). apply not_elem_of_nil.
    + destruct (Hno Hl) as [-> _]. by apply longer_not_name.
  - unfold PrepareSearch. by rewrite E.
Qed.

Example search_list_spec_witness :
  let config := Config [0] [[98]; [46]; [99]] 2 5000000 2 false in
  PrepareSearch config [97] = Ret (OK, [[1; 97; 1; 98; 0]; [1; 97; 0]; [1; 97; 1; 99; 0]]) /\
  exists before after, PrepareSearch config [97] = Ret (OK, before ++ [1; 97; 0] :: after) /\ [1; 97; 0] ∉ before ++ after.
Proof.
  intros config. split; [by vm_compute|]. pose proof (search_list_spec config [97]) as H.
  destruct H as (before & after & H1 & H2 & _); [done|]. by exists before, after.
Defined.

(** C6: a transaction for a valid host name, on a configuration with servers, 1 to 31
    attempts and no rotation, and on a network whose reads never complete at once with a
    datagram and whose datagrams are not empty, is started without failing an assertion and never with success at once; when
    it is pending, then after any sequence of completions and timeouts either the callback
    is due, the timer runs, at most [attempts] times the number of servers attempts were
    made for the current name and the i-th went to server i modulo that number; or the
    callback was run, exactly once, with a pending result never, with success only
    together with a response that matches a query for one of the names and has answers, and
    with no response otherwise.  No event fails an assertion or reads outside an array, and
    the number of events before the callback is bounded. *)
Theorem transaction_calls_back_once (net : Network) (quiet : QuietNetwork net) config hostname qtype names t0 :
  is_u16 qtype -> (0 < length (nameservers config))%nat -> Z.of_nat (length (nameservers config)) < 2 ^ 31 ->
  1 <= attempts config <= 31 -> rotate config = false ->
  Forall is_u8 hostname -> Forall (Forall is_u8) (search config) -> labels_of hostname <> [] ->
  new_transaction hostname qtype 0 = Ret t0 -> PrepareSearch config hostname = Ret (OK, names) ->
  exists t rv, Start config t0 = Ret (t, rv) /\ rv <> OK /\
    (rv = ERR_IO_PENDING -> forall evs t', steps config t evs t' ->
       (length evs <= 5 * limit config * length names)%nat /\
       (forall ev, enabled t' ev -> exists t'', handle config t' ev = Ret t'') /\
       ((results_ t' = [] /\ enabled t' TimerFired /\ (length (attempts_ t') <= limit config)%nat /\
         forall i a, attempts_ t' !! i = Some a ->
           nameservers config !! (i mod length (nameservers config))%nat = Some (server_ a)) \/
        called_back qtype names t')).
Proof.
  intros Ht Hs Hn Ha Hr Hh Hsuf Hl H0 Hp.
  assert (Hf : fits (labels_of hostname) = true).
  { unfold PrepareSearch in Hp. rewrite DNSDomainFromDot_spec in Hp. by destruct (fits (labels_of hostname)). }
  assert (Hne : hostname <> []) by (intros ->; by apply Hl).
  destruct (PrepareSearch_spec config hostname Hne Hf) as (before & after & Hp' & Hres). rewrite Hp in Hp'. injection Hp' as ->.
  pose proof (search_good config hostname before after Hh Hsuf Hf Hl Hres) as Hg. set (names := before ++ _) in *.
  assert (Hnn : names <> []) by (unfold names; by destruct before).
  destruct (Start_spec config qtype Ht Hs Hn Ha Hr hostname t0 names H0 Hp Hg Hnn) as (t & rv & E & Hk & Hpend).
  exists t, rv. split; [done|]. split; [done|]. intros Hrv evs t' Hsteps. destruct (Hpend Hrv) as (w & Hw & Hrun).
  destruct (steps_spec config qtype Ht Hs Hn Ha Hr names t evs t' (S w) Hsteps) as [Hlen Ho]; [left; exists w; split; [lia|done]|].
  split; [lia|]. destruct Ho as [(w' & _ & Hr')|Hc].
  - split; [intros ev He; destruct (handle_spec config qtype Ht Hs Hn Ha Hr names t' ev w' Hr' He) as (t'' & E' & _); by exists t''|].
    left. destruct Hr' as (qname & rest & A & Htimer & _). split; [apply A|]. split; [split; [apply A|done]|].
    split; [apply A|]. intros i a Hi. by apply (ask_attempts _ _ _ _ _ A).
  - split; [|by right]. intros ev [Hcb _]. destruct Hc as [Hcb' _]. congruence.
Qed.

(** A network that sends at once and reads later; identifiers are 0xbeef. *)
Definition sample_network : Network :=
  {| connect_result := fun _ => 0; write_result := fun _ => 19; read_result := fun _ => (ERR_IO_PENDING, []);
     rand_result := fun _ => 0xbeef; fresh := fun _ => [] |}.

Definition sample_config (rotate : bool) : DnsConfig := Config [8; 9] [] 1 5000000 2 rotate.

Definition result_or {A} (d : A) (o : outcome A) : A := match o with Ret a => a | _ => d end.

Lemma sample_quiet : QuietNetwork sample_network.
Proof. split; intros; [done|split; [constructor|cbn; lia]|constructor]. Qed.

Lemma Ret_pair_inj {A B} (a a' : A) (b b' : B) : Ret (a, b) = Ret (a', b') -> a = a' /\ b = b'.
Proof. by intros [= -> ->]. Qed.

(** The second attempt, after a timeout, is answered. *)
Example transaction_calls_back_once_witness :
  let net := sample_network in
  exists t0 t t', new_transaction [97] 1 0 = Ret t0 /\ Start (sample_config false) t0 = Ret (t, ERR_IO_PENDING) /\
    steps (sample_config false) t [TimerFired; IOComplete 1 35 sample_response] t' /\
    called_back 1 [[1; 97; 0]] t' /\ fst <$> results_ t' = [OK].
Proof.
  intros net. set (t0 := Transaction [97] 1 true [] [] 0 None [] 0 0).
  set (t := fst (result_or (t0, 0) (Start (sample_config false) t0))).
  set (t1 := result_or t0 (handle (sample_config false) t TimerFired)).
  set (t' := result_or t0 (handle (sample_config false) t1 (IOComplete 1 35 sample_response))).
  exists t0, t, t'. split; [by vm_compute|]. split; [by vm_compute|].
  pose proof (transaction_calls_back_once net sample_quiet (sample_config false) [97] 1 [[1; 97; 0]] t0) as H.
  destruct H as (ts & rv & E & _ & Hrun); [by unfold is_u16|by apply Nat.ltb_lt|done|done|done|by apply bytes_u8|constructor|done|done|by vm_compute|].
  assert (Es : Start (sample_config false) t0 = Ret (t, ERR_IO_PENDING)) by by vm_compute.
  rewrite Es in E. destruct (Ret_pair_inj _ _ _ _ E) as [<- <-].
  assert (Hs : steps (sample_config false) t [TimerFired; IOComplete 1 35 sample_response] t').
  { apply steps_cons with t1; [by split|by vm_compute|]. apply steps_cons with t'; [|by vm_compute|constructor].
    split; [done|]. eexists. split; [by vm_compute|]. split; [by right; right|]. split; [done|]. intros _.
    split; [split; [by apply bytes_u8|by apply Nat.leb_le]|]. split; [done|]. by vm_compute. }
  split; [exact Hs|]. destruct (Hrun eq_refl _ _ Hs) as (_ & _ & [(Hres & _)|Hc]); [by vm_compute in Hres|].
  split; [exact Hc|by vm_compute].
Defined.

(** with rotation, when the session starts a query at a server other than the first,
    the index of the server for a later attempt is not reduced modulo the number of
    servers: the timeout that should move on from the last server to the first reads
    outside the list. *)
Theorem rotation_overruns `{Network} config t q :
  (0 < length (nameservers config))%nat -> Z.of_nat (length (nameservers config)) < 2 ^ 31 ->
  0 < first_server_index_ t < Z.of_nat (length (nameservers config)) ->
  Z.of_nat (length (attempts_ t)) = Z.of_nat (length (nameservers config)) - first_server_index_ t ->
  Z.of_nat (length (attempts_ t)) <> max_attempts config ->
  next_query (set_timer None t) = Ret q ->
  OnTimeout config t = Crash.
Proof.
  intros Hs Hn Hf Hl Hm Hq. unfold OnTimeout. cbv zeta. change (attempts_ (set_timer None t)) with (attempts_ t).
  rewrite (proj2 (Z.eqb_neq _ _) Hm). unfold MakeAttempt. rewrite Hq. cbn [obind].
  rewrite (proj2 (Nat.eqb_neq _ _)) by lia. cbn [negb dcheck obind set_uses set_timer first_server_index_ attempts_].
  rewrite Z.mod_small by lia. rewrite u32_small by lia.
  by rewrite (lookup_ge_None_2 (nameservers config)) by lia.
Qed.

(** Two servers: the second query of a session starts at server 1 and its first timeout
    reads server 2. *)
Example rotation_overruns_witness :
  let net := sample_network in
  NextFirstServerIndex (sample_config true) 0 = Ret (0, 1) /\
  exists t0 t, new_transaction [97] 1 1 = Ret t0 /\ Start (sample_config true) t0 = Ret (t, ERR_IO_PENDING) /\
    enabled t TimerFired /\ handle (sample_config true) t TimerFired = Crash.
Proof.
  intros net. split; [by vm_compute|]. do 2 eexists. split; [by vm_compute|]. split; [by vm_compute|]. split; [by split|].
  eapply (rotation_overruns (sample_config true)); [cbn; lia|done|done|done|done|by vm_compute].
Defined.

(** The result of connecting is not looked at, unless it is pending. *)
Lemma connect_result_ignored `{Network} k a :
  connect_result k <> ERR_IO_PENDING -> DoLoop k OK (go STATE_CONNECT a) = do_loop 4 (S k) 0 (go STATE_SEND_QUERY a).
Proof.
  intros Hc. unfold DoLoop. change (do_loop 5 k OK (go STATE_CONNECT a)) with
    (if negb (connect_result k =? ERR_IO_PENDING) && true then do_loop 4 (S k) (connect_result k) (go STATE_SEND_QUERY a)
     else Ret (S k, go STATE_SEND_QUERY a, connect_result k)).
  rewrite (proj2 (Z.eqb_neq _ _) Hc). done.
Qed.

(** When the response is read at once, the transaction fails an assertion. *)
Lemma answer_at_once_crashes :
  let net := {| connect_result := fun _ => 0; write_result := fun _ => 19;
                read_result := fun _ => (35, sample_response); rand_result := fun _ => 0xbeef; fresh := fun _ => [] |} in
  exists t0, new_transaction [97] 1 0 = Ret t0 /\ Start (sample_config false) t0 = Crash.
Proof. exists (Transaction [97] 1 true [] [] 0 None [] 0 0). split; by vm_compute. Qed.

(** With no attempts configured, timeouts never end the transaction. *)
Lemma no_attempts_no_timeout `{Network} config t :
  attempts config = 0 -> attempts_ t <> [] ->
  OnTimeout config t = let! '(t, rv) := MakeAttempt config (set_timer None t) in callback_unless_pending t rv.
Proof.
  intros Ha Hne. unfold OnTimeout, max_attempts. cbv zeta. rewrite Ha, Z.mul_0_l. change (u64 0) with 0.
  change (attempts_ (set_timer None t)) with (attempts_ t).
  rewrite (proj2 (Z.eqb_neq _ _)); [done|]. destruct (attempts_ t); [done|]. cbn. lia.
Qed.

End DnsTransaction.
