(* ===== verification/NetDispatcher.v ===== *)
(** A queue by priority and a dispatcher of jobs, [net/base/priority_queue.h] and
    [net/base/prioritized_dispatcher.cc]: lists of nodes per priority, handles to them, and
    limits on running jobs with slots reserved for the more urgent. *)
From S2P Require Import Prelude.

(** ** The queue *)
Module PriorityQueue.

Section Queue.
Context {T : Type}.

(** A [Pointer]: priority and node, a node being known by the id it carries; [None] is the
    null pointer. *)
Definition pointer : Type := option (Z * Z).

(** [PriorityQueue], as built for debugging. *)
Record t := mk {
  next_id_ : Z;
  valid_ids_ : gset Z;
  lists_ : list (list (Z * T));
  size_ : Z
}.

Definition init (num_priorities : nat) : t := mk 0 ∅ (repeat [] num_priorities) 0.

Definition Insert (value : T) (priority : Z) (q : t) : outcome (pointer * t) :=
  check! (0 <=? priority) && (priority <? Z.of_nat (length (lists_ q)));
  let id := next_id_ q in
  let list := default [] (lists_ q !! Z.to_nat priority) in
  Ret (Some (priority, id),
       mk (u32 (id + 1)) ({[id]} ∪ valid_ids_ q) (<[Z.to_nat priority := list ++ [(id, value)]]> (lists_ q)) (u32 (size_ q + 1))).

(** The node of an iterator: [None] when it is not in the list. *)
Definition find_node (id : Z) (l : list (Z * T)) : option T :=
  match list_find (fun x => fst x = id) l with Some (_, x) => Some (snd x) | None => None end.

Definition erase_node (id : Z) (l : list (Z * T)) : list (Z * T) := filter (fun x => fst x <> id) l.

(** [pointer.value()]. *)
Definition value (ptr : pointer) (q : t) : outcome T :=
  match ptr with
  | None => Crash
  | Some (priority, id) => must (lists_ q !! Z.to_nat priority ≫= find_node id)
  end.

Definition Erase (ptr : pointer) (q : t) : outcome t :=
  match ptr with
  | None => Crash
  | Some (priority, id) =>
      check! (0 <=? priority) && (priority <? Z.of_nat (length (lists_ q)));
      check! 0 <? size_ q;
      check! bool_decide (id ∈ valid_ids_ q);
      let! _ := value ptr q in
      let list := default [] (lists_ q !! Z.to_nat priority) in
      Ret (mk (next_id_ q) (valid_ids_ q ∖ {[id]}) (<[Z.to_nat priority := erase_node id list]> (lists_ q)) (u32 (size_ q - 1)))
  end.

(** The first priority of [order] with a node, and the one [pick] takes. *)
Fixpoint scan (pick : list (Z * T) -> option (Z * T)) (order : list nat) (q : t) : pointer :=
  match order with
  | [] => None
  | i :: order =>
      match lists_ q !! i ≫= pick with
      | Some x => Some (Z.of_nat i, fst x)
      | None => scan pick order q
      end
  end.

Definition upwards (q : t) : list nat := seq 0 (length (lists_ q)).

Definition FirstMin (q : t) : pointer := scan head (upwards q) q.
Definition LastMin (q : t) : pointer := scan last (upwards q) q.
Definition FirstMax (q : t) : pointer := scan head (reverse (upwards q)) q.
Definition LastMax (q : t) : pointer := scan last (reverse (upwards q)) q.

Definition Clear (q : t) : t := mk (next_id_ q) ∅ (map (fun _ => []) (lists_ q)) 0.

Definition size (q : t) : Z := size_ q.

(** ** As one list

    What waits, in the order of arrival: priority, id and value. *)
Record entry := mkEntry { priority : Z; ident : Z; item : T }.

Definition node (x : entry) : Z * T := (ident x, item x).

Record represents (q : t) (n : nat) (w : list entry) : Prop := {
  rp_lists : lists_ q = map (fun i => map node (filter (fun x => priority x = Z.of_nat i) w)) (seq 0 n);
  rp_priorities : Forall (fun x => 0 <= priority x < Z.of_nat n) w;
  rp_ids : NoDup (map ident w) /\ Forall (fun x => 0 <= ident x < next_id_ q) w /\ 0 <= next_id_ q < 2 ^ 32;
  rp_valid : valid_ids_ q = list_to_set (map ident w);
  rp_size : size_ q = Z.of_nat (length w) /\ size_ q <= next_id_ q
}.

(** The first of the entries of least, and of greatest, priority number. *)
Definition first_by (key : Z -> Z) : list entry -> option entry :=
  foldr (fun x best => match best with Some y => if key (priority y) <? key (priority x) then Some y else Some x | None => Some x end) None.

Definition first_min := first_by id.
Definition first_max := first_by Z.opp.

Definition without (id : Z) (w : list entry) : list entry := filter (fun x => ident x <> id) w.

Definition handle_of (x : entry) : pointer := Some (priority x, ident x).

Lemma init_represents n : represents (init n) n [].
Proof.
  split; cbn; try done.
  - generalize 0%nat. induction n as [|n IH]; intros k; [done|]. cbn [repeat seq map]. by rewrite (IH (S k)).
  - split; [constructor|]. split; [done|lia].
Qed.

Lemma lists_at q n w p : represents q n w -> 0 <= p < Z.of_nat n ->
  length (lists_ q) = n /\ lists_ q !! Z.to_nat p = Some (map node (filter (fun x => priority x = p) w)).
Proof.
  intros [Hl _ _ _ _] Hp. rewrite Hl, length_map, length_seq. split; [done|]. rewrite list_lookup_fmap, lookup_seq_lt by lia. cbn. by rewrite Z2Nat.id by lia.
Qed.

(** Changing the entries of one priority. *)
Lemma lists_insert n w w' p : 0 <= p < Z.of_nat n ->
  (forall i, i <> p -> filter (fun x => priority x = i) w' = filter (fun x => priority x = i) w) ->
  <[Z.to_nat p := map node (filter (fun x => priority x = p) w')]> (map (fun i => map node (filter (fun x => priority x = Z.of_nat i) w)) (seq 0 n)) =
  map (fun i => map node (filter (fun x => priority x = Z.of_nat i) w')) (seq 0 n).
Proof.
  intros Hp Hother. apply list_eq. intros i. destruct (decide (i = Z.to_nat p)) as [->|Hi].
  - rewrite list_lookup_insert_eq by (rewrite length_map, length_seq; lia). rewrite list_lookup_fmap, lookup_seq_lt by lia. cbn. by rewrite Z2Nat.id by lia.
  - rewrite list_lookup_insert_ne by done. rewrite !list_lookup_fmap. destruct (decide (i < n)%nat) as [Hlt|Hge].
    + rewrite lookup_seq_lt by done. cbn. rewrite Hother; [done|]. intros E. apply Hi. lia.
    + by rewrite lookup_seq_ge by lia.
Qed.

Lemma Insert_spec q n w v p :
  represents q n w -> 0 <= p < Z.of_nat n -> next_id_ q + 1 < 2 ^ 32 ->
  exists q', Insert v p q = Ret (Some (p, next_id_ q), q') /\ represents q' n (w ++ [mkEntry p (next_id_ q) v]) /\ next_id_ q' = next_id_ q + 1.
Proof.
  intros Hq Hp Hid. destruct (lists_at q n w p Hq Hp) as [Hlen Hat]. pose proof Hq as [Hl Hpr (Hnd & Hids & Hn0) Hv [Hs1 Hs2]]. unfold Insert.
  rewrite (proj2 (Z.leb_le _ _)), (proj2 (Z.ltb_lt _ _)) by lia. cbn [andb dcheck obind]. rewrite Hat. cbn [default from_option]. unfold id.
  eexists. split; [done|]. rewrite u32_small by lia. split; [|done]. split; cbn [lists_ next_id_ valid_ids_ size_].
  - rewrite Hl. set (w' := w ++ [mkEntry p (next_id_ q) v]).
    assert (E : map node (filter (fun x => priority x = p) w) ++ [(next_id_ q, v)] = map node (filter (fun x => priority x = p) w')).
    { unfold w'. rewrite filter_app, map_app, filter_cons_True by done. done. }
    rewrite E. apply lists_insert; [done|]. intros i Hi. unfold w'. rewrite filter_app, filter_cons_False, filter_nil, app_nil_r; [done|]. cbn. congruence.
  - apply Forall_app. split; [done|]. by constructor.
  - split; [|split; [|lia]].
    + rewrite map_app. apply NoDup_app. split; [done|]. split; [|apply NoDup_singleton]. intros x Hx Hx'. apply list_elem_of_singleton in Hx' as ->.
      apply list_elem_of_fmap in Hx as (y & E & Hy). rewrite Forall_forall in Hids. specialize (Hids y Hy). cbn in E. lia.
    + apply Forall_app. split; [eapply Forall_impl; [exact Hids|]; cbn; lia|]. constructor; [cbn; lia|done].
  - rewrite map_app, list_to_set_app_L, Hv. cbn. set_solver.
  - rewrite length_app, Hs1. cbn [length]. rewrite u32_small by lia. lia.
Qed.

Lemma ident_inj w x y : NoDup (map ident w) -> x ∈ w -> y ∈ w -> ident x = ident y -> x = y.
Proof.
  induction w as [|z w IH]; cbn; [intros _ Hx; by apply not_elem_of_nil in Hx|]. rewrite NoDup_cons. intros [Hz Hnd] Hx Hy E.
  apply elem_of_cons in Hx as [->|Hx], Hy as [->|Hy]; [done| | |by apply IH].
  - destruct Hz. rewrite E. by apply list_elem_of_fmap_2.
  - destruct Hz. rewrite <- E. by apply list_elem_of_fmap_2.
Qed.

Lemma find_node_at w x : NoDup (map ident w) -> x ∈ w -> find_node (ident x) (map node (filter (fun y => priority y = priority x) w)) = Some (item x).
Proof.
  intros Hnd Hx. unfold find_node.
  destruct (list_find (fun y => fst y = ident x) _) as [[i y]|] eqn:E.
  - apply list_find_Some in E as (Hi & Ey & _). apply list_elem_of_lookup_2, list_elem_of_fmap in Hi as (z & -> & Hz).
    apply list_elem_of_filter in Hz as [_ Hz]. cbn in *. by rewrite (ident_inj w z x).
  - apply list_find_None in E. rewrite Forall_forall in E. destruct (E (node x)); [|done]. apply list_elem_of_fmap_2. by apply list_elem_of_filter.
Qed.

Lemma value_spec q n w x : represents q n w -> x ∈ w -> value (handle_of x) q = Ret (item x).
Proof.
  intros Hq Hx. pose proof Hq as [_ Hpr (Hnd & _) _ _]. rewrite Forall_forall in Hpr.
  destruct (lists_at q n w (priority x) Hq (Hpr x Hx)) as [_ Hat]. cbn. rewrite Hat. cbn. by rewrite find_node_at.
Qed.

Lemma without_length w x : NoDup (map ident w) -> x ∈ w -> S (length (without (ident x) w)) = length w.
Proof.
  unfold without. induction w as [|y w IH]; cbn [map]; [intros _ Hx; by apply not_elem_of_nil in Hx|]. rewrite NoDup_cons. intros [Hy Hnd] Hx.
  destruct (decide (ident y = ident x)) as [E|E].
  - rewrite filter_cons_False by (intros H; by apply H). cbn [length]. f_equal. f_equal. clear IH Hnd Hx. rewrite E in Hy. clear E y.
    induction w as [|z w IH]; [done|]. cbn [map] in Hy. apply not_elem_of_cons in Hy as [Hz Hw]. rewrite filter_cons_True by (by intros H; apply Hz). by rewrite IH.
  - rewrite filter_cons_True by done. cbn [length]. f_equal. apply IH; [done|]. apply elem_of_cons in Hx as [->|Hx]; done.
Qed.

Lemma erase_node_map id w : erase_node id (map node w) = map node (without id w).
Proof.
  unfold erase_node, without. induction w as [|x w IH]; [done|]. cbn [map]. destruct (decide (ident x = id)) as [E|E].
  - rewrite !filter_cons_False by (cbn; tauto). done.
  - rewrite !filter_cons_True by done. cbn [map]. by rewrite IH.
Qed.

Lemma filter_ext_in (P1 P2 : entry -> Prop) `{!forall x, Decision (P1 x), !forall x, Decision (P2 x)} (w : list entry) :
  (forall x, x ∈ w -> P1 x <-> P2 x) -> filter P1 w = filter P2 w.
Proof.
  induction w as [|x w IH]; [done|]. intros Hin. rewrite !filter_cons. rewrite IH by (intros y Hy; apply Hin; by apply list_elem_of_further).
  apply decide_ext. apply Hin, list_elem_of_here.
Qed.

Lemma without_Forall (P : entry -> Prop) id w : Forall P w -> Forall P (without id w).
Proof. rewrite !Forall_forall. intros H x [_ Hx]%list_elem_of_filter. by apply H. Qed.

Lemma without_at id p w : without id (filter (fun x => priority x = p) w) = filter (fun x => priority x = p) (without id w).
Proof. unfold without. rewrite !list_filter_filter. apply list_filter_iff. tauto. Qed.

Lemma without_elsewhere w x i : NoDup (map ident w) -> x ∈ w -> i <> priority x ->
  filter (fun y => priority y = i) (without (ident x) w) = filter (fun y => priority y = i) w.
Proof.
  intros Hnd Hx Hi. unfold without. rewrite list_filter_filter. apply filter_ext_in. intros y Hy. split; [tauto|]. intros <-. split; [done|].
  intros E. apply Hi. by rewrite (ident_inj w y x).
Qed.

Lemma Erase_spec q n w x :
  represents q n w -> x ∈ w ->
  exists q', Erase (handle_of x) q = Ret q' /\ represents q' n (without (ident x) w) /\ next_id_ q' = next_id_ q.
Proof.
  intros Hq Hx. pose proof (value_spec q n w x Hq Hx) as Hval. pose proof Hq as [Hl Hpr (Hnd & Hids & Hn0) Hv [Hs1 Hs2]].
  pose proof Hpr as Hpr'. rewrite Forall_forall in Hpr'. specialize (Hpr' x Hx). destruct (lists_at q n w (priority x) Hq Hpr') as [Hlen Hat].
  pose proof (without_length w x Hnd Hx) as Hw.
  unfold Erase, handle_of. fold (handle_of x). rewrite Hval.
  rewrite (proj2 (Z.leb_le 0 _)), (proj2 (Z.ltb_lt (priority x) _)), (proj2 (Z.ltb_lt 0 _)), bool_decide_eq_true_2 by (try lia; rewrite Hv; apply elem_of_list_to_set; by apply list_elem_of_fmap_2).
  cbn [andb dcheck obind]. rewrite Hat. cbn [default from_option]. unfold id at 1. eexists. split; [done|]. split; [|done].
  split; cbn [lists_ next_id_ valid_ids_ size_].
  - rewrite Hl, erase_node_map, without_at. apply lists_insert; [done|]. intros i Hi. by apply (without_elsewhere w x).
  - by apply without_Forall.
  - split; [|split; [by apply without_Forall|lia]]. eapply sublist_NoDup; [exact Hnd|]. apply (fmap_sublist ident), sublist_filter.
  - rewrite Hv. unfold without. apply set_eq. intros i. rewrite elem_of_difference, elem_of_singleton, !elem_of_list_to_set, !list_elem_of_fmap.
    setoid_rewrite list_elem_of_filter. naive_solver.
  - rewrite u32_small by lia. lia.
Qed.

Lemma Clear_spec q n w : represents q n w -> represents (Clear q) n [].
Proof.
  intros [Hl _ (_ & _ & Hn0) _ [Hs1 Hs2]]. split; cbn; try done.
  - rewrite Hl. by rewrite map_map.
  - split; [constructor|]. by split.
  - lia.
Qed.

(** ** The searches *)

Lemma first_by_none key w : first_by key w = None -> w = [].
Proof. destruct w as [|x w]; [done|]. unfold first_by. cbn [foldr]. destruct (foldr _ None w); [case_match; discriminate|discriminate]. Qed.

Lemma first_by_spec key w x : first_by key w = Some x ->
  x ∈ w /\ Forall (fun y => key (priority x) <= key (priority y)) w /\ head (filter (fun y => key (priority y) = key (priority x)) w) = Some x.
Proof.
  revert x. induction w as [|y w IH]; [done|]. intros x. unfold first_by at 1. cbn [foldr]. fold (first_by key w). destruct (first_by key w) as [z|] eqn:E.
  - destruct (IH z eq_refl) as (Hz & Hle & Hh). destruct (Z.ltb_spec (key (priority z)) (key (priority y))) as [Hlt|Hge]; intros [= <-].
    + split; [by apply list_elem_of_further|]. split; [constructor; [lia|done]|]. rewrite filter_cons_False by lia. done.
    + split; [apply list_elem_of_here|]. split; [constructor; [lia|eapply Forall_impl; [exact Hle|cbn; lia]]|]. by rewrite filter_cons_True.
  - intros [= <-]. apply first_by_none in E as ->.
    split; [apply list_elem_of_here|]. split; [by constructor|]. by rewrite filter_cons_True.
Qed.

Lemma scan_found pick order q i x pre post :
  order = pre ++ i :: post -> (forall j, j ∈ pre -> lists_ q !! j ≫= pick = None) -> lists_ q !! i ≫= pick = Some x ->
  scan pick order q = Some (Z.of_nat i, fst x).
Proof.
  intros ->. induction pre as [|j pre IH]; intros Hpre Hx; cbn.
  - by rewrite Hx.
  - rewrite Hpre by apply list_elem_of_here. apply IH; [|done]. intros k Hk. apply Hpre. by apply list_elem_of_further.
Qed.

Lemma scan_none pick order q : (forall j, j ∈ order -> lists_ q !! j ≫= pick = None) -> scan pick order q = None.
Proof.
  induction order as [|j order IH]; intros H; cbn; [done|]. rewrite H by apply list_elem_of_here. apply IH. intros k Hk. apply H. by apply list_elem_of_further.
Qed.

(** In every order that agrees with [key] the search ends at an entry of least [key], the
    first of them or, with the entries taken from the other end ([w']), the last. *)
Lemma scan_first pick key order q n w w' :
  (forall p, pick (map node (filter (fun y => priority y = p) w)) = node <$> head (filter (fun y => priority y = p) w')) ->
  (forall x, x ∈ w' -> x ∈ w) ->
  (forall a b, key a = key b -> a = b) ->
  (forall p, 0 <= p < Z.of_nat n -> exists pre post, order = pre ++ Z.to_nat p :: post /\ forall j, j ∈ pre -> (j < n)%nat /\ key (Z.of_nat j) < key p) ->
  (forall j, j ∈ order -> (j < n)%nat) ->
  represents q n w -> scan pick order q = first_by key w' ≫= handle_of.
Proof.
  intros Hpick Hw' Hinj Horder Hbelow Hq. pose proof Hq as [_ Hpr _ _ _].
  assert (Hat : forall j, (j < n)%nat -> lists_ q !! j ≫= pick = node <$> head (filter (fun y => priority y = Z.of_nat j) w')).
  { intros j Hj. destruct (lists_at q n w (Z.of_nat j) Hq) as [_ H]; [lia|]. rewrite Nat2Z.id in H. rewrite H. apply Hpick. }
  destruct (first_by key w') as [x|] eqn:E; cbn.
  - destruct (first_by_spec key w' x E) as (Hx & Hle & Hh). rewrite Forall_forall in Hpr, Hle. specialize (Hpr x (Hw' x Hx)).
    destruct (Horder (priority x) Hpr) as (pre & post & -> & Hpre).
    rewrite (scan_found pick _ q (Z.to_nat (priority x)) (node x) pre post).
    + by rewrite Z2Nat.id by lia.
    + done.
    + intros j Hj. destruct (Hpre j Hj) as [Hjn Hlt]. rewrite Hat by done. destruct (filter (fun y => priority y = Z.of_nat j) w') as [|y l] eqn:Ef; [done|].
      assert (Hy : y ∈ filter (fun y => priority y = Z.of_nat j) w') by (rewrite Ef; apply list_elem_of_here).
      apply list_elem_of_filter in Hy as [Ey Hy]. specialize (Hle y Hy). rewrite Ey in Hle. lia.
    + rewrite Hat by lia. rewrite Z2Nat.id by lia. rewrite (list_filter_iff _ (fun y => key (priority y) = key (priority x))); [by rewrite Hh|]. intros y. split; [by intros ->|apply Hinj].
  - apply first_by_none in E as ->. apply scan_none. intros j Hj. by rewrite Hat by auto.
Qed.

Lemma upwards_at q n w p : represents q n w -> 0 <= p < Z.of_nat n ->
  upwards q = seq 0 (Z.to_nat p) ++ Z.to_nat p :: seq (S (Z.to_nat p)) (n - S (Z.to_nat p)).
Proof.
  intros Hq Hp. unfold upwards. destruct (lists_at q n w p Hq Hp) as [-> _].
  replace n with (Z.to_nat p + S (n - S (Z.to_nat p)))%nat at 1 by lia. by rewrite seq_app.
Qed.

Lemma upwards_below q n w j : represents q n w -> j ∈ upwards q -> (j < n)%nat.
Proof. intros [Hl _ _ _ _] Hj. unfold upwards in Hj. apply elem_of_seq in Hj. rewrite Hl, length_map, length_seq in Hj. lia. Qed.

Lemma pick_head p w : head (map node (filter (fun y => priority y = p) w)) = node <$> head (filter (fun y => priority y = p) w).
Proof. by destruct (filter _ w). Qed.

Lemma pick_last p w : last (map node (filter (fun y => priority y = p) w)) = node <$> head (filter (fun y => priority y = p) (reverse w)).
Proof. rewrite filter_reverse, head_reverse. apply fmap_last. Qed.

Lemma upwards_spec pick q n w w' :
  (forall p, pick (map node (filter (fun y => priority y = p) w)) = node <$> head (filter (fun y => priority y = p) w')) ->
  (forall x, x ∈ w' -> x ∈ w) -> represents q n w -> scan pick (upwards q) q = first_min w' ≫= handle_of.
Proof.
  intros Hpick Hw' Hq. apply (scan_first pick id _ q n w); [done|done|done| | |done].
  - intros p Hp. exists (seq 0 (Z.to_nat p)). eexists. split; [by eapply upwards_at|]. intros j Hj%elem_of_seq. unfold id. lia.
  - intros j Hj. by eapply upwards_below.
Qed.

Lemma downwards_spec pick q n w w' :
  (forall p, pick (map node (filter (fun y => priority y = p) w)) = node <$> head (filter (fun y => priority y = p) w')) ->
  (forall x, x ∈ w' -> x ∈ w) -> represents q n w -> scan pick (reverse (upwards q)) q = first_max w' ≫= handle_of.
Proof.
  intros Hpick Hw' Hq. apply (scan_first pick Z.opp _ q n w); [done|done|lia| | |done].
  - intros p Hp. rewrite (upwards_at q n w p Hq Hp), reverse_app, reverse_cons, <- app_assoc. do 2 eexists. split; [done|].
    intros j Hj%elem_of_reverse%elem_of_seq. lia.
  - intros j Hj. apply (upwards_below q n w); [done|]. by apply elem_of_reverse.
Qed.

Lemma FirstMin_spec q n w : represents q n w -> FirstMin q = first_min w ≫= handle_of.
Proof. apply upwards_spec; [intros p; apply pick_head|done]. Qed.

Lemma FirstMax_spec q n w : represents q n w -> FirstMax q = first_max w ≫= handle_of.
Proof. apply downwards_spec; [intros p; apply pick_head|done]. Qed.

Lemma LastMin_spec q n w : represents q n w -> LastMin q = first_min (reverse w) ≫= handle_of.
Proof. apply upwards_spec; [intros p; apply pick_last|intros x; apply elem_of_reverse]. Qed.

Lemma LastMax_spec q n w : represents q n w -> LastMax q = first_max (reverse w) ≫= handle_of.
Proof. apply downwards_spec; [intros p; apply pick_last|intros x; apply elem_of_reverse]. Qed.

End Queue.

Arguments t : clear implicits.
Arguments entry : clear implicits.

End PriorityQueue.

(** ** The dispatcher *)
Module PrioritizedDispatcher.
Import PriorityQueue.

(** [Limits]. *)
Record Limits := mkLimits { total_jobs : Z; reserved_slots : list Z }.

(** A handle to a job; a [Job*] is its address, null being 0. *)
Definition Handle : Type := pointer.

Record dispatcher := mkDispatcher {
  queue_ : PriorityQueue.t Z;
  max_running_jobs_ : list Z;
  num_running_jobs_ : Z
}.

(** The first loop of the constructor, from the last priority down: the total and the
    limits without the spare slots. *)
Fixpoint accumulate (slots : list Z) : Z * list Z :=
  match slots with
  | [] => (0, [])
  | s :: slots => let '(total, max) := accumulate slots in let total := u32 (total + s) in (total, total :: max)
  end.

Definition create (limits : Limits) : outcome dispatcher :=
  let '(total, max) := accumulate (reserved_slots limits) in
  check! total <=? total_jobs limits;
  let spare := u32 (total_jobs limits - total) in
  Ret (mkDispatcher (init (length (reserved_slots limits))) (map (fun m => u32 (m + spare)) max) 0).

Definition num_running_jobs (d : dispatcher) : Z := num_running_jobs_ d.
Definition num_queued_jobs (d : dispatcher) : Z := size (queue_ d).
Definition num_priorities (d : dispatcher) : Z := Z.of_nat (length (max_running_jobs_ d)).

(** The check of a priority, an unsigned number, and [max_running_jobs_[priority]]. *)
Definition in_range (priority : Z) (d : dispatcher) : bool := (0 <=? priority) && (priority <? num_priorities d).
Definition max_running (priority : Z) (d : dispatcher) : outcome Z := must (max_running_jobs_ d !! Z.to_nat priority).

Definition set_queue (q : PriorityQueue.t Z) (d : dispatcher) : dispatcher := mkDispatcher q (max_running_jobs_ d) (num_running_jobs_ d).
Definition set_running (n : Z) (d : dispatcher) : dispatcher := mkDispatcher (queue_ d) (max_running_jobs_ d) n.

(** The operations return, beside their result, the jobs whose [Start] they called: it is the
    last thing they do, so what a job calls from [Start] is an operation that follows. *)
Definition Add (job priority : Z) (d : dispatcher) : outcome (Handle * list Z * dispatcher) :=
  check! negb (job =? 0);
  check! in_range priority d;
  let! limit := max_running priority d in
  if num_running_jobs_ d <? limit then Ret (None, [job], set_running (u32 (num_running_jobs_ d + 1)) d)
  else let! '(handle, q) := Insert job priority (queue_ d) in Ret (handle, [], set_queue q d).

Definition Cancel (handle : Handle) (d : dispatcher) : outcome dispatcher :=
  let! q := Erase handle (queue_ d) in Ret (set_queue q d).

Definition EvictOldestLowest (d : dispatcher) : outcome (Z * dispatcher) :=
  match FirstMax (queue_ d) with
  | None => Ret (0, d)
  | Some h =>
      let! job := value (Some h) (queue_ d) in
      let! d := Cancel (Some h) d in
      Ret (job, d)
  end.

Definition MaybeDispatchJob (handle : Handle) (job_priority : Z) (d : dispatcher) : outcome (bool * list Z * dispatcher) :=
  check! in_range job_priority d;
  let! limit := max_running job_priority d in
  if limit <=? num_running_jobs_ d then Ret (false, [], d)
  else
    let! job := value handle (queue_ d) in
    let! q := Erase handle (queue_ d) in
    Ret (true, [job], set_running (u32 (num_running_jobs_ d + 1)) (set_queue q d)).

Definition ChangePriority (handle : Handle) (priority : Z) (d : dispatcher) : outcome (Handle * list Z * dispatcher) :=
  match handle with
  | None => Crash
  | Some (old, _) =>
      check! in_range priority d;
      let! limit := max_running old d in
      check! limit <=? num_running_jobs_ d;
      if old =? priority then Ret (handle, [], d)
      else
        let! '(dispatched, started, d) := MaybeDispatchJob handle priority d in
        if dispatched : bool then Ret (None, started, d)
        else
          let! job := value handle (queue_ d) in
          let! q := Erase handle (queue_ d) in
          let! '(handle, q) := Insert job priority q in
          Ret (handle, [], set_queue q d)
  end.

Definition OnJobFinished (d : dispatcher) : outcome (list Z * dispatcher) :=
  check! 0 <? num_running_jobs_ d;
  let d := set_running (u32 (num_running_jobs_ d - 1)) d in
  match FirstMin (queue_ d) with
  | None =>
      check! size (queue_ d) =? 0;
      Ret ([], d)
  | Some (priority, id) =>
      let! '(_, started, d) := MaybeDispatchJob (Some (priority, id)) priority d in
      Ret (started, d)
  end.

(** ** Operations in sequence *)
Inductive op :=
| OpAdd (job priority : Z)
| OpCancel (handle : Handle)
| OpEvict
| OpChange (handle : Handle) (priority : Z)
| OpFinished.

(** What the caller sees: a handle or a job returned, and the jobs started. *)
Record answer := mkAnswer { handle : Handle; evicted : Z; started : list Z }.

Definition step (o : op) (d : dispatcher) : outcome (answer * dispatcher) :=
  match o with
  | OpAdd job priority => let! '(h, st, d) := Add job priority d in Ret (mkAnswer h 0 st, d)
  | OpCancel h => let! d := Cancel h d in Ret (mkAnswer None 0 [], d)
  | OpEvict => let! '(job, d) := EvictOldestLowest d in Ret (mkAnswer None job [], d)
  | OpChange h priority => let! '(h, st, d) := ChangePriority h priority d in Ret (mkAnswer h 0 st, d)
  | OpFinished => let! '(st, d) := OnJobFinished d in Ret (mkAnswer None 0 st, d)
  end.

Fixpoint run (ops : list op) (d : dispatcher) : outcome (list answer * dispatcher) :=
  match ops with
  | [] => Ret ([], d)
  | o :: ops =>
      let! '(a, d) := step o d in
      let! '(answers, d) := run ops d in
      Ret (a :: answers, d)
  end.

(** ** What it promises

    A number of running jobs and one list of waiting ones, in the order of arrival: a job
    of priority [p] may start while the running jobs leave free the slots reserved for
    priorities more urgent than [p]. *)
Record state := mkState { running : Z; waiting : list (entry Z); next : Z }.

Definition total (l : list Z) : Z := foldr Z.add 0 l.

Definition limit (limits : Limits) (p : Z) : Z := total_jobs limits - total (take (Z.to_nat p) (reserved_slots limits)).

Definition room (limits : Limits) (p : Z) (s : state) : bool := running s <? limit limits p.

Definition priority_ok (limits : Limits) (p : Z) : bool := (0 <=? p) && (p <? Z.of_nat (length (reserved_slots limits))).

Definition held (h : Handle) (s : state) : option (entry Z) := head (filter (fun x => handle_of x = h) (waiting s)).

Definition leave (x : entry Z) (s : state) : state := mkState (running s) (without (ident x) (waiting s)) (next s).
Definition arrive (p job : Z) (s : state) : state := mkState (running s) (waiting s ++ [mkEntry p (next s) job]) (next s + 1).
Definition start (s : state) : state := mkState (running s + 1) (waiting s) (next s).

(** The operation on the abstract state; [None] for one its caller may not make. *)
Definition spec_step (limits : Limits) (o : op) (s : state) : option (answer * state) :=
  match o with
  | OpAdd job p =>
      if negb (job =? 0) && priority_ok limits p then
        if room limits p s then Some (mkAnswer None 0 [job], start s)
        else Some (mkAnswer (Some (p, next s)) 0 [], arrive p job s)
      else None
  | OpCancel h => x ← held h s; Some (mkAnswer None 0 [], leave x s)
  | OpEvict =>
      match first_max (waiting s) with
      | None => Some (mkAnswer None 0 [], s)
      | Some x => Some (mkAnswer None (item x) [], leave x s)
      end
  | OpChange h p =>
      x ← held h s;
      if priority_ok limits p then
        if priority x =? p then Some (mkAnswer h 0 [], s)
        else if room limits p s then Some (mkAnswer None 0 [item x], start (leave x s))
        else Some (mkAnswer (Some (p, next s)) 0 [], arrive p (item x) (leave x s))
      else None
  | OpFinished =>
      if 0 <? running s then
        let s := mkState (running s - 1) (waiting s) (next s) in
        match first_min (waiting s) with
        | Some x => if room limits (priority x) s then Some (mkAnswer None 0 [item x], start (leave x s)) else Some (mkAnswer None 0 [], s)
        | None => Some (mkAnswer None 0 [], s)
        end
      else None
  end.

Fixpoint spec_run (limits : Limits) (ops : list op) (s : state) : option (list answer * state) :=
  match ops with
  | [] => Some ([], s)
  | o :: ops => '(a, s) ← spec_step limits o s; '(answers, s) ← spec_run limits ops s; Some (a :: answers, s)
  end.

(** Slots that fit. *)
Definition limits_ok (limits : Limits) : Prop :=
  Forall (fun s => 0 <= s) (reserved_slots limits) /\ total (reserved_slots limits) <= total_jobs limits < 2 ^ 32.

(** The state is represented, apart from whether something waits that could run. *)
Record refines (limits : Limits) (s : state) (d : dispatcher) : Prop := {
  rf_queue : represents (queue_ d) (length (reserved_slots limits)) (waiting s);
  rf_next : next_id_ (queue_ d) = next s;
  rf_max : max_running_jobs_ d = map (fun i => limit limits (Z.of_nat i)) (seq 0 (length (reserved_slots limits)));
  rf_running : num_running_jobs_ d = running s /\ 0 <= running s <= total_jobs limits
}.

(** Nothing waits that could run. *)
Definition settled (limits : Limits) (s : state) : Prop := Forall (fun x => room limits (priority x) s = false) (waiting s).

Section Laws.
Context (limits : Limits) (Hlimits : limits_ok limits).

Lemma total_take l i : Forall (fun s => 0 <= s) l -> 0 <= total (take i l) <= total l.
Proof.
  revert i. induction l as [|s l IH]; intros i; [by destruct i|]. intros [Hs Hl]%Forall_cons.
  destruct i as [|i]; cbn; fold (total l); [|fold (total (take i l)); specialize (IH i Hl); lia].
  specialize (IH 0%nat Hl). rewrite take_0 in IH. cbn in IH. lia.
Qed.

Lemma total_take_mono l i j : Forall (fun s => 0 <= s) l -> (i <= j)%nat -> total (take i l) <= total (take j l).
Proof.
  intros Hl Hij. replace (take i l) with (take i (take j l)) by (rewrite take_take; f_equal; lia). apply total_take. by apply Forall_take.
Qed.

Lemma limit_bounds p : 0 <= limit limits p <= total_jobs limits.
Proof. destruct Hlimits as [Hnn Ht]. unfold limit. pose proof (total_take (reserved_slots limits) (Z.to_nat p) Hnn). lia. Qed.

Lemma limit_anti p q : p <= q -> limit limits q <= limit limits p.
Proof. destruct Hlimits as [Hnn _]. intros Hpq. unfold limit. pose proof (total_take_mono (reserved_slots limits) (Z.to_nat p) (Z.to_nat q) Hnn). lia. Qed.

Lemma accumulate_spec l : Forall (fun s => 0 <= s) l -> total l < 2 ^ 32 ->
  accumulate l = (total l, map (fun i => total l - total (take i l)) (seq 0 (length l))).
Proof.
  induction l as [|s l IH]; [done|]. intros [Hs Hl]%Forall_cons Ht. cbn in Ht. fold (total l) in Ht.
  pose proof (total_take l 0 Hl) as H0. rewrite take_0 in H0. cbn [accumulate]. rewrite IH by (done || lia).
  cbn [total] in H0. rewrite u32_small by (cbn in H0; lia). cbn [total foldr length seq map take]. fold (total l). f_equal; [lia|].
  f_equal; [lia|]. rewrite <- seq_shift, map_map. apply map_ext. intros i. cbn [take total foldr]. fold (total (take i l)). lia.
Qed.

Lemma create_spec : exists d, create limits = Ret d /\ refines limits (mkState 0 [] 0) d.
Proof.
  destruct Hlimits as [Hnn Ht]. unfold create. rewrite accumulate_spec by (done || lia).
  rewrite (proj2 (Z.leb_le _ _)) by lia. cbn [dcheck obind]. eexists. split; [done|].
  pose proof (total_take (reserved_slots limits) 0 Hnn) as H0. rewrite take_0 in H0. cbn in H0.
  split; cbn; [apply init_represents|done| |lia]. rewrite map_map. apply map_ext. intros i.
  pose proof (total_take (reserved_slots limits) i Hnn) as Hi. unfold limit. rewrite Nat2Z.id.
  rewrite (u32_small (total_jobs limits - _)) by lia. rewrite u32_small by lia. lia.
Qed.

(** ** Each change of the state *)

Lemma in_range_spec s d p : refines limits s d -> priority_ok limits p = true -> in_range p d = true /\ max_running p d = Ret (limit limits p).
Proof.
  intros [_ _ Hmax _] [Hp0 Hp]%andb_true_iff. apply Z.leb_le in Hp0. apply Z.ltb_lt in Hp. unfold in_range, num_priorities, max_running.
  rewrite Hmax, length_map, length_seq. split; [apply andb_true_iff; split; [by apply Z.leb_le|by apply Z.ltb_lt]|].
  rewrite list_lookup_fmap, lookup_seq_lt by lia. cbn. by rewrite Z2Nat.id by lia.
Qed.

Lemma waiting_ok s d x : refines limits s d -> x ∈ waiting s -> priority_ok limits (priority x) = true.
Proof.
  intros [[_ Hpr _ _ _] _ _ _] Hx. rewrite Forall_forall in Hpr. specialize (Hpr x Hx). apply andb_true_iff. split; [apply Z.leb_le; lia|apply Z.ltb_lt; lia].
Qed.

Lemma held_spec h s x : held h s = Some x -> x ∈ waiting s /\ h = handle_of x.
Proof.
  unfold held. intros Hx. assert (H : x ∈ filter (fun x => handle_of x = h) (waiting s)) by (destruct (filter _ _); [done|]; injection Hx as ->; apply list_elem_of_here).
  by apply list_elem_of_filter in H as [<- H].
Qed.

Lemma leave_spec s d x : refines limits s d -> x ∈ waiting s ->
  value (handle_of x) (queue_ d) = Ret (item x) /\
  exists q, Erase (handle_of x) (queue_ d) = Ret q /\ refines limits (leave x s) (set_queue q d).
Proof.
  intros [Hq Hn Hmax Hr] Hx. split; [by eapply value_spec|]. destruct (Erase_spec _ _ _ x Hq Hx) as (q & HE & Hq' & Hn'). exists q. split; [done|].
  split; cbn; [done|congruence|done|done].
Qed.

Lemma arrive_spec s d p job : refines limits s d -> priority_ok limits p = true -> next s + 1 < 2 ^ 32 ->
  exists q, Insert job p (queue_ d) = Ret (Some (p, next s), q) /\ refines limits (arrive p job s) (set_queue q d).
Proof.
  intros [Hq Hn Hmax Hr] [Hp0 Hp]%andb_true_iff Hnext. apply Z.leb_le in Hp0. apply Z.ltb_lt in Hp.
  destruct (Insert_spec _ _ _ job p Hq) as (q & HE & Hq' & Hn'); [lia|lia|]. rewrite Hn in *. exists q. split; [done|]. split; cbn; done.
Qed.

Lemma start_spec s d p : refines limits s d -> room limits p s = true -> refines limits (start s) (set_running (u32 (num_running_jobs_ d + 1)) d).
Proof.
  intros [Hq Hn Hmax [Hr Hr']] Hroom%Z.ltb_lt. pose proof (limit_bounds p) as Hb. destruct Hlimits as [_ Ht]. split; cbn; [done|done|done|].
  rewrite u32_small by lia. lia.
Qed.

Lemma settled_leave s x : settled limits s -> settled limits (leave x s).
Proof. unfold settled. intros H. by apply without_Forall. Qed.

Lemma settled_start s : settled limits s -> settled limits (start s).
Proof. intros H. eapply Forall_impl; [exact H|]. cbn. intros x Hx%Z.ltb_ge. apply Z.ltb_ge. cbn. lia. Qed.

Lemma settled_arrive s p job : settled limits s -> room limits p s = false -> settled limits (arrive p job s).
Proof. intros H Hp. apply Forall_app. split; [exact H|]. by constructor. Qed.

Lemma dispatch_spec s d x p : refines limits s d -> x ∈ waiting s -> priority_ok limits p = true ->
  (room limits p s = false -> MaybeDispatchJob (handle_of x) p d = Ret (false, [], d)) /\
  (room limits p s = true -> exists d', MaybeDispatchJob (handle_of x) p d = Ret (true, [item x], d') /\ refines limits (start (leave x s)) d').
Proof.
  intros Hd Hx Hp. destruct (in_range_spec s d p Hd Hp) as [Hin Hlim]. pose proof (rf_running _ _ _ Hd) as [Hr _].
  unfold MaybeDispatchJob. rewrite Hin, Hlim. cbn [dcheck obind]. rewrite Hr. split; intros Hroom.
  - apply Z.ltb_ge in Hroom. by rewrite (proj2 (Z.leb_le _ _)) by lia.
  - pose proof Hroom as Hlt%Z.ltb_lt. rewrite (proj2 (Z.leb_gt _ _)) by lia. destruct (leave_spec s d x Hd Hx) as (Hval & q & HE & Hq).
    rewrite Hval, HE. cbn [obind]. eexists. split; [done|]. rewrite <- Hr. by apply (start_spec (leave x s) (set_queue q d) p).
Qed.

(** ** Each operation *)

Definition simulates (o : op) (s : state) (d : dispatcher) : Prop := forall a s',
  spec_step limits o s = Some (a, s') -> exists d', step o d = Ret (a, d') /\ refines limits s' d' /\ settled limits s' /\ next s' <= next s + 1.

Lemma dispatcher_Add s d job p : refines limits s d -> settled limits s -> next s + 1 < 2 ^ 32 -> simulates (OpAdd job p) s d.
Proof.
  intros Hd Hs Hn a s'. cbn [spec_step step]. destruct (negb (job =? 0)) eqn:Ej; [|done]. destruct (priority_ok limits p) eqn:Ep; [|done]. cbn [andb].
  destruct (in_range_spec s d p Hd Ep) as [Hin Hlim]. pose proof (rf_running _ _ _ Hd) as [Hr _].
  unfold Add. rewrite Ej, Hin, Hlim. cbn [dcheck obind]. rewrite Hr. fold (room limits p s). destruct (room limits p s) eqn:Er; intros [= <- <-].
  - eexists. split; [done|]. rewrite <- Hr. split; [by eapply start_spec|]. split; [by apply settled_start|cbn; lia].
  - destruct (arrive_spec s d p job Hd Ep Hn) as (q & HE & Hq). rewrite HE. cbn [obind]. eexists. split; [done|]. split; [done|].
    split; [by apply settled_arrive|cbn; lia].
Qed.

Lemma dispatcher_Cancel s d h : refines limits s d -> settled limits s -> simulates (OpCancel h) s d.
Proof.
  intros Hd Hs a s'. cbn [spec_step step]. destruct (held h s) as [x|] eqn:Eh; [|done]. cbn. intros [= <- <-]. apply held_spec in Eh as [Hx ->].
  destruct (leave_spec s d x Hd Hx) as (_ & q & HE & Hq). unfold Cancel. rewrite HE. cbn [obind]. eexists. split; [done|]. split; [done|].
  split; [by apply settled_leave|cbn; lia].
Qed.

Lemma dispatcher_Evict s d : refines limits s d -> settled limits s -> simulates OpEvict s d.
Proof.
  intros Hd Hs a s'. cbn [spec_step step]. unfold EvictOldestLowest. rewrite (FirstMax_spec _ _ _ (rf_queue _ _ _ Hd)).
  destruct (first_max (waiting s)) as [x|] eqn:E; cbn [mbind option_bind]; intros [= <- <-].
  - apply first_by_spec in E as (Hx & _). destruct (leave_spec s d x Hd Hx) as (Hval & q & HE & Hq). unfold handle_of in *. rewrite Hval. unfold Cancel. rewrite HE.
    cbn [obind]. eexists. split; [done|]. split; [done|]. split; [by apply settled_leave|cbn; lia].
  - eexists. split; [done|]. split; [done|]. split; [done|lia].
Qed.

Lemma dispatcher_Change s d h p : refines limits s d -> settled limits s -> next s + 1 < 2 ^ 32 -> simulates (OpChange h p) s d.
Proof.
  intros Hd Hs Hn a s'. cbn [spec_step step]. destruct (held h s) as [x|] eqn:Eh; [|done]. cbn [mbind option_bind]. apply held_spec in Eh as [Hx ->].
  destruct (priority_ok limits p) eqn:Ep; [|done]. destruct (in_range_spec s d p Hd Ep) as [Hin _].
  destruct (in_range_spec s d (priority x) Hd (waiting_ok s d x Hd Hx)) as [_ Hlim]. pose proof (rf_running _ _ _ Hd) as [Hr _].
  unfold ChangePriority, handle_of. fold (handle_of x). rewrite Hin, Hlim. cbn [dcheck obind].
  pose proof Hs as Hx'. unfold settled in Hx'. rewrite Forall_forall in Hx'. specialize (Hx' x Hx). apply Z.ltb_ge in Hx'. rewrite Hr, (proj2 (Z.leb_le _ _)) by lia. cbn [dcheck obind].
  destruct (priority x =? p); [intros [= <- <-]; eexists; split; [done|split; [done|split; [done|lia]]]|].
  destruct (dispatch_spec s d x p Hd Hx Ep) as [Hno Hyes]. destruct (room limits p s) eqn:Er; intros [= <- <-].
  - destruct (Hyes eq_refl) as (d' & HE & Hd'). rewrite HE. cbn [obind]. eexists. split; [done|]. split; [done|].
    split; [by apply settled_start, settled_leave|cbn; lia].
  - rewrite (Hno eq_refl). cbn [obind]. destruct (leave_spec s d x Hd Hx) as (Hval & q & HE & Hq). rewrite Hval, HE. cbn [obind].
    destruct (arrive_spec (leave x s) (set_queue q d) p (item x) Hq Ep Hn) as (q' & HE' & Hq'). cbn [queue_ set_queue] in HE'. rewrite HE'. cbn [obind].
    eexists. split; [done|]. split; [done|]. split; [|cbn; lia]. apply settled_arrive; [by apply settled_leave|done].
Qed.

(** Of the jobs that wait only the first, of the most urgent priority, may have got room. *)
Lemma settled_less s x : settled limits s -> first_min (waiting s) = Some x -> let s' := mkState (running s - 1) (waiting s) (next s) in
  (room limits (priority x) s' = false -> settled limits s') /\ settled limits (start (leave x s')).
Proof.
  intros Hs Hx s'. apply first_by_spec in Hx as (Hx & Hle & _). unfold settled in *. rewrite Forall_forall in Hle. split.
  - intros Hroom. rewrite Forall_forall. intros y Hy. specialize (Hle y Hy). unfold id in Hle. apply Z.ltb_ge in Hroom. apply Z.ltb_ge.
    pose proof (limit_anti (priority x) (priority y) Hle). lia.
  - cbn [start leave s' waiting]. apply without_Forall. eapply Forall_impl; [exact Hs|]. cbn. intros y Hy%Z.ltb_ge. apply Z.ltb_ge. cbn. lia.
Qed.

Lemma dispatcher_Finished s d : refines limits s d -> settled limits s -> simulates OpFinished s d.
Proof.
  intros Hd Hs a s'. cbn [spec_step step]. pose proof Hd as [Hq Hnx Hmax [Hr Hr']]. destruct (0 <? running s) eqn:E0; [|done]. pose proof E0 as Hpos%Z.ltb_lt.
  destruct Hlimits as [_ Ht]. unfold OnJobFinished. rewrite Hr, E0. cbn [dcheck obind queue_ set_running]. rewrite u32_small by lia.
  set (s1 := mkState (running s - 1) (waiting s) (next s)). set (d1 := set_running (running s - 1) d).
  assert (Hd1 : refines limits s1 d1) by (split; cbn; [done|done|done|lia]).
  rewrite (FirstMin_spec _ _ _ (rf_queue _ _ _ Hd)). cbn [waiting s1].
  destruct (first_min (waiting s)) as [x|] eqn:E; cbn [mbind option_bind].
  - destruct (settled_less s x Hs E) as [Hstay Hgo]. apply first_by_spec in E as (Hx & _). unfold handle_of at 1. cbn [fst snd]. fold (handle_of x).
    destruct (dispatch_spec s1 d1 x (priority x) Hd1 Hx (waiting_ok s d x Hd Hx)) as [Hno Hyes]. destruct (room limits (priority x) s1) eqn:Er; intros [= <- <-].
    + destruct (Hyes eq_refl) as (d' & HE & Hd'). fold d1. rewrite HE. cbn [obind]. eexists. split; [done|]. split; [done|]. split; [done|cbn; lia].
    + fold d1. rewrite (Hno eq_refl). cbn [obind]. eexists. split; [done|]. split; [done|]. split; [by apply Hstay|cbn; lia].
  - intros [= <- <-]. apply first_by_none in E. pose proof (rp_size _ _ _ Hq) as [Hsz _]. unfold size. rewrite Hsz, E. cbn.
    eexists. split; [done|]. split; [done|]. split; [|cbn; lia]. unfold settled. cbn [waiting s1]. by rewrite E.
Qed.

Lemma step_spec o s d : refines limits s d -> settled limits s -> next s + 1 < 2 ^ 32 -> simulates o s d.
Proof.
  intros Hd Hs Hn. destruct o; [by apply dispatcher_Add|by apply dispatcher_Cancel|by apply dispatcher_Evict|by apply dispatcher_Change|by apply dispatcher_Finished].
Qed.

Lemma run_spec ops s d answers s' : refines limits s d -> settled limits s -> next s + Z.of_nat (length ops) < 2 ^ 32 ->
  spec_run limits ops s = Some (answers, s') -> exists d', run ops d = Ret (answers, d') /\ refines limits s' d' /\ settled limits s'.
Proof.
  revert s d answers. induction ops as [|o ops IH]; intros s d answers Hd Hs Hn; cbn.
  - intros [= <- <-]. by exists d.
  - destruct (spec_step limits o s) as [[a s1]|] eqn:E; cbn; [|done]. destruct (spec_run limits ops s1) as [[answers1 s2]|] eqn:E2; cbn; [|done].
    intros [= <- <-]. cbn in Hn. destruct (step_spec o s d Hd Hs ltac:(lia) a s1 E) as (d1 & HE & Hd1 & Hs1 & Hn1). rewrite HE. cbn [obind].
    destruct (IH s1 d1 answers1 Hd1 Hs1 ltac:(lia) E2) as (d2 & HE2 & H2). rewrite HE2. cbn [obind]. by exists d2.
Qed.

End Laws.

(** C14: The dispatcher and its queue by priority implement a count of running jobs and one
    list of waiting ones.  For limits whose reserved slots add up to no more than the total
    and any fewer than 2^32 calls a caller may make, no check fails, and the handles, the
    evicted jobs and the jobs started by every call are those of the abstract state: a job
    starts when the slots reserved for more urgent priorities stay free, of waiting jobs the
    first of the most urgent, and the first of the least urgent is evicted.  No more jobs run
    than the total, and at the end of every call nothing waits that could run. *)
Theorem dispatcher_refines limits ops answers s :
  limits_ok limits -> Z.of_nat (length ops) < 2 ^ 32 -> spec_run limits ops (mkState 0 [] 0) = Some (answers, s) ->
  exists d0 d, create limits = Ret d0 /\ run ops d0 = Ret (answers, d) /\
    num_running_jobs d = running s /\ num_queued_jobs d = Z.of_nat (length (waiting s)) /\
    running s <= total_jobs limits /\ settled limits s.
Proof.
  intros Hl Hn Hrun. destruct (create_spec limits Hl) as (d0 & Hc & Hd0).
  destruct (run_spec limits Hl ops _ d0 answers s Hd0 ltac:(constructor) ltac:(cbn; lia) Hrun) as (d & HE & [Hq _ _ [Hr Hr']] & Hs).
  exists d0, d. do 2 (split; [done|]). split; [done|]. split; [apply (rp_size _ _ _ Hq)|]. split; [lia|done].
Qed.

(** Three slots, one of them reserved for priority 0: jobs 11 and 12 start, 13 and 14 wait,
    15 starts at priority 0; when two have finished 13 starts, 14 is moved up and starts, 16
    and 17 wait, one is evicted and the other cancelled. *)
Definition example_ops : list op :=
  [OpAdd 11 1; OpAdd 12 1; OpAdd 13 1; OpAdd 14 1; OpAdd 15 0; OpFinished; OpFinished; OpChange (Some (1, 1)) 0; OpAdd 16 1; OpAdd 17 0;
   OpEvict; OpCancel (Some (0, 3))].

Lemma dispatcher_refines_witness : exists d0 d, create (mkLimits 3 [1; 1]) = Ret d0 /\
  run example_ops d0 = Ret ([mkAnswer None 0 [11]; mkAnswer None 0 [12]; mkAnswer (Some (1, 0)) 0 []; mkAnswer (Some (1, 1)) 0 []; mkAnswer None 0 [15];
    mkAnswer None 0 []; mkAnswer None 0 [13]; mkAnswer None 0 [14]; mkAnswer (Some (1, 2)) 0 []; mkAnswer (Some (0, 3)) 0 [];
    mkAnswer None 16 []; mkAnswer None 0 []], d) /\
  num_running_jobs d = 3 /\ num_queued_jobs d = 0 /\ 3 <= 3 /\ settled (mkLimits 3 [1; 1]) (mkState 3 [] 4).
Proof.
  apply (dispatcher_refines (mkLimits 3 [1; 1]) example_ops _ (mkState 3 [] 4)).
  - split; [repeat constructor; lia|cbn; lia].
  - vm_compute. reflexivity.
  - vm_compute. reflexivity.
Defined.

End PrioritizedDispatcher.
